(** * dte: syntax highlighter cache, spawn engine and exec command

    A shallow embedding of [hl.c], [spawn.c] and the [exec] command of
    [commands.c] / [exec.c], with the properties of the design document
    stated and settled against it.

    C integers are [Z]; pointers to highlighter states are indices into the
    state table of the loaded syntax, with [None] for [NULL]; file
    descriptors are [Z] with [-1] for "none". *)

From Stdlib Require Import String Ascii ZArith List Bool Lia.
Import ListNotations.
Open Scope Z_scope.

(** ** Results of running C code: a value, or the way it went wrong *)

Inductive error : Type :=
| BugOn (what : string)      (* BUG_ON / BUG fired *)
| NullDeref                  (* a NULL state pointer was dereferenced *)
| OutOfBounds                (* access outside the allocated array *)
| Undefined (what : string)  (* behaviour the C standard leaves undefined *)
| OutOfFuel.                 (* the loop did not finish within the fuel *)

Inductive res (A : Type) : Type :=
| Ok (a : A)
| Err (e : error).
Arguments Ok {A} a.
Arguments Err {A} e.

Definition bind {A B : Type} (m : res A) (k : A -> res B) : res B :=
  match m with
  | Ok a => k a
  | Err e => Err e
  end.

Declare Scope res_scope.
Delimit Scope res_scope with res.
Notation "x <- m ;; k" := (bind m (fun x => k))
  (at level 61, m at next level, right associativity) : res_scope.
Open Scope res_scope.

Definition is_ok {A : Type} (m : res A) : bool :=
  match m with Ok _ => true | Err _ => false end.

(** ** Arrays indexed by C integers *)

Section Arrays.
Context {A : Type}.

  (* p[i] as an rvalue *)
Definition aget (p : list A) (i : Z) : res A :=
    if i <? 0 then Err OutOfBounds
    else match nth_error p (Z.to_nat i) with
         | Some x => Ok x
         | None => Err OutOfBounds
         end.

Fixpoint replace_nth (n : nat) (x : A) (p : list A) : list A :=
    match p with
    | [] => []
    | y :: p' =>
        match n with
        | O => x :: p'
        | S n' => y :: replace_nth n' x p'
        end
    end.

  (* p[i] = x *)
Definition aset (p : list A) (i : Z) (x : A) : res (list A) :=
    if (i <? 0) || (Z.of_nat (length p) <=? i) then Err OutOfBounds
    else Ok (replace_nth (Z.to_nat i) x p).

  (* for (k = lo; k < hi; k++) p[k] = x;  nothing is written when hi <= lo *)
Fixpoint fill_from (lo : nat) (n : nat) (x : A) (p : list A) : list A :=
    match n with
    | O => p
    | S n' => fill_from (S lo) n' x (replace_nth lo x p)
    end.

Definition afill (p : list A) (lo hi : Z) (x : A) : res (list A) :=
    if hi <=? lo then Ok p
    else if (lo <? 0) || (Z.of_nat (length p) <? hi) then Err OutOfBounds
    else Ok (fill_from (Z.to_nat lo) (Z.to_nat (hi - lo)) x p).

  (* the cells p[from .. from+n) *)
Definition slice (p : list A) (from n : nat) : list A :=
    firstn n (skipn from p).

  (* overwrite p[to ..] with the cells of [seg] *)
Definition blit (p : list A) (to : nat) (seg : list A) : list A :=
    firstn to p ++ seg ++ skipn (to + length seg) p.

  (* memmove(p + to, p + from, n * sizeof( *p)) *)
Definition amove (p : list A) (to from n : Z) : res (list A) :=
    if (to <? 0) || (from <? 0) || (n <? 0)
       || (Z.of_nat (length p) <? from + n)
       || (Z.of_nat (length p) <? to + n)
    then Err OutOfBounds
    else Ok (blit p (Z.to_nat to) (slice p (Z.to_nat from) (Z.to_nat n))).
End Arrays.

(** ** The highlighter: [hl.c] *)

Module Hl.

(** *** Loaded syntax *)

Definition hl_color := Z.          (* struct hl_color *, by identity *)
Definition state_ref := nat.       (* struct state *, by identity *)
Definition cstring := list Z.      (* the bytes before the terminating NUL *)

Record action : Type := {
  emit_color : hl_color;
  destination : state_ref
}.

(* struct string_list: a NULL-terminated array of strings, or a hash table
   of chained strings *)
Record string_list : Type := {
  icase : bool;
  strings : list cstring;
  hash : list (list cstring)
}.

Inductive cond_type : Type :=
| COND_CHAR_BUFFER (bitmap : list Z)
| COND_BUFIS (str : cstring) (bufis_icase : bool)
| COND_CHAR (bitmap : list Z)
| COND_INLIST (l : string_list)
| COND_INLIST_HASH (l : string_list)
| COND_RECOLOR (len : Z)
| COND_RECOLOR_BUFFER
| COND_STR (str : cstring)
| COND_STR_ICASE (str : cstring)
| COND_STR2 (str : cstring).

Record condition : Type := {
  type : cond_type;
  a : action
}.

Record state : Type := {
  conditions : list condition;
  default_a : action;        (* state->a *)
  noeat : bool
}.

Definition syntax := list state.

(** *** Helpers of [highlight_line] *)

(* bitmap[idx / 8] & 1 << (idx & 7) *)
Definition bitmap_get (bitmap : list Z) (idx : Z) : Z :=
  let byte := idx / 8 in
  let bit := Z.land idx 7 in
  Z.land (nth (Z.to_nat byte) bitmap 0) (Z.shiftl 1 bit).

(* s[k] of a C string: the terminator is read at its end *)
Definition char_at (s : cstring) (k : Z) : Z :=
  if k <? 0 then 0 else nth (Z.to_nat k) s 0.

Definition tolower (c : Z) : Z :=
  if (65 <=? c) && (c <=? 90) then c + 32 else c.

(* !memcmp(x, y, n) *)
Fixpoint memcmp_eq (x y : list Z) (n : nat) : bool :=
  match n with
  | O => true
  | S n' =>
      match x, y with
      | c :: x', d :: y' => (c =? d) && memcmp_eq x' y' n'
      | _, _ => false
      end
  end.

(* !strncmp(x, y, n): stops at a NUL common to both *)
Fixpoint strncmp_eq (x y : list Z) (n : nat) : bool :=
  match n with
  | O => true
  | S n' =>
      let c := hd 0 x in
      let d := hd 0 y in
      if c =? d then (if c =? 0 then true else strncmp_eq (tl x) (tl y) n')
      else false
  end.

(* !strncasecmp(x, y, n) *)
Fixpoint strncasecmp_eq (x y : list Z) (n : nat) : bool :=
  match n with
  | O => true
  | S n' =>
      let c := tolower (hd 0 x) in
      let d := tolower (hd 0 y) in
      if c =? d then (if c =? 0 then true else strncasecmp_eq (tl x) (tl y) n')
      else false
  end.

Definition is_buffered (cstr : cstring) (ic : bool) (str : list Z) (len : Z)
  : bool :=
  if negb (len =? Z.of_nat (length cstr)) then false
  else if ic then strncasecmp_eq cstr str (Z.to_nat len)
  else memcmp_eq cstr str (Z.to_nat len).

Fixpoint list_search (str : list Z) (len : Z) (strs : list cstring) : bool :=
  match strs with
  | [] => false
  | s :: rest =>
      if (hd 0 str =? hd 0 s)
         && strncmp_eq (tl str) (tl s) (Z.to_nat (len - 1))
         && (char_at s len =? 0)
      then true
      else list_search str len rest
  end.

Fixpoint in_list_icase (str : list Z) (len : Z) (strs : list cstring) : bool :=
  match strs with
  | [] => false
  | s :: rest =>
      if strncasecmp_eq str s (Z.to_nat len) && (char_at s len =? 0)
      then true
      else in_list_icase str len rest
  end.

Definition in_list (l : string_list) (str : list Z) (len : Z) : bool :=
  if icase l then in_list_icase str len (strings l)
  else list_search str len (strings l).

Fixpoint chain_search (ic : bool) (str : list Z) (len : Z)
         (h : list cstring) : bool :=
  match h with
  | [] => false
  | s :: next =>
      if (len =? Z.of_nat (length s))
         && (if ic then strncasecmp_eq str s (Z.to_nat len)
             else memcmp_eq str s (Z.to_nat len))
      then true
      else chain_search ic str len next
  end.

(* colors[idx] = c for idx in lo .. hi-1 *)
Definition paint (colors : list (option hl_color)) (lo hi : Z) (c : hl_color)
  : list (option hl_color) :=
  if hi <=? lo then colors
  else fill_from (Z.to_nat lo) (Z.to_nat (hi - lo)) (Some c) colors.

(* What one pass over the conditions of a state ends in: a condition fired
   and control went back to [top], or the [for] loop ran to its end. *)
Inductive walk : Type :=
| Fired (st : state_ref) (i sidx : Z) (colors : list (option hl_color))
| Fell (sidx : Z) (colors : list (option hl_color)).

Section Highlight.

(* buf_hash() is declared outside hl.c *)
Variable buf_hash : list Z -> Z -> Z.
(* whether plain char is signed on the target; matters to COND_STR2 only *)
Variable char_is_signed : bool.

Definition in_hash (l : string_list) (str : list Z) (len : Z) : bool :=
  let hsh := buf_hash str len in
  let h := nth (Z.to_nat (hsh mod Z.of_nat (length (hash l)))) (hash l) [] in
  chain_search (icase l) str len h.

(* the value of a plain char holding byte [c] *)
Definition char_value (c : Z) : Z :=
  if char_is_signed && (127 <? c) then c - 256 else c.

(* The [for (ci = 0; ci < state->nr_conditions; ci++)] loop of
   highlight_line, at byte [i] of [line], from condition [conds] on. *)
Fixpoint walk_conditions (line : list Z) (len : Z) (i : Z)
         (conds : list condition) (sidx : Z)
         (colors : list (option hl_color)) : walk :=
  match conds with
  | [] => Fell sidx colors
  | cond :: rest =>
      let ch := nth (Z.to_nat i) line 0 in
      let act := a cond in
      match type cond with
      | COND_CHAR_BUFFER bitmap =>
          if bitmap_get bitmap ch =? 0
          then walk_conditions line len i rest sidx colors
          else
            let sidx' := if sidx <? 0 then i else sidx in
            Fired (destination act) (i + 1) sidx'
                  (paint colors i (i + 1) (emit_color act))
      | COND_BUFIS str ic =>
          if (0 <=? sidx)
             && is_buffered str ic (skipn (Z.to_nat sidx) line) (i - sidx)
          then Fired (destination act) i (-1)
                     (paint colors sidx i (emit_color act))
          else walk_conditions line len i rest sidx colors
      | COND_CHAR bitmap =>
          if bitmap_get bitmap ch =? 0
          then walk_conditions line len i rest sidx colors
          else Fired (destination act) (i + 1) (-1)
                     (paint colors i (i + 1) (emit_color act))
      | COND_INLIST l =>
          if (0 <=? sidx)
             && in_list l (skipn (Z.to_nat sidx) line) (i - sidx)
          then Fired (destination act) i (-1)
                     (paint colors sidx i (emit_color act))
          else walk_conditions line len i rest sidx colors
      | COND_INLIST_HASH l =>
          if (0 <=? sidx)
             && in_hash l (skipn (Z.to_nat sidx) line) (i - sidx)
          then Fired (destination act) i (-1)
                     (paint colors sidx i (emit_color act))
          else walk_conditions line len i rest sidx colors
      | COND_RECOLOR n =>
          let idx := i - n in
          let idx := if idx <? 0 then 0 else idx in
          walk_conditions line len i rest sidx
                          (paint colors idx i (emit_color act))
      | COND_RECOLOR_BUFFER =>
          if 0 <=? sidx
          then walk_conditions line len i rest (-1)
                               (paint colors sidx i (emit_color act))
          else walk_conditions line len i rest sidx colors
      | COND_STR str =>
          let slen := Z.of_nat (length str) in
          let e := i + slen in
          if (e <=? len)
             && memcmp_eq str (skipn (Z.to_nat i) line) (Z.to_nat slen)
          then Fired (destination act) e (-1)
                     (paint colors i e (emit_color act))
          else walk_conditions line len i rest sidx colors
      | COND_STR_ICASE str =>
          let slen := Z.of_nat (length str) in
          let e := i + slen in
          if (e <=? len)
             && strncasecmp_eq str (skipn (Z.to_nat i) line) (Z.to_nat slen)
          then Fired (destination act) e (-1)
                     (paint colors i e (emit_color act))
          else walk_conditions line len i rest sidx colors
      | COND_STR2 str =>
          if (ch =? char_value (char_at str 0))
             && (1 <? len - i)
             && (nth (Z.to_nat (i + 1)) line 0 =? char_at str 1)
          then Fired (destination act) (i + 2) (-1)
                     (paint colors i (i + 2) (emit_color act))
          else walk_conditions line len i rest sidx colors
      end
  end.

(* The [while (1)] loop of highlight_line.  The C loop has no bound: a
   syntax whose noeat defaults form a cycle keeps it running; the embedding
   counts iterations. *)
Fixpoint highlight_loop (fuel : nat) (syn : syntax) (line : list Z) (len : Z)
         (st : option state_ref) (i sidx : Z)
         (colors : list (option hl_color))
  : res (list (option hl_color) * option state_ref) :=
  match fuel with
  | O => Err OutOfFuel
  | S fuel' =>
      if i =? len then Ok (colors, st)
      else
        match st with
        | None => Err NullDeref
        | Some r =>
            match nth_error syn r with
            | None => Err OutOfBounds
            | Some sd =>
                match walk_conditions line len i (conditions sd) sidx colors with
                | Fired st' i' sidx' colors' =>
                    highlight_loop fuel' syn line len (Some st') i' sidx' colors'
                | Fell _ colors' =>
                    let act := default_a sd in
                    if noeat sd
                    then highlight_loop fuel' syn line len
                           (Some (destination act)) i (-1) colors'
                    else highlight_loop fuel' syn line len
                           (Some (destination act)) (i + 1) (-1)
                           (paint colors' i (i + 1) (emit_color act))
                end
            end
        end
  end.

(* highlight_line(state, line, len, &ret): the colors and *ret.  The cells
   of the static colors array hold [None] until this call writes them. *)
Definition highlight_line (fuel : nat) (syn : syntax)
           (st : option state_ref) (line : list Z)
  : res (list (option hl_color) * option state_ref) :=
  let len := Z.of_nat (length line) in
  highlight_loop fuel syn line len st 0 (-1) (repeat None (length line)).

(** *** The per-line start states: [struct ptr_array] and [first_hole] *)

Record ptr_array : Type := {
  ptrs : list (option state_ref);   (* the allocated cells; alloc is their number *)
  count : Z
}.

Record buffer : Type := {
  syn : option syntax;
  text : list Z;                    (* the bytes of the buffer, block by block *)
  line_start_states : ptr_array;
  first_hole : Z
}.

Definition set_states (b : buffer) (s : ptr_array) : buffer :=
  {| syn := syn b; text := text b; line_start_states := s;
     first_hole := first_hole b |}.

Definition set_first_hole (b : buffer) (h : Z) : buffer :=
  {| syn := syn b; text := text b;
     line_start_states := line_start_states b; first_hole := h |}.

Definition set_ptrs (s : ptr_array) (p : list (option state_ref)) : ptr_array :=
  {| ptrs := p; count := count s |}.

Definition set_count (s : ptr_array) (c : Z) : ptr_array :=
  {| ptrs := ptrs s; count := c |}.

(* ((x) + (r) - 1) & ~((r) - 1) *)
Definition ROUND_UP (x r : Z) : Z := Z.land (x + r - 1) (Z.lnot (r - 1)).

Definition UINT_MAX : Z := 4294967295.

(* xrenew(s->ptrs, n): [n] cells, the old ones kept as far as they fit *)
Definition xrenew (p : list (option state_ref)) (n : Z)
  : list (option state_ref) :=
  firstn (Z.to_nat n) p ++ repeat None (Z.to_nat n - length p).

(* The parameter is [unsigned int count].  A negative int arrives as
   count + UINT_MAX + 1, and ROUND_UP is then worked out in unsigned int,
   modulo UINT_MAX + 1: for the counts -63 .. -1 the sum wraps round and
   alloc becomes 0.  From a nonnegative int neither the conversion nor the
   sum wraps. *)
Definition resize_line_states (s : ptr_array) (cnt : Z) : ptr_array :=
  let alloc := Z.of_nat (length (ptrs s)) in
  if cnt <? 0 then
    let ucnt := cnt + (UINT_MAX + 1) in
    if alloc <? ucnt
    then set_ptrs s (xrenew (ptrs s) (ROUND_UP ucnt 64 mod (UINT_MAX + 1)))
    else s
  else if alloc <? cnt
  then set_ptrs s (ptrs s ++ repeat None (Z.to_nat (ROUND_UP cnt 64 - alloc)))
  else s.

Definition move_line_states (s : ptr_array) (to from cnt : Z) : res ptr_array :=
  p <- amove (ptrs s) to from cnt ;;
  Ok (set_ptrs s p).

Definition truncate_line_states (cnt : Z) (b : buffer) : res buffer :=
  let s := line_start_states b in
  if count s <? first_hole b
  then Err (BugOn "buffer->first_hole > s->count")
  else
    let s := set_count s cnt in
    let b := set_states b s in
    if count s <? first_hole b then Ok (set_first_hole b (count s)) else Ok b.

Definition new_hole (idx : Z) (b : buffer) : res buffer :=
  let s := line_start_states b in
  if idx =? first_hole b then Ok b
  else if first_hole b <? idx then
    if idx <? count s
    then p <- aset (ptrs s) idx None ;; Ok (set_states b (set_ptrs s p))
    else Ok b
  else
    b' <- (if first_hole b <? count s
           then p <- aset (ptrs s) (first_hole b) None ;;
                Ok (set_states b (set_ptrs s p))
           else Ok b) ;;
    Ok (set_first_hole b' idx).

(* the [while] loop of find_hole: the position it stops at *)
Fixpoint find_hole_from (p : list (option state_ref)) (cnt : Z) (pos : Z)
         (fuel : nat) : Z :=
  match fuel with
  | O => pos
  | S fuel' =>
      if pos <? cnt then
        match nth_error p (Z.to_nat pos) with
        | Some (Some _) => find_hole_from p cnt (pos + 1) fuel'
        | _ => pos
        end
      else pos
  end.

Definition find_hole (pos : Z) (b : buffer) : buffer :=
  let s := line_start_states b in
  set_first_hole b (find_hole_from (ptrs s) (count s) pos
                                   (Z.to_nat (count s - pos))).

(** *** Walking the text by lines *)

(* block_iter_eat_line: to the byte after the next newline, or to the end *)
Fixpoint block_iter_eat_line (bi : list Z) : list Z :=
  match bi with
  | [] => []
  | c :: bi' => if c =? 10 then bi' else block_iter_eat_line bi'
  end.

Fixpoint block_iter_move_down (bi : list Z) (n : nat) : list Z :=
  match n with
  | O => bi
  | S n' => block_iter_move_down (block_iter_eat_line bi) n'
  end.

(* fill_line_nl_ref: the line at the iterator, with its newline if any *)
Fixpoint fill_line_nl_ref (bi : list Z) : list Z :=
  match bi with
  | [] => []
  | c :: bi' => if c =? 10 then [c] else c :: fill_line_nl_ref bi'
  end.

(** *** [hl_fill_start_states] *)

(* One turn of the [while (1)] loop, entered with first_hole <= line_nr.
   [bi] and [current_line] are the locals of the same names. *)
Definition fill_step (hfuel : nat) (sy : syntax) (bi : list Z)
           (current_line : Z) (b : buffer) : res (list Z * Z * buffer) :=
  let s := line_start_states b in
  let down := first_hole b - 1 - current_line in
  if down <? 0 then Err (Undefined "block_iter_move_down: negative count")
  else
    let bi := block_iter_move_down bi (Z.to_nat down) in
    let current_line := first_hole b - 1 in
    let idx := current_line in
    let lr := fill_line_nl_ref bi in
    p <- aget (ptrs s) idx ;;
    r <- highlight_line hfuel sy p lr ;;
    let st := snd r in
    let idx := idx + 1 in
    if count s <? idx then Err (BugOn "idx > s->count")
    else if idx =? count s then
      (* new *)
      q <- aset (ptrs s) idx st ;;
      let s := set_count (set_ptrs s q) (count s + 1) in
      Ok (bi, current_line, set_first_hole (set_states b s) (count s))
    else
      cur <- aget (ptrs s) idx ;;
      match cur with
      | None =>
          q <- aset (ptrs s) idx st ;;
          Ok (bi, current_line,
              set_first_hole (set_states b (set_ptrs s q)) (first_hole b + 1))
      | Some c =>
          if match st with Some t => Nat.eqb c t | None => false end
          then
            (* hole successfully closed. find next *)
            Ok (bi, current_line, find_hole (idx + 1) b)
          else
            (* hole filled but state changed *)
            q <- aset (ptrs s) idx st ;;
            Ok (bi, current_line,
                set_first_hole (set_states b (set_ptrs s q)) (idx + 1))
      end.

Fixpoint hl_fill_loop (fuel : nat) (hfuel : nat) (sy : syntax) (line_nr : Z)
         (bi : list Z) (current_line : Z) (b : buffer) : res buffer :=
  match fuel with
  | O => Err OutOfFuel
  | S fuel' =>
      if count (line_start_states b) <? first_hole b
      then Err (BugOn "buffer->first_hole > s->count")
      else if line_nr <? first_hole b then Ok b
      else
        r <- fill_step hfuel sy bi current_line b ;;
        let '(bi', current_line', b') := r in
        hl_fill_loop fuel' hfuel sy line_nr bi' current_line' b'
  end.

(* Every turn of the loop moves first_hole up, so line_nr + 1 - first_hole
   turns and the final test are enough; [hfuel] bounds each highlight_line. *)
Definition hl_fill_start_states (hfuel : nat) (line_nr : Z) (b : buffer)
  : res buffer :=
  match syn b with
  | None => Ok b
  | Some sy =>
      let b := set_states b (resize_line_states (line_start_states b)
                                                (line_nr + 1)) in
      hl_fill_loop (S (Z.to_nat (line_nr + 1 - first_hole b))) hfuel sy line_nr
                   (text b) 0 b
  end.

(* The four cases of one turn of the fill loop, for a turn entered at
   first_hole = i + 1 whose highlight_line came back with state [s'], and
   what the loop does with the outcome. *)
Definition four_cases (hfuel : nat) (sy : syntax) (bi : list Z)
           (current_line : Z) (b : buffer) (s' : option state_ref) : Prop :=
  let s := line_start_states b in
  let i := first_hole b - 1 in
  let bi' := block_iter_move_down bi (Z.to_nat (i - current_line)) in
  let out := fill_step hfuel sy bi current_line b in
  let stored := set_ptrs s (replace_nth (Z.to_nat (i + 1)) s' (ptrs s)) in
  (i + 1 = count s -> i + 1 < Z.of_nat (length (ptrs s)) ->
   out = Ok (bi', i, set_first_hole
                       (set_states b (set_count stored (count s + 1)))
                       (first_hole b + 1)))
  /\ (i + 1 < count s -> aget (ptrs s) (i + 1) = Ok None ->
      out = Ok (bi', i, set_first_hole (set_states b stored) (first_hole b + 1)))
  /\ (forall c, i + 1 < count s -> aget (ptrs s) (i + 1) = Ok (Some c) ->
      s' = Some c ->
      exists h,
        out = Ok (bi', i, set_first_hole b h)
        /\ i + 2 <= h <= count s
        /\ (forall j, i + 2 <= j < h -> exists c', aget (ptrs s) j = Ok (Some c'))
        /\ (h < count s -> aget (ptrs s) h = Ok None))
  /\ (forall c, i + 1 < count s -> aget (ptrs s) (i + 1) = Ok (Some c) ->
      s' <> Some c ->
      out = Ok (bi', i, set_first_hole (set_states b stored) (i + 2)))
  /\ (forall fuel line_nr bi2 cl2 b2,
      first_hole b <= line_nr -> out = Ok (bi2, cl2, b2) ->
      hl_fill_loop (S fuel) hfuel sy line_nr bi current_line b
      = hl_fill_loop fuel hfuel sy line_nr bi2 cl2 b2).

(** *** [hl_line] *)

Record hl_line_result : Type := {
  colors_of : option (list (option hl_color));   (* NULL without a syntax *)
  next_changed : bool;
  buffer_of : buffer
}.

Definition hl_line (hfuel : nat) (line : list Z) (line_nr : Z) (b : buffer)
  : res hl_line_result :=
  match syn b with
  | None => Ok {| colors_of := None; next_changed := false; buffer_of := b |}
  | Some sy =>
      let s := line_start_states b in
      if count s <=? line_nr then Err (BugOn "line_nr >= s->count")
      else
        p <- aget (ptrs s) line_nr ;;
        r <- highlight_line hfuel sy p line ;;
        let colors := fst r in
        let next := snd r in
        let line_nr := line_nr + 1 in
        if line_nr =? count s then
          let s := resize_line_states s (count s + 1) in
          q <- aset (ptrs s) (count s) next ;;
          let s := set_count (set_ptrs s q) (count s + 1) in
          Ok {| colors_of := Some colors; next_changed := true;
                buffer_of := set_first_hole (set_states b s) (count s) |}
        else
          cur <- aget (ptrs s) line_nr ;;
          match cur with
          | None =>
              q <- aset (ptrs s) line_nr next ;;
              (* NOTE: this can leave first_hole point to non-NULL state *)
              Ok {| colors_of := Some colors; next_changed := true;
                    buffer_of := set_first_hole (set_states b (set_ptrs s q))
                                                (line_nr + 1) |}
          | Some c =>
              let same := match next with
                          | Some t => Nat.eqb c t
                          | None => false
                          end in
              if line_nr =? first_hole b then
                if same then
                  (* hole successfully closed *)
                  Ok {| colors_of := Some colors; next_changed := false;
                        buffer_of := find_hole (line_nr + 1) b |}
                else
                  (* hole filled but state changed *)
                  q <- aset (ptrs s) (first_hole b) next ;;
                  Ok {| colors_of := Some colors; next_changed := true;
                        buffer_of := set_first_hole
                                       (set_states b (set_ptrs s q))
                                       (first_hole b + 1) |}
              else if same then
                Ok {| colors_of := Some colors; next_changed := false;
                      buffer_of := b |}
              else Err (BugOn "s->ptrs[line_nr] != next")
          end
  end.

(** *** The edit hooks [hl_insert] and [hl_delete] *)

Definition hl_insert (first lines : Z) (b : buffer) : res buffer :=
  let s := line_start_states b in
  let last := first + lines in
  if count s <=? first then Ok b
  else if count s <=? last + 1 then truncate_line_states (first + 1) b
  else
    s <- (if lines =? 0 then Ok s
          else
            let to := last + 1 in
            let from := first + 1 in
            let s := resize_line_states s (count s + lines) in
            s <- move_line_states s to from (count s - from) ;;
            Ok (set_count s (count s + lines))) ;;
    s <- (if first =? last then Ok s
          else p <- afill (ptrs s) (first + 1) (last + 2) None ;;
               Ok (set_ptrs s p)) ;;
    new_hole (first + 1) (set_states b s).

Definition hl_delete (first deleted_nl : Z) (b : buffer) : res buffer :=
  let s := line_start_states b in
  let last := first + deleted_nl in
  if count s =? 1 then Ok b
  else if count s <=? first then Ok b
  else if count s <=? last + 1
  then truncate_line_states (count s - deleted_nl) b
  else
    s <- (if deleted_nl =? 0 then Ok s
          else
            let to := first + 1 in
            let from := last + 1 in
            s <- move_line_states s to from (count s - from) ;;
            Ok (set_count s (count s - deleted_nl))) ;;
    new_hole (first + 1) (set_states b s).

(* Scenario S4 of the design document, as it runs: hl_insert(10, 2) on a
   cache of 100 known states, then hl_fill_start_states(50); [t11], [t12] and
   [t13] are the states the fill computes for lines 11 to 13. *)
Definition scenario_S4 (hfuel : nat) (b : buffer)
           (t11 t12 t13 : option state_ref) : Prop :=
  exists b1 b2,
      hl_insert 10 2 b = Ok b1
      /\ count (line_start_states b1) = 102
      /\ first_hole b1 = 11
      /\ aget (ptrs (line_start_states b1)) 11 = Ok None
      /\ aget (ptrs (line_start_states b1)) 12 = Ok None
      /\ aget (ptrs (line_start_states b1)) 13 = Ok None
      /\ aget (ptrs (line_start_states b1)) 100 = Ok None
      /\ hl_fill_start_states hfuel 50 b1 = Ok b2
      /\ count (line_start_states b2) = 102
      /\ aget (ptrs (line_start_states b2)) 11 = Ok t11
      /\ aget (ptrs (line_start_states b2)) 12 = Ok t12
      /\ aget (ptrs (line_start_states b2)) 13 = Ok t13
      /\ first_hole b2 = 100.

(** *** What the cache is meant to hold, and editing sessions *)

(* The state the machine is in after the first [n] lines at [bi], from [st]:
   the start state of line [n]. *)
Fixpoint run_lines (hfuel : nat) (sy : syntax) (bi : list Z)
         (st : option state_ref) (n : nat) : res (option state_ref) :=
  match n with
  | O => Ok st
  | S n' =>
      r <- highlight_line hfuel sy st (fill_line_nl_ref bi) ;;
      run_lines hfuel sy (block_iter_eat_line bi) (snd r) n'
  end.

(* the line with number [n] *)
Definition line_at (txt : list Z) (n : Z) : list Z :=
  fill_line_nl_ref (block_iter_move_down txt (Z.to_nat n)).

Definition count_nl (bytes : list Z) : Z :=
  Z.of_nat (length (List.filter (Z.eqb 10) bytes)).

Definition set_text (b : buffer) (t : list Z) : buffer :=
  {| syn := syn b; text := t; line_start_states := line_start_states b;
     first_hole := first_hole b |}.

(** Modelled from the spec: the buffer code that calls hl_insert and
    hl_delete lies outside the sources at hand.  Section 4.3 has every
    mutation notify the highlighter with the first line touched and the
    number of newlines in the inserted, respectively removed, bytes. *)
Definition buffer_insert (off : nat) (bytes : list Z) (b : buffer) : res buffer :=
  let first := count_nl (firstn off (text b)) in
  let b := set_text b (firstn off (text b) ++ bytes ++ skipn off (text b)) in
  hl_insert first (count_nl bytes) b.

(** Modelled from the spec: see [buffer_insert]. *)
Definition buffer_delete (off n : nat) (b : buffer) : res buffer :=
  let first := count_nl (firstn off (text b)) in
  let removed := firstn n (skipn off (text b)) in
  let b := set_text b (firstn off (text b) ++ skipn (off + n) (text b)) in
  hl_delete first (count_nl removed) b.

(* what a session does to a buffer, one call after the other *)
Inductive session_op : Type :=
| OpFill (line_nr : Z)                      (* hl_fill_start_states(line_nr) *)
| OpLine (line_nr : Z)                      (* hl_line on the text of line_nr *)
| OpInsert (off : nat) (bytes : list Z)     (* insert bytes at a byte offset *)
| OpDelete (off n : nat).                   (* delete n bytes at a byte offset *)

Definition run_op (hfuel : nat) (op : session_op) (b : buffer) : res buffer :=
  match op with
  | OpFill line_nr => hl_fill_start_states hfuel line_nr b
  | OpLine line_nr =>
      r <- hl_line hfuel (line_at (text b) line_nr) line_nr b ;;
      Ok (buffer_of r)
  | OpInsert off bytes => buffer_insert off bytes b
  | OpDelete off n => buffer_delete off n b
  end.

Fixpoint run_session (hfuel : nat) (ops : list session_op) (b : buffer)
  : res buffer :=
  match ops with
  | [] => Ok b
  | op :: ops' => b' <- run_op hfuel op b ;; run_session hfuel ops' b'
  end.

(** *** Hole repair as the design document words it (4.6) *)

Record cache : Type := {
  slots : list (option state_ref);
  hole : Z                                  (* first_hole *)
}.

(* "scan forward from pos for the next None" *)
Fixpoint next_none (l : list (option state_ref)) (pos : Z) : Z :=
  match l with
  | [] => pos
  | None :: _ => pos
  | Some _ :: l' => next_none l' (pos + 1)
  end.

(* "for each index i starting at first_hole - 1 ...": the four cases, the
   third of which ends the fill *)
Fixpoint rule_fill (fuel : nat) (hfuel : nat) (sy : syntax) (txt : list Z)
         (target : Z) (c : cache) : res cache :=
  match fuel with
  | O => Err OutOfFuel
  | S fuel' =>
      if target <? hole c then Ok c
      else
        let i := hole c - 1 in
        si <- aget (slots c) i ;;
        r <- highlight_line hfuel sy si (line_at txt i) ;;
        let s' := snd r in
        if i + 1 =? Z.of_nat (length (slots c)) then
          rule_fill fuel' hfuel sy txt target
                    {| slots := slots c ++ [s']; hole := hole c + 1 |}
        else
          nxt <- aget (slots c) (i + 1) ;;
          match nxt with
          | None =>
              rule_fill fuel' hfuel sy txt target
                        {| slots := replace_nth (Z.to_nat (i + 1)) s' (slots c);
                           hole := hole c + 1 |}
          | Some t =>
              if match s' with Some u => Nat.eqb t u | None => false end
              then Ok {| slots := slots c;
                         hole := next_none (skipn (Z.to_nat (i + 2)) (slots c))
                                           (i + 2) |}
              else
                rule_fill fuel' hfuel sy txt target
                          {| slots := replace_nth (Z.to_nat (i + 1)) s' (slots c);
                             hole := i + 2 |}
          end
  end.

(* the cache a buffer holds: its first count cells and first_hole *)
Definition cache_of (b : buffer) : cache :=
  {| slots := firstn (Z.to_nat (count (line_start_states b)))
                     (ptrs (line_start_states b));
     hole := first_hole b |}.

Definition cache_after (r : res buffer) : res cache :=
  b <- r ;; Ok (cache_of b).

End Highlight.

(** *** Syntaxes that always advance, and well-formed caches *)

(* every destination of the syntax is one of its states *)
Definition action_closed (n : nat) (x : action) : bool :=
  (destination x <? n)%nat.

Definition state_closed (n : nat) (s : state) : bool :=
  action_closed n (default_a s)
  && forallb (fun c => action_closed n (a c)) (conditions s).

Definition closed_syntax (sy : syntax) : bool :=
  forallb (state_closed (length sy)) sy.

(* a condition that cannot fire and leave both [i] and an empty [sidx] as
   they were: all but COND_STR and COND_STR_ICASE with an empty string *)
Definition cond_advances (c : condition) : bool :=
  match type c with
  | COND_STR s | COND_STR_ICASE s => negb (Nat.eqb (length s) 0)
  | _ => true
  end.

(* no noeat default and no condition that can fire without moving *)
Definition state_eats (s : state) : bool :=
  negb (noeat s) && forallb cond_advances (conditions s).

Definition eats (sy : syntax) : bool := forallb state_eats sy.

(* the cells colors[0 .. i) have been written *)
Definition painted_below (i : Z) (colors : list (option hl_color)) : Prop :=
  forall k, 0 <= k < i -> exists c, nth_error colors (Z.to_nat k) = Some (Some c).

Definition walk_colors (w : walk) : list (option hl_color) :=
  match w with Fired _ _ _ c => c | Fell _ c => c end.

Definition walk_pos (i : Z) (w : walk) : Z :=
  match w with Fired _ i' _ _ => i' | Fell _ _ => i end.

(* a cell is NULL or points into the state table *)
Definition cell_ok (n : nat) (c : option state_ref) : bool :=
  match c with Some r => (r <? n)%nat | None => true end.

Definition known (c : option state_ref) : bool :=
  match c with Some _ => true | None => false end.

(* What hl.c relies on between calls: 1 <= first_hole <= count <= alloc,
   every cell is NULL or a state of the syntax with [n] states, and no cell
   below first_hole is NULL. *)
Definition cache_ok (n : nat) (b : buffer) : bool :=
  let s := line_start_states b in
  (1 <=? first_hole b) && (first_hole b <=? count s)
  && (count s <=? Z.of_nat (length (ptrs s)))
  && forallb (cell_ok n) (ptrs s)
  && forallb known (firstn (Z.to_nat (first_hole b)) (ptrs s)).

Definition cells_ok (n : nat) (p : list (option state_ref)) : Prop :=
  forall j c, aget p j = Ok (Some c) -> (c < n)%nat.

Definition known_below (h : Z) (p : list (option state_ref)) : Prop :=
  forall j, 0 <= j < h -> exists c, aget p j = Ok (Some c).

(* no byte of the string is the terminator *)
Definition no_nul (s : list Z) : bool := forallb (fun c => negb (c =? 0)) s.

End Hl.

(** ** The spawn engine: [spawn.c] *)

Module Spawn.

Inductive SpawnAction : Type := SPAWN_NULL | SPAWN_TTY | SPAWN_PIPE.

Definition SpawnAction_eqb (x y : SpawnAction) : bool :=
  match x, y with
  | SPAWN_NULL, SPAWN_NULL | SPAWN_TTY, SPAWN_TTY | SPAWN_PIPE, SPAWN_PIPE => true
  | _, _ => false
  end.

(* SpawnFlags; spawn.h is outside the sources at hand, the bits are distinct *)
Definition SPAWN_QUIET : Z := 1.
Definition SPAWN_PROMPT : Z := 2.
Definition SPAWN_READ_STDOUT : Z := 4.

Definition STDIN_FILENO : Z := 0.
Definition STDOUT_FILENO : Z := 1.
Definition STDERR_FILENO : Z := 2.

(* <poll.h>, Linux values *)
Definition POLLIN : Z := 1.
Definition POLLOUT : Z := 4.
Definition POLLERR : Z := 8.
Definition POLLHUP : Z := 16.
Definition POLLNVAL : Z := 32.

Record SpawnContext : Type := {
  argv : list string;
  env : list string;
  input : list Z;
  output : list Z;
  flags : Z
}.

Definition set_output (ctx : SpawnContext) (o : list Z) : SpawnContext :=
  {| argv := argv ctx; env := env ctx; input := input ctx; output := o;
     flags := flags ctx |}.

(** *** The process's view of the system *)

Inductive message : Type :=
| error_msg (text : string)
| perror_msg (prefix : string).

Inductive sys_event : Type :=
| EvOpenNull (fd : Z)
| EvPipe (rd wr : Z)
| EvClose (fd : Z) (rc : Z)
| EvPoll
| EvRead (fd : Z)
| EvWrite (fd : Z)
| EvFork (child_fds : list Z)
| EvWait
| EvTerm (what : string).

Record world : Type := {
  open_fds : list Z;                 (* descriptors open in the editor *)
  trace : list sys_event;            (* calls made, oldest first *)
  msgs : list message;               (* messages shown, oldest first *)
  child_controls_terminal : bool
}.

Definition log (ev : sys_event) (w : world) : world :=
  {| open_fds := open_fds w; trace := trace w ++ [ev]; msgs := msgs w;
     child_controls_terminal := child_controls_terminal w |}.

Definition say (m : message) (w : world) : world :=
  {| open_fds := open_fds w; trace := trace w; msgs := msgs w ++ [m];
     child_controls_terminal := child_controls_terminal w |}.

Definition set_open_fds (fds : list Z) (w : world) : world :=
  {| open_fds := fds; trace := trace w; msgs := msgs w;
     child_controls_terminal := child_controls_terminal w |}.

Definition set_cct (v : bool) (w : world) : world :=
  {| open_fds := open_fds w; trace := trace w; msgs := msgs w;
     child_controls_terminal := v |}.

Definition is_open (fd : Z) (w : world) : bool :=
  existsb (Z.eqb fd) (open_fds w).

(* the lowest descriptor that is not open, as open() and pipe() pick it *)
Fixpoint lowest_free_from (fds : list Z) (fd : Z) (fuel : nat) : Z :=
  match fuel with
  | O => fd
  | S fuel' =>
      if existsb (Z.eqb fd) fds then lowest_free_from fds (fd + 1) fuel'
      else fd
  end.

Definition lowest_free (w : world) : Z :=
  lowest_free_from (open_fds w) 0 (length (open_fds w)).

(* xclose(fd): 0, or -1 (EBADF) when fd is not an open descriptor *)
Definition xclose (fd : Z) (w : world) : Z * world :=
  if is_open fd w
  then (0, log (EvClose fd 0)
             (set_open_fds (List.filter (fun x => negb (x =? fd)) (open_fds w)) w))
  else (-1, log (EvClose fd (-1)) w).

(* Close fd only if valid (positive) and not stdin/stdout/stderr *)
Definition safe_xclose (fd : Z) (w : world) : Z * world :=
  if STDERR_FILENO <? fd then xclose fd w else (0, w).

(* open_dev_null(flags); [ok] is whether open() succeeds *)
Definition open_dev_null (ok : bool) (w : world) : Z * world :=
  if ok then
    let fd := lowest_free w in
    (fd, log (EvOpenNull fd) (set_open_fds (fd :: open_fds w) w))
  else (-1, say (error_msg "Error opening /dev/null") w).

(* pipe_cloexec(p); [ok] is whether pipe() succeeds *)
Definition pipe_cloexec (ok : bool) (w : world) : option (Z * Z) * world :=
  if ok then
    let p0 := lowest_free w in
    let w := set_open_fds (p0 :: open_fds w) w in
    let p1 := lowest_free w in
    let w := set_open_fds (p1 :: open_fds w) w in
    (Some (p0, p1), log (EvPipe p0 p1) w)
  else (None, w).

(** *** [filter]: the poll loop *)

Inductive poll_result : Type :=
| PollFailed (eintr : bool)
| PollReady (revents0 revents1 : Z).

Inductive read_result : Type :=
| ReadFailed
| ReadBytes (data : list Z).        (* rc = the number of bytes; 0 at EOF *)

Inductive write_result : Type :=
| WriteFailed
| WriteCount (n : Z).

(* what the system answers during one turn of the loop *)
Record tick : Type := {
  polled : poll_result;
  read_rc : read_result;
  write_rc : write_result
}.

Record filter_state : Type := {
  fd0 : Z;                  (* fds[0].fd *)
  fd1 : Z;                  (* fds[1].fd *)
  wlen : Z;
  fctx : SpawnContext;
  fworld : world
}.

Inductive loop_ctl : Type := Continue | Break.

Definition has (revents flag : Z) : bool := negb (Z.land revents flag =? 0).

(* poll() reports nothing for an entry whose fd is negative *)
Definition revents_for (fd r : Z) : Z := if fd <? 0 then 0 else r.

(* the [for] loop that retires descriptors, for fds[i] *)
Definition retire (fd revents : Z) (active : Z) (w : world) : Z * Z * world :=
  if (fd <? 0) || has revents POLLNVAL then (-1, active - 1, w)
  else if has revents (Z.lor POLLHUP POLLERR) then
    let '(rc, w) := xclose fd w in
    let w := if rc =? 0 then w else say (perror_msg "close") w in
    (-1, active - 1, w)
  else (fd, active, w).

Definition filter_tail (r0 r1 : Z) (s : filter_state) : loop_ctl * filter_state :=
  let active := 2 in
  let '(f0, active, w) := retire (fd0 s) r0 active (fworld s) in
  let '(f1, active, w) := retire (fd1 s) r1 active w in
  let s := {| fd0 := f0; fd1 := f1; wlen := wlen s; fctx := fctx s;
              fworld := w |} in
  if active =? 0 then (Break, s) else (Continue, s).

Definition filter_write (t : tick) (r0 r1 : Z) (s : filter_state)
  : loop_ctl * filter_state :=
  if has r1 POLLOUT then
    let w := log (EvWrite (fd1 s)) (fworld s) in
    let len := Z.of_nat (length (input (fctx s))) in
    match write_rc t with
    | WriteFailed =>
        (Break, {| fd0 := fd0 s; fd1 := fd1 s; wlen := wlen s; fctx := fctx s;
                   fworld := say (perror_msg "write") w |})
    | WriteCount n =>
        let rc := Z.max 0 (Z.min n (len - wlen s)) in
        let wl := wlen s + rc in
        if wl =? len then
          let '(crc, w) := xclose (fd1 s) w in
          if crc =? 0
          then filter_tail r0 r1
                 {| fd0 := fd0 s; fd1 := -1; wlen := wl; fctx := fctx s;
                    fworld := w |}
          else (Break, {| fd0 := fd0 s; fd1 := fd1 s; wlen := wl;
                          fctx := fctx s;
                          fworld := say (perror_msg "close") w |})
        else filter_tail r0 r1
               {| fd0 := fd0 s; fd1 := fd1 s; wlen := wl; fctx := fctx s;
                  fworld := w |}
    end
  else filter_tail r0 r1 s.

(* one turn of the [while (1)] loop *)
Definition filter_step (t : tick) (s : filter_state) : loop_ctl * filter_state :=
  let w := log EvPoll (fworld s) in
  match polled t with
  | PollFailed true =>
      (Continue, {| fd0 := fd0 s; fd1 := fd1 s; wlen := wlen s;
                    fctx := fctx s; fworld := w |})
  | PollFailed false =>
      (Break, {| fd0 := fd0 s; fd1 := fd1 s; wlen := wlen s; fctx := fctx s;
                 fworld := say (perror_msg "poll") w |})
  | PollReady e0 e1 =>
      let r0 := revents_for (fd0 s) e0 in
      let r1 := revents_for (fd1 s) e1 in
      if has r0 POLLIN then
        let w := log (EvRead (fd0 s)) w in
        match read_rc t with
        | ReadFailed =>
            (Break, {| fd0 := fd0 s; fd1 := fd1 s; wlen := wlen s;
                       fctx := fctx s;
                       fworld := say (perror_msg "read") w |})
        | ReadBytes data =>
            let data := firstn (Z.to_nat 8192) data in
            match data with
            | [] =>
                let w :=
                  if wlen s <? Z.of_nat (length (input (fctx s)))
                  then say (error_msg "Command did not read all data") w
                  else w in
                (Break, {| fd0 := fd0 s; fd1 := fd1 s; wlen := wlen s;
                           fctx := fctx s; fworld := w |})
            | _ :: _ =>
                filter_write t r0 r1
                  {| fd0 := fd0 s; fd1 := fd1 s; wlen := wlen s;
                     fctx := set_output (fctx s) (output (fctx s) ++ data);
                     fworld := w |}
            end
        end
      else
        filter_write t r0 r1
          {| fd0 := fd0 s; fd1 := fd1 s; wlen := wlen s; fctx := fctx s;
             fworld := w |}
  end.

(* The loop, fed the system's answers turn by turn.  When the answers run
   out the loop is still waiting in poll(). *)
Fixpoint filter_loop (ticks : list tick) (s : filter_state) : res filter_state :=
  match ticks with
  | [] => Err OutOfFuel
  | t :: ticks' =>
      match filter_step t s with
      | (Break, s') => Ok s'
      | (Continue, s') => filter_loop ticks' s'
      end
  end.

Definition filter (rfd wfd : Z) (ctx : SpawnContext) (ticks : list tick)
           (w : world) : res (SpawnContext * world) :=
  if (rfd <? 0) && (wfd <? 0) then Err (BugOn "rfd < 0 && wfd < 0")
  else if (0 <=? rfd) && (rfd <=? 2) then Err (BugOn "rfd >= 0 && rfd <= 2")
  else if (0 <=? wfd) && (wfd <=? 2) then Err (BugOn "wfd >= 0 && wfd <= 2")
  else
    let '(wfd, w) :=
      match input ctx with
      | [] => let '(_, w) := xclose wfd w in (-1, w)
      | _ :: _ => (wfd, w)
      end in
    s <- filter_loop ticks {| fd0 := rfd; fd1 := wfd; wlen := 0; fctx := ctx;
                              fworld := w |} ;;
    Ok (fctx s, fworld s).

(* The reads and writes among the calls of a trace, in their order *)
Inductive io_kind : Type := Rd | Wr.

Fixpoint io_order (evs : list sys_event) : list io_kind :=
  match evs with
  | [] => []
  | EvRead _ :: evs' => Rd :: io_order evs'
  | EvWrite _ :: evs' => Wr :: io_order evs'
  | _ :: evs' => io_order evs'
  end.

(* the calls one turn of the loop adds to the trace *)
Definition step_events (t : tick) (s : filter_state) : list sys_event :=
  skipn (length (trace (fworld s))) (trace (fworld (snd (filter_step t s)))).

(* the messages one turn of the loop adds *)
Definition step_msgs (t : tick) (s : filter_state) : list message :=
  skipn (length (msgs (fworld s))) (msgs (fworld (snd (filter_step t s)))).

(* in this turn the read is made and returns 0 while input is left to write *)
Definition read_eof_early (t : tick) (s : filter_state) : bool :=
  match polled t with
  | PollReady e0 _ =>
      has (revents_for (fd0 s) e0) POLLIN
      && match read_rc t with
         | ReadBytes data =>
             match firstn (Z.to_nat 8192) data with
             | [] => true
             | _ :: _ => false
             end
         | ReadFailed => false
         end
      && (wlen s <? Z.of_nat (length (input (fctx s))))
  | PollFailed _ => false
  end.

(* [w'] is [w] after the messages [dm] and the calls [dt] *)
Definition ext (w w' : world) (dm : list message) (dt : list sys_event) : Prop :=
  msgs w' = msgs w ++ dm /\ trace w' = trace w ++ dt.

Definition is_perror (m : message) : Prop := exists p, m = perror_msg p.

(** *** [filter] of the older spawn.c: the select loop *)

Inductive select_result : Type :=
| SelectFailed (eintr : bool)
| SelectReady (rfd_set wfd_set : bool).     (* FD_ISSET after the call *)

Record old_tick : Type := {
  selected : select_result;
  old_read_rc : read_result;
  old_write_rc : write_result
}.

Record old_filter_state : Type := {
  rfd : Z;
  wfd : Z;
  old_wlen : Z;
  in_data : list Z;             (* fdata->in, fdata->in_len *)
  buf : list Z;                 (* GBUF(buf) *)
  oworld : world
}.

Definition old_with (s : old_filter_state) (wfd' wl : Z) (bf : list Z)
           (w : world) : old_filter_state :=
  {| rfd := rfd s; wfd := wfd'; old_wlen := wl; in_data := in_data s;
     buf := bf; oworld := w |}.

(* the second half of a turn: if (wfdsp && FD_ISSET(wfd, &wfds)) *)
Definition old_filter_write (t : old_tick) (wset : bool) (s : old_filter_state)
  : loop_ctl * old_filter_state :=
  if (0 <=? wfd s) && wset then
    let w := log (EvWrite (wfd s)) (oworld s) in
    let len := Z.of_nat (length (in_data s)) in
    match old_write_rc t with
    | WriteFailed =>
        (Break, old_with s (wfd s) (old_wlen s) (buf s)
                         (say (error_msg "write") w))
    | WriteCount n =>
        let rc := Z.max 0 (Z.min n (len - old_wlen s)) in
        let wl := old_wlen s + rc in
        if wl =? len
        then (Continue, old_with s (-1) wl (buf s) (snd (xclose (wfd s) w)))
        else (Continue, old_with s (wfd s) wl (buf s) w)
    end
  else (Continue, s).

(* one turn of the [while (1)] loop *)
Definition old_filter_step (t : old_tick) (s : old_filter_state)
  : loop_ctl * old_filter_state :=
  let w := log EvPoll (oworld s) in
  match selected t with
  | SelectFailed true => (Continue, old_with s (wfd s) (old_wlen s) (buf s) w)
  | SelectFailed false =>
      (Break, old_with s (wfd s) (old_wlen s) (buf s)
                       (say (error_msg "select") w))
  | SelectReady rset wset =>
      if rset then
        let w := log (EvRead (rfd s)) w in
        match old_read_rc t with
        | ReadFailed =>
            (Break, old_with s (wfd s) (old_wlen s) (buf s)
                             (say (error_msg "read") w))
        | ReadBytes data =>
            match firstn (Z.to_nat 8192) data with
            | [] =>
                let w :=
                  if old_wlen s <? Z.of_nat (length (in_data s))
                  then say (error_msg "Command did not read all data.") w
                  else w in
                (Break, old_with s (wfd s) (old_wlen s) (buf s) w)
            | d =>
                old_filter_write t wset
                  (old_with s (wfd s) (old_wlen s) (buf s ++ d) w)
            end
        end
      else old_filter_write t wset (old_with s (wfd s) (old_wlen s) (buf s) w)
  end.

Definition old_step_events (t : old_tick) (s : old_filter_state)
  : list sys_event :=
  skipn (length (trace (oworld s)))
        (trace (oworld (snd (old_filter_step t s)))).

Definition old_step_msgs (t : old_tick) (s : old_filter_state)
  : list message :=
  skipn (length (msgs (oworld s))) (msgs (oworld (snd (old_filter_step t s)))).

Definition old_read_eof_early (t : old_tick) (s : old_filter_state) : bool :=
  match selected t with
  | SelectReady rset _ =>
      rset
      && match old_read_rc t with
         | ReadBytes data =>
             match firstn (Z.to_nat 8192) data with
             | [] => true
             | _ :: _ => false
             end
         | ReadFailed => false
         end
      && (old_wlen s <? Z.of_nat (length (in_data s)))
  | SelectFailed _ => false
  end.

Fixpoint old_filter_loop (ticks : list old_tick) (s : old_filter_state)
  : res old_filter_state :=
  match ticks with
  | [] => Err OutOfFuel
  | t :: ticks' =>
      match old_filter_step t s with
      | (Break, s') => Ok s'
      | (Continue, s') => old_filter_loop ticks' s'
      end
  end.

(** *** [spawn] *)

(* what the system answers during one call of spawn *)
Record oracle : Type := {
  open_ok : nat -> bool;        (* does open() / pipe() for child fd i succeed *)
  fork_ok : bool;
  ticks : list tick;            (* for the poll loop of filter *)
  write_all_ok : bool;          (* xwrite_all on the stdin pipe *)
  reads : list read_result;     (* xread_all on the stdout pipe, then EOF *)
  wait_status : Z               (* wait_child(pid) *)
}.

Definition yield_terminal (quiet : bool) (w : world) : world :=
  if quiet then log (EvTerm "term_raw_isig") w
  else log (EvTerm "ui_end") (set_cct true w).

Definition resume_terminal (quiet prompt : bool) (w : world) : world :=
  let w := log (EvTerm "term_raw") w in
  if negb quiet && child_controls_terminal w then
    let w := if prompt then log (EvTerm "any_key") w else w in
    set_cct false (log (EvTerm "ui_start") w)
  else w.

Definition handle_child_error (status : Z) (w : world) : Z * world :=
  let w := log EvWait w in
  if status <? 0 then (status, say (perror_msg "waitpid") w)
  else if 256 <=? status then (status, say (error_msg "Child received signal") w)
  else if negb (status =? 0) then (status, say (error_msg "Child returned") w)
  else (status, w).

(* the [for] loop that prepares child_fds[i] and parent_fds[i], from i on;
   the boolean is false when it left through [goto error_close] *)
Fixpoint setup_fds (quiet : bool) (orc : oracle) (actions : list SpawnAction)
         (idxs : list nat) (child parent : list Z) (w : world)
  : res (bool * list Z * list Z * world) :=
  match idxs with
  | [] => Ok (true, child, parent, w)
  | i :: idxs' =>
      match nth_error actions i with
      | None => Err OutOfBounds
      | Some act =>
          let dev_null :=
            let '(fd, w) := open_dev_null (open_ok orc i) w in
            let child := replace_nth i fd child in
            if fd <? 0 then Ok (false, child, parent, w)
            else setup_fds quiet orc actions idxs' child parent w in
          match act with
          | SPAWN_TTY =>
              if negb quiet
              then setup_fds quiet orc actions idxs'
                             (replace_nth i (Z.of_nat i) child) parent w
              else dev_null
          | SPAWN_NULL => dev_null
          | SPAWN_PIPE =>
              match pipe_cloexec (open_ok orc i) w with
              | (None, w) => Ok (false, child, parent, say (perror_msg "pipe") w)
              | (Some (p0, p1), w) =>
                  if p0 <? 3 then Err (BugOn "p[0] < 3")
                  else if p1 <? 3 then Err (BugOn "p[1] < 3")
                  else
                    let c := if Nat.eqb i 0 then p0 else p1 in
                    let p := if Nat.eqb i 0 then p1 else p0 in
                    setup_fds quiet orc actions idxs'
                              (replace_nth i c child) (replace_nth i p parent) w
              end
          end
      end
  end.

Definition fd_at (fds : list Z) (i : nat) : Z := nth i fds (-1).

(* error_close: *)
Definition error_close (child parent : list Z) (w : world) : world :=
  fold_left (fun w i =>
               let w := snd (safe_xclose (fd_at child i) w) in
               snd (safe_xclose (fd_at parent i) w))
            [0%nat; 1%nat; 2%nat] w.

(* error_resume: *)
Definition error_resume (quiet : bool) (child parent : list Z) (w : world)
  : world :=
  error_close child parent (resume_terminal quiet false w).

(* xread_all until it returns 0; false when a read failed *)
Fixpoint read_to_eof (rs : list read_result) (ctx : SpawnContext) (fd : Z)
         (w : world) : bool * SpawnContext * world :=
  match rs with
  | [] => (true, ctx, log (EvRead fd) w)
  | ReadFailed :: _ => (false, ctx, say (perror_msg "read") (log (EvRead fd) w))
  | ReadBytes data :: rs' =>
      match firstn (Z.to_nat 8192) data with
      | [] => (true, ctx, log (EvRead fd) w)
      | d =>
          read_to_eof rs' (set_output ctx (output ctx ++ d)) fd
                      (log (EvRead fd) w)
      end
  end.

Definition spawn (ctx : SpawnContext) (actions : list SpawnAction)
           (orc : oracle) (w : world) : res (bool * SpawnContext * world) :=
  let quiet := negb (Z.land (flags ctx) SPAWN_QUIET =? 0) in
  (* TODO: support stderr pipe *)
  match nth_error actions 2 with
  | Some SPAWN_PIPE => Err (BugOn "actions[STDERR_FILENO] == SPAWN_PIPE")
  | _ =>
    r <- setup_fds quiet orc actions [0%nat; 1%nat; 2%nat]
                   [-1; -1; -1] [-1; -1; -1] w ;;
    let '(ok, child_fds, parent_fds, w) := r in
    if negb ok then Ok (false, ctx, error_close child_fds parent_fds w)
    else
      let w := yield_terminal quiet w in
      let w := log (EvFork child_fds) w in
      if negb (fork_ok orc) then
        let w := say (error_msg "Unable to exec") w in
        Ok (false, ctx, error_resume quiet child_fds parent_fds w)
      else
        let w := snd (safe_xclose (fd_at child_fds 0) w) in
        let w := snd (safe_xclose (fd_at child_fds 1) w) in
        let w := snd (safe_xclose (fd_at child_fds 1) w) in
        let a0 := nth 0 actions SPAWN_NULL in
        let a1 := nth 1 actions SPAWN_NULL in
        io <- (if SpawnAction_eqb a0 SPAWN_PIPE && SpawnAction_eqb a1 SPAWN_PIPE
               then
                 r <- filter (fd_at parent_fds 1) (fd_at parent_fds 0) ctx
                             (ticks orc) w ;;
                 Ok (true, fst r, snd r)
               else if SpawnAction_eqb a0 SPAWN_PIPE then
                 match input ctx with
                 | [] => Ok (true, ctx, w)
                 | _ :: _ =>
                     let w := log (EvWrite (fd_at parent_fds 0)) w in
                     if write_all_ok orc then Ok (true, ctx, w)
                     else Ok (false, ctx, say (perror_msg "write") w)
                 end
               else if SpawnAction_eqb a1 SPAWN_PIPE then
                 Ok (read_to_eof (reads orc) ctx (fd_at parent_fds 1) w)
               else Ok (true, ctx, w)) ;;
        let '(io_ok, ctx, w) := io in
        if negb io_ok
        then Ok (false, ctx, error_resume quiet child_fds parent_fds w)
        else
          let w := snd (safe_xclose (fd_at parent_fds 0) w) in
          let w := snd (safe_xclose (fd_at parent_fds 1) w) in
          let w := snd (safe_xclose (fd_at parent_fds 2) w) in
          let '(err, w) := handle_child_error (wait_status orc) w in
          let w := resume_terminal quiet
                     (negb (Z.land (flags ctx) SPAWN_PROMPT =? 0)) w in
          if negb (err =? 0) then Ok (false, set_output ctx [], w)
          else Ok (true, ctx, w)
  end.

(** *** How a world changes during a call *)

(* [w'] is [w] after messages, calls and the closing of descriptors, all of
   them among [D] *)
Definition evolves (D : list Z) (w w' : world) : Prop :=
  (exists dm dt, ext w w' dm dt)
  /\ child_controls_terminal w' = child_controls_terminal w
  /\ (forall x, In x (open_fds w') -> In x (open_fds w))
  /\ (forall x, In x (open_fds w) -> ~ In x D -> In x (open_fds w')).

(* [c'] is [c] with bytes appended to its output *)
Definition ctx_grows (c c' : SpawnContext) : Prop :=
  argv c' = argv c /\ env c' = env c /\ input c' = input c
  /\ flags c' = flags c /\ exists d, output c' = output c ++ d.

(* the descriptors of the loop are those it was given, or retired *)
Definition fds_within (D : list Z) (s : filter_state) : Prop :=
  (fd0 s < 0 \/ In (fd0 s) D) /\ (fd1 s < 0 \/ In (fd1 s) D).

(* the standard descriptors are open and no descriptor is negative *)
Definition sane_world (w : world) : bool :=
  forallb (Z.leb 0) (open_fds w)
  && is_open 0 w && is_open 1 w && is_open 2 w.

(* fold of safe_xclose over a list of descriptors *)
Definition closes (fds : list Z) (w : world) : world :=
  fold_left (fun w fd => snd (safe_xclose fd w)) fds w.

(* the entries of child_fds and parent_fds that belong to spawn *)
Definition owned (child parent : list Z) : list Z :=
  List.filter (fun x => (2 <? x) || (x <? 0)) (child ++ parent).

(* What the loop of spawn that prepares the descriptors keeps, with [l] the
   descriptors open when spawn was called and [idxs] the entries still to
   prepare. *)
Definition setup_inv (l : list Z) (cct : bool) (idxs : list nat)
           (child parent : list Z) (w : world) : Prop :=
  (forall x, In x l -> In x (open_fds w))
  /\ (forall x, In x (open_fds w) ->
      In x l \/ (2 < x /\ In x (child ++ parent)))
  /\ (forall x, In x (child ++ parent) -> 2 < x -> ~ In x l)
  /\ (forall x, In x parent -> x < 0 \/ 2 < x)
  /\ child_controls_terminal w = cct
  /\ (length child = 3%nat /\ length parent = 3%nat)
  /\ NoDup idxs
  /\ (forall i, In i idxs ->
      (i < 3)%nat /\ nth i child (-1) <= 2 /\ nth i parent (-1) <= 2).


End Spawn.

(** ** Running a compiler: [spawn_compiler] of [spawn.c] *)

Module SpawnCompiler.

Import Spawn.

(* regmatch_t *)
Record regmatch_t : Type := { rm_so : Z; rm_eo : Z }.

(* FileLocation, as xnew0 leaves it and as handle_error_msg fills it *)
Record FileLocation : Type := {
  filename : option (list Z);
  line : Z;
  column : Z
}.

Definition set_filename (l : FileLocation) (f : list Z) : FileLocation :=
  {| filename := Some f; line := line l; column := column l |}.

Definition set_line (l : FileLocation) (v : Z) : FileLocation :=
  {| filename := filename l; line := v; column := column l |}.

Definition set_column (l : FileLocation) (v : Z) : FileLocation :=
  {| filename := filename l; line := line l; column := v |}.

(* s[k] of a C string given by the bytes before its terminator: the
   terminator is read at k = strlen(s), nothing may be read outside *)
Definition cread (s : list Z) (k : Z) : res Z :=
  if k <? 0 then Err OutOfBounds
  else if k <? Z.of_nat (length s) then Ok (nth (Z.to_nat k) s 0)
  else if k =? Z.of_nat (length s) then Ok 0
  else Err OutOfBounds.

Section Compiler.

(* Types and functions of regexp.h, msg.h, compiler.h and util/, all
   outside the sources at hand. *)
Variable regex : Type.
Variable Msg : Type.                       (* what new_message returns *)
Variable MessageArray : Type.
(* regexp_exec(re, buf, size, nmatch, m, 0): m[] when it matches *)
Variable regexp_exec : regex -> list Z -> Z -> option (list regmatch_t).
Variable new_message : list Z -> Z -> Msg.
Variable xstrslice : list Z -> Z -> Z -> list Z.
(* buf_parse_ulong(str, size, &val): the value returned, and val *)
Variable buf_parse_ulong : list Z -> Z -> Z * Z.
(* str_replace_byte(str, old, new): the string afterwards, and the value
   returned *)
Variable str_replace_byte : list Z -> Z -> Z -> list Z * Z.

(* a message with the location handle_error_msg hung on it, if any *)
Definition Message : Type := (Msg * option FileLocation)%type.

Variable add_message : MessageArray -> Message -> MessageArray.

(* ErrorFormat; capture_index[] by the name of its index *)
Record ErrorFormat : Type := {
  re : regex;
  ignore : bool;
  cap_file : Z;           (* capture_index[ERRFMT_FILE] *)
  cap_line : Z;           (* capture_index[ERRFMT_LINE] *)
  cap_column : Z;         (* capture_index[ERRFMT_COLUMN] *)
  cap_message : Z         (* capture_index[ERRFMT_MESSAGE] *)
}.

Record Compiler : Type := { error_formats : list ErrorFormat }.

(* m[i] *)
Definition m_at (m : list regmatch_t) (i : Z) : res regmatch_t := aget m i.

(* the body of the loop over ERRFMT_LINE and ERRFMT_COLUMN, for one of them *)
Definition parse_capture (m : list regmatch_t) (str : list Z) (ci : Z)
  : res (option Z) :=
  if 0 <=? ci then
    mc <- m_at m ci ;;
    if 0 <=? rm_so mc then
      let len := rm_eo mc - rm_so mc in
      let '(n, val) := buf_parse_ulong (skipn (Z.to_nat (rm_so mc)) str) len in
      if len =? n then Ok (Some val) else Ok None
    else Ok None
  else Ok None.

(* from [new_message] to [add_message], for the format that matched *)
Definition message_of_match (p : ErrorFormat) (m : list regmatch_t)
           (str : list Z) : res Message :=
  let mi := cap_message p in
  mm <- m_at m mi ;;
  let mi := if rm_so mm <? 0 then 0 else mi in
  mm <- m_at m mi ;;
  let msg := new_message (skipn (Z.to_nat (rm_so mm)) str)
                         (rm_eo mm - rm_so mm) in
  let loc := {| filename := None; line := 0; column := 0 |} in
  let fi := cap_file p in
  loc <- (if 0 <=? fi then
            mf <- m_at m fi ;;
            if 0 <=? rm_so mf then
              let loc := set_filename loc (xstrslice str (rm_so mf) (rm_eo mf)) in
              l <- parse_capture m str (cap_line p) ;;
              let loc := match l with Some v => set_line loc v | None => loc end in
              c <- parse_capture m str (cap_column p) ;;
              Ok (match c with Some v => set_column loc v | None => loc end)
            else Ok loc
          else Ok loc) ;;
  Ok (msg, Some loc).

(* the [for] loop over c->error_formats, and the add_message after it *)
Fixpoint match_formats (fmts : list ErrorFormat) (msgs : MessageArray)
         (str : list Z) (str_len : Z) : res MessageArray :=
  match fmts with
  | [] => Ok (add_message msgs (new_message str str_len, None))
  | p :: rest =>
      match regexp_exec (re p) str str_len with
      | None => match_formats rest msgs str str_len
      | Some m =>
          if ignore p then Ok msgs
          else
            msg <- message_of_match p m str ;;
            Ok (add_message msgs msg)
      end
  end.

(* the tabs replaced and the newline at the end cut off *)
Definition clean_line (str : list Z) : res (list Z * Z) :=
  let '(str, str_len) := str_replace_byte str 9 32 in
  last <- cread str (str_len - 1) ;;
  if last =? 10
  then Ok (firstn (Z.to_nat (str_len - 1)) str, str_len - 1)
  else Ok (str, str_len).

Definition handle_error_msg (c : Compiler) (msgs : MessageArray)
           (str : list Z) : res MessageArray :=
  match str with
  | [] => Ok msgs
  | c0 :: _ =>
      if c0 =? 10 then Ok msgs
      else
        r <- clean_line str ;;
        let '(str, str_len) := r in
        match_formats (error_formats c) msgs str str_len
  end.

(* the [while (fgets(...))] loop of read_errors over the lines fgets gives *)
Fixpoint read_errors_loop (c : Compiler) (quiet : bool) (lines : list (list Z))
         (msgs : MessageArray) (w : world) : res (MessageArray * world) :=
  match lines with
  | [] => Ok (msgs, w)
  | l :: lines' =>
      let w := if quiet then w else log (EvWrite STDERR_FILENO) w in
      msgs <- handle_error_msg c msgs l ;;
      read_errors_loop c quiet lines' msgs w
  end.

(* read_errors; fclose closes the descriptor fdopen was given *)
Definition read_errors (c : Compiler) (msgs : MessageArray) (fd : Z)
           (quiet : bool) (fdopen_ok : bool) (lines : list (list Z))
           (w : world) : res (MessageArray * world) :=
  if negb fdopen_ok then Ok (msgs, w)
  else
    r <- read_errors_loop c quiet lines msgs w ;;
    let '(msgs, w) := r in
    Ok (msgs, snd (xclose fd w)).

(* what the system answers during one call of spawn_compiler *)
Record compiler_oracle : Type := {
  null_in_ok : bool;            (* open_dev_null(O_RDONLY) *)
  null_out_ok : bool;           (* open_dev_null(O_WRONLY) *)
  cpipe_ok : bool;
  cfork_ok : bool;
  fdopen_ok : bool;
  stderr_lines : list (list Z); (* what fgets returns, line by line *)
  cwait_status : Z
}.

Definition spawn_compiler (flags : Z) (c : Compiler) (orc : compiler_oracle)
           (msgs : MessageArray) (w : world) : res (MessageArray * world) :=
  let '(fd0, w) := open_dev_null (null_in_ok orc) w in
  if fd0 <? 0 then Ok (msgs, w)
  else
    let '(dev_null, w) := open_dev_null (null_out_ok orc) w in
    if dev_null <? 0 then Ok (msgs, snd (xclose fd0 w))
    else
      match pipe_cloexec (cpipe_ok orc) w with
      | (None, w) =>
          let w := say (perror_msg "pipe") w in
          let w := snd (xclose dev_null w) in
          Ok (msgs, snd (xclose fd0 w))
      | (Some (p0, p1), w) =>
          let read_stdout := negb (Z.land flags SPAWN_READ_STDOUT =? 0) in
          let quiet := negb (Z.land flags SPAWN_QUIET =? 0) in
          let prompt := negb (Z.land flags SPAWN_PROMPT =? 0) in
          let fd1 := if read_stdout then p1
                     else if quiet then dev_null else 1 in
          let fd2 := if read_stdout then (if quiet then dev_null else 2)
                     else p1 in
          let w := yield_terminal quiet w in
          let w := log (EvFork [fd0; fd1; fd2]) w in
          r <- (if negb (cfork_ok orc) then
                  let w := say (error_msg "Unable to exec") w in
                  let w := snd (xclose p1 w) in
                  Ok (msgs, false, w)
                else
                  let w := snd (xclose p1 w) in
                  r <- read_errors c msgs p0 quiet (fdopen_ok orc)
                                   (stderr_lines orc) w ;;
                  let '(msgs, w) := r in
                  let w := snd (handle_child_error (cwait_status orc) w) in
                  Ok (msgs, prompt, w)) ;;
          let '(msgs, prompt, w) := r in
          let w := resume_terminal quiet prompt w in
          let w := snd (xclose p0 w) in
          let w := snd (xclose dev_null w) in
          Ok (msgs, snd (xclose fd0 w))
      end.

End Compiler.

(* a call that opens and closes no descriptor: the wait for the child, and
   the terminal being taken back *)
Definition waits_or_term (ev : sys_event) : bool :=
  match ev with
  | EvWait | EvTerm _ => true
  | _ => false
  end.

End SpawnCompiler.

(** ** The older spawn.c: [spawn_filter], [spawn_compiler], [spawn] *)

Module OldSpawn.

Import Spawn.

(* a C int used as a condition *)
Definition truthy (v : Z) : bool := negb (v =? 0).

(* handle_child_error of the older file: the same tests, other texts *)
Definition handle_child_error (status : Z) (w : world) : Z * world :=
  let w := log EvWait w in
  if status <? 0 then (status, say (error_msg "waitpid") w)
  else if 256 <=? status then (status, say (error_msg "Child received signal") w)
  else if negb (status =? 0) then (status, say (error_msg "Child returned") w)
  else (status, w).

(* the terminal given to the child, and taken back *)
Definition give_terminal (quiet : Z) (w : world) : world :=
  if truthy quiet then w
  else log (EvTerm "ui_end") (set_cct true w).

Definition take_terminal (quiet prompt : Z) (w : world) : world :=
  if truthy quiet then w
  else
    let w := log (EvTerm "term_raw") w in
    let w := if truthy prompt then log (EvTerm "any_key") w else w in
    set_cct false (log (EvTerm "resize") w).

(** *** [filter] *)

(* struct filter_data *)
Record filter_data : Type := {
  fin : list Z;                 (* in, in_len *)
  out : option (list Z);        (* out; None is NULL *)
  out_len : Z
}.

(* filter(rfd, wfd, fdata): the close before the loop, the select loop and
   the handing over of the buffer; the result is out and out_len *)
Definition old_filter (rfd wfd : Z) (input : list Z) (ticks : list old_tick)
           (w : world) : res (option (list Z) * Z * world) :=
  let '(wfd, w) := match input with
                   | [] => (-1, snd (xclose wfd w))
                   | _ :: _ => (wfd, w)
                   end in
  s <- old_filter_loop ticks
         {| rfd := rfd; wfd := wfd; old_wlen := 0; in_data := input;
            buf := []; oworld := w |} ;;
  match buf s with
  | [] => Ok (None, 0, oworld s)
  | b => Ok (Some b, Z.of_nat (length b), oworld s)
  end.

(** *** [spawn_filter] *)

(* what the system answers during one call of spawn_filter *)
Record filter_oracle : Type := {
  p0_ok : bool;                 (* pipe_close_on_exec(p0) *)
  p1_ok : bool;                 (* pipe_close_on_exec(p1) *)
  fnull_ok : bool;              (* open_dev_null(O_WRONLY) *)
  ffork_ok : bool;
  fticks : list old_tick;       (* for the select loop of filter *)
  fwait_status : Z
}.

(* error: *)
Definition filter_error (p00 p01 p10 p11 dev_null : Z) (w : world) : world :=
  let w := snd (xclose p00 w) in
  let w := snd (xclose p01 w) in
  let w := snd (xclose p10 w) in
  let w := snd (xclose p11 w) in
  snd (xclose dev_null w).

(* pipe_close_on_exec of fork.c is outside the sources at hand; it is taken
   to leave p[] as it was when it fails *)
Definition spawn_filter (orc : filter_oracle) (data : filter_data) (w : world)
  : res (Z * filter_data * world) :=
  let data := {| fin := fin data; out := None; out_len := 0 |} in
  match pipe_cloexec (p0_ok orc) w with
  | (None, w) =>
      let w := say (error_msg "pipe") w in
      Ok (-1, data, filter_error (-1) (-1) (-1) (-1) (-1) w)
  | (Some (p00, p01), w) =>
      match pipe_cloexec (p1_ok orc) w with
      | (None, w) =>
          let w := say (error_msg "pipe") w in
          Ok (-1, data, filter_error p00 p01 (-1) (-1) (-1) w)
      | (Some (p10, p11), w) =>
          let '(dev_null, w) := open_dev_null (fnull_ok orc) w in
          if dev_null <? 0
          then Ok (-1, data, filter_error p00 p01 p10 p11 dev_null w)
          else
            let w := log (EvFork [p00; p11; dev_null]) w in
            if negb (ffork_ok orc) then
              let w := say (error_msg "Error") w in
              Ok (-1, data, filter_error p00 p01 p10 p11 dev_null w)
            else
              let w := snd (xclose dev_null w) in
              let w := snd (xclose p00 w) in
              let w := snd (xclose p11 w) in
              r <- old_filter p10 p01 (fin data) (fticks orc) w ;;
              let '(o, ol, w) := r in
              let data := {| fin := fin data; out := o; out_len := ol |} in
              let w := snd (xclose p10 w) in
              let w := snd (xclose p01 w) in
              let '(st, w) := handle_child_error (fwait_status orc) w in
              if truthy st then Ok (-1, data, w) else Ok (0, data, w)
      end
  end.

(** *** [handle_error_msg], [read_errors], [spawn_compiler] *)

(* the first loop of handle_error_msg: the string as it is when the loop is
   left; [len] is its length *)
Fixpoint clean_line (str : list Z) : list Z :=
  match str with
  | [] => []
  | ch :: rest =>
      if ch =? 10 then []
      else (if ch =? 9 then 32 else ch) :: clean_line rest
  end.

(* what handle_error_msg sets in the message it made *)
Record location : Type := {
  file : option (list Z);
  line : Z;
  column : Z
}.

Section Compiler.

(* Types and functions of regexp.h and msg.h and atoi, all outside the
   sources at hand. *)
Variable regex : Type.
Variable Msg : Type.                       (* what new_message returns *)
Variable MessageStore : Type.              (* the messages add_message keeps *)
(* regexp_match(pattern, str, len): regexp_matches[] when it matches *)
Variable regexp_match : regex -> list Z -> Z -> option (list (list Z)).
Variable new_message : list Z -> Msg.
Variable atoi : list Z -> Z.

(* a message with what handle_error_msg set in it, if anything *)
Definition Message : Type := (Msg * option location)%type.

Variable add_message : MessageStore -> Message -> MessageStore.

(* struct error_format *)
Record error_format : Type := {
  pattern : regex;
  ignore : bool;
  msg_idx : Z;
  file_idx : Z;
  line_idx : Z;
  column_idx : Z
}.

(* struct compiler *)
Record compiler : Type := { error_formats : list error_format }.

(* p->idx < 0 ? dflt : f(regexp_matches[p->idx]) *)
Definition match_or {A : Type} (ms : list (list Z)) (idx : Z) (dflt : A)
           (f : list Z -> A) : res A :=
  if idx <? 0 then Ok dflt
  else s <- aget ms idx ;; Ok (f s).

(* the message made for a format that is not an ignore format *)
Definition message_of_match (p : error_format) (ms : list (list Z))
  : res Message :=
  t <- aget ms (msg_idx p) ;;
  let m := new_message t in
  f <- match_or ms (file_idx p) None Some ;;
  l <- match_or ms (line_idx p) 0 atoi ;;
  c <- match_or ms (column_idx p) 0 atoi ;;
  Ok (m, Some {| file := f; line := l; column := c |}).

(* the [for] loop over c->error_formats, and the add_message after it *)
Fixpoint match_formats (fmts : list error_format) (store : MessageStore)
         (str : list Z) (len : Z) : res MessageStore :=
  match fmts with
  | [] => Ok (add_message store (new_message str, None))
  | p :: rest =>
      match regexp_match (pattern p) str len with
      | None => match_formats rest store str len
      | Some ms =>
          if negb (ignore p) then
            m <- message_of_match p ms ;;
            Ok (add_message store m)
          else Ok store
      end
  end.

Definition handle_error_msg (c : compiler) (store : MessageStore)
           (str : list Z) : res MessageStore :=
  let str := clean_line str in
  let len := Z.of_nat (length str) in
  if len =? 0 then Ok store
  else match_formats (error_formats c) store str len.

(* the [while (fgets(...))] loop of read_errors over the lines fgets gives *)
Fixpoint read_errors_loop (c : compiler) (quiet : Z) (lines : list (list Z))
         (store : MessageStore) (w : world) : res (MessageStore * world) :=
  match lines with
  | [] => Ok (store, w)
  | l :: lines' =>
      let w := if truthy quiet then w else log (EvWrite STDERR_FILENO) w in
      store <- handle_error_msg c store l ;;
      read_errors_loop c quiet lines' store w
  end.

(* read_errors; fclose closes the descriptor fdopen was given *)
Definition read_errors (c : compiler) (store : MessageStore) (fd : Z)
           (quiet : Z) (fdopen_ok : bool) (lines : list (list Z))
           (w : world) : res (MessageStore * world) :=
  if negb fdopen_ok then Ok (store, w)
  else
    r <- read_errors_loop c quiet lines store w ;;
    let '(store, w) := r in
    Ok (store, snd (xclose fd w)).

(* what the system answers during one call of spawn_compiler *)
Record compiler_oracle : Type := {
  cnull_ok : bool;              (* open_dev_null(O_WRONLY) *)
  cpipe_ok : bool;
  cfork_ok : bool;
  fdopen_ok : bool;
  stderr_lines : list (list Z); (* what fgets returns, line by line *)
  cwait_status : Z
}.

Definition spawn_compiler (flags : Z) (c : compiler) (orc : compiler_oracle)
           (store : MessageStore) (w : world) : res (MessageStore * world) :=
  let read_stdout := Z.land flags SPAWN_READ_STDOUT in
  let prompt := Z.land flags SPAWN_PROMPT in
  let quiet := Z.land flags SPAWN_QUIET in
  let '(dev_null, w) := open_dev_null (cnull_ok orc) w in
  if dev_null <? 0 then Ok (store, w)
  else
    match pipe_cloexec (cpipe_ok orc) w with
    | (None, w) =>
        let w := say (error_msg "pipe") w in
        Ok (store, snd (xclose dev_null w))
    | (Some (p0, p1), w) =>
        let fd0 := dev_null in
        let fd1 := if truthy read_stdout then p1
                   else if truthy quiet then dev_null else 1 in
        let fd2 := if truthy read_stdout
                   then (if truthy quiet then dev_null else 2)
                   else p1 in
        let w := give_terminal quiet w in
        let w := log (EvFork [fd0; fd1; fd2]) w in
        r <- (if negb (cfork_ok orc) then
                let w := say (error_msg "Error") w in
                let w := snd (xclose p1 w) in
                Ok (store, 0, w)
              else
                let w := snd (xclose p1 w) in
                r <- read_errors c store p0 quiet (fdopen_ok orc)
                                 (stderr_lines orc) w ;;
                let '(store, w) := r in
                let w := snd (handle_child_error (cwait_status orc) w) in
                Ok (store, prompt, w)) ;;
        let '(store, prompt, w) := r in
        let w := take_terminal quiet prompt w in
        let w := snd (xclose p0 w) in
        Ok (store, snd (xclose dev_null w))
    end.

End Compiler.

(** *** [spawn] *)

(* what the system answers during one call of spawn *)
Record spawn_oracle : Type := {
  snull_ok : bool;              (* open_dev_null(O_WRONLY) *)
  sfork_ok : bool;
  swait_status : Z
}.

(* the [for] loop that points the negative entries of fd[] at /dev/null,
   from i on; the boolean is false when spawn returned from inside it *)
Fixpoint redirect_fds (null_ok : bool) (idxs : list nat) (fd : list Z)
         (dev_null redir_count : Z) (w : world)
  : res (bool * list Z * Z * Z * world) :=
  match idxs with
  | [] => Ok (true, fd, dev_null, redir_count, w)
  | i :: idxs' =>
      match nth_error fd i with
      | None => Err OutOfBounds
      | Some v =>
          if 0 <=? v
          then redirect_fds null_ok idxs' fd dev_null redir_count w
          else
            let '(dev_null, w) :=
              if dev_null <? 0 then open_dev_null null_ok w
              else (dev_null, w) in
            if dev_null <? 0 then Ok (false, fd, dev_null, redir_count, w)
            else redirect_fds null_ok idxs' (replace_nth i dev_null fd)
                              dev_null (redir_count + 1) w
      end
  end.

(* spawn(args, fd, prompt); the result is fd[] as the caller finds it *)
Definition spawn (fd : list Z) (prompt : Z) (orc : spawn_oracle) (w : world)
  : res (list Z * world) :=
  r <- redirect_fds (snull_ok orc) [0%nat; 1%nat; 2%nat] fd (-1) 0 w ;;
  let '(ok, fd, dev_null, redir_count, w) := r in
  if negb ok then Ok (fd, w)
  else
    let quiet := if redir_count =? 3 then 1 else 0 in
    let w := give_terminal quiet w in
    let w := log (EvFork (firstn 3 fd)) w in
    let '(prompt, w) :=
      if negb (sfork_ok orc) then (0, say (error_msg "Error") w)
      else (prompt, snd (handle_child_error (swait_status orc) w)) in
    let w := take_terminal quiet prompt w in
    let w := if 0 <=? dev_null then snd (xclose dev_null w) else w in
    Ok (fd, w).

(** *** Descriptors during a call *)

(* [w] is [w0] with nothing of [w0] closed and, besides, only descriptors
   of [L] open, none of which was open in [w0] *)
Definition owns (L : list Z) (w0 w : world) : Prop :=
  (forall x, In x (open_fds w0) -> In x (open_fds w))
  /\ (forall x, In x (open_fds w) -> In x (open_fds w0) \/ In x L)
  /\ (forall x, In x L -> ~ In x (open_fds w0)).

(* the calls filter(rfd, wfd, ...) may make *)
Definition filter_event (rfd wfd : Z) (ev : sys_event) : bool :=
  match ev with
  | EvPoll => true
  | EvRead fd => fd =? rfd
  | EvWrite fd => fd =? wfd
  | EvClose fd _ => fd =? wfd
  | _ => false
  end.

(* [w'] is [w] after calls that all satisfy [P] *)
Definition calls_only (P : sys_event -> bool) (w w' : world) : Prop :=
  exists dt, trace w' = trace w ++ dt /\ forallb P dt = true.

(* what a turn of the select loop keeps *)
Definition turn_ok (r0 w0 : Z) (s s' : old_filter_state) : Prop :=
  evolves [w0] (oworld s) (oworld s')
  /\ calls_only (filter_event r0 w0) (oworld s) (oworld s')
  /\ rfd s' = rfd s /\ in_data s' = in_data s
  /\ (wfd s' = wfd s \/ wfd s' = -1)
  /\ (exists d, buf s' = buf s ++ d).

End OldSpawn.

(** ** The turns of a filter run and the bytes they write *)

Module FilterRun.

Import Spawn OldSpawn.

(** *** The bytes a run of the filter loop has written *)

Section Runs.
Context {T S : Type}.
(* one turn of the loop *)
Variable step : T -> S -> loop_ctl * S.
(* what the write of the turn returned, 0 when the turn made none *)
Variable written : T -> S -> Z.

(* the turns the loop makes on the answers [ticks], each with the state it
   starts in; the loop is left after the turn that breaks *)
Fixpoint turns (ticks : list T) (s : S) : list (T * S) :=
  match ticks with
  | [] => []
  | t :: ticks' =>
      (t, s) :: match step t s with
                | (Continue, s') => turns ticks' s'
                | (Break, _) => []
                end
  end.

(* the sum of what the writes of the turns returned *)
Definition bytes_written (run : list (T * S)) : Z :=
  fold_right (fun ts acc => written (fst ts) (snd ts) + acc) 0 run.

(* write() returns no less than 0 and no more than it was asked to write,
   which is the input left: [len] bytes less the [acc] written before *)
Fixpoint writes_within (len acc : Z) (run : list (T * S)) : bool :=
  match run with
  | [] => true
  | ts :: run' =>
      let n := written (fst ts) (snd ts) in
      (0 <=? n) && (n <=? len - acc) && writes_within len (acc + n) run'
  end.

End Runs.

(* a read, a write is among the calls *)
Definition made_read (evs : list sys_event) : bool :=
  existsb (fun k => match k with Rd => true | Wr => false end) (io_order evs).

Definition made_write (evs : list sys_event) : bool :=
  existsb (fun k => match k with Wr => true | Rd => false end) (io_order evs).

(* the read returned 0 *)
Definition read_zero (r : read_result) : bool :=
  match r with
  | ReadBytes data =>
      match firstn (Z.to_nat 8192) data with
      | [] => true
      | _ :: _ => false
      end
  | ReadFailed => false
  end.

Definition write_count (r : write_result) : Z :=
  match r with
  | WriteCount n => n
  | WriteFailed => 0
  end.

(* what write() returned, as the loop adds it to wlen *)
Definition counted (r : write_result) (asked : Z) : Z :=
  match r with
  | WriteCount n => Z.max 0 (Z.min n asked)
  | WriteFailed => 0
  end.

(* poll() reports input on fds[0] *)
Definition polls_in (t : tick) (s : filter_state) : bool :=
  match polled t with
  | PollReady e0 _ => has (revents_for (fd0 s) e0) POLLIN
  | PollFailed _ => false
  end.

(* the poll loop of filter *)
Definition turn_written (t : tick) (s : filter_state) : Z :=
  if made_write (step_events t s) then write_count (write_rc t) else 0.

Definition reads_eof (t : tick) (s : filter_state) : bool :=
  made_read (step_events t s) && read_zero (read_rc t).

(* the state in which filter enters its loop *)
Definition filter_start (rfd wfd : Z) (ctx : SpawnContext) (w : world)
  : filter_state :=
  match input ctx with
  | [] => {| fd0 := rfd; fd1 := -1; wlen := 0; fctx := ctx;
             fworld := snd (xclose wfd w) |}
  | _ :: _ => {| fd0 := rfd; fd1 := wfd; wlen := 0; fctx := ctx;
                 fworld := w |}
  end.

(* none of the three BUG_ONs of filter fires *)
Definition filter_fds_ok (rfd wfd : Z) : bool :=
  negb ((rfd <? 0) && (wfd <? 0))
  && negb ((0 <=? rfd) && (rfd <=? 2))
  && negb ((0 <=? wfd) && (wfd <=? 2)).

(* the select loop of the older filter *)
(* select() reports input on rfd *)
Definition old_polls_in (t : old_tick) : bool :=
  match selected t with
  | SelectReady rset _ => rset
  | SelectFailed _ => false
  end.

Definition old_turn_written (t : old_tick) (s : old_filter_state) : Z :=
  if made_write (old_step_events t s) then write_count (old_write_rc t) else 0.

Definition old_reads_eof (t : old_tick) (s : old_filter_state) : bool :=
  made_read (old_step_events t s) && read_zero (old_read_rc t).

Definition old_filter_start (rfd wfd : Z) (input : list Z) (w : world)
  : old_filter_state :=
  match input with
  | [] => {| rfd := rfd; wfd := -1; old_wlen := 0; in_data := input;
             buf := []; oworld := snd (xclose wfd w) |}
  | _ :: _ => {| rfd := rfd; wfd := wfd; old_wlen := 0; in_data := input;
                 buf := []; oworld := w |}
  end.

End FilterRun.

(** ** The [exec] command: [cmd_exec] of [commands.c], [handle_exec] of [exec.c] *)

Module Exec.

Import Spawn.

(* ExecAction.  commands.c declares the first nine, in this order; the
   handle_exec of exec.c also knows EXEC_WORD. *)
Inductive ExecAction : Type :=
| EXEC_BUFFER
| EXEC_ERRMSG
| EXEC_EVAL
| EXEC_LINE
| EXEC_MSG
| EXEC_NULL
| EXEC_OPEN
| EXEC_TAG
| EXEC_TTY
| EXEC_WORD.

(* ExecFlags *)
Definition IN : Z := Z.shiftl 1 0.
Definition OUT : Z := Z.shiftl 1 1.
Definition ERR : Z := Z.shiftl 1 2.
Definition ALL : Z := Z.lor IN (Z.lor OUT ERR).

Record exec_map_entry : Type := {
  name : string;
  spawn_action : SpawnAction;
  eflags : Z
}.

(* exec_map[], indexed by the action *)
Definition exec_map (act : ExecAction) : exec_map_entry :=
  match act with
  | EXEC_BUFFER => {| name := "buffer"; spawn_action := SPAWN_PIPE; eflags := Z.lor IN OUT |}
  | EXEC_ERRMSG => {| name := "errmsg"; spawn_action := SPAWN_PIPE; eflags := ERR |}
  | EXEC_EVAL => {| name := "eval"; spawn_action := SPAWN_PIPE; eflags := OUT |}
  | EXEC_LINE => {| name := "line"; spawn_action := SPAWN_PIPE; eflags := IN |}
  | EXEC_MSG => {| name := "msg"; spawn_action := SPAWN_PIPE; eflags := Z.lor IN OUT |}
  | EXEC_NULL => {| name := "null"; spawn_action := SPAWN_NULL; eflags := ALL |}
  | EXEC_OPEN => {| name := "open"; spawn_action := SPAWN_PIPE; eflags := OUT |}
  | EXEC_TAG => {| name := "tag"; spawn_action := SPAWN_PIPE; eflags := OUT |}
  | EXEC_TTY => {| name := "tty"; spawn_action := SPAWN_TTY; eflags := ALL |}
  (* no row in commands.c: BSEARCH_IDX never yields it *)
  | EXEC_WORD => {| name := "word"; spawn_action := SPAWN_PIPE; eflags := IN |}
  end.

(* the rows of exec_map in commands.c, sorted by name *)
Definition exec_map_rows : list ExecAction :=
  [EXEC_BUFFER; EXEC_ERRMSG; EXEC_EVAL; EXEC_LINE; EXEC_MSG; EXEC_NULL;
   EXEC_OPEN; EXEC_TAG; EXEC_TTY].

(* BSEARCH_IDX(flag_arg, exec_map, strcmp): the row whose name is the key.
   The rows are sorted and their names distinct, so the binary search finds
   what a scan finds. *)
Definition BSEARCH_IDX (key : string) : option ExecAction :=
  find (fun act => String.eqb key (name (exec_map act))) exec_map_rows.

Record CommandArgs : Type := {
  args : list string;
  cflags : list ascii;          (* a->flags[0 .. nr_flags) *)
  nr_flag_args : nat
}.

(* the locals of cmd_exec that its flag loop sets *)
Record exec_opts : Type := {
  actions : list ExecAction;
  spawn_actions : list SpawnAction;
  spawn_flags : Z;
  lflag : bool;
  move_after_insert : bool;
  strip_trailing_newline : bool
}.

Definition exec_opts_init : exec_opts :=
  {| actions := [EXEC_TTY; EXEC_TTY; EXEC_TTY];
     spawn_actions := [SPAWN_TTY; SPAWN_TTY; SPAWN_TTY];
     spawn_flags := 0; lflag := false; move_after_insert := false;
     strip_trailing_newline := false |}.

Definition with_spawn_flags (o : exec_opts) (f : Z) : exec_opts :=
  {| actions := actions o; spawn_actions := spawn_actions o; spawn_flags := f;
     lflag := lflag o; move_after_insert := move_after_insert o;
     strip_trailing_newline := strip_trailing_newline o |}.

Definition with_lflag (o : exec_opts) : exec_opts :=
  {| actions := actions o; spawn_actions := spawn_actions o;
     spawn_flags := spawn_flags o; lflag := true;
     move_after_insert := move_after_insert o;
     strip_trailing_newline := strip_trailing_newline o |}.

Definition with_move_after_insert (o : exec_opts) (v : bool) : exec_opts :=
  {| actions := actions o; spawn_actions := spawn_actions o;
     spawn_flags := spawn_flags o; lflag := lflag o;
     move_after_insert := v;
     strip_trailing_newline := strip_trailing_newline o |}.

Definition with_strip (o : exec_opts) : exec_opts :=
  {| actions := actions o; spawn_actions := spawn_actions o;
     spawn_flags := spawn_flags o; lflag := lflag o;
     move_after_insert := move_after_insert o;
     strip_trailing_newline := true |}.

Definition with_action (o : exec_opts) (fd_idx : nat) (act : ExecAction)
  : exec_opts :=
  {| actions := replace_nth fd_idx act (actions o);
     spawn_actions := replace_nth fd_idx (spawn_action (exec_map act))
                                  (spawn_actions o);
     spawn_flags := spawn_flags o; lflag := lflag o;
     move_after_insert := move_after_insert o;
     strip_trailing_newline := strip_trailing_newline o |}.

Definition with_actions (o : exec_opts) (acts : list ExecAction) : exec_opts :=
  {| actions := acts; spawn_actions := spawn_actions o;
     spawn_flags := spawn_flags o; lflag := lflag o;
     move_after_insert := move_after_insert o;
     strip_trailing_newline := strip_trailing_newline o |}.

(* how the flag loop ends: with the "invalid action" error, or through *)
Inductive flag_outcome : Type :=
| Rejected (flag : ascii) (flag_arg : string)
| Accepted (o : exec_opts).

(* the per-fd role validity check *)
Definition role_ok (act : ExecAction) (fd_idx : nat) : bool :=
  negb (Z.land (eflags (exec_map act)) (Z.shiftl 1 (Z.of_nat fd_idx)) =? 0).

(* the [for] loop over a->flags, with x the index of the next flag argument *)
Fixpoint exec_flags (fl : list ascii) (argl : list string) (x : nat)
         (o : exec_opts) : res flag_outcome :=
  match fl with
  | [] => Ok (Accepted o)
  | c :: fl' =>
      let redirect (fd_idx : nat) :=
        match nth_error argl x with
        | None => Err OutOfBounds
        | Some flag_arg =>
            match BSEARCH_IDX flag_arg with
            | None => Ok (Rejected c flag_arg)
            | Some act =>
                if role_ok act fd_idx
                then exec_flags fl' argl (S x) (with_action o fd_idx act)
                else Ok (Rejected c flag_arg)
            end
        end in
      if Ascii.eqb c "e" then redirect 2%nat
      else if Ascii.eqb c "i" then redirect 0%nat
      else if Ascii.eqb c "o" then redirect 1%nat
      else if Ascii.eqb c "p"
      then exec_flags fl' argl x
             (with_spawn_flags o (Z.lor (spawn_flags o) SPAWN_PROMPT))
      else if Ascii.eqb c "s"
      then exec_flags fl' argl x
             (with_spawn_flags o (Z.lor (spawn_flags o) SPAWN_QUIET))
      else if Ascii.eqb c "t"
      then exec_flags fl' argl x
             (with_spawn_flags o (Z.land (spawn_flags o) (Z.lnot SPAWN_QUIET)))
      else if Ascii.eqb c "l" then exec_flags fl' argl x (with_lflag o)
      else if Ascii.eqb c "m"
      then exec_flags fl' argl x (with_move_after_insert o true)
      else if Ascii.eqb c "n" then exec_flags fl' argl x (with_strip o)
      else Err (BugOn "unexpected flag")
  end.

Definition ExecAction_eqb (x y : ExecAction) : bool :=
  match x, y with
  | EXEC_BUFFER, EXEC_BUFFER | EXEC_ERRMSG, EXEC_ERRMSG
  | EXEC_EVAL, EXEC_EVAL | EXEC_LINE, EXEC_LINE | EXEC_MSG, EXEC_MSG
  | EXEC_NULL, EXEC_NULL | EXEC_OPEN, EXEC_OPEN | EXEC_TAG, EXEC_TAG
  | EXEC_TTY, EXEC_TTY | EXEC_WORD, EXEC_WORD => true
  | _, _ => false
  end.

Definition action_at (acts : list ExecAction) (fd : Z) : ExecAction :=
  nth (Z.to_nat fd) acts EXEC_TTY.

(* the actions the input switch of cmd_exec handles *)
Definition feeds_input (act : ExecAction) : bool :=
  match act with
  | EXEC_BUFFER | EXEC_LINE | EXEC_MSG | EXEC_NULL | EXEC_TTY => true
  | _ => false
  end.

(* SpawnContext as cmd_exec and handle_exec fill it *)
Record ExecContext : Type := {
  xargv : list string;
  xenv : list string;
  input_data : list Z;
  input_length : Z;
  outputs0 : list Z;            (* ctx.outputs[0]: the child's stdout *)
  outputs1 : list Z;            (* ctx.outputs[1]: the child's stderr *)
  xflags : Z
}.

Definition with_input (ctx : ExecContext) (data : list Z) (len : Z)
  : ExecContext :=
  {| xargv := xargv ctx; xenv := xenv ctx; input_data := data;
     input_length := len; outputs0 := outputs0 ctx; outputs1 := outputs1 ctx;
     xflags := xflags ctx |}.

(* the trailing "\n" or "\r\n" dropped from the output *)
Definition strip_newline (out : list Z) : list Z :=
  match rev out with
  | 10 :: 13 :: r => rev r
  | 10 :: r => rev r
  | _ => out
  end.

(* the actions the output switch of cmd_exec handles *)
Definition routes_output (act : ExecAction) : bool :=
  match act with
  | EXEC_BUFFER | EXEC_EVAL | EXEC_MSG | EXEC_NULL | EXEC_OPEN | EXEC_TAG
  | EXEC_TTY => true
  | _ => false
  end.

(* actions[i] is a row of exec_map valid for descriptor i, and
   spawn_actions[i] is the spawn action of that row *)
Definition fd_valid (o : exec_opts) (i : nat) : bool :=
  let act := nth i (actions o) EXEC_TTY in
  existsb (ExecAction_eqb act) exec_map_rows
  && role_ok act i
  && SpawnAction_eqb (nth i (spawn_actions o) SPAWN_TTY)
                     (spawn_action (exec_map act)).

Definition valid_opts (o : exec_opts) : bool :=
  Nat.eqb (length (actions o)) 3 && Nat.eqb (length (spawn_actions o)) 3
  && forallb (fd_valid o) [0%nat; 1%nat; 2%nat].

(* the descriptor a flag of cmd_exec redirects *)
Definition redirect_fd (c : ascii) : option nat :=
  if Ascii.eqb c "e" then Some 2%nat
  else if Ascii.eqb c "i" then Some 0%nat
  else if Ascii.eqb c "o" then Some 1%nat
  else None.

(* the flag arguments the flags [fl] take: x++ once for every -e, -i, -o *)
Definition flag_args_taken (fl : list ascii) : nat :=
  length (List.filter (fun c => match redirect_fd c with
                                | Some _ => true
                                | None => false
                                end) fl).

(* the test of the flag loop on the argument of a redirecting flag:
   action >= 0 and exec_map[action].flags & 1u << fd_idx *)
Definition arg_ok (fd_idx : nat) (flag_arg : string) : bool :=
  match BSEARCH_IDX flag_arg with
  | None => false
  | Some act => role_ok act fd_idx
  end.

(* whether SPAWN_QUIET is set after the flags [fl], from [q] *)
Definition quiet_after (fl : list ascii) (q : bool) : bool :=
  fold_left (fun q c => if Ascii.eqb c "s" then true
                        else if Ascii.eqb c "t" then false else q) fl q.

Definition has_flag (f flag : Z) : bool := negb (Z.land f flag =? 0).

Section Editor.

Variable Block : Type.
(* the rest of EditorState: buffer, messages, bookmarks, window *)
Variable Rest : Type.

Record BlockIter : Type := { blk : Block; offset : Z }.
Record View : Type := { cursor : BlockIter; selection : Z }.
Record EditorState : Type := { view : View; rest : Rest }.

Definition set_cursor (e : EditorState) (c : BlockIter) : EditorState :=
  {| view := {| cursor := c; selection := selection (view e) |};
     rest := rest e |}.

Definition set_view (e : EditorState) (v : View) : EditorState :=
  {| view := v; rest := rest e |}.

(* Functions of the editor that the exec code calls and that are defined
   outside the sources at hand. *)
Variable blk_size : Block -> Z.
Variable prepare_selection : EditorState -> Z * View.
Variable move_bol : EditorState -> View.
Variable move_bof : EditorState -> View.
Variable fill_line_ref : EditorState -> Z.          (* line.length at the cursor *)
Variable blocks_size : EditorState -> Z.            (* the sum of blk->size *)
Variable block_iter_get_bytes : EditorState -> Z -> list Z.
Variable view_do_get_word_under_cursor : EditorState -> Z * Z.
Variable dump_messages : EditorState -> list Z.
Variable lines_and_columns_env : EditorState -> list string.
Variable error_msg : string -> EditorState -> EditorState.
Variable buffer_replace_bytes : Z -> list Z -> EditorState -> EditorState.
Variable unselect : EditorState -> EditorState.
Variable parse_and_activate_message : list Z -> EditorState -> EditorState.
Variable open_files_from_string : list Z -> EditorState -> EditorState.
Variable parse_and_goto_tag : list Z -> EditorState -> EditorState.
Variable exec_config : list Z -> EditorState -> EditorState.
Variable block_iter_skip_bytes : Z -> EditorState -> EditorState.
(* spawn() as these callers use it: an int status, the outputs in ctx *)
Variable spawn : ExecContext -> list SpawnAction -> EditorState
                 -> Z * ExecContext * EditorState.

Definition show_spawn_error_msg (errstr : list Z) (err : Z) (e : EditorState)
  : EditorState :=
  if err <=? 0 then e
  else if 256 <=? err then error_msg "Child received signal" e
  else error_msg "Child returned" e.

(* get_bytes: *)
Definition get_bytes (e : EditorState) (ctx : ExecContext) (len : Z)
  : EditorState * ExecContext :=
  (e, with_input ctx (block_iter_get_bytes e len) len).

(* switch (actions[STDIN_FILENO]) of cmd_exec *)
Definition cmd_exec_input (act : ExecAction) (e : EditorState)
           (ctx : ExecContext) : res (EditorState * ExecContext) :=
  match act with
  | EXEC_LINE =>
      if negb (selection (view e) =? 0) then
        let '(len, v) := prepare_selection e in
        Ok (get_bytes (set_view e v) ctx len)
      else
        let e := set_view e (move_bol e) in
        Ok (get_bytes e ctx (fill_line_ref e))
  | EXEC_BUFFER =>
      if negb (selection (view e) =? 0) then
        let '(len, v) := prepare_selection e in
        Ok (get_bytes (set_view e v) ctx len)
      else
        let len := input_length ctx + blocks_size e in
        let e := set_view e (move_bof e) in
        Ok (get_bytes e ctx len)
  | EXEC_MSG =>
      let messages := dump_messages e in
      Ok (e, with_input ctx messages (Z.of_nat (length messages)))
  | EXEC_NULL | EXEC_TTY => Ok (e, ctx)
  | _ => Err (BugOn "unhandled action")
  end.

(* switch (actions[STDIN_FILENO]) of handle_exec *)
Definition handle_exec_input (act : ExecAction) (e : EditorState)
           (ctx : ExecContext) : res (EditorState * ExecContext) :=
  match act with
  | EXEC_WORD =>
      if negb (selection (view e) =? 0) then
        let '(len, v) := prepare_selection e in
        Ok (get_bytes (set_view e v) ctx len)
      else
        let '(wlen, woff) := view_do_get_word_under_cursor e in
        if wlen =? 0 then Ok (e, ctx)
        else
          let e := set_view e (move_bol e) in
          let c := cursor (view e) in
          let c := {| blk := blk c; offset := offset c + woff |} in
          let e := set_cursor e c in
          if blk_size (blk c) <=? offset c
          then Err (BugOn "view->cursor.offset >= view->cursor.blk->size")
          else Ok (get_bytes e ctx wlen)
  | _ => cmd_exec_input act e ctx
  end.

(* switch (actions[STDOUT_FILENO]); the list names the consumer that ran *)
Definition route_output (act : ExecAction) (ctx : ExecContext)
           (output : list Z) (e : EditorState)
  : res (EditorState * list ExecAction) :=
  match act with
  | EXEC_BUFFER =>
      let del_count := input_length ctx in
      let '(del_count, e) :=
        if negb (selection (view e) =? 0) && (del_count =? 0)
        then let '(n, v) := prepare_selection e in (n, set_view e v)
        else (del_count, e) in
      Ok (unselect (buffer_replace_bytes del_count output e), [EXEC_BUFFER])
  | EXEC_MSG => Ok (parse_and_activate_message output e, [EXEC_MSG])
  | EXEC_OPEN => Ok (open_files_from_string output e, [EXEC_OPEN])
  | EXEC_TAG => Ok (parse_and_goto_tag output e, [EXEC_TAG])
  | EXEC_EVAL => Ok (exec_config output e, [EXEC_EVAL])
  | EXEC_NULL | EXEC_TTY => Ok (e, [])
  | _ => Err (BugOn "unhandled action")
  end.

(* cmd_exec from [EditorState *e = a->userdata] to the call of spawn: the
   editor, the context handed to spawn and the actions after the -l rewrite *)
Definition cmd_exec_prepare (a : CommandArgs) (o : exec_opts) (e : EditorState)
  : res (EditorState * ExecContext * list ExecAction) :=
  let out_act := action_at (actions o) STDOUT_FILENO in
  let env := if ExecAction_eqb out_act EXEC_BUFFER
             then lines_and_columns_env e else [] in
  let acts :=
    if lflag o && ExecAction_eqb (action_at (actions o) STDIN_FILENO)
                                 EXEC_BUFFER
    then replace_nth 0 EXEC_LINE (actions o)
    else actions o in
  let ctx := {| xargv := skipn (nr_flag_args a) (args a); xenv := env;
                input_data := []; input_length := 0;
                outputs0 := []; outputs1 := [];
                xflags := spawn_flags o |} in
  r <- cmd_exec_input (action_at acts STDIN_FILENO) e ctx ;;
  let '(e, ctx) := r in
  Ok (e, ctx, acts).

(* cmd_exec from the return of spawn on *)
Definition cmd_exec_finish (o : exec_opts) (acts : list ExecAction)
           (saved_cursor : BlockIter) (spawned : Z * ExecContext * EditorState)
  : res (EditorState * list ExecAction) :=
  let '(err, ctx, e) := spawned in
  let out_act := action_at (actions o) STDOUT_FILENO in
  let move_after :=
    move_after_insert o && ExecAction_eqb out_act EXEC_BUFFER in
  if negb (err =? 0) then
    let e := show_spawn_error_msg (outputs1 ctx) err e in
    Ok (set_cursor e saved_cursor, [])
  else
    let output :=
      if strip_trailing_newline o && ExecAction_eqb out_act EXEC_BUFFER
      then strip_newline (outputs0 ctx) else outputs0 ctx in
    r <- route_output (action_at acts STDOUT_FILENO) ctx output e ;;
    let '(e, routed) := r in
    let e := if move_after
             then block_iter_skip_bytes (Z.of_nat (length output)) e
             else e in
    Ok (e, routed).

Definition cmd_exec (a : CommandArgs) (e : EditorState)
  : res (EditorState * list ExecAction) :=
  fo <- exec_flags (cflags a) (args a) 0 exec_opts_init ;;
  match fo with
  | Rejected c flag_arg =>
      Ok (error_msg ("invalid action for -" ++ String c ": '" ++ flag_arg ++ "'")
                    e, [])
  | Accepted o =>
      let saved_cursor := cursor (view e) in
      r <- cmd_exec_prepare a o e ;;
      let '(e', ctx, acts) := r in
      cmd_exec_finish o acts saved_cursor (spawn ctx (spawn_actions o) e')
  end.

Definition spawn_action_from_exec_action (act : ExecAction) : SpawnAction :=
  match act with
  | EXEC_NULL => SPAWN_NULL
  | EXEC_TTY => SPAWN_TTY
  | _ => SPAWN_PIPE
  end.

(* handle_exec up to the call of spawn *)
Definition handle_exec_prepare (e : EditorState) (argl : list string)
           (acts : list ExecAction) (sflags : Z)
  : res (EditorState * ExecContext) :=
  let output_to_buffer :=
    ExecAction_eqb (action_at acts STDOUT_FILENO) EXEC_BUFFER in
  let ctx := {| xargv := argl;
                xenv := if output_to_buffer then lines_and_columns_env e
                        else [];
                input_data := []; input_length := 0;
                outputs0 := []; outputs1 := []; xflags := sflags |} in
  handle_exec_input (action_at acts STDIN_FILENO) e ctx.

(* handle_exec from the return of spawn on: the value returned, the editor,
   the consumer that ran *)
Definition handle_exec_finish (acts : list ExecAction) (strip : bool)
           (saved_cursor : BlockIter) (spawned : Z * ExecContext * EditorState)
  : res (Z * EditorState * list ExecAction) :=
  let '(err, ctx, e) := spawned in
  let output_to_buffer :=
    ExecAction_eqb (action_at acts STDOUT_FILENO) EXEC_BUFFER in
  if negb (err =? 0) then
    let e := show_spawn_error_msg (outputs1 ctx) err e in
    Ok (-1, set_cursor e saved_cursor, [])
  else
    let output :=
      if strip && output_to_buffer
      then strip_newline (outputs0 ctx) else outputs0 ctx in
    r <- route_output (action_at acts STDOUT_FILENO) ctx output e ;;
    let '(e, routed) := r in
    Ok (Z.of_nat (length output), e, routed).

Definition handle_exec (e : EditorState) (argl : list string)
           (acts : list ExecAction) (sflags : Z) (strip : bool)
  : res (Z * EditorState * list ExecAction) :=
  let saved_cursor := cursor (view e) in
  r <- handle_exec_prepare e argl acts sflags ;;
  let '(e', ctx) := r in
  handle_exec_finish acts strip saved_cursor
    (spawn ctx (map spawn_action_from_exec_action (firstn 3 acts)) e').

End Editor.

Arguments blk {Block} _.
Arguments offset {Block} _.
Arguments cursor {Block} _.
Arguments selection {Block} _.
Arguments view {Block Rest} _.
Arguments rest {Block Rest} _.
Arguments set_cursor {Block Rest} e c.
Arguments set_view {Block Rest} e v.

End Exec.

(** ** A small syntax and the buffers of the worked examples *)

Module Demo.

Import Hl.

(* the 32-byte bitmap with the one bit of byte [c] set *)
Definition bitmap_of (c : Z) : list Z :=
  map (fun k => if Z.of_nat k =? c / 8 then Z.shiftl 1 (Z.land c 7) else 0)
      (seq 0 32).

(* state 0 is code, state 1 a comment opened by an opening brace and closed
   by a closing one; color 1 for code, color 2 for comments *)
Definition braces : syntax :=
  [ {| conditions :=
         [ {| type := COND_CHAR (bitmap_of 123);
              a := {| emit_color := 2; destination := 1%nat |} |} ];
       default_a := {| emit_color := 1; destination := 0%nat |};
       noeat := false |};
    {| conditions :=
         [ {| type := COND_CHAR (bitmap_of 125);
              a := {| emit_color := 2; destination := 0%nat |} |} ];
       default_a := {| emit_color := 2; destination := 1%nat |};
       noeat := false |} ].

Definition no_hash (_ : list Z) (_ : Z) : Z := 0.

(* [n] lines, each the letter a and a newline *)
Definition a_lines (n : nat) : list Z := concat (repeat [97; 10] n).

(** Modelled from the spec: the code that sets the syntax of a buffer lies
    outside the sources at hand.  By invariant (I1) of section 3 the cache
    of such a buffer holds the start state of the syntax at index 0; the
    first index that may be unknown is 1. *)
Definition fresh (txt : list Z) : buffer :=
  {| syn := Some braces; text := txt;
     line_start_states := {| ptrs := [Some 0%nat]; count := 1 |};
     first_hole := 1 |}.

(* a cache with a known start state for each of the first [n] lines *)
Definition filled (n : nat) : buffer :=
  {| syn := Some braces; text := a_lines n;
     line_start_states := {| ptrs := repeat (Some 0%nat) n;
                             count := Z.of_nat n |};
     first_hole := Z.of_nat n |}.

(* a state whose first rule recolors the last byte, towards state 1 *)
Definition recolor_rule : condition :=
  {| type := COND_RECOLOR 1;
     a := {| emit_color := 7; destination := 1%nat |} |}.

Definition recolors : syntax :=
  [ {| conditions := [recolor_rule];
       default_a := {| emit_color := 1; destination := 0%nat |};
       noeat := false |};
    {| conditions := [];
       default_a := {| emit_color := 2; destination := 1%nat |};
       noeat := false |} ].

(* All eight lines were highlighted; then a letter was typed into line 0 and
   another into line 3, neither changing a state. *)
Definition two_edits : list session_op :=
  [OpFill 7; OpInsert 0 [97]; OpInsert 8 [97]].

Definition two_holes : buffer :=
  match run_session no_hash true 100 two_edits (fresh (a_lines 8)) with
  | Ok b => b
  | Err _ => fresh []
  end.

Definition or_fresh (r : res buffer) : buffer :=
  match r with
  | Ok b => b
  | Err _ => fresh []
  end.

(* a hundred lines, all of them highlighted *)
Definition hundred : buffer :=
  or_fresh (hl_fill_start_states no_hash true 100 99 (fresh (a_lines 100))).

(* two newlines typed at the start of line 10: the buffer as hl_insert(10, 2)
   finds it, the text changed and the cache not yet *)
Definition hundred_typed : buffer :=
  set_text hundred
           (firstn 20 (text hundred) ++ [10; 10] ++ skipn 20 (text hundred)).

Definition hundred_spliced : buffer := or_fresh (hl_insert 10 2 hundred_typed).

Definition hundred_repaired : buffer :=
  or_fresh (hl_fill_start_states no_hash true 100 50 hundred_spliced).

(* An editing session on eight lines.  The window has shown all of them; it
   is back at the top, four lines high.  An opening brace is typed at the
   start of line 1 and the window redrawn; two newlines are typed at the
   start of line 2; then the cache is asked for line 6. *)
Definition stale_session : list session_op :=
  [OpFill 7;
   OpInsert 2 [123];
   OpFill 0; OpLine 0; OpLine 1; OpLine 2; OpLine 3;
   OpInsert 5 [10; 10];
   OpFill 6].

Definition stale : buffer :=
  or_fresh (run_session no_hash true 100 stale_session (fresh (a_lines 8))).

End Demo.

Module SpawnDemo.

Import Spawn.

(* the editor with only its standard descriptors open *)
Definition world0 : world :=
  {| open_fds := [0; 1; 2]; trace := []; msgs := [];
     child_controls_terminal := false |}.

(* every call succeeds and the child exits with status 0 *)
Definition all_ok : oracle :=
  {| open_ok := fun _ => true; fork_ok := true; ticks := [];
     write_all_ok := true; reads := []; wait_status := 0 |}.

(* as [all_ok], but writing the input to the child fails *)
Definition write_fails : oracle :=
  {| open_ok := fun _ => true; fork_ok := true; ticks := [];
     write_all_ok := false; reads := []; wait_status := 0 |}.

Definition quiet_ctx (inp : list Z) : SpawnContext :=
  {| argv := ["true"%string]; env := []; input := inp; output := [];
     flags := SPAWN_QUIET |}.

(* a turn in which the child's stdout has data and its stdin takes data *)
Definition both_ready : tick :=
  {| polled := PollReady POLLIN POLLOUT; read_rc := ReadBytes [111];
     write_rc := WriteCount 3 |}.

Definition pipes_open : filter_state :=
  {| fd0 := 5; fd1 := 4; wlen := 0; fctx := quiet_ctx [1; 2; 3];
     fworld := {| open_fds := [5; 4; 0; 1; 2]; trace := []; msgs := [];
                  child_controls_terminal := false |} |}.

Definition old_both_ready : old_tick :=
  {| selected := SelectReady true true; old_read_rc := ReadBytes [111];
     old_write_rc := WriteCount 3 |}.

Definition old_pipes_open : old_filter_state :=
  {| rfd := 5; wfd := 4; old_wlen := 0; in_data := [1; 2; 3]; buf := [];
     oworld := {| open_fds := [5; 4; 0; 1; 2]; trace := []; msgs := [];
                  child_controls_terminal := false |} |}.

(* a turn in which the child's stdout is at its end *)
Definition eof_tick : tick :=
  {| polled := PollReady POLLIN 0; read_rc := ReadBytes [];
     write_rc := WriteCount 0 |}.

Definition old_eof_tick : old_tick :=
  {| selected := SelectReady true false; old_read_rc := ReadBytes [];
     old_write_rc := WriteCount 0 |}.

End SpawnDemo.

Module CompilerDemo.

Import Spawn SpawnCompiler.

(* a format is a literal the line must start with *)
Definition regex : Type := list Z.
Definition Msg : Type := list Z.
Definition MessageArray : Type := list (Message Msg).

Fixpoint starts_with (lit s : list Z) : bool :=
  match lit, s with
  | [], _ => true
  | c :: lit', d :: s' => (c =? d) && starts_with lit' s'
  | _ :: _, [] => false
  end.

Definition regexp_exec (r : regex) (str : list Z) (str_len : Z)
  : option (list regmatch_t) :=
  if starts_with r str
  then Some [{| rm_so := 0; rm_eo := str_len |}]
  else None.

Definition new_message (str : list Z) (len : Z) : Msg :=
  firstn (Z.to_nat len) str.
Definition xstrslice (str : list Z) (so eo : Z) : list Z :=
  firstn (Z.to_nat (eo - so)) (skipn (Z.to_nat so) str).
Definition buf_parse_ulong (_ : list Z) (_ : Z) : Z * Z := (0, 0).
Definition str_replace_byte (str : list Z) (old new : Z) : list Z * Z :=
  (map (fun c => if c =? old then new else c) str, Z.of_nat (length str)).
Definition add_message (msgs : MessageArray) (m : Message Msg) : MessageArray :=
  msgs ++ [m].

(* "note" lines are ignored, "err" lines are messages *)
Definition note : ErrorFormat regex :=
  {| re := [110; 111; 116; 101]; ignore := true; cap_file := -1;
     cap_line := -1; cap_column := -1; cap_message := 0 |}.
Definition err : ErrorFormat regex :=
  {| re := [101; 114; 114]; ignore := false; cap_file := -1;
     cap_line := -1; cap_column := -1; cap_message := 0 |}.
(* every line matches this one *)
Definition any : ErrorFormat regex :=
  {| re := []; ignore := false; cap_file := -1;
     cap_line := -1; cap_column := -1; cap_message := 0 |}.

Definition cc : Compiler regex := {| error_formats := [err; note; any] |}.

Definition handle_error_msg :=
  SpawnCompiler.handle_error_msg regex Msg MessageArray regexp_exec new_message
                         xstrslice buf_parse_ulong str_replace_byte add_message.
Definition match_formats :=
  SpawnCompiler.match_formats regex Msg MessageArray regexp_exec new_message
                      xstrslice buf_parse_ulong add_message.
Definition spawn_compiler :=
  SpawnCompiler.spawn_compiler regex Msg MessageArray regexp_exec new_message
                       xstrslice buf_parse_ulong str_replace_byte add_message.

(* every call succeeds; the compiler prints a note and an error *)
Definition runs : compiler_oracle :=
  {| null_in_ok := true; null_out_ok := true; cpipe_ok := true;
     cfork_ok := true; fdopen_ok := true;
     stderr_lines := [[110; 111; 116; 101; 10]; [101; 114; 114; 9; 120; 10]];
     cwait_status := 1 |}.

End CompilerDemo.

Module OldSpawnDemo.

Import Spawn OldSpawn.

(* both pipes, /dev/null and the fork succeed; the child takes the input,
   prints one byte and exits with status 0 *)
Definition filter_runs : filter_oracle :=
  {| p0_ok := true; p1_ok := true; fnull_ok := true; ffork_ok := true;
     fticks := [SpawnDemo.old_both_ready; SpawnDemo.old_eof_tick];
     fwait_status := 0 |}.

Definition three_bytes : filter_data :=
  {| fin := [1; 2; 3]; out := None; out_len := 0 |}.

(* a format is a literal the line must start with; the only match is the
   whole line *)
Definition regex : Type := list Z.
Definition Msg : Type := list Z.
Definition MessageStore : Type := list (Message Msg).

Definition regexp_match (r : regex) (str : list Z) (len : Z)
  : option (list (list Z)) :=
  if CompilerDemo.starts_with r str then Some [str] else None.

Definition new_message (str : list Z) : Msg := str.
Definition atoi (_ : list Z) : Z := 0.
Definition add_message (store : MessageStore) (m : Message Msg)
  : MessageStore := store ++ [m].

Definition note : error_format regex :=
  {| pattern := [110; 111; 116; 101]; ignore := true; msg_idx := 0;
     file_idx := -1; line_idx := -1; column_idx := -1 |}.
Definition err : error_format regex :=
  {| pattern := [101; 114; 114]; ignore := false; msg_idx := 0;
     file_idx := -1; line_idx := -1; column_idx := -1 |}.

Definition cc : compiler regex := {| error_formats := [err; note] |}.

Definition spawn_compiler :=
  OldSpawn.spawn_compiler regex Msg MessageStore regexp_match new_message
                          atoi add_message.

(* every call succeeds; the compiler prints a note and an error *)
Definition compiler_runs : compiler_oracle :=
  {| cnull_ok := true; cpipe_ok := true; cfork_ok := true; fdopen_ok := true;
     stderr_lines := [[110; 111; 116; 101; 10]; [101; 114; 114; 9; 120; 10]];
     cwait_status := 1 |}.

Definition spawn_runs : spawn_oracle :=
  {| snull_ok := true; sfork_ok := true; swait_status := 0 |}.

End OldSpawnDemo.

Module ExecDemo.

Import Spawn Exec.

(* An editor with one block and, for the rest of its state, the messages it
   has shown. *)
Definition Rest : Type := list string.
Definition Ed : Type := EditorState unit Rest.

Definition at_offset (n : Z) : BlockIter unit := {| blk := tt; offset := n |}.

Definition start : Ed :=
  {| view := {| cursor := at_offset 7; selection := 0 |}; rest := [] |}.

Definition blk_size (_ : unit) : Z := 100.
Definition prepare_selection (e : Ed) : Z * View unit := (0, view e).
Definition move_bol (e : Ed) : View unit :=
  {| cursor := at_offset 0; selection := selection (view e) |}.
Definition fill_line_ref (_ : Ed) : Z := 3.
Definition blocks_size (_ : Ed) : Z := 10.
Definition block_iter_get_bytes (_ : Ed) (n : Z) : list Z :=
  repeat 97 (Z.to_nat n).
Definition word_under_cursor (_ : Ed) : Z * Z := (0, 0).
Definition dump_messages (_ : Ed) : list Z := [].
Definition lines_and_columns_env (_ : Ed) : list string := [].
Definition error_msg (m : string) (e : Ed) : Ed :=
  {| view := view e; rest := rest e ++ [m] |}.
Definition replace_bytes (_ : Z) (_ : list Z) (e : Ed) : Ed := e.
Definition keep (e : Ed) : Ed := e.
Definition consume (_ : list Z) (e : Ed) : Ed := e.
Definition skip_bytes (_ : Z) (e : Ed) : Ed := e.

(* a child that exits with status 2 *)
Definition spawn_fails (ctx : ExecContext) (_ : list SpawnAction) (e : Ed)
  : Z * ExecContext * Ed := (2, ctx, e).


(* exec -i line false *)
Definition exec_line : CommandArgs :=
  {| args := ["line"%string; "false"%string]; cflags := ["i"%char];
     nr_flag_args := 1 |}.

Definition cmd_exec : CommandArgs -> Ed -> res (Ed * list ExecAction) :=
  Exec.cmd_exec unit Rest prepare_selection move_bol move_bol fill_line_ref
                blocks_size block_iter_get_bytes dump_messages
                lines_and_columns_env error_msg replace_bytes keep
                consume consume consume consume skip_bytes spawn_fails.

Definition handle_exec
  : Ed -> list string -> list ExecAction -> Z -> bool
    -> res (Z * Ed * list ExecAction) :=
  Exec.handle_exec unit Rest blk_size prepare_selection move_bol move_bol
                   fill_line_ref blocks_size block_iter_get_bytes
                   word_under_cursor dump_messages lines_and_columns_env
                   error_msg replace_bytes keep consume consume consume
                   consume spawn_fails.

End ExecDemo.

Module FilterDemo.

Import Spawn.

(* a turn in which the child prints a byte and takes two bytes of input *)
Definition two_taken : tick :=
  {| polled := PollReady POLLIN POLLOUT; read_rc := ReadBytes [111];
     write_rc := WriteCount 2 |}.

Definition old_two_taken : old_tick :=
  {| selected := SelectReady true true; old_read_rc := ReadBytes [111];
     old_write_rc := WriteCount 2 |}.

(* the editor with the two pipes of a filter open *)
Definition piped : world :=
  {| open_fds := [5; 4; 0; 1; 2]; trace := []; msgs := [];
     child_controls_terminal := false |}.

End FilterDemo.

(** * Properties *)

(** ** Arrays *)

Section ArrayFacts.
Context {A : Type}.
Implicit Types (p q : list A) (i j : Z) (x : A).

Lemma aget_bounds p i x : aget p i = Ok x -> 0 <= i < Z.of_nat (length p).
Proof.
  unfold aget. destruct (Z.ltb_spec i 0); [discriminate|].
  destruct (nth_error p (Z.to_nat i)) eqn:E; [|discriminate].
  intros _. assert (Z.to_nat i < length p)%nat by (apply nth_error_Some; congruence).
  lia.
Qed.

Lemma aget_nth_error p i x :
  0 <= i -> nth_error p (Z.to_nat i) = Some x -> aget p i = Ok x.
Proof.
  intros Hi E. unfold aget. destruct (Z.ltb_spec i 0); [lia|]. now rewrite E.
Qed.

Lemma aget_inv p i x : aget p i = Ok x -> nth_error p (Z.to_nat i) = Some x.
Proof.
  unfold aget. destruct (i <? 0); [discriminate|].
  destruct (nth_error p (Z.to_nat i)); [|discriminate]. congruence.
Qed.

Lemma replace_nth_length n x p : length (replace_nth n x p) = length p.
Proof.
  revert n; induction p as [|y p IH]; intros [|n]; simpl; auto.
Qed.

Lemma nth_error_replace_nth_same n x p :
  (n < length p)%nat -> nth_error (replace_nth n x p) n = Some x.
Proof.
  revert n; induction p as [|y p IH]; intros [|n] H; simpl in *; try lia; auto.
  apply IH; lia.
Qed.

Lemma nth_error_replace_nth_other n m x p :
  n <> m -> nth_error (replace_nth n x p) m = nth_error p m.
Proof.
  revert n m; induction p as [|y p IH]; intros [|n] [|m] H; simpl; auto.
  congruence.
Qed.

Lemma aset_ok p i x :
  0 <= i < Z.of_nat (length p) -> aset p i x = Ok (replace_nth (Z.to_nat i) x p).
Proof.
  intros H. unfold aset.
  destruct (Z.ltb_spec i 0); [lia|].
  destruct (Z.leb_spec (Z.of_nat (length p)) i); [lia|]. reflexivity.
Qed.

Lemma aget_replace_nth p i j x :
  0 <= i < Z.of_nat (length p) -> 0 <= j ->
  aget (replace_nth (Z.to_nat i) x p) j = if j =? i then Ok x else aget p j.
Proof.
  intros Hi Hj. destruct (Z.eqb_spec j i) as [->|Hne].
  - apply aget_nth_error; [lia|]. apply nth_error_replace_nth_same. lia.
  - unfold aget. destruct (j <? 0); [reflexivity|].
    rewrite nth_error_replace_nth_other by lia. reflexivity.
Qed.

Lemma nth_error_fill_from lo n x p m :
  (lo + n <= length p)%nat ->
  nth_error (fill_from lo n x p) m =
  if (lo <=? m)%nat && (m <? lo + n)%nat then Some x else nth_error p m.
Proof.
  revert lo p; induction n as [|n IH]; intros lo p H; simpl.
  - destruct (Nat.leb_spec lo m), (Nat.ltb_spec m (lo + 0)); simpl; auto; lia.
  - rewrite IH by (rewrite replace_nth_length; lia).
    destruct (Nat.eq_dec lo m) as [->|Hne].
    + rewrite nth_error_replace_nth_same by lia.
      destruct (Nat.leb_spec (S m) m), (Nat.leb_spec m m),
        (Nat.ltb_spec m (S m + n)), (Nat.ltb_spec m (m + S n)); simpl; auto; lia.
    + rewrite nth_error_replace_nth_other by assumption.
      destruct (Nat.leb_spec (S lo) m), (Nat.leb_spec lo m),
        (Nat.ltb_spec m (S lo + n)), (Nat.ltb_spec m (lo + S n)); simpl; auto; lia.
Qed.

Lemma fill_from_length lo n x p : length (fill_from lo n x p) = length p.
Proof.
  revert lo p; induction n as [|n IH]; intros lo p; simpl; auto.
  now rewrite IH, replace_nth_length.
Qed.

Lemma afill_ok p lo hi x :
  0 <= lo -> lo < hi -> hi <= Z.of_nat (length p) ->
  exists q, afill p lo hi x = Ok q /\ length q = length p /\
    forall j, 0 <= j ->
      aget q j = if (lo <=? j) && (j <? hi) then Ok x else aget p j.
Proof.
  intros H0 H1 H2. unfold afill.
  destruct (Z.leb_spec hi lo); [lia|].
  destruct (Z.ltb_spec lo 0); [lia|].
  destruct (Z.ltb_spec (Z.of_nat (length p)) hi); [lia|]. simpl.
  eexists; split; [reflexivity|]. split; [apply fill_from_length|].
  intros j Hj. unfold aget. destruct (Z.ltb_spec j 0); [lia|].
  rewrite nth_error_fill_from by lia.
  destruct (Z.leb_spec lo j), (Z.ltb_spec j hi),
    (Nat.leb_spec (Z.to_nat lo) (Z.to_nat j)),
    (Nat.ltb_spec (Z.to_nat j) (Z.to_nat lo + Z.to_nat (hi - lo)));
    simpl; auto; lia.
Qed.

Lemma nth_error_slice p from n k :
  nth_error (slice p from n) k =
  if (k <? n)%nat then nth_error p (from + k) else None.
Proof.
  unfold slice. destruct (Nat.ltb_spec k n).
  - rewrite nth_error_firstn. destruct (Nat.ltb_spec k n); [|lia].
    now rewrite nth_error_skipn.
  - apply nth_error_None. rewrite length_firstn. lia.
Qed.

Lemma slice_length p from n :
  (from + n <= length p)%nat -> length (slice p from n) = n.
Proof. intros H. unfold slice. rewrite length_firstn, length_skipn. lia. Qed.

Lemma blit_length p to seg :
  (to + length seg <= length p)%nat -> length (blit p to seg) = length p.
Proof.
  intros H. unfold blit.
  rewrite !length_app, length_firstn, length_skipn. lia.
Qed.

Lemma nth_error_blit p to seg m :
  (to + length seg <= length p)%nat ->
  nth_error (blit p to seg) m =
  if (m <? to)%nat then nth_error p m
  else if (m <? to + length seg)%nat then nth_error seg (m - to)
  else nth_error p m.
Proof.
  intros H. unfold blit.
  destruct (Nat.ltb_spec m to).
  - rewrite nth_error_app1 by (rewrite length_firstn; lia).
    rewrite nth_error_firstn. destruct (Nat.ltb_spec m to); [reflexivity|lia].
  - rewrite nth_error_app2 by (rewrite length_firstn; lia).
    rewrite length_firstn, Nat.min_l by lia.
    destruct (Nat.ltb_spec m (to + length seg)).
    + now rewrite nth_error_app1 by lia.
    + rewrite nth_error_app2 by lia. rewrite nth_error_skipn.
      f_equal. lia.
Qed.

Lemma amove_ok p to from n :
  0 <= to -> 0 <= from -> 0 <= n ->
  from + n <= Z.of_nat (length p) -> to + n <= Z.of_nat (length p) ->
  exists q, amove p to from n = Ok q /\ length q = length p /\
    forall j, 0 <= j ->
      aget q j = if (to <=? j) && (j <? to + n) then aget p (j - to + from)
                 else aget p j.
Proof.
  intros H0 H1 H2 H3 H4. unfold amove.
  destruct (Z.ltb_spec to 0); [lia|]. destruct (Z.ltb_spec from 0); [lia|].
  destruct (Z.ltb_spec n 0); [lia|].
  destruct (Z.ltb_spec (Z.of_nat (length p)) (from + n)); [lia|].
  destruct (Z.ltb_spec (Z.of_nat (length p)) (to + n)); [lia|]. simpl.
  assert (Hs : length (slice p (Z.to_nat from) (Z.to_nat n)) = Z.to_nat n)
    by (apply slice_length; lia).
  eexists; split; [reflexivity|]. split; [apply blit_length; lia|].
  intros j Hj. unfold aget. destruct (Z.ltb_spec j 0); [lia|].
  rewrite nth_error_blit by lia. rewrite Hs, nth_error_slice.
  destruct (Z.leb_spec to j), (Z.ltb_spec j (to + n)),
    (Nat.ltb_spec (Z.to_nat j) (Z.to_nat to)),
    (Nat.ltb_spec (Z.to_nat j) (Z.to_nat to + Z.to_nat n)),
    (Nat.ltb_spec (Z.to_nat j - Z.to_nat to) (Z.to_nat n));
    simpl; try lia; auto.
  destruct (Z.ltb_spec (j - to + from) 0); [lia|].
  replace (Z.to_nat from + (Z.to_nat j - Z.to_nat to))%nat
    with (Z.to_nat (j - to + from)) by lia.
  reflexivity.
Qed.

Lemma aget_not_fuel p i : aget p i <> Err OutOfFuel.
Proof.
  unfold aget. destruct (i <? 0); [discriminate|].
  destruct (nth_error p (Z.to_nat i)); discriminate.
Qed.

Lemma aset_not_fuel p i x : aset p i x <> Err OutOfFuel.
Proof. unfold aset. destruct ((i <? 0) || _); discriminate. Qed.

Lemma nth_replace_nth_other n m (x d : A) (l : list A) :
  n <> m -> nth m (replace_nth n x l) d = nth m l d.
Proof.
  revert n m; induction l as [|y l IH]; intros [|n] [|m] H; simpl; auto.
  congruence.
Qed.

Lemma nth_replace_nth_same n (x d : A) (l : list A) :
  (n < length l)%nat -> nth n (replace_nth n x l) d = x.
Proof.
  revert n; induction l as [|y l IH]; intros [|n] H; simpl in *; try lia; auto.
  apply IH; lia.
Qed.

End ArrayFacts.

(** ** The highlighter *)

Module HlFacts.

Import Hl.

Lemma find_hole_from_spec p cnt :
  cnt <= Z.of_nat (length p) ->
  forall fuel pos,
    0 <= pos -> (Z.to_nat (cnt - pos) <= fuel)%nat ->
    let h := find_hole_from p cnt pos fuel in
    pos <= h /\ (pos <= cnt -> h <= cnt)
    /\ (forall j, pos <= j < h -> exists c, aget p j = Ok (Some c))
    /\ (h < cnt -> aget p h = Ok None).
Proof.
  intros Hlen. induction fuel as [|fuel IH]; intros pos Hpos Hfuel; simpl.
  - repeat split; try lia.
  - destruct (Z.ltb_spec pos cnt) as [Hlt|Hge].
    + destruct (nth_error p (Z.to_nat pos)) as [[c|]|] eqn:E.
      * destruct (IH (pos + 1)) as (H1 & H2 & H3 & H4); [lia|lia|].
        repeat split; try lia; auto.
        intros j Hj. destruct (Z.eq_dec j pos) as [->|Hne].
        -- exists c. now apply aget_nth_error.
        -- apply H3; lia.
      * repeat split; try lia. intros _. now apply aget_nth_error.
      * exfalso. apply nth_error_None in E. lia.
    + repeat split; try lia.
Qed.

Lemma find_hole_from_seek p cnt pos q fuel :
  cnt <= Z.of_nat (length p) -> 0 <= pos <= q -> q <= cnt ->
  (Z.to_nat (cnt - pos) <= fuel)%nat ->
  (forall j, pos <= j < q -> exists c, aget p j = Ok (Some c)) ->
  (q = cnt \/ aget p q = Ok None) ->
  find_hole_from p cnt pos fuel = q.
Proof.
  intros Hlen Hpos Hq Hfuel Hsome Hstop.
  destruct (find_hole_from_spec p cnt Hlen fuel pos) as (H1 & H2 & H3 & H4);
    [lia|assumption|].
  set (h := find_hole_from p cnt pos fuel) in *.
  destruct (Z.lt_trichotomy h q) as [Hlt|[Heq|Hgt]]; [|assumption|].
  - destruct (Hsome h) as [c Hc]; [lia|]. rewrite H4 in Hc by lia. discriminate.
  - destruct Hstop as [->|Hn]; [lia|].
    destruct (H3 q) as [c Hc]; [lia|]. rewrite Hn in Hc. discriminate.
Qed.

Lemma find_hole_from_ge p cnt fuel : forall pos, pos <= find_hole_from p cnt pos fuel.
Proof.
  induction fuel as [|fuel IH]; intros pos; simpl; [lia|].
  destruct (pos <? cnt); [|lia].
  destruct (nth_error p (Z.to_nat pos)) as [[c|]|]; try lia.
  specialize (IH (pos + 1)). lia.
Qed.

(** *** Conditions that recolor *)

Section Walk.

Variable buf_hash : list Z -> Z -> Z.
Variable char_is_signed : bool.

(** C4, as the code has it: a COND_RECOLOR condition paints the bytes from
    max(0, i - n) up to i with its action's color and leaves i and sidx as
    they are, but it does not fire: the walk goes on with the next condition
    of the same state, and when it is the last one the walk falls through to
    the default action.  The destination of its action is never taken. *)
Theorem recolor_back_paints_and_walks_on :
  forall line len i n act rest sidx colors,
    let painted := paint colors (Z.max 0 (i - n)) i (emit_color act) in
    walk_conditions buf_hash char_is_signed line len i
      ({| type := COND_RECOLOR n; a := act |} :: rest) sidx colors
    = walk_conditions buf_hash char_is_signed line len i rest sidx painted
    /\ walk_conditions buf_hash char_is_signed line len i
         [{| type := COND_RECOLOR n; a := act |}] sidx colors
       = Fell sidx painted.
Proof.
  intros line len i n act rest sidx colors painted. subst painted. simpl.
  replace (if i - n <? 0 then 0 else i - n) with (Z.max 0 (i - n))
    by (destruct (Z.ltb_spec (i - n) 0); lia).
  split; reflexivity.
Qed.

End Walk.

(** C4, as stated, fails: at byte 1 of "ab" the recolor rule does not end the
    walk in its destination state 1, and a whole line run through a state
    whose first condition is that rule ends in state 0. *)
Lemma recolor_back_does_not_fire :
  walk_conditions Demo.no_hash true [97; 98] 2 1 [Demo.recolor_rule] (-1)
                  [None; None]
  <> Fired 1%nat 1 (-1) [Some 7; None]
  /\ highlight_line Demo.no_hash true 10 Demo.recolors (Some 0%nat) [97; 98]
     = Ok ([Some 7; Some 1], Some 0%nat).
Proof. split; [discriminate | reflexivity]. Qed.

(** *** [hl_delete] at the end of the cache *)

(* When the deleted lines reach the end of the cache the count becomes
   len - deleted_newlines and first_hole is clamped to it.  That count never
   exceeds first_line + 1, and it is at least 1 as long as
   deleted_newlines < len. *)
Lemma hl_delete_truncates :
  forall b first deleted_nl,
    let s := line_start_states b in
    2 <= count s ->
    first < count s ->
    count s <= first + deleted_nl + 1 ->
    first_hole b <= count s ->
    hl_delete first deleted_nl b
    = Ok {| syn := syn b; text := text b;
            line_start_states := {| ptrs := ptrs s;
                                   count := count s - deleted_nl |};
            first_hole := Z.min (first_hole b) (count s - deleted_nl) |}
    /\ count s - deleted_nl <= first + 1
    /\ (deleted_nl < count s -> 1 <= count s - deleted_nl).
Proof.
  intros b first deleted_nl s H2 Hf Hl Hh. subst s.
  split; [|lia].
  unfold hl_delete, truncate_line_states.
  destruct (Z.eqb_spec (count (line_start_states b)) 1); [lia|].
  destruct (Z.leb_spec (count (line_start_states b)) first); [lia|].
  destruct (Z.leb_spec (count (line_start_states b)) (first + deleted_nl + 1));
    [|lia].
  destruct (Z.ltb_spec (count (line_start_states b)) (first_hole b)); [lia|].
  cbn.
  destruct (Z.ltb_spec (count (line_start_states b) - deleted_nl) (first_hole b)).
  - unfold set_first_hole; cbn. now rewrite Z.min_r by lia.
  - unfold set_states; cbn. now rewrite Z.min_l by lia.
Qed.

(** C6 fails on the code.  With 25 cached lines, deleting 40 newlines from
    line 0 on sets the count (and first_hole) to -15, which is no length; and
    with 5 cached lines, deleting 3 newlines from line 3 on leaves 2, less
    than first_line.  (hl_insert, in the same situation, truncates to
    first + 1.) *)
Theorem hl_delete_target_not_a_length :
  (2 <= count (line_start_states (Demo.filled 25))
   /\ 0 < count (line_start_states (Demo.filled 25))
   /\ count (line_start_states (Demo.filled 25)) <= 0 + 40 + 1
   /\ exists b', hl_delete 0 40 (Demo.filled 25) = Ok b'
                 /\ count (line_start_states b') = -15
                 /\ first_hole b' = -15)
  /\ (2 <= count (line_start_states (Demo.filled 5))
      /\ 3 < count (line_start_states (Demo.filled 5))
      /\ count (line_start_states (Demo.filled 5)) <= 3 + 3 + 1
      /\ exists b', hl_delete 3 3 (Demo.filled 5) = Ok b'
                    /\ count (line_start_states b') = 2
                    /\ count (line_start_states b') < 3).
Proof.
  split.
  - repeat split; try (vm_compute; congruence).
    eexists; repeat split; reflexivity.
  - repeat split; try (vm_compute; congruence).
    eexists; repeat split; reflexivity.
Qed.

(** *** Resizing and splicing the array *)

Lemma ROUND_UP_64_ge x : x <= ROUND_UP x 64.
Proof.
  unfold ROUND_UP. rewrite <- Z.ldiff_land.
  replace (64 - 1) with (Z.ones 6) by reflexivity.
  rewrite Z.ldiff_ones_r by lia.
  rewrite Z.shiftr_div_pow2, Z.shiftl_mul_pow2 by lia.
  change (2 ^ 6) with 64.
  pose proof (Z.div_mod (x + 64 - 1) 64 ltac:(lia)).
  pose proof (Z.mod_pos_bound (x + 64 - 1) 64 ltac:(lia)).
  lia.
Qed.

Lemma resize_line_states_spec s c :
  0 <= c ->
  let s' := resize_line_states s c in
  count s' = count s
  /\ c <= Z.of_nat (length (ptrs s'))
  /\ Z.of_nat (length (ptrs s)) <= Z.of_nat (length (ptrs s'))
  /\ forall j, j < Z.of_nat (length (ptrs s)) -> aget (ptrs s') j = aget (ptrs s) j.
Proof.
  intros Hc0. unfold resize_line_states.
  destruct (Z.ltb_spec c 0) as [Hneg|_]; [lia|].
  destruct (Z.ltb_spec (Z.of_nat (length (ptrs s))) c) as [Hlt|Hge]; cbn.
  - pose proof (ROUND_UP_64_ge c). rewrite length_app, repeat_length.
    repeat split; try lia.
    intros j Hj. unfold aget. destruct (j <? 0) eqn:E; [reflexivity|].
    rewrite nth_error_app1 by lia. reflexivity.
  - repeat split; try lia.
Qed.

Lemma resize_line_states_enough s c :
  0 <= c -> c <= Z.of_nat (length (ptrs s)) -> resize_line_states s c = s.
Proof.
  intros Hc0 H. unfold resize_line_states.
  destruct (Z.ltb_spec c 0) as [Hneg|_]; [lia|].
  destruct (Z.ltb_spec (Z.of_nat (length (ptrs s))) c); [lia|reflexivity].
Qed.

(* a count of -1, which is what a line number of -2 asks for, arrives as
   UINT_MAX: rounding it up wraps round to 0 and the array is given up,
   while count stays *)
Lemma resize_line_states_wraps s :
  Z.of_nat (length (ptrs s)) < UINT_MAX ->
  ptrs (resize_line_states s (-1)) = []
  /\ count (resize_line_states s (-1)) = count s.
Proof.
  intros H. unfold resize_line_states. cbn [Z.ltb Z.compare].
  change (-1 + (UINT_MAX + 1)) with UINT_MAX.
  destruct (Z.ltb_spec (Z.of_nat (length (ptrs s))) UINT_MAX) as [_|Hge];
    [|lia].
  change (ROUND_UP UINT_MAX 64 mod (UINT_MAX + 1)) with 0.
  split; reflexivity.
Qed.

Lemma hl_insert_splice b first lines :
  let s := line_start_states b in
  0 <= first -> 0 < lines ->
  first + lines + 1 < count s ->
  count s <= Z.of_nat (length (ptrs s)) ->
  first + 1 < first_hole b <= count s ->
  exists q,
    hl_insert first lines b
    = Ok {| syn := syn b; text := text b;
            line_start_states := {| ptrs := q; count := count s + lines |};
            first_hole := first + 1 |}
    /\ count s + lines <= Z.of_nat (length q)
    /\ forall j, 0 <= j < count s + lines ->
         aget q j =
         if j =? first_hole b then Ok None
         else if (first + 1 <=? j) && (j <=? first + lines + 1) then Ok None
         else if first + lines + 1 <? j then aget (ptrs s) (j - lines)
         else aget (ptrs s) j.
Proof.
  intros s H0 Hl Hlast Hlen Hfh.
  unfold hl_insert. fold s.
  destruct (Z.leb_spec (count s) first); [lia|].
  destruct (Z.leb_spec (count s) (first + lines + 1)); [lia|].
  destruct (Z.eqb_spec lines 0); [lia|].
  destruct (Z.eqb_spec first (first + lines)); [lia|].
  destruct (resize_line_states_spec s (count s + lines) ltac:(lia)) as (Hc1 & Hl1 & Hl1' & Hg1).
  set (s1 := resize_line_states s (count s + lines)) in *.
  destruct (amove_ok (ptrs s1) (first + lines + 1) (first + 1) (count s1 - (first + 1)))
    as (p2 & Hp2 & Hlen2 & Hg2); try lia.
  unfold move_line_states. rewrite Hp2. cbn [bind].
  destruct (afill_ok p2 (first + 1) (first + lines + 2) None)
    as (p3 & Hp3 & Hlen3 & Hg3); try lia.
  cbn [ptrs set_count set_ptrs count].
  rewrite Hp3. cbn [bind].
  unfold new_hole.
  cbn [first_hole set_states line_start_states ptrs count set_ptrs set_count].
  rewrite Hc1 in *.
  destruct (Z.eqb_spec (first + 1) (first_hole b)); [lia|].
  destruct (Z.ltb_spec (first_hole b) (first + 1)); [lia|].
  destruct (Z.ltb_spec (first_hole b) (count s + lines)); [|lia].
  rewrite aset_ok by lia. cbn [bind].
  eexists. split; [unfold set_first_hole, set_states, set_ptrs; cbn; reflexivity|].
  split; [rewrite replace_nth_length; lia|].
  intros j Hj. rewrite aget_replace_nth by lia.
  destruct (Z.eqb_spec j (first_hole b)); [reflexivity|].
  rewrite Hg3 by lia.
  replace (j <? first + lines + 2) with (j <=? first + lines + 1)
    by (destruct (Z.ltb_spec j (first + lines + 2)), (Z.leb_spec j (first + lines + 1)); lia).
  destruct ((first + 1 <=? j) && (j <=? first + lines + 1)) eqn:E; [reflexivity|].
  assert (Hout : j < first + 1 \/ first + lines + 1 < j)
    by (destruct (Z.leb_spec (first + 1) j), (Z.leb_spec j (first + lines + 1));
        cbn in E; try discriminate; lia).
  rewrite Hg2 by lia.
  destruct (Z.leb_spec (first + lines + 1) j), (Z.ltb_spec (first + lines + 1) j),
    (Z.ltb_spec j (first + lines + 1 + (count s - (first + 1))));
    cbn [andb]; try lia; rewrite Hg1 by lia; try reflexivity; f_equal; lia.
Qed.

(** *** Hole repair *)

Section Fill.

Variable buf_hash : list Z -> Z -> Z.
Variable char_is_signed : bool.

Local Abbreviation fill_step := (fill_step buf_hash char_is_signed).
Local Abbreviation highlight_line := (highlight_line buf_hash char_is_signed).
Local Abbreviation hl_fill_loop := (hl_fill_loop buf_hash char_is_signed).
Local Abbreviation hl_fill_start_states :=
  (hl_fill_start_states buf_hash char_is_signed).

Lemma state_eqb_true (c : state_ref) (s' : option state_ref) :
  (match s' with Some t => Nat.eqb c t | None => false end) = true
  <-> s' = Some c.
Proof.
  destruct s' as [t|]; split; intros H; try discriminate.
  - apply Nat.eqb_eq in H. now subst.
  - injection H as ->. apply Nat.eqb_refl.
Qed.

(* a turn that finds the next cell empty stores the state there *)
Lemma fill_step_empty hfuel sy bi cl b p cols s' :
  let s := line_start_states b in
  let i := first_hole b - 1 in
  let bi' := block_iter_move_down bi (Z.to_nat (i - cl)) in
  cl <= i ->
  aget (ptrs s) i = Ok p ->
  highlight_line hfuel sy p (fill_line_nl_ref bi') = Ok (cols, s') ->
  i + 1 < count s ->
  aget (ptrs s) (i + 1) = Ok None ->
  fill_step hfuel sy bi cl b
  = Ok (bi', i,
        set_first_hole
          (set_states b (set_ptrs s (replace_nth (Z.to_nat (i + 1)) s' (ptrs s))))
          (first_hole b + 1)).
Proof.
  intros s i bi' Hcl Hp Hhl Hlt Hnone. subst s i bi'.
  unfold Hl.fill_step.
  destruct (Z.ltb_spec (first_hole b - 1 - cl) 0); [lia|].
  rewrite Hp; cbn [bind]. rewrite Hhl; cbn [bind snd].
  destruct (Z.ltb_spec (count (line_start_states b)) (first_hole b - 1 + 1)); [lia|].
  destruct (Z.eqb_spec (first_hole b - 1 + 1) (count (line_start_states b))); [lia|].
  rewrite Hnone; cbn [bind].
  rewrite aset_ok by (eapply aget_bounds; eassumption). reflexivity.
Qed.

(* a turn that finds its own state in the next cell re-seats first_hole *)
Lemma fill_step_closed hfuel sy bi cl b p cols c :
  let s := line_start_states b in
  let i := first_hole b - 1 in
  let bi' := block_iter_move_down bi (Z.to_nat (i - cl)) in
  cl <= i ->
  aget (ptrs s) i = Ok p ->
  highlight_line hfuel sy p (fill_line_nl_ref bi') = Ok (cols, Some c) ->
  i + 1 < count s ->
  aget (ptrs s) (i + 1) = Ok (Some c) ->
  fill_step hfuel sy bi cl b
  = Ok (bi', i,
        set_first_hole b
          (find_hole_from (ptrs s) (count s) (i + 2)
                          (Z.to_nat (count s - (i + 2))))).
Proof.
  intros s i bi' Hcl Hp Hhl Hlt Hsome. subst s i bi'.
  unfold Hl.fill_step.
  destruct (Z.ltb_spec (first_hole b - 1 - cl) 0); [lia|].
  rewrite Hp; cbn [bind]. rewrite Hhl; cbn [bind snd].
  destruct (Z.ltb_spec (count (line_start_states b)) (first_hole b - 1 + 1)); [lia|].
  destruct (Z.eqb_spec (first_hole b - 1 + 1) (count (line_start_states b))); [lia|].
  rewrite Hsome; cbn [bind]. rewrite Nat.eqb_refl.
  unfold find_hole.
  replace (first_hole b - 1 + 1 + 1) with (first_hole b - 1 + 2) by lia.
  reflexivity.
Qed.

(* a turn of the loop moves first_hole up, and runs out of fuel only
   inside highlight_line *)
Lemma fill_step_progress hfuel sy bi cl b :
  match fill_step hfuel sy bi cl b with
  | Ok (_, _, b') => first_hole b + 1 <= first_hole b'
  | Err OutOfFuel => exists p lr, highlight_line hfuel sy p lr = Err OutOfFuel
  | Err _ => True
  end.
Proof.
  unfold Hl.fill_step.
  destruct (first_hole b - 1 - cl <? 0); [exact I|].
  destruct (aget (ptrs (line_start_states b)) (first_hole b - 1)) as [p|e] eqn:Ep;
    cbn [bind].
  2:{ destruct e; try exact I. exfalso. eapply aget_not_fuel; eassumption. }
  destruct (highlight_line hfuel sy p _) as [[cols st]|e] eqn:Eh; cbn [bind snd].
  2:{ destruct e; try exact I. eauto. }
  destruct (count (line_start_states b) <? first_hole b - 1 + 1); [exact I|].
  destruct (Z.eqb_spec (first_hole b - 1 + 1) (count (line_start_states b))) as [Heq|Hne].
  - destruct (aset _ _ _) as [q|e] eqn:Eq; cbn [bind].
    + cbn. lia.
    + destruct e; try exact I. exfalso. eapply aset_not_fuel; eassumption.
  - destruct (aget _ (first_hole b - 1 + 1)) as [cur|e] eqn:Ec; cbn [bind].
    2:{ destruct e; try exact I. exfalso. eapply aget_not_fuel; eassumption. }
    destruct cur as [c|].
    + destruct (match st with Some t => Nat.eqb c t | None => false end).
      * cbn. pose proof (find_hole_from_ge (ptrs (line_start_states b))
                           (count (line_start_states b))
                           (Z.to_nat (count (line_start_states b) - (first_hole b - 1 + 1 + 1)))
                           (first_hole b - 1 + 1 + 1)). lia.
      * destruct (aset _ _ _) as [q|e] eqn:Eq; cbn [bind].
        -- cbn. lia.
        -- destruct e; try exact I. exfalso. eapply aset_not_fuel; eassumption.
    + destruct (aset _ _ _) as [q|e] eqn:Eq; cbn [bind].
      * cbn. lia.
      * destruct e; try exact I. exfalso. eapply aset_not_fuel; eassumption.
Qed.

Lemma hl_fill_loop_fuel_suffices hfuel sy line_nr :
  forall fuel bi cl b,
    (Z.to_nat (line_nr + 1 - first_hole b) < fuel)%nat ->
    hl_fill_loop fuel hfuel sy line_nr bi cl b = Err OutOfFuel ->
    exists p lr, highlight_line hfuel sy p lr = Err OutOfFuel.
Proof.
  induction fuel as [|fuel IH]; intros bi cl b Hf H; [lia|].
  cbn [Hl.hl_fill_loop] in H.
  destruct (count (line_start_states b) <? first_hole b); [discriminate|].
  destruct (Z.ltb_spec line_nr (first_hole b)); [discriminate|].
  pose proof (fill_step_progress hfuel sy bi cl b) as Hp.
  destruct (fill_step hfuel sy bi cl b) as [[[bi' cl'] b']|e]; cbn [bind] in H.
  - apply (IH bi' cl' b'); [lia|assumption].
  - injection H as ->. exact Hp.
Qed.

(* The fuel hl_fill_start_states gives its loop is enough: the function runs
   out of fuel only when a highlight_line does. *)
Lemma hl_fill_start_states_fuel hfuel line_nr b :
  hl_fill_start_states hfuel line_nr b = Err OutOfFuel ->
  exists sy p lr, highlight_line hfuel sy p lr = Err OutOfFuel.
Proof.
  unfold Hl.hl_fill_start_states. destruct (syn b) as [sy|]; [|discriminate].
  intros H. exists sy.
  eapply hl_fill_loop_fuel_suffices; [|exact H].
  cbn [first_hole set_states]. lia.
Qed.

(** C1, as the code has it: one turn of the fill loop, entered at index
    i = first_hole - 1 with s' the state highlight_line returns for line i,
    follows the four cases (append, fill an empty cell, close the hole and
    re-seat first_hole at the next empty cell from i + 2 on, overwrite and set
    first_hole to i + 2); after each of them, the third included, the loop
    goes on as long as first_hole is at most the line asked for. *)
Theorem fill_step_four_cases :
  forall hfuel sy bi current_line b p cols s',
    let s := line_start_states b in
    let i := first_hole b - 1 in
    let bi' := block_iter_move_down bi (Z.to_nat (i - current_line)) in
    current_line <= i ->
    aget (ptrs s) i = Ok p ->
    highlight_line hfuel sy p (fill_line_nl_ref bi') = Ok (cols, s') ->
    first_hole b <= count s ->
    count s <= Z.of_nat (length (ptrs s)) ->
    four_cases buf_hash char_is_signed hfuel sy bi current_line b s'.
Proof.
  intros hfuel sy bi cl b p cols s' s i bi' Hcl Hp Hhl Hfh Hlen.
  unfold four_cases. fold s i bi'.
  pose proof (aget_bounds _ _ _ Hp) as Hi.
  assert (Hstep :
    forall cur, (i + 1 < count s -> aget (ptrs s) (i + 1) = Ok cur) ->
      fill_step hfuel sy bi cl b =
      if i + 1 =? count s then
        q <- aset (ptrs s) (i + 1) s' ;;
        Ok (bi', i, set_first_hole
                      (set_states b (set_count (set_ptrs s q) (count s + 1)))
                      (count s + 1))
      else
        match cur with
        | None =>
            q <- aset (ptrs s) (i + 1) s' ;;
            Ok (bi', i, set_first_hole (set_states b (set_ptrs s q))
                                       (first_hole b + 1))
        | Some c =>
            if match s' with Some t => Nat.eqb c t | None => false end
            then Ok (bi', i, find_hole (i + 1 + 1) b)
            else q <- aset (ptrs s) (i + 1) s' ;;
                 Ok (bi', i, set_first_hole (set_states b (set_ptrs s q))
                                            (i + 1 + 1))
        end).
  { intros cur Hcur. unfold Hl.fill_step. fold s.
    destruct (Z.ltb_spec (first_hole b - 1 - cl) 0); [lia|].
    fold i. fold bi'. rewrite Hp; cbn [bind]. rewrite Hhl; cbn [bind snd].
    destruct (Z.ltb_spec (count s) (i + 1)); [lia|].
    destruct (Z.eqb_spec (i + 1) (count s)); [reflexivity|].
    rewrite Hcur by lia. reflexivity. }
  repeat split.
  - intros Heq Hroom. rewrite (Hstep None) by lia.
    rewrite (proj2 (Z.eqb_eq _ _) Heq).
    rewrite aset_ok by lia. cbn [bind]. do 4 f_equal. lia.
  - intros Hlt Hnone. rewrite (Hstep None) by auto.
    destruct (Z.eqb_spec (i + 1) (count s)); [lia|].
    rewrite aset_ok by (eapply aget_bounds; eassumption). reflexivity.
  - intros c Hlt Hc Hs'. rewrite (Hstep (Some c)) by auto.
    destruct (Z.eqb_spec (i + 1) (count s)); [lia|].
    rewrite (proj2 (state_eqb_true c s') Hs').
    eexists; split; [reflexivity|]. fold s.
    destruct (find_hole_from_spec (ptrs s) (count s) Hlen
                (Z.to_nat (count s - (i + 1 + 1))) (i + 1 + 1))
      as (H1 & H2 & H3 & H4); [lia|lia|].
    repeat split; try lia.
    + intros j Hj. apply H3. lia.
    + assumption.
  - intros c Hlt Hc Hs'. rewrite (Hstep (Some c)) by auto.
    destruct (Z.eqb_spec (i + 1) (count s)); [lia|].
    destruct (match s' with Some t => Nat.eqb c t | None => false end) eqn:E.
    + apply state_eqb_true in E. contradiction.
    + rewrite aset_ok by (eapply aget_bounds; eassumption). cbn [bind].
      replace (i + 1 + 1) with (i + 2) by lia. reflexivity.
  - intros fuel line_nr bi2 cl2 b2 Hline Hout. cbn [Hl.hl_fill_loop]. fold s.
    destruct (Z.ltb_spec (count s) (first_hole b)); [lia|].
    destruct (Z.ltb_spec line_nr (first_hole b)); [lia|].
    rewrite Hout. reflexivity.
Qed.

Lemma hl_fill_loop_step fuel hfuel sy line_nr bi cl b bi2 cl2 b2 :
  first_hole b <= count (line_start_states b) ->
  first_hole b <= line_nr ->
  fill_step hfuel sy bi cl b = Ok (bi2, cl2, b2) ->
  hl_fill_loop (S fuel) hfuel sy line_nr bi cl b
  = hl_fill_loop fuel hfuel sy line_nr bi2 cl2 b2.
Proof.
  intros H1 H2 H3. cbn [Hl.hl_fill_loop].
  destruct (Z.ltb_spec (count (line_start_states b)) (first_hole b)); [lia|].
  destruct (Z.ltb_spec line_nr (first_hole b)); [lia|].
  rewrite H3. reflexivity.
Qed.

Lemma hl_fill_loop_done fuel hfuel sy line_nr bi cl b :
  first_hole b <= count (line_start_states b) ->
  line_nr < first_hole b ->
  hl_fill_loop (S fuel) hfuel sy line_nr bi cl b = Ok b.
Proof.
  intros H1 H2. cbn [Hl.hl_fill_loop].
  destruct (Z.ltb_spec (count (line_start_states b)) (first_hole b)); [lia|].
  destruct (Z.ltb_spec line_nr (first_hole b)); [reflexivity|lia].
Qed.

Lemma populated_aget (p : list (option state_ref)) (sts : list state_ref) n :
  length sts = n -> firstn n p = map Some sts ->
  Z.of_nat n <= Z.of_nat (length p)
  /\ forall j, 0 <= j < Z.of_nat n ->
       aget p j = Ok (Some (nth (Z.to_nat j) sts 0%nat)).
Proof.
  intros Hlen Hp.
  assert (Hn : (n <= length p)%nat).
  { apply (f_equal (@length _)) in Hp.
    rewrite length_firstn, length_map in Hp. lia. }
  split; [lia|].
  intros j Hj. apply aget_nth_error; [lia|].
  rewrite <- (firstn_skipn n p), nth_error_app1
    by (rewrite length_firstn; lia).
  rewrite Hp, nth_error_map.
  rewrite (nth_error_nth' sts 0%nat) by lia. reflexivity.
Qed.

Local Ltac arith :=
  vm_compute; first [reflexivity | discriminate].

(** C3, as the code has it: on a cache holding the start states of lines
    0..99, hl_insert(10, 2) leaves 102 cells with cells 11, 12 and 13 empty,
    first_hole = 11 and the cell of the old first_hole, 100, empty too.  A
    fill up to line 50 then stores the new states of lines 11 to 13, and when
    the state it computes for line 14 is the one cell 14 holds (the pre-edit
    state of line 12) it re-seats first_hole at the next empty cell, which is
    cell 100, and stops there. *)
Theorem insert_two_lines_then_fill :
  forall hfuel sy b sts c10 c11 c12 c13 t11 t12 t13,
    let s := line_start_states b in
    syn b = Some sy ->
    count s = 100 -> first_hole b = 100 ->
    length sts = 100%nat -> firstn 100 (ptrs s) = map Some sts ->
    highlight_line hfuel sy (Some (nth 10 sts 0%nat)) (line_at (text b) 10)
    = Ok (c10, t11) ->
    highlight_line hfuel sy t11 (line_at (text b) 11) = Ok (c11, t12) ->
    highlight_line hfuel sy t12 (line_at (text b) 12) = Ok (c12, t13) ->
    highlight_line hfuel sy t13 (line_at (text b) 13)
    = Ok (c13, Some (nth 12 sts 0%nat)) ->
    scenario_S4 buf_hash char_is_signed hfuel b t11 t12 t13.
Proof.
  intros hfuel sy b sts c10 c11 c12 c13 t11 t12 t13 s
         Hsyn Hcount Hfh Hlen Hpop H10 H11 H12 H13.
  unfold scenario_S4.
  destruct (populated_aget (ptrs s) sts 100 Hlen Hpop) as [Hroom Hget].
  destruct (hl_insert_splice b 10 2) as (q & Hins & Hqlen & Hq);
    fold s; try lia.
  fold s in Hins, Hqlen, Hq. rewrite Hcount in Hins, Hqlen, Hq.
  rewrite Hfh in Hq.
  assert (Hq' : forall j, 0 <= j < 102 ->
            aget q j = if j =? 100 then Ok None
                       else if (11 <=? j) && (j <=? 13) then Ok None
                       else if 13 <? j then aget (ptrs s) (j - 2)
                       else aget (ptrs s) j) by exact Hq.
  clear Hq.
  set (b1 := {| syn := syn b; text := text b;
                line_start_states := {| ptrs := q; count := 100 + 2 |};
                first_hole := 10 + 1 |}) in *.
  (* the cells as the turns of the loop leave them *)
  set (q1 := replace_nth (Z.to_nat 11) t11 q).
  set (q2 := replace_nth (Z.to_nat 12) t12 q1).
  set (q3 := replace_nth (Z.to_nat 13) t13 q2).
  assert (L1 : length q1 = length q) by apply replace_nth_length.
  assert (L2 : length q2 = length q) by (unfold q2; now rewrite replace_nth_length).
  assert (L3 : length q3 = length q) by (unfold q3; now rewrite replace_nth_length).
  assert (G1 : forall j, 0 <= j -> aget q1 j = if j =? 11 then Ok t11 else aget q j)
    by (intros; apply aget_replace_nth; lia).
  assert (G2 : forall j, 0 <= j -> aget q2 j = if j =? 12 then Ok t12 else aget q1 j)
    by (intros; apply aget_replace_nth; lia).
  assert (G3 : forall j, 0 <= j -> aget q3 j = if j =? 13 then Ok t13 else aget q2 j)
    by (intros; apply aget_replace_nth; lia).
  set (b2 := {| syn := syn b; text := text b;
                line_start_states := {| ptrs := q1; count := 102 |};
                first_hole := 12 |}).
  set (b3 := {| syn := syn b; text := text b;
                line_start_states := {| ptrs := q2; count := 102 |};
                first_hole := 13 |}).
  set (b4 := {| syn := syn b; text := text b;
                line_start_states := {| ptrs := q3; count := 102 |};
                first_hole := 14 |}).
  set (b5 := {| syn := syn b; text := text b;
                line_start_states := {| ptrs := q3; count := 102 |};
                first_hole := 100 |}).
  assert (S1 : fill_step hfuel sy (text b) 0 b1
               = Ok (block_iter_move_down (text b) 10, 10, b2)).
  { rewrite (fill_step_empty hfuel sy (text b) 0 b1
               (Some (nth 10 sts 0%nat)) c10 t11); [reflexivity| | | | |].
    - arith.
    - change (aget q 10 = Ok (Some (nth 10 sts 0%nat))).
      rewrite Hq' by lia. apply (Hget 10). lia.
    - exact H10.
    - arith.
    - change (aget q 11 = Ok None). now rewrite Hq' by lia. }
  assert (S2 : fill_step hfuel sy (block_iter_move_down (text b) 10) 10 b2
               = Ok (block_iter_move_down (text b) 11, 11, b3)).
  { rewrite (fill_step_empty hfuel sy _ 10 b2
               t11 c11 t12); [reflexivity| | | | |].
    - arith.
    - change (aget q1 11 = Ok t11). now rewrite G1 by lia.
    - exact H11.
    - arith.
    - change (aget q1 12 = Ok None). rewrite G1 by lia. now rewrite Hq' by lia. }
  assert (S3 : fill_step hfuel sy (block_iter_move_down (text b) 11) 11 b3
               = Ok (block_iter_move_down (text b) 12, 12, b4)).
  { rewrite (fill_step_empty hfuel sy _ 11 b3
               t12 c12 t13); [reflexivity| | | | |].
    - arith.
    - change (aget q2 12 = Ok t12). now rewrite G2 by lia.
    - exact H12.
    - arith.
    - change (aget q2 13 = Ok None). rewrite G2, G1 by lia. now rewrite Hq' by lia. }
  assert (F : find_hole_from q3 102 15 (Z.to_nat (102 - 15)) = 100).
  { apply find_hole_from_seek; try lia.
    - intros j Hj. rewrite G3, G2, G1, Hq' by lia.
      destruct (Z.eqb_spec j 13), (Z.eqb_spec j 12), (Z.eqb_spec j 11); try lia.
      destruct (Z.eqb_spec j 100); [lia|].
      destruct (Z.leb_spec 11 j), (Z.leb_spec j 13), (Z.ltb_spec 13 j);
        cbn [andb]; try lia.
      rewrite Hget by lia. eauto.
    - right. rewrite G3, G2, G1 by lia. now rewrite Hq' by lia. }
  assert (S4 : fill_step hfuel sy (block_iter_move_down (text b) 12) 12 b4
               = Ok (block_iter_move_down (text b) 13, 13, b5)).
  { rewrite (fill_step_closed hfuel sy _ 12 b4
               t13 c13 (nth 12 sts 0%nat)).
    - change (first_hole b4 - 1 + 2) with 15.
      change (ptrs (line_start_states b4)) with q3.
      change (count (line_start_states b4)) with 102.
      rewrite F. reflexivity.
    - arith.
    - change (aget q3 13 = Ok t13). now rewrite G3 by lia.
    - exact H13.
    - arith.
    - change (aget q3 14 = Ok (Some (nth 12 sts 0%nat))).
      rewrite G3, G2, G1 by lia.
      change (aget q 14 = Ok (Some (nth 12 sts 0%nat))).
      rewrite Hq' by lia. apply (Hget 12). lia. }
  exists b1, b5. split; [exact Hins|].
  repeat split.
  - change (aget q 11 = Ok None). now rewrite Hq' by lia.
  - change (aget q 12 = Ok None). now rewrite Hq' by lia.
  - change (aget q 13 = Ok None). now rewrite Hq' by lia.
  - change (aget q 100 = Ok None). now rewrite Hq' by lia.
  - unfold Hl.hl_fill_start_states. change (syn b1) with (syn b). rewrite Hsyn.
    rewrite resize_line_states_enough
      by (cbv [b1 line_start_states ptrs]; lia).
    change (set_states b1 (line_start_states b1)) with b1.
    change (hl_fill_loop 41 hfuel sy 50 (text b) 0 b1 = Ok b5).
    rewrite (hl_fill_loop_step 40 hfuel sy 50 (text b) 0 b1
               (block_iter_move_down (text b) 10) 10 b2);
      [|arith|arith|exact S1].
    rewrite (hl_fill_loop_step 39 hfuel sy 50 _ 10 b2
               (block_iter_move_down (text b) 11) 11 b3);
      [|arith|arith|exact S2].
    rewrite (hl_fill_loop_step 38 hfuel sy 50 _ 11 b3
               (block_iter_move_down (text b) 12) 12 b4);
      [|arith|arith|exact S3].
    rewrite (hl_fill_loop_step 37 hfuel sy 50 _ 12 b4
               (block_iter_move_down (text b) 13) 13 b5);
      [|arith|arith|exact S4].
    apply hl_fill_loop_done; arith.
  - change (aget q3 11 = Ok t11). rewrite G3, G2, G1 by lia. reflexivity.
  - change (aget q3 12 = Ok t12). rewrite G3, G2 by lia. reflexivity.
  - change (aget q3 13 = Ok t13). rewrite G3 by lia. reflexivity.
Qed.

End Fill.

Lemma fill_step_four_cases_witness :
  (0 <= first_hole Demo.two_holes - 1
   /\ aget (ptrs (line_start_states Demo.two_holes))
           (first_hole Demo.two_holes - 1) = Ok (Some 0%nat)
   /\ highlight_line Demo.no_hash true 100 Demo.braces (Some 0%nat)
        (fill_line_nl_ref (text Demo.two_holes))
      = Ok ([Some 1; Some 1; Some 1], Some 0%nat)
   /\ first_hole Demo.two_holes <= count (line_start_states Demo.two_holes))
  /\ four_cases Demo.no_hash true 100 Demo.braces (text Demo.two_holes) 0
                Demo.two_holes (Some 0%nat).
Proof.
  split.
  - repeat split; vm_compute; congruence.
  - apply (fill_step_four_cases Demo.no_hash true 100 Demo.braces
             (text Demo.two_holes) 0 Demo.two_holes (Some 0%nat)
             [Some 1; Some 1; Some 1] (Some 0%nat));
      vm_compute; congruence.
Defined.

(** C1, as stated, fails: with a closed hole at index 1 and an empty cell at
    index 4, a fill up to line 7 does not stop after re-seating first_hole at
    4, as the rule's third case has it; it goes on, fills cell 4 and ends with
    first_hole = 8. *)
Lemma fill_goes_on_after_closing_a_hole :
  cache_after (hl_fill_start_states Demo.no_hash true 100 7 Demo.two_holes)
  <> rule_fill Demo.no_hash true 100 100 Demo.braces (text Demo.two_holes) 7
               (cache_of Demo.two_holes)
  /\ cache_after (hl_fill_start_states Demo.no_hash true 100 7 Demo.two_holes)
     = Ok {| slots := repeat (Some 0%nat) 8; hole := 8 |}
  /\ rule_fill Demo.no_hash true 100 100 Demo.braces (text Demo.two_holes) 7
               (cache_of Demo.two_holes)
     = Ok {| slots := [Some 0; Some 0; Some 0; Some 0; None;
                       Some 0; Some 0; Some 0]%nat;
             hole := 4 |}.
Proof.
  assert (Hc : cache_after
                 (hl_fill_start_states Demo.no_hash true 100 7 Demo.two_holes)
               = Ok {| slots := repeat (Some 0%nat) 8; hole := 8 |})
    by (vm_compute; reflexivity).
  assert (Hr : rule_fill Demo.no_hash true 100 100 Demo.braces
                         (text Demo.two_holes) 7 (cache_of Demo.two_holes)
               = Ok {| slots := [Some 0; Some 0; Some 0; Some 0; None;
                                 Some 0; Some 0; Some 0]%nat;
                       hole := 4 |})
    by (vm_compute; reflexivity).
  split; [|split; assumption].
  rewrite Hc, Hr. discriminate.
Qed.

Lemma insert_two_lines_then_fill_witness :
  (syn Demo.hundred_typed = Some Demo.braces
   /\ count (line_start_states Demo.hundred_typed) = 100
   /\ first_hole Demo.hundred_typed = 100
   /\ firstn 100 (ptrs (line_start_states Demo.hundred_typed))
      = map Some (repeat 0%nat 100)
   /\ highlight_line Demo.no_hash true 100 Demo.braces (Some 0%nat)
        (line_at (text Demo.hundred_typed) 13)
      = Ok ([Some 1; Some 1], Some (nth 12 (repeat 0%nat 100) 0%nat)))
  /\ scenario_S4 Demo.no_hash true 100 Demo.hundred_typed
                 (Some 0%nat) (Some 0%nat) (Some 0%nat).
Proof.
  split.
  - repeat split; vm_compute; reflexivity.
  - apply (insert_two_lines_then_fill Demo.no_hash true 100 Demo.braces
             Demo.hundred_typed (repeat 0%nat 100)
             [Some 1] [Some 1] [Some 1; Some 1] [Some 1; Some 1]
             (Some 0%nat) (Some 0%nat) (Some 0%nat));
      vm_compute; reflexivity.
Defined.

(** C3, as stated, fails in its second half: on a hundred highlighted lines,
    after hl_insert(10, 2) and a fill up to line 50, the state at index 12 is
    the pre-edit state of line 10, yet first_hole is 100, not 13. *)
Lemma repair_does_not_stop_at_13 :
  hl_insert 10 2 Demo.hundred_typed = Ok Demo.hundred_spliced
  /\ count (line_start_states Demo.hundred_spliced) = 102
  /\ hl_fill_start_states Demo.no_hash true 100 50 Demo.hundred_spliced
     = Ok Demo.hundred_repaired
  /\ aget (ptrs (line_start_states Demo.hundred_repaired)) 12
     = aget (ptrs (line_start_states Demo.hundred)) 10
  /\ first_hole Demo.hundred_repaired = 100
  /\ first_hole Demo.hundred_repaired <> 13.
Proof.
  repeat split; try (vm_compute; reflexivity).
  vm_compute. discriminate.
Qed.

(** *** A stale state below first_hole *)

(** C2 fails on the code.  In the session [Demo.stale_session] every call
    returns; at its end first_hole is 10, the cell of line 7 holds state 0,
    and the state the machine is in at the start of line 7 is state 1.  The
    next hl_line, for line 6, runs into its own BUG_ON. *)
Theorem stale_state_below_first_hole :
  run_session Demo.no_hash true 100 Demo.stale_session
              (Demo.fresh (Demo.a_lines 8)) = Ok Demo.stale
  /\ first_hole Demo.stale = 10
  /\ count (line_start_states Demo.stale) = 10
  /\ aget (ptrs (line_start_states Demo.stale)) 7 = Ok (Some 0%nat)
  /\ run_lines Demo.no_hash true 100 Demo.braces (text Demo.stale)
               (Some 0%nat) 7 = Ok (Some 1%nat)
  /\ hl_line Demo.no_hash true 100 (line_at (text Demo.stale) 6) 6 Demo.stale
     = Err (BugOn "s->ptrs[line_nr] != next").
Proof. repeat split; vm_compute; reflexivity. Qed.

(** *** Every byte of a line is colored *)

Lemma paint_length colors lo hi c : length (paint colors lo hi c) = length colors.
Proof.
  unfold paint. destruct (hi <=? lo); [reflexivity|]. apply fill_from_length.
Qed.

Lemma nth_error_paint colors lo hi c k :
  0 <= lo -> hi <= Z.of_nat (length colors) ->
  nth_error (paint colors lo hi c) k =
  if (lo <=? Z.of_nat k) && (Z.of_nat k <? hi) then Some (Some c)
  else nth_error colors k.
Proof.
  intros Hlo Hhi. unfold paint.
  destruct (Z.leb_spec hi lo).
  - destruct (Z.leb_spec lo (Z.of_nat k)), (Z.ltb_spec (Z.of_nat k) hi);
      cbn; try reflexivity; lia.
  - rewrite nth_error_fill_from by lia.
    destruct (Nat.leb_spec (Z.to_nat lo) k), (Nat.ltb_spec k (Z.to_nat lo + Z.to_nat (hi - lo)));
      destruct (Z.leb_spec lo (Z.of_nat k)), (Z.ltb_spec (Z.of_nat k) hi);
      cbn; try reflexivity; lia.
Qed.

Lemma painted_below_paint colors lo hi c i :
  0 <= lo -> hi <= Z.of_nat (length colors) ->
  painted_below i colors -> painted_below i (paint colors lo hi c).
Proof.
  intros Hlo Hhi H k Hk. rewrite nth_error_paint by assumption.
  destruct (_ && _); [eauto | apply H; assumption].
Qed.

Lemma painted_below_extend colors i i' c :
  0 <= i -> i' <= Z.of_nat (length colors) ->
  painted_below i colors -> painted_below i' (paint colors i i' c).
Proof.
  intros Hi Hhi H k Hk. rewrite nth_error_paint by assumption.
  rewrite Z2Nat.id by lia.
  destruct (Z.leb_spec i k), (Z.ltb_spec k i'); cbn; eauto; try lia.
  apply H; lia.
Qed.

Section Colors.
Variable buf_hash : list Z -> Z -> Z.
Variable char_is_signed : bool.
Local Abbreviation walk_conditions := (walk_conditions buf_hash char_is_signed).
Local Abbreviation highlight_loop := (highlight_loop buf_hash char_is_signed).
Local Abbreviation highlight_line := (highlight_line buf_hash char_is_signed).

Lemma walk_conditions_paints line len i conds :
  0 <= i < len ->
  forall sidx colors,
    Z.of_nat (length colors) = len ->
    painted_below i colors ->
    let w := walk_conditions line len i conds sidx colors in
    Z.of_nat (length (walk_colors w)) = len
    /\ i <= walk_pos i w <= len
    /\ painted_below (walk_pos i w) (walk_colors w).
Proof.
  intros Hi. induction conds as [|cond rest IH]; intros sidx colors Hlen Hp; cbn.
  - repeat split; try lia. assumption.
  - destruct (type cond) eqn:Et; cbn.
    all: repeat match goal with
         | |- context [if ?b then _ else _] =>
             match b with
             | context [walk_conditions] => fail 1
             | _ => let E := fresh "E" in destruct b eqn:E
             end
         end; cbn;
         try (apply IH; [rewrite ?paint_length; assumption
                        | try apply painted_below_paint; try assumption; try lia]);
         try (rewrite paint_length; repeat split; try lia;
              first [apply painted_below_extend; (assumption || lia)
                    | apply painted_below_paint; (assumption || lia)]).
    all: try (apply andb_prop in E; destruct E as [E1 E2]).
    all: try (apply andb_prop in E1; destruct E1 as [E1 E3]).
    all: try lia.
Qed.

Lemma highlight_loop_paints syn line len :
  forall fuel st i sidx colors colors' st',
    0 <= i <= len -> Z.of_nat (length colors) = len ->
    painted_below i colors ->
    highlight_loop fuel syn line len st i sidx colors = Ok (colors', st') ->
    Z.of_nat (length colors') = len /\ painted_below len colors'.
Proof.
  induction fuel as [|fuel IH]; intros st i sidx colors colors' st' Hi Hlen Hp H;
    [discriminate H|].
  cbn in H. destruct (Z.eqb_spec i len) as [->|Hne].
  - injection H as <- _. split; assumption.
  - destruct st as [r|]; [|discriminate H].
    destruct (nth_error syn r) as [sd|]; [|discriminate H].
    assert (Hi' : 0 <= i < len) by lia.
    pose proof (walk_conditions_paints line len i (conditions sd) Hi'
                  sidx colors Hlen Hp) as W. cbn zeta in W.
    destruct (walk_conditions line len i (conditions sd) sidx colors)
      as [st2 i2 sidx2 colors2|sidx2 colors2]; cbn in W.
    + destruct W as (W1 & W2 & W3). eapply IH; [| | |exact H]; (assumption || lia).
    + destruct W as (W1 & _ & W3). destruct (noeat sd).
      * eapply IH; [| | |exact H]; (assumption || lia).
      * eapply IH; [| | |exact H]; rewrite ?paint_length; try assumption; try lia.
        apply painted_below_extend; (assumption || lia).
Qed.

(** X1. When highlight_line returns, the colors array has one cell for each
    byte of the line and every one of them has been written: no byte is left
    without a color, whatever the syntax. *)
Theorem highlight_line_colors_every_byte :
  forall fuel syn st line colors st',
    highlight_line fuel syn st line = Ok (colors, st') ->
    length colors = length line
    /\ Forall (fun c => c <> None) colors.
Proof.
  intros fuel syn st line colors st' H. unfold Hl.highlight_line in H.
  apply highlight_loop_paints in H.
  - destruct H as [Hl Hp]. split; [lia|].
    apply Forall_forall. intros c Hin. apply In_nth_error in Hin.
    destruct Hin as [k Hk].
    assert (Hk' : (k < length colors)%nat) by (apply nth_error_Some; congruence).
    destruct (Hp (Z.of_nat k)) as [c' Hc']; [lia|].
    rewrite Nat2Z.id in Hc'. congruence.
  - lia.
  - now rewrite repeat_length.
  - intros k Hk. lia.
Qed.
End Colors.

(** *** Lines on which the highlighter returns *)

Section Returns.
Variable buf_hash : list Z -> Z -> Z.
Variable char_is_signed : bool.
Local Abbreviation walk_conditions := (walk_conditions buf_hash char_is_signed).
Local Abbreviation highlight_loop := (highlight_loop buf_hash char_is_signed).
Local Abbreviation highlight_line := (highlight_line buf_hash char_is_signed).

Lemma walk_conditions_progress n line len i conds :
  0 <= i < len ->
  forallb (fun c => action_closed n (a c)) conds = true ->
  forallb cond_advances conds = true ->
  forall sidx colors st' i' sidx' colors',
    walk_conditions line len i conds sidx colors = Fired st' i' sidx' colors' ->
    (st' < n)%nat /\ (i < i' <= len \/ (i' = i /\ 0 <= sidx /\ sidx' = -1)).
Proof.
  intros Hi. induction conds as [|cond rest IH]; intros Hc Ha sidx colors st' i' sidx' colors' H;
    [discriminate H|].
  cbn in Hc, Ha. apply andb_prop in Hc, Ha. destruct Hc as [Hc Hcs], Ha as [Ha Has].
  unfold action_closed in Hc. apply Nat.ltb_lt in Hc.
  unfold cond_advances in Ha.
  cbn in H. destruct (type cond) eqn:Et.
  all: repeat match type of H with
       | context [if ?b then _ else _] =>
           match b with
           | context [walk_conditions] => fail 1
           | _ => let E := fresh "E" in destruct b eqn:E
           end
       end.
  all: try (injection H as <- <- <- <-).
  all: try (specialize (IH Hcs Has _ _ _ _ _ _ H)).
  all: try (apply andb_prop in E; destruct E as [E1 E2]).
  all: try (apply andb_prop in E1; destruct E1 as [E1 E3]).
  all: try (apply negb_true_iff, Nat.eqb_neq in Ha).
  all: try (split; [assumption|]); try lia.
  all: try (destruct IH as [? [?|?]]; split; [assumption|lia]).
Qed.

Lemma highlight_loop_terminates syn line len :
  closed_syntax syn = true -> eats syn = true ->
  forall fuel (r : state_ref) i sidx colors,
    0 <= i <= len -> (r < length syn)%nat ->
    2 * (len - i) + (if 0 <=? sidx then 1 else 0) < Z.of_nat fuel ->
    exists colors' r',
      highlight_loop fuel syn line len (Some r) i sidx colors = Ok (colors', Some r')
      /\ (r' < length syn)%nat.
Proof.
  intros Hcl He. induction fuel as [|fuel IH]; intros r i sidx colors Hi Hr Hm.
  - destruct (0 <=? sidx); lia.
  - rewrite Nat2Z.inj_succ in Hm. cbn. destruct (Z.eqb_spec i len) as [->|Hne]; [eauto|].
    destruct (nth_error syn r) as [sd|] eqn:Esd;
      [|apply nth_error_None in Esd; lia].
    apply nth_error_In in Esd.
    unfold closed_syntax in Hcl. rewrite forallb_forall in Hcl.
    unfold eats in He. rewrite forallb_forall in He.
    pose proof (Hcl _ Esd) as Hsd. pose proof (He _ Esd) as Hed.
    unfold state_closed in Hsd. unfold state_eats in Hed.
    apply andb_prop in Hsd, Hed. destruct Hsd as [Hd Hcs], Hed as [Hn Has].
    apply negb_true_iff in Hn. rewrite Hn.
    unfold action_closed in Hd. apply Nat.ltb_lt in Hd.
    destruct (walk_conditions line len i (conditions sd) sidx colors)
      as [st2 i2 sidx2 colors2|sidx2 colors2] eqn:Ew.
    + apply (walk_conditions_progress (length syn)) in Ew;
        [|lia|assumption|assumption].
      destruct Ew as [Hst [Hadv|(-> & Hs & ->)]].
      * apply IH; [lia|assumption|]. destruct (0 <=? sidx2), (0 <=? sidx); lia.
      * apply IH; [lia|assumption|].
        change (0 <=? -1) with false.
        destruct (Z.leb_spec 0 sidx); lia.
    + apply IH; [lia|assumption|]. change (0 <=? -1) with false.
      destruct (0 <=? sidx); lia.
Qed.

Lemma walk_conditions_closed n line len i conds :
  forallb (fun c => action_closed n (a c)) conds = true ->
  forall sidx colors st' i' sidx' colors',
    walk_conditions line len i conds sidx colors = Fired st' i' sidx' colors' ->
    (st' < n)%nat.
Proof.
  induction conds as [|cond rest IH]; intros Hc sidx colors st' i' sidx' colors' H;
    [discriminate H|].
  cbn in Hc. apply andb_prop in Hc. destruct Hc as [Hc Hcs].
  unfold action_closed in Hc. apply Nat.ltb_lt in Hc.
  cbn in H. destruct (type cond) eqn:Et.
  all: repeat match type of H with
       | context [if ?b then _ else _] =>
           match b with
           | context [walk_conditions] => fail 1
           | _ => let E := fresh "E" in destruct b eqn:E
           end
       end.
  all: try (injection H as <- <- <- <-; exact Hc).
  all: eapply IH; [exact Hcs|exact H].
Qed.

(* On a closed syntax the loop follows no NULL or dangling state: it ends in
   a state of the syntax, or does not end within the turns counted. *)
Lemma highlight_loop_closed syn line len :
  closed_syntax syn = true ->
  forall fuel (r : state_ref) i sidx colors,
    (r < length syn)%nat ->
    match highlight_loop fuel syn line len (Some r) i sidx colors with
    | Ok (_, st') => exists r' : state_ref, st' = Some r' /\ (r' < length syn)%nat
    | Err e => e = OutOfFuel
    end.
Proof.
  intros Hcl. induction fuel as [|fuel IH]; intros r i sidx colors Hr;
    [reflexivity|].
  cbn. destruct (i =? len); [eauto|].
  destruct (nth_error syn r) as [sd|] eqn:Esd;
    [|apply nth_error_None in Esd; lia].
  apply nth_error_In in Esd.
  unfold closed_syntax in Hcl. rewrite forallb_forall in Hcl.
  pose proof (Hcl _ Esd) as Hsd. unfold state_closed in Hsd.
  apply andb_prop in Hsd. destruct Hsd as [Hd Hcs].
  unfold action_closed in Hd. apply Nat.ltb_lt in Hd.
  destruct (walk_conditions line len i (conditions sd) sidx colors)
    as [st2 i2 sidx2 colors2|sidx2 colors2] eqn:Ew.
  - apply IH. eapply walk_conditions_closed; eassumption.
  - destruct (noeat sd); apply IH; exact Hd.
Qed.


(** X2. On a syntax all of whose destinations are states of the syntax, with
    no noeat default and no empty COND_STR string, highlight_line started in
    a state of the syntax returns within 2 * len + 1 turns of its loop, in a
    state of the syntax: it neither spins nor follows a NULL or dangling
    state pointer. *)
Theorem highlight_line_terminates :
  forall fuel syn (r : state_ref) line,
    closed_syntax syn = true -> eats syn = true ->
    (r < length syn)%nat -> (2 * length line < fuel)%nat ->
    exists colors r',
      highlight_line fuel syn (Some r) line = Ok (colors, Some r')
      /\ (r' < length syn)%nat.
Proof.
  intros fuel syn r line Hcl He Hr Hf. unfold Hl.highlight_line.
  apply highlight_loop_terminates; try assumption;
    change (0 <=? -1) with false; lia.
Qed.
End Returns.

(** *** Well-formed caches *)

Lemma aget_In {A} (p : list A) j x : aget p j = Ok x -> In x p.
Proof. intros H. apply aget_inv in H. eapply nth_error_In; eassumption. Qed.

Lemma In_aget {A} (p : list A) x : In x p -> exists j, aget p j = Ok x.
Proof.
  intros H. apply In_nth_error in H. destruct H as [k Hk].
  exists (Z.of_nat k). apply aget_nth_error; [lia|]. now rewrite Nat2Z.id.
Qed.

Lemma cells_ok_spec n p : forallb (cell_ok n) p = true <-> cells_ok n p.
Proof.
  rewrite forallb_forall. split.
  - intros H j c Hj. apply aget_In in Hj. apply H in Hj. now apply Nat.ltb_lt in Hj.
  - intros H [c|] Hin; [|reflexivity]. apply In_aget in Hin. destruct Hin as [j Hj].
    apply Nat.ltb_lt. eapply H; eassumption.
Qed.

Lemma known_below_spec h p :
  0 <= h <= Z.of_nat (length p) ->
  forallb known (firstn (Z.to_nat h) p) = true <-> known_below h p.
Proof.
  intros Hh. rewrite forallb_forall. split.
  - intros H j Hj.
    destruct (nth_error p (Z.to_nat j)) as [x|] eqn:E;
      [|apply nth_error_None in E; lia].
    assert (Hin : In x (firstn (Z.to_nat h) p)).
    { apply nth_error_In with (n := Z.to_nat j). rewrite nth_error_firstn.
      destruct (Nat.ltb_spec (Z.to_nat j) (Z.to_nat h)); [assumption|lia]. }
    apply H in Hin. destruct x as [c|]; [|discriminate Hin].
    exists c. apply aget_nth_error; [lia|assumption].
  - intros H x Hin. apply In_nth_error in Hin. destruct Hin as [k Hk].
    rewrite nth_error_firstn in Hk.
    destruct (Nat.ltb_spec k (Z.to_nat h)); [|discriminate Hk].
    destruct (H (Z.of_nat k)) as [c Hc]; [lia|].
    apply aget_inv in Hc. rewrite Nat2Z.id in Hc. now replace x with (Some c) by congruence.
Qed.

Lemma cache_ok_spec n b :
  let s := line_start_states b in
  cache_ok n b = true <->
  (1 <= first_hole b <= count s /\ count s <= Z.of_nat (length (ptrs s)))
  /\ cells_ok n (ptrs s) /\ known_below (first_hole b) (ptrs s).
Proof.
  intros s. unfold cache_ok. fold s. rewrite !andb_true_iff.
  rewrite !Z.leb_le, cells_ok_spec. split.
  - intros ((((H1 & H2) & H3) & H4) & H5).
    repeat split; try assumption. apply known_below_spec; [lia|assumption].
  - intros (((H1 & H2) & H3) & H4 & H5).
    repeat split; try assumption. apply known_below_spec; [lia|assumption].
Qed.

Lemma new_hole_spec idx b :
  let s := line_start_states b in
  0 <= idx -> 0 <= first_hole b -> count s <= Z.of_nat (length (ptrs s)) ->
  exists q,
    new_hole idx b
    = Ok {| syn := syn b; text := text b;
            line_start_states := {| ptrs := q; count := count s |};
            first_hole := Z.min (first_hole b) idx |}
    /\ length q = length (ptrs s)
    /\ forall j, 0 <= j ->
         aget q j =
         if (j =? Z.max (first_hole b) idx) && negb (first_hole b =? idx)
            && (j <? count s)
         then Ok None else aget (ptrs s) j.
Proof.
  intros s Hi Hf Hl. unfold new_hole. fold s.
  destruct b as [sy tx [p c] fh]; cbn in *. subst s. cbn in *.
  destruct (Z.eqb_spec idx fh) as [->|Hne].
  - exists p. rewrite Z.min_id. repeat split.
    intros j Hj. rewrite Z.eqb_refl. cbn. now rewrite andb_false_r.
  - destruct (Z.eqb_spec fh idx); [lia|]. cbn [negb].
    destruct (Z.ltb_spec fh idx).
    + rewrite Z.min_l, Z.max_r by lia. destruct (Z.ltb_spec idx c).
      * rewrite aset_ok by lia. cbn. eexists; split; [reflexivity|].
        split; [apply replace_nth_length|].
        intros j Hj. rewrite aget_replace_nth by lia.
        destruct (Z.eqb_spec j idx), (Z.ltb_spec j c); cbn; try reflexivity; lia.
      * exists p. repeat split. intros j Hj.
        destruct (Z.eqb_spec j idx), (Z.ltb_spec j c); cbn; try reflexivity; lia.
    + rewrite Z.min_r, Z.max_l by lia. destruct (Z.ltb_spec fh c).
      * rewrite aset_ok by lia. cbn. eexists; split; [reflexivity|].
        split; [apply replace_nth_length|].
        intros j Hj. rewrite aget_replace_nth by lia.
        destruct (Z.eqb_spec j fh), (Z.ltb_spec j c); cbn; try reflexivity; lia.
      * exists p. repeat split. intros j Hj.
        destruct (Z.eqb_spec j fh), (Z.ltb_spec j c); cbn; try reflexivity; lia.
Qed.

Lemma cells_ok_resize n s c :
  cells_ok n (ptrs s) -> cells_ok n (ptrs (resize_line_states s c)).
Proof.
  intros H. apply cells_ok_spec. apply cells_ok_spec in H.
  assert (Hnone : forall k, forallb (cell_ok n) (repeat None k) = true).
  { intros k. apply forallb_forall. intros x Hx.
    apply repeat_spec in Hx. now subst. }
  unfold resize_line_states. destruct (c <? 0).
  - destruct (_ <? _); [|assumption]. cbn. unfold xrenew.
    rewrite forallb_app, Hnone, andb_true_r. apply forallb_forall.
    intros x Hx. rewrite forallb_forall in H. apply H.
    rewrite <- (firstn_skipn (Z.to_nat (ROUND_UP (c + (UINT_MAX + 1)) 64
                                        mod (UINT_MAX + 1))) (ptrs s)).
    apply in_or_app. left. exact Hx.
  - destruct (_ <? _); [|assumption]. cbn.
    rewrite forallb_app, H. apply Hnone.
Qed.

(** X3. new_hole(idx) on a well-formed cache leaves it well-formed and makes
    first_hole the smaller of first_hole and idx.  The only cell it writes
    is the one at the larger of the two, which becomes NULL when the two
    differ and it lies below count. *)
Theorem new_hole_keeps_cache :
  forall n idx b,
    let s := line_start_states b in
    cache_ok n b = true -> 1 <= idx <= count s ->
    exists b',
      new_hole idx b = Ok b'
      /\ cache_ok n b' = true
      /\ first_hole b' = Z.min (first_hole b) idx
      /\ count (line_start_states b') = count s
      /\ (forall j, 0 <= j -> j <> Z.max (first_hole b) idx ->
          aget (ptrs (line_start_states b')) j = aget (ptrs s) j)
      /\ (first_hole b <> idx -> Z.max (first_hole b) idx < count s ->
          aget (ptrs (line_start_states b')) (Z.max (first_hole b) idx) = Ok None).
Proof.
  intros n idx b s Hok Hidx. subst s.
  apply cache_ok_spec in Hok.
  destruct Hok as ((Hfh & Hlen) & Hcells & Hknown).
  destruct (new_hole_spec idx b) as (q & Hq & Hlenq & Hgq); try lia.
  rewrite Hq. eexists; split; [reflexivity|]. cbn.
  split; [|repeat split].
  - apply cache_ok_spec; cbn. repeat split; try lia.
    + intros j c Hj. pose proof (aget_bounds _ _ _ Hj) as Hb.
      rewrite Hgq in Hj by lia. destruct (_ && _); [discriminate Hj|].
      eapply Hcells; eassumption.
    + intros j Hj. rewrite Hgq by lia.
      destruct (Z.eqb_spec j (Z.max (first_hole b) idx)); [lia|].
      cbn [andb]. apply Hknown. lia.
  - intros j Hj Hne. rewrite Hgq by lia.
    destruct (Z.eqb_spec j (Z.max (first_hole b) idx)); [lia|reflexivity].
  - intros Hne Hlt. rewrite Hgq by lia. rewrite Z.eqb_refl.
    destruct (Z.eqb_spec (first_hole b) idx); [lia|].
    destruct (Z.ltb_spec (Z.max (first_hole b) idx) (count (line_start_states b)));
      [reflexivity|lia].
Qed.

(** X4. find_hole(pos) moves first_hole to the first index from pos on whose
    cell is NULL, or to count when there is none, and writes no cell. *)
Theorem find_hole_stops_at_the_next_null :
  forall pos b,
    let s := line_start_states b in
    let b' := find_hole pos b in
    count s <= Z.of_nat (length (ptrs s)) -> 0 <= pos <= count s ->
    line_start_states b' = s
    /\ pos <= first_hole b' <= count s
    /\ (forall j, pos <= j < first_hole b' ->
        exists c, aget (ptrs s) j = Ok (Some c))
    /\ (first_hole b' < count s -> aget (ptrs s) (first_hole b') = Ok None).
Proof.
  intros pos b s b' Hlen Hpos. subst b'. unfold find_hole. fold s. cbn.
  destruct (find_hole_from_spec (ptrs s) (count s) Hlen
              (Z.to_nat (count s - pos)) pos) as (F1 & F2 & F3 & F4); [lia|lia|].
  repeat split; try assumption; lia.
Qed.


(** X6. hl_delete of fewer newlines than the cache has lines returns
    without error and leaves a well-formed cache.  On a cache of one line or
    past its end it does nothing; otherwise count drops by deleted_nl,
    first_hole ends at or below first + 1 and no higher than it was, the
    cells up to [first] keep their states, and when lines remain after the
    deleted ones their cells move down by deleted_nl. *)
Theorem hl_delete_keeps_cache :
  forall n b first deleted_nl,
    let s := line_start_states b in
    cache_ok n b = true -> 0 <= first -> 0 <= deleted_nl < count s ->
    exists b',
      hl_delete first deleted_nl b = Ok b'
      /\ cache_ok n b' = true
      /\ (count s = 1 \/ count s <= first -> b' = b)
      /\ (count s <> 1 -> first < count s ->
          count (line_start_states b') = count s - deleted_nl
          /\ first_hole b' <= first + 1 /\ first_hole b' <= first_hole b)
      /\ (forall j, 0 <= j <= first ->
          aget (ptrs (line_start_states b')) j = aget (ptrs s) j)
      /\ (first + deleted_nl + 1 < count s ->
          forall j, first + 1 <= j < count s - deleted_nl ->
                    j <> Z.max (first_hole b) (first + 1) ->
          aget (ptrs (line_start_states b')) j = aget (ptrs s) (j + deleted_nl)).
Proof.
  intros n b first del s Hok H0 Hd.
  pose proof Hok as Hok'. apply cache_ok_spec in Hok'. fold s in Hok'.
  destruct Hok' as ((Hfh & Hlen) & Hcells & Hknown).
  unfold hl_delete. fold s.
  destruct (Z.eqb_spec (count s) 1) as [H1|H1].
  { exists b. repeat split; try assumption; lia. }
  destruct (Z.leb_spec (count s) first) as [Hc|Hc].
  { exists b. repeat split; try assumption; lia. }
  destruct (Z.leb_spec (count s) (first + del + 1)) as [Ht|Ht].
  { unfold truncate_line_states. fold s.
    destruct (Z.ltb_spec (count s) (first_hole b)); [lia|].
    cbn [count set_count first_hole set_states].
    destruct (Z.ltb_spec (count s - del) (first_hole b)).
    - eexists; split; [reflexivity|]. cbn.
      repeat split; try lia.
      apply cache_ok_spec; cbn. repeat split; try lia; try assumption.
      intros j Hj. apply Hknown. lia.
    - eexists; split; [reflexivity|]. cbn.
      repeat split; try lia.
      apply cache_ok_spec; cbn. repeat split; try lia; assumption. }
  assert (Hfin : forall p2,
    count s - del <= Z.of_nat (length p2) -> cells_ok n p2 ->
    (forall j, 0 <= j <= first -> aget p2 j = aget (ptrs s) j) ->
    (forall j, first + 1 <= j < count s - del -> aget p2 j = aget (ptrs s) (j + del)) ->
    exists b',
      new_hole (first + 1) (set_states b {| ptrs := p2; count := count s - del |})
      = Ok b'
      /\ cache_ok n b' = true
      /\ (count s = 1 \/ count s <= first -> b' = b)
      /\ (count s <> 1 -> first < count s ->
          count (line_start_states b') = count s - del
          /\ first_hole b' <= first + 1 /\ first_hole b' <= first_hole b)
      /\ (forall j, 0 <= j <= first ->
          aget (ptrs (line_start_states b')) j = aget (ptrs s) j)
      /\ (first + del + 1 < count s ->
          forall j, first + 1 <= j < count s - del ->
                    j <> Z.max (first_hole b) (first + 1) ->
          aget (ptrs (line_start_states b')) j = aget (ptrs s) (j + del))).
  { intros p2 Hlen2 Hcells2 Hpre2 Hsh2.
    destruct (new_hole_spec (first + 1)
                (set_states b {| ptrs := p2; count := count s - del |}))
      as (q & Hq & Hlenq & Hgq); cbn; try lia.
    rewrite Hq. cbn in *. eexists; split; [reflexivity|]. cbn.
    assert (Hpre : forall j, 0 <= j <= first -> aget q j = aget (ptrs s) j).
    { intros j Hj. rewrite Hgq by lia.
      destruct (Z.eqb_spec j (Z.max (first_hole b) (first + 1))); [lia|].
      cbn [andb]. apply Hpre2; assumption. }
    split; [|repeat split; try lia; try assumption].
    - apply cache_ok_spec; cbn. repeat split; try lia.
      + intros j c Hj. pose proof (aget_bounds _ _ _ Hj) as Hb.
        rewrite Hgq in Hj by lia. destruct (_ && _); [discriminate Hj|].
        eapply Hcells2; eassumption.
      + intros j Hj. rewrite Hpre by lia. apply Hknown. lia.
    - intros _ j Hj Hne. rewrite Hgq by lia.
      destruct (Z.eqb_spec j (Z.max (first_hole b) (first + 1))); [lia|].
      cbn [andb]. apply Hsh2; assumption. }
  destruct (Z.eqb_spec del 0) as [Hz|Hnz].
  - cbn [bind].
    assert (Hs : {| ptrs := ptrs s; count := count s - del |} = s)
      by (subst s; destruct (line_start_states b); cbn; f_equal; lia).
    destruct (Hfin (ptrs s)) as (b' & Hb' & Hrest);
      [lia|assumption|reflexivity| |].
    + intros j Hj. f_equal. lia.
    + rewrite Hs in Hb'. exists b'. split; assumption.
  - destruct (amove_ok (ptrs s) (first + 1) (first + del + 1)
                       (count s - (first + del + 1)))
      as (p2 & Hp2 & Hlen2 & Hg2); try lia.
    unfold move_line_states. rewrite Hp2. cbn [bind].
    cbn [ptrs set_count set_ptrs count].
    apply Hfin; cbn [ptrs set_ptrs]; [lia| | |].
    + intros j c Hj. pose proof (aget_bounds _ _ _ Hj) as Hb.
      rewrite Hg2 in Hj by lia. destruct (_ && _); eapply Hcells; eassumption.
    + intros j Hj. rewrite Hg2 by lia.
      destruct (Z.leb_spec (first + 1) j); [lia|]. reflexivity.
    + intros j Hj. rewrite Hg2 by lia.
      destruct (Z.leb_spec (first + 1) j); [|lia].
      destruct (Z.ltb_spec j (first + 1 + (count s - (first + del + 1)))); [|lia].
      cbn [andb]. f_equal. lia.
Qed.

(** *** The fill loop on a well-formed cache *)




Section FillTotal.
Variable buf_hash : list Z -> Z -> Z.
Variable char_is_signed : bool.
Local Abbreviation fill_step := (fill_step buf_hash char_is_signed).
Local Abbreviation highlight_line := (highlight_line buf_hash char_is_signed).
Local Abbreviation hl_fill_loop := (hl_fill_loop buf_hash char_is_signed).
Local Abbreviation hl_fill_start_states :=
  (hl_fill_start_states buf_hash char_is_signed).



End FillTotal.

(** *** [hl_line] on a well-formed cache *)

Section Line.
Variable buf_hash : list Z -> Z -> Z.
Variable char_is_signed : bool.
Local Abbreviation highlight_line := (highlight_line buf_hash char_is_signed).
Local Abbreviation hl_line := (hl_line buf_hash char_is_signed).

(** X8. For a syntax all of whose destinations are states of the syntax
    (noeat states allowed), hl_line on a line below first_hole of a
    well-formed cache runs highlight_line from the cached start state of the
    line.  If highlight_line does not return, neither does hl_line.  Once it
    has returned, hl_line either trips BUG_ON(s->ptrs[line_nr] != next),
    which takes a cached state two or more cells below first_hole, or
    returns those colors, with the end state in the cell of the next line,
    the cache well-formed and first_hole no lower; when it reports
    next_changed = false it has written no cell. *)
Theorem hl_line_stores_the_next_state :
  forall hfuel sy line line_nr b,
    let s := line_start_states b in
    syn b = Some sy ->
    closed_syntax sy = true ->
    cache_ok (length sy) b = true ->
    0 <= line_nr < first_hole b ->
    exists p : state_ref,
      aget (ptrs s) line_nr = Ok (Some p)
      /\ (forall e,
          highlight_line hfuel sy (Some p) line = Err e ->
          e = OutOfFuel /\ hl_line hfuel line line_nr b = Err e)
      /\ forall colors nx,
          highlight_line hfuel sy (Some p) line = Ok (colors, nx) ->
          (line_nr + 1 < first_hole b
           /\ hl_line hfuel line line_nr b
              = Err (BugOn "s->ptrs[line_nr] != next"))
          \/ exists r (next : state_ref),
               nx = Some next
               /\ hl_line hfuel line line_nr b = Ok r
               /\ colors_of r = Some colors
               /\ aget (ptrs (line_start_states (buffer_of r))) (line_nr + 1)
                  = Ok (Some next)
               /\ cache_ok (length sy) (buffer_of r) = true
               /\ first_hole b <= first_hole (buffer_of r)
               /\ (next_changed r = false ->
                   line_start_states (buffer_of r) = s).
Proof.
  intros hfuel sy line line_nr b s Hsy Hcl Hok Hln.
  pose proof Hok as Hok'. apply cache_ok_spec in Hok'. fold s in Hok'.
  destruct Hok' as ((Hfh & Hlen) & Hcells & Hknown).
  destruct (Hknown line_nr) as [r0 Hr0]; [lia|].
  exists r0. split; [exact Hr0|].
  assert (Hr0v : (r0 < length sy)%nat) by (eapply Hcells; eassumption).
  pose proof (highlight_loop_closed buf_hash char_is_signed sy line
                (Z.of_nat (length line)) Hcl hfuel r0 0 (-1)
                (repeat None (length line)) Hr0v) as Hclosed.
  change (match highlight_line hfuel sy (Some r0) line with
          | Ok (_, st') =>
              exists r' : state_ref, st' = Some r' /\ (r' < length sy)%nat
          | Err e => e = OutOfFuel
          end) in Hclosed.
  unfold Hl.hl_line. rewrite Hsy. cbv zeta. fold s.
  destruct (Z.leb_spec (count s) line_nr); [lia|].
  rewrite Hr0. cbn [bind].
  destruct (highlight_line hfuel sy (Some r0) line) as [[cols nx0]|e0] eqn:Hh.
  2:{ split; [|intros colors nx Hd; discriminate Hd].
      intros e He. injection He as <-. split; [exact Hclosed|reflexivity]. }
  split; [intros e He; discriminate He|].
  intros colors nx Hd. injection Hd as <- <-.
  destruct Hclosed as (next & -> & Hnext).
  cbn [bind fst snd].
  assert (Hset : forall p k, 0 <= k < Z.of_nat (length p) -> cells_ok (length sy) p ->
            cells_ok (length sy) (replace_nth (Z.to_nat k) (Some next) p)).
  { intros p k Hk Hp j c Hj. pose proof (aget_bounds _ _ _ Hj) as Hb.
    rewrite replace_nth_length in Hb. rewrite aget_replace_nth in Hj by lia.
    destruct (j =? k); [now injection Hj as <-|]. eapply Hp; eassumption. }
  destruct (Z.eqb_spec (line_nr + 1) (count s)) as [Hnew|Hold].
  - right.
    destruct (resize_line_states_spec s (count s + 1) ltac:(lia)) as (Hc1 & Hl1 & Hl1' & Hg1).
    pose proof (cells_ok_resize (length sy) s (count s + 1) Hcells) as Hcells1.
    set (s1 := resize_line_states s (count s + 1)) in *.
    rewrite aset_ok by lia. cbn [bind].
    eexists. exists next. split; [reflexivity|]. split; [reflexivity|]. cbn.
    rewrite Hc1.
    assert (Hget : forall j, 0 <= j ->
              aget (replace_nth (Z.to_nat (count s)) (Some next) (ptrs s1)) j
              = if j =? count s then Ok (Some next) else aget (ptrs s1) j)
      by (intros j Hj; apply aget_replace_nth; lia).
    repeat split; try assumption; try lia; try discriminate.
    + rewrite Hget by lia. rewrite <- Hnew, Z.eqb_refl. reflexivity.
    + apply cache_ok_spec; cbn. rewrite replace_nth_length.
      repeat split; try lia.
      * apply Hset; [lia|assumption].
      * intros j Hj. rewrite Hget by lia.
        destruct (Z.eqb_spec j (count s)); [eauto|].
        rewrite Hg1 by lia. apply Hknown. lia.
  - destruct (aget (ptrs s) (line_nr + 1)) as [cur|e] eqn:Ecur.
    2:{ exfalso. unfold aget in Ecur.
        destruct (Z.ltb_spec (line_nr + 1) 0); [lia|].
        destruct (nth_error (ptrs s) (Z.to_nat (line_nr + 1))) eqn:E;
          [discriminate Ecur|]. apply nth_error_None in E. lia. }
    cbn [bind].
    assert (Hget : forall k j, 0 <= k < Z.of_nat (length (ptrs s)) -> 0 <= j ->
              aget (replace_nth (Z.to_nat k) (Some next) (ptrs s)) j
              = if j =? k then Ok (Some next) else aget (ptrs s) j)
      by (intros k j Hk Hj; apply aget_replace_nth; lia).
    destruct cur as [c|].
    + destruct (Z.eqb_spec (line_nr + 1) (first_hole b)) as [Hat|Hbelow].
      * right. destruct (Nat.eqb_spec c next) as [->|Hne].
        -- eexists. exists next. split; [reflexivity|]. split; [reflexivity|].
           unfold find_hole. fold s. cbn.
           destruct (find_hole_from_spec (ptrs s) (count s) Hlen
                       (Z.to_nat (count s - (line_nr + 1 + 1))) (line_nr + 1 + 1))
             as (F1 & F2 & F3 & F4); [lia|lia|].
           set (h := find_hole_from (ptrs s) (count s) (line_nr + 1 + 1)
                       (Z.to_nat (count s - (line_nr + 1 + 1)))) in *.
           repeat split; try assumption; try lia.
           ++ apply cache_ok_spec; cbn. fold s. repeat split; try lia; try assumption.
              intros j Hj.
              destruct (Z.lt_trichotomy j (line_nr + 1)) as [Hlt|[->|Hgt]].
              ** apply Hknown. lia.
              ** eauto.
              ** apply F3. lia.
        -- rewrite aset_ok by lia. cbn [bind].
           eexists. exists next. split; [reflexivity|]. split; [reflexivity|]. cbn.
           repeat split; try assumption; try lia; try discriminate.
           ++ rewrite Hget by lia. rewrite <- Hat, Z.eqb_refl. reflexivity.
           ++ apply cache_ok_spec; cbn. rewrite replace_nth_length.
              repeat split; try lia.
              ** apply Hset; [lia|assumption].
              ** intros j Hj. rewrite Hget by lia.
                 destruct (Z.eqb_spec j (first_hole b)); [eauto|].
                 apply Hknown. lia.
      * destruct (Nat.eqb_spec c next) as [->|Hne].
        -- right. eexists. exists next. split; [reflexivity|]. split; [reflexivity|]. cbn.
           repeat split; try assumption; try lia.
        -- left. split; [lia|reflexivity].
    + right. rewrite aset_ok by lia. cbn [bind].
      assert (Hat : first_hole b = line_nr + 1).
      { destruct (Z.eq_dec (first_hole b) (line_nr + 1)); [assumption|].
        destruct (Hknown (line_nr + 1)) as [c Hc]; [lia|]. congruence. }
      eexists. exists next. split; [reflexivity|]. split; [reflexivity|]. cbn.
      repeat split; try assumption; try lia; try discriminate.
      * rewrite Hget by lia. rewrite Z.eqb_refl. reflexivity.
      * apply cache_ok_spec; cbn. rewrite replace_nth_length.
        repeat split; try lia.
        -- apply Hset; [lia|assumption].
        -- intros j Hj. rewrite Hget by lia.
           destruct (Z.eqb_spec j (line_nr + 1)); [eauto|].
           apply Hknown. lia.
Qed.
End Line.


Lemma new_hole_keeps_cache_witness :
  (cache_ok 2 (Demo.filled 8) = true /\ 1 <= 3 <= count (line_start_states (Demo.filled 8)))
  /\ exists b',
      new_hole 3 (Demo.filled 8) = Ok b'
      /\ cache_ok 2 b' = true
      /\ first_hole b' = 3.
Proof.
  split; [split; [reflexivity|cbn; lia]|].
  destruct (new_hole_keeps_cache 2 3 (Demo.filled 8))
    as (b' & H1 & H2 & H3 & _); [reflexivity|cbn; lia|].
  exists b'. repeat split; assumption.
Defined.
(** *** The theorems above at work on the worked examples *)

Lemma highlight_line_colors_every_byte_witness :
  highlight_line Demo.no_hash true 100 Demo.braces (Some 0%nat) [97; 123; 98; 10]
  = Ok ([Some 1; Some 2; Some 2; Some 2], Some 1%nat)
  /\ length [Some 1; Some 2; Some 2; Some 2] = length [97; 123; 98; 10]
  /\ Forall (fun c : option hl_color => c <> None)
            [Some 1; Some 2; Some 2; Some 2].
Proof.
  split; [vm_compute; reflexivity|].
  apply (highlight_line_colors_every_byte Demo.no_hash true 100 Demo.braces
           (Some 0%nat) [97; 123; 98; 10] _ (Some 1%nat)).
  vm_compute; reflexivity.
Defined.

Lemma highlight_line_terminates_witness :
  (closed_syntax Demo.braces = true /\ eats Demo.braces = true
   /\ (0 < length Demo.braces)%nat /\ (2 * length [97; 123; 98; 10] < 9)%nat)
  /\ exists colors r',
       highlight_line Demo.no_hash true 9 Demo.braces (Some 0%nat)
                      [97; 123; 98; 10] = Ok (colors, Some r')
       /\ (r' < length Demo.braces)%nat.
Proof.
  split; [repeat split; vm_compute; first [reflexivity | lia | discriminate]|].
  apply (highlight_line_terminates Demo.no_hash true 9 Demo.braces 0%nat
           [97; 123; 98; 10]); vm_compute; first [reflexivity | lia | discriminate].
Defined.

Lemma find_hole_stops_at_the_next_null_witness :
  (count (line_start_states Demo.two_holes)
   <= Z.of_nat (length (ptrs (line_start_states Demo.two_holes)))
   /\ 0 <= 2 <= count (line_start_states Demo.two_holes))
  /\ 2 <= first_hole (find_hole 2 Demo.two_holes)
     <= count (line_start_states Demo.two_holes).
Proof.
  split; [vm_compute; repeat split; discriminate|].
  apply (find_hole_stops_at_the_next_null 2 Demo.two_holes);
    vm_compute; repeat split; discriminate.
Defined.


Lemma hl_delete_keeps_cache_witness :
  (cache_ok 2 (Demo.filled 8) = true /\ 0 <= 3
   /\ 0 <= 2 < count (line_start_states (Demo.filled 8)))
  /\ exists b',
       hl_delete 3 2 (Demo.filled 8) = Ok b'
       /\ cache_ok 2 b' = true
       /\ count (line_start_states b') = 6
       /\ first_hole b' <= 4.
Proof.
  split; [repeat split; vm_compute; first [reflexivity | lia | discriminate]|].
  destruct (hl_delete_keeps_cache 2 (Demo.filled 8) 3 2)
    as (b' & H1 & H2 & _ & H3 & _);
    [reflexivity|lia|cbn; lia|].
  destruct H3 as (H3 & H4 & _); [cbn; lia|cbn; lia|].
  exists b'. repeat split; assumption.
Defined.


Lemma hl_line_stores_the_next_state_witness :
  (syn (Demo.filled 8) = Some Demo.braces
   /\ closed_syntax Demo.braces = true
   /\ cache_ok (length Demo.braces) (Demo.filled 8) = true
   /\ 0 <= 7 < first_hole (Demo.filled 8))
  /\ exists r,
       hl_line Demo.no_hash true 100 [97; 123; 10] 7 (Demo.filled 8) = Ok r
       /\ aget (ptrs (line_start_states (buffer_of r))) 8 = Ok (Some 1%nat)
       /\ next_changed r = true.
Proof.
  split; [repeat split; vm_compute; first [reflexivity | lia | discriminate]|].
  destruct (hl_line_stores_the_next_state Demo.no_hash true 100 Demo.braces
              [97; 123; 10] 7 (Demo.filled 8))
    as (p & Hp & _ & Hret);
    [reflexivity|reflexivity|reflexivity|cbn; lia|].
  vm_compute in Hp. injection Hp as <-.
  destruct (highlight_line Demo.no_hash true 100 Demo.braces (Some 0%nat)
                           [97; 123; 10]) as [[colors nx]|e] eqn:Eh;
    [|vm_compute in Eh; discriminate Eh].
  destruct (Hret colors nx Eh) as [[Hlt _]|(r & next & _ & H1 & _)];
    [cbn in Hlt; lia|].
  exists r. rewrite H1. vm_compute in H1. injection H1 as <-.
  vm_compute. repeat split.
Defined.

(** *** Keyword tests *)

Lemma memcmp_eq_spec x y n :
  memcmp_eq x y n = true <->
  (n <= length x)%nat /\ (n <= length y)%nat /\ firstn n x = firstn n y.
Proof.
  revert x y. induction n as [|n IH]; intros x y; simpl.
  - split; [intros; repeat split; lia|destruct x; reflexivity].
  - destruct x as [|c x], y as [|d y]; simpl;
      try (split; [discriminate|intros (A & B & C); lia]).
    rewrite andb_true_iff, Z.eqb_eq, IH. split.
    + intros (-> & A & B & C). repeat split; try lia. now rewrite C.
    + intros (A & B & C). injection C as -> C. repeat split; try lia. assumption.
Qed.

Lemma strncmp_eq_spec n : forall x y,
  (n <= length x)%nat -> no_nul (firstn n x) = true ->
  strncmp_eq x y n = true <-> (n <= length y)%nat /\ firstn n x = firstn n y.
Proof.
  induction n as [|n IH]; intros x y Hx Hz; cbn [strncmp_eq].
  - split; [intros; split; [lia|reflexivity]|reflexivity].
  - destruct x as [|c x]; [cbn in Hx; lia|].
    cbn in Hz. apply andb_prop in Hz. destruct Hz as [Hc Hz].
    apply negb_true_iff in Hc. cbn [hd tl]. rewrite Hc.
    destruct y as [|d y]; cbn [hd tl].
    + rewrite Hc. split; [discriminate|]. intros [A _]. cbn in A. lia.
    + destruct (Z.eqb_spec c d) as [->|Hne].
      * rewrite IH by (cbn in Hx; try lia; assumption). cbn. split.
        -- intros [A B]. split; [lia|now rewrite B].
        -- intros [A B]. injection B as B. split; [lia|assumption].
      * split; [discriminate|]. intros [_ B]. cbn in B. congruence.
Qed.

Lemma char_at_end s len :
  0 <= len -> no_nul s = true ->
  (char_at s len =? 0) = true <-> (length s <= Z.to_nat len)%nat.
Proof.
  intros Hl Hs. unfold char_at. destruct (Z.ltb_spec len 0); [lia|].
  rewrite Z.eqb_eq. split.
  - intros H0. destruct (Nat.le_gt_cases (length s) (Z.to_nat len)); [assumption|].
    exfalso. unfold no_nul in Hs. rewrite forallb_forall in Hs.
    assert (Hin : In (nth (Z.to_nat len) s 0) s) by (apply nth_In; lia).
    apply Hs in Hin. rewrite H0 in Hin. discriminate.
  - intros H0. apply nth_overflow. assumption.
Qed.

(** X19. The case-sensitive COND_BUFIS test is exact: is_buffered accepts
    the buffered bytes if and only if they are, byte for byte and in length,
    the string of the condition. *)
Theorem is_buffered_is_exact :
  forall cstr str len,
    0 <= len <= Z.of_nat (length str) ->
    is_buffered cstr false str len = true
    <-> cstr = firstn (Z.to_nat len) str.
Proof.
  intros cstr str len Hlen. unfold is_buffered.
  destruct (Z.eqb_spec len (Z.of_nat (length cstr))) as [E|E]; cbn [negb].
  - rewrite memcmp_eq_spec. split.
    + intros (A & B & C). rewrite <- C. rewrite firstn_all2 by lia. reflexivity.
    + intros ->. rewrite firstn_firstn, Nat.min_id.
      rewrite length_firstn. repeat split; lia.
  - split; [discriminate|]. intros ->. rewrite length_firstn in E. lia.
Qed.

Lemma list_search_spec str len :
  1 <= len <= Z.of_nat (length str) ->
  no_nul (firstn (Z.to_nat len) str) = true ->
  forall strs,
    forallb no_nul strs = true ->
    list_search str len strs = true <-> In (firstn (Z.to_nat len) str) strs.
Proof.
  intros Hlen Hz. induction strs as [|s strs IH]; intros Hs; cbn [list_search].
  - split; [discriminate|contradiction].
  - cbn in Hs. apply andb_prop in Hs. destruct Hs as [Hs Hss].
    assert (Hone :
      (hd 0 str =? hd 0 s) && strncmp_eq (tl str) (tl s) (Z.to_nat (len - 1))
      && (char_at s len =? 0) = true
      <-> s = firstn (Z.to_nat len) str).
    { destruct str as [|c str]; [cbn in Hlen; lia|].
      replace (Z.to_nat len) with (S (Z.to_nat (len - 1))) in * by lia.
      cbn [firstn hd tl] in *. cbn in Hz. apply andb_prop in Hz.
      destruct Hz as [Hc Hz]. cbn [length] in Hlen.
      rewrite !andb_true_iff, Z.eqb_eq.
      rewrite strncmp_eq_spec by (try assumption; lia).
      rewrite char_at_end by (try assumption; lia).
      destruct s as [|d s]; cbn [hd tl length].
      - split; [|discriminate]. intros ((Hd & _) & _). subst c. discriminate Hc.
      - split.
        + intros ((-> & A & B) & C). f_equal. rewrite B.
          symmetry. apply firstn_all2. lia.
        + intros E. injection E as -> ->.
          rewrite firstn_firstn, Nat.min_id, length_firstn.
          repeat split; lia. }
    destruct ((hd 0 str =? hd 0 s)
              && strncmp_eq (tl str) (tl s) (Z.to_nat (len - 1))
              && (char_at s len =? 0)) eqn:E.
    + split; [|intros; reflexivity]. intros _. left.
      apply (proj1 Hone). reflexivity.
    + split.
      * intros H. right. apply IH; assumption.
      * intros [Heq|Hin]; [|apply IH; assumption].
        apply (proj2 Hone) in Heq. discriminate Heq.
Qed.

(** X20. The case-sensitive COND_INLIST test is exact: for a buffered run of
    one or more bytes, none of them NUL, in_list answers true if and only
    if the run is, byte for byte and in length, one of the strings of the
    list. *)
Theorem in_list_is_exact :
  forall l str len,
    icase l = false ->
    1 <= len <= Z.of_nat (length str) ->
    no_nul (firstn (Z.to_nat len) str) = true ->
    forallb no_nul (strings l) = true ->
    in_list l str len = true <-> In (firstn (Z.to_nat len) str) (strings l).
Proof.
  intros l str len Hi Hlen Hz Hs. unfold in_list. rewrite Hi.
  apply list_search_spec; assumption.
Qed.

Lemma is_buffered_is_exact_witness :
  0 <= 2 <= Z.of_nat (length [105; 102; 32])
  /\ (is_buffered [105; 102] false [105; 102; 32] 2 = true
      <-> [105; 102] = firstn (Z.to_nat 2) [105; 102; 32]).
Proof.
  split; [cbn; lia|].
  apply (is_buffered_is_exact [105; 102] [105; 102; 32] 2). cbn; lia.
Defined.

Lemma in_list_is_exact_witness :
  (1 <= 2 <= Z.of_nat (length [105; 102; 32])
   /\ no_nul (firstn (Z.to_nat 2) [105; 102; 32]) = true)
  /\ (in_list {| icase := false; strings := [[102; 111; 114]; [105; 102]];
                 hash := [] |} [105; 102; 32] 2 = true
      <-> In (firstn (Z.to_nat 2) [105; 102; 32]) [[102; 111; 114]; [105; 102]]).
Proof.
  split; [split; [cbn; lia|reflexivity]|].
  apply (in_list_is_exact
           {| icase := false; strings := [[102; 111; 114]; [105; 102]];
              hash := [] |} [105; 102; 32] 2);
    [reflexivity|cbn; lia|reflexivity|reflexivity].
Defined.

End HlFacts.

(** ** The spawn engine *)

Module SpawnFacts.

Import Spawn.

Local Abbreviation E := (error_msg "Command did not read all data").
Local Abbreviation E' := (error_msg "Command did not read all data.").

Lemma skipn_length_app {A} (l d : list A) : skipn (length l) (l ++ d) = d.
Proof. induction l; simpl; auto. Qed.

Lemma io_order_app d1 d2 : io_order (d1 ++ d2) = io_order d1 ++ io_order d2.
Proof.
  induction d1 as [|ev d1 IH]; simpl; auto.
  destruct ev; simpl; rewrite ?IH; reflexivity.
Qed.

Lemma ext_refl w : ext w w [] [].
Proof. unfold ext. now rewrite !app_nil_r. Qed.

Lemma ext_trans w w1 w2 dm dt dm' dt' :
  ext w w1 dm dt -> ext w1 w2 dm' dt' -> ext w w2 (dm ++ dm') (dt ++ dt').
Proof.
  unfold ext. intros [H1 H2] [H3 H4]. rewrite H3, H4, H1, H2.
  now rewrite !app_assoc.
Qed.

Lemma ext_log ev w : ext w (log ev w) [] [ev].
Proof. unfold ext, log; cbn. now rewrite app_nil_r. Qed.

Lemma ext_say m w : ext w (say m w) [m] [].
Proof. unfold ext, say; cbn. now rewrite app_nil_r. Qed.

Lemma ext_xclose fd w :
  exists rc, ext w (snd (xclose fd w)) [] [EvClose fd rc].
Proof.
  unfold xclose. destruct (is_open fd w); cbn.
  - exists 0. unfold ext; cbn. now rewrite app_nil_r.
  - exists (-1). apply ext_log.
Qed.


Lemma ext_retire fd r a w :
  exists dm dt,
    ext w (snd (retire fd r a w)) dm dt
    /\ io_order dt = [] /\ Forall is_perror dm.
Proof.
  unfold retire.
  destruct ((fd <? 0) || has r POLLNVAL).
  - exists [], []. cbn. auto using ext_refl.
  - destruct (has r (Z.lor POLLHUP POLLERR)).
    + destruct (ext_xclose fd w) as [rc Hx].
      destruct (xclose fd w) as [rc' w'] eqn:Ex. cbn in Hx.
      destruct (rc' =? 0); cbn.
      * exists [], [EvClose fd rc]. auto.
      * exists ([] ++ [perror_msg "close"]), ([EvClose fd rc] ++ []).
        split; [eapply ext_trans; [exact Hx|apply ext_say]|].
        split; [reflexivity|]. repeat constructor. now exists "close"%string.
    + exists [], []. cbn. auto using ext_refl.
Qed.

Lemma ext_filter_tail r0 r1 s :
  exists dm dt,
    ext (fworld s) (fworld (snd (filter_tail r0 r1 s))) dm dt
    /\ io_order dt = [] /\ Forall is_perror dm.
Proof.
  unfold filter_tail.
  destruct (ext_retire (fd0 s) r0 2 (fworld s)) as (dm1 & dt1 & H1 & O1 & P1).
  destruct (retire (fd0 s) r0 2 (fworld s)) as [[f0 a1] w1]. cbn in H1.
  destruct (ext_retire (fd1 s) r1 a1 w1) as (dm2 & dt2 & H2 & O2 & P2).
  destruct (retire (fd1 s) r1 a1 w1) as [[f1 a2] w2]. cbn in H2.
  exists (dm1 ++ dm2), (dt1 ++ dt2).
  split; [|split].
  - destruct (a2 =? 0); cbn; eapply ext_trans; eassumption.
  - now rewrite io_order_app, O1, O2.
  - apply Forall_app; auto.
Qed.

Lemma ext_filter_write t r0 r1 s :
  exists dm dt,
    ext (fworld s) (fworld (snd (filter_write t r0 r1 s))) dm dt
    /\ (io_order dt = [] \/ io_order dt = [Wr]) /\ Forall is_perror dm.
Proof.
  unfold filter_write.
  destruct (has r1 POLLOUT).
  - pose proof (ext_log (EvWrite (fd1 s)) (fworld s)) as Hw.
    destruct (write_rc t) as [|n]; cbn [snd fworld].
    + exists ([] ++ [perror_msg "write"%string]), ([EvWrite (fd1 s)] ++ []).
      split; [eapply ext_trans; [exact Hw|apply ext_say]|].
      split; [right; reflexivity|]. repeat constructor. now exists "write"%string.
    + set (w := log (EvWrite (fd1 s)) (fworld s)) in *.
      set (len := Z.of_nat (length (input (fctx s)))).
      set (wl := wlen s + Z.max 0 (Z.min n (len - wlen s))).
      destruct (wl =? len).
      * destruct (ext_xclose (fd1 s) w) as [rc Hx].
        destruct (xclose (fd1 s) w) as [crc w1]. cbn in Hx.
        destruct (crc =? 0).
        -- destruct (ext_filter_tail r0 r1
                       {| fd0 := fd0 s; fd1 := -1; wlen := wl; fctx := fctx s;
                          fworld := w1 |}) as (dm & dt & H & O & P).
           cbn [fworld] in H.
           exists ([] ++ [] ++ dm), ([EvWrite (fd1 s)] ++ [EvClose (fd1 s) rc] ++ dt).
           split; [eapply ext_trans; [exact Hw|eapply ext_trans; eassumption]|].
           split; [right; cbn; now rewrite O|assumption].
        -- cbn [snd fworld].
           exists ([] ++ [] ++ [perror_msg "close"%string]),
                  ([EvWrite (fd1 s)] ++ [EvClose (fd1 s) rc] ++ []).
           split; [eapply ext_trans; [exact Hw|eapply ext_trans; [exact Hx|apply ext_say]]|].
           split; [right; reflexivity|]. repeat constructor. now exists "close"%string.
      * destruct (ext_filter_tail r0 r1
                    {| fd0 := fd0 s; fd1 := fd1 s; wlen := wl; fctx := fctx s;
                       fworld := w |}) as (dm & dt & H & O & P).
        cbn [fworld] in H.
        exists ([] ++ dm), ([EvWrite (fd1 s)] ++ dt).
        split; [eapply ext_trans; eassumption|].
        split; [right; cbn; now rewrite O|assumption].
  - destruct (ext_filter_tail r0 r1 s) as (dm & dt & H & O & P).
    exists dm, dt. auto.
Qed.

Lemma E_not_perror dm : Forall is_perror dm -> ~ In E dm.
Proof.
  intros H Hin. rewrite Forall_forall in H. destruct (H _ Hin) as [p Hp].
  discriminate Hp.
Qed.

Lemma ext_filter_step t s :
  exists dm dt,
    ext (fworld s) (fworld (snd (filter_step t s))) dm dt
    /\ ((read_eof_early t s = true /\ dm = [E] /\ io_order dt = [Rd]
         /\ fst (filter_step t s) = Break)
        \/ (read_eof_early t s = false /\ Forall is_perror dm
            /\ In (io_order dt) [[]; [Rd]; [Wr]; [Rd; Wr]])).
Proof.
  unfold filter_step, read_eof_early.
  pose proof (ext_log EvPoll (fworld s)) as Hp.
  set (w0 := log EvPoll (fworld s)) in *.
  destruct (polled t) as [[|]|e0 e1]; cbn [snd fst fworld].
  - exists [], [EvPoll]. split; [assumption|]. right. cbn. auto.
  - exists ([] ++ [perror_msg "poll"%string]), ([EvPoll] ++ []).
    split; [eapply ext_trans; [exact Hp|apply ext_say]|].
    right. split; [reflexivity|]. split; [|cbn; auto].
    repeat constructor. now exists "poll"%string.
  - set (r0 := revents_for (fd0 s) e0). set (r1 := revents_for (fd1 s) e1).
    destruct (has r0 POLLIN); cbn [andb].
    + pose proof (ext_log (EvRead (fd0 s)) w0) as Hr.
      set (w1 := log (EvRead (fd0 s)) w0) in *.
      destruct (read_rc t) as [|data]; cbn [snd fst fworld].
      * exists ([] ++ [] ++ [perror_msg "read"%string]), ([EvPoll] ++ [EvRead (fd0 s)] ++ []).
        split; [eapply ext_trans; [exact Hp|eapply ext_trans; [exact Hr|apply ext_say]]|].
        right. split; [reflexivity|]. split; [|cbn; auto].
        repeat constructor. now exists "read"%string.
      * destruct (firstn (Z.to_nat 8192) data) as [|c d] eqn:Ed; cbn [snd fst fworld].
        -- destruct (wlen s <? Z.of_nat (length (input (fctx s)))).
           ++ exists ([] ++ [] ++ [E]), ([EvPoll] ++ [EvRead (fd0 s)] ++ []).
              split; [eapply ext_trans; [exact Hp|eapply ext_trans; [exact Hr|apply ext_say]]|].
              left. auto.
           ++ exists ([] ++ []), ([EvPoll] ++ [EvRead (fd0 s)]).
              split; [eapply ext_trans; eassumption|].
              right. split; [reflexivity|]. split; [constructor|cbn; auto].
        -- match goal with
           | |- context [filter_write t r0 r1 ?st] =>
               destruct (ext_filter_write t r0 r1 st) as (dm & dt & H & O & P)
           end.
           cbn [fworld] in H.
           exists ([] ++ [] ++ dm), ([EvPoll] ++ [EvRead (fd0 s)] ++ dt).
           split; [eapply ext_trans; [exact Hp|eapply ext_trans; eassumption]|].
           right. split; [reflexivity|]. split; [assumption|].
           cbn. destruct O as [-> | ->]; cbn; auto.
    + match goal with
      | |- context [filter_write t r0 r1 ?st] =>
          destruct (ext_filter_write t r0 r1 st) as (dm & dt & H & O & P)
      end.
      cbn [fworld] in H.
      exists ([] ++ dm), ([EvPoll] ++ dt).
      split; [eapply ext_trans; eassumption|].
      right. split; [reflexivity|]. split; [assumption|].
      cbn. destruct O as [-> | ->]; cbn; auto.
Qed.

Lemma step_events_msgs t s dm dt :
  ext (fworld s) (fworld (snd (filter_step t s))) dm dt ->
  step_msgs t s = dm /\ step_events t s = dt.
Proof.
  intros [Hm Ht]. unfold step_msgs, step_events. rewrite Hm, Ht.
  now rewrite !skipn_length_app.
Qed.


Lemma ext_old_filter_write t wset s :
  exists dm dt,
    ext (oworld s) (oworld (snd (old_filter_write t wset s))) dm dt
    /\ (io_order dt = [] \/ io_order dt = [Wr]) /\ ~ In E' dm.
Proof.
  unfold old_filter_write.
  destruct ((0 <=? wfd s) && wset).
  - pose proof (ext_log (EvWrite (wfd s)) (oworld s)) as Hw.
    set (w := log (EvWrite (wfd s)) (oworld s)) in *.
    destruct (old_write_rc t) as [|n]; cbn [snd oworld old_with].
    + exists ([] ++ [error_msg "write"%string]), ([EvWrite (wfd s)] ++ []).
      split; [eapply ext_trans; [exact Hw|apply ext_say]|].
      split; [right; reflexivity|]. cbn. intros [H|[]]. discriminate H.
    + match goal with |- context [if ?c then _ else _] => destruct c end;
        cbn [snd oworld old_with].
      * destruct (ext_xclose (wfd s) w) as [rc Hx].
        exists ([] ++ []), ([EvWrite (wfd s)] ++ [EvClose (wfd s) rc]).
        split; [eapply ext_trans; eassumption|].
        split; [right; reflexivity|]. cbn. tauto.
      * exists [], [EvWrite (wfd s)]. split; [assumption|].
        split; [right; reflexivity|]. cbn. tauto.
  - exists [], []. cbn. split; [apply ext_refl|]. split; [left; reflexivity|tauto].
Qed.

Lemma ext_old_filter_step t s :
  exists dm dt,
    ext (oworld s) (oworld (snd (old_filter_step t s))) dm dt
    /\ ((old_read_eof_early t s = true /\ dm = [E'] /\ io_order dt = [Rd]
         /\ fst (old_filter_step t s) = Break)
        \/ (old_read_eof_early t s = false /\ ~ In E' dm
            /\ In (io_order dt) [[]; [Rd]; [Wr]; [Rd; Wr]])).
Proof.
  unfold old_filter_step, old_read_eof_early.
  pose proof (ext_log EvPoll (oworld s)) as Hp.
  set (w0 := log EvPoll (oworld s)) in *.
  destruct (selected t) as [[|]|rset wset]; cbn [snd fst oworld old_with].
  - exists [], [EvPoll]. split; [assumption|]. right. cbn. tauto.
  - exists ([] ++ [error_msg "select"%string]), ([EvPoll] ++ []).
    split; [eapply ext_trans; [exact Hp|apply ext_say]|].
    right. split; [reflexivity|]. split; [|cbn; auto].
    cbn. intros [H|[]]. discriminate H.
  - destruct rset; cbn [andb].
    + pose proof (ext_log (EvRead (rfd s)) w0) as Hr.
      set (w1 := log (EvRead (rfd s)) w0) in *.
      destruct (old_read_rc t) as [|data]; cbn [snd fst oworld old_with].
      * exists ([] ++ [] ++ [error_msg "read"%string]), ([EvPoll] ++ [EvRead (rfd s)] ++ []).
        split; [eapply ext_trans; [exact Hp|eapply ext_trans; [exact Hr|apply ext_say]]|].
        right. split; [reflexivity|]. split; [|cbn; auto].
        cbn. intros [H|[]]. discriminate H.
      * destruct (firstn (Z.to_nat 8192) data) as [|c d] eqn:Ed;
          cbn [snd fst oworld old_with].
        -- destruct (old_wlen s <? Z.of_nat (length (in_data s)));
             cbn [snd fst oworld old_with].
           ++ exists ([] ++ [] ++ [E']), ([EvPoll] ++ [EvRead (rfd s)] ++ []).
              split; [eapply ext_trans; [exact Hp|eapply ext_trans; [exact Hr|apply ext_say]]|].
              left. auto.
           ++ exists ([] ++ []), ([EvPoll] ++ [EvRead (rfd s)]).
              split; [eapply ext_trans; eassumption|].
              right. split; [reflexivity|]. split; [cbn; tauto|cbn; auto].
        -- match goal with
           | |- context [old_filter_write t wset ?st] =>
               destruct (ext_old_filter_write t wset st) as (dm & dt & H & O & P)
           end.
           cbn [oworld old_with] in H.
           exists ([] ++ [] ++ dm), ([EvPoll] ++ [EvRead (rfd s)] ++ dt).
           split; [eapply ext_trans; [exact Hp|eapply ext_trans; eassumption]|].
           right. split; [reflexivity|]. split; [assumption|].
           cbn. destruct O as [-> | ->]; cbn; auto.
    + match goal with
      | |- context [old_filter_write t wset ?st] =>
          destruct (ext_old_filter_write t wset st) as (dm & dt & H & O & P)
      end.
      cbn [oworld old_with] in H.
      exists ([] ++ dm), ([EvPoll] ++ dt).
      split; [eapply ext_trans; eassumption|].
      right. split; [reflexivity|]. split; [assumption|].
      cbn. destruct O as [-> | ->]; cbn; auto.
Qed.

(** C7, as the code has it: in every turn of the poll loop (and of the
    select loop of the older filter) the read from the child's stdout pipe,
    when made, comes before the write to the child's stdin pipe, when
    made. *)
Theorem filter_reads_before_it_writes :
  (forall t s, In (io_order (step_events t s)) [[]; [Rd]; [Wr]; [Rd; Wr]])
  /\ (forall t s, In (io_order (old_step_events t s)) [[]; [Rd]; [Wr]; [Rd; Wr]]).
Proof.
  split; intros t s.
  - destruct (ext_filter_step t s) as (dm & dt & H & Hc).
    destruct (step_events_msgs t s dm dt H) as [_ ->].
    destruct Hc as [(_ & _ & -> & _)|(_ & _ & Hin)]; [cbn; auto|exact Hin].
  - destruct (ext_old_filter_step t s) as (dm & dt & [Hm Ht] & Hc).
    unfold old_step_events. rewrite Ht, skipn_length_app.
    destruct Hc as [(_ & _ & -> & _)|(_ & _ & Hin)]; [cbn; auto|exact Hin].
Qed.

(** C7, as stated, fails: in a turn in which both pipes are ready the read is
    made first and the write second, in both filters. *)
Lemma filter_does_not_write_first :
  io_order (step_events SpawnDemo.both_ready SpawnDemo.pipes_open) = [Rd; Wr]
  /\ ~ In (io_order (step_events SpawnDemo.both_ready SpawnDemo.pipes_open))
         [[]; [Rd]; [Wr]; [Wr; Rd]]
  /\ io_order (old_step_events SpawnDemo.old_both_ready
                               SpawnDemo.old_pipes_open) = [Rd; Wr].
Proof.
  repeat split; try reflexivity.
  cbn. intros [H|[H|[H|[H|[]]]]]; discriminate H.
Qed.

(** C10 fails on the code.  With /dev/null on all three descriptors and
    every call succeeding, spawn closes the stdout-side descriptor 4 twice
    (the second close fails) and returns with the stderr-side descriptor 5
    still open.  When writing the input fails, the descriptors 3 and 5 it
    closed after the fork are closed again on the error path. *)
Theorem spawn_closes_stdout_side_twice_and_leaks_stderr_side :
  spawn (SpawnDemo.quiet_ctx []) [SPAWN_NULL; SPAWN_NULL; SPAWN_NULL]
        SpawnDemo.all_ok SpawnDemo.world0
  = Ok (true, SpawnDemo.quiet_ctx [],
        {| open_fds := [5; 0; 1; 2];
           trace := [EvOpenNull 3; EvOpenNull 4; EvOpenNull 5;
                     EvTerm "term_raw_isig"; EvFork [3; 4; 5];
                     EvClose 3 0; EvClose 4 0; EvClose 4 (-1);
                     EvWait; EvTerm "term_raw"];
           msgs := [];
           child_controls_terminal := false |})
  /\ spawn (SpawnDemo.quiet_ctx [1]) [SPAWN_PIPE; SPAWN_NULL; SPAWN_NULL]
           SpawnDemo.write_fails SpawnDemo.world0
     = Ok (false, SpawnDemo.quiet_ctx [1],
           {| open_fds := [0; 1; 2];
              trace := [EvPipe 3 4; EvOpenNull 5; EvOpenNull 6;
                        EvTerm "term_raw_isig"; EvFork [3; 5; 6];
                        EvClose 3 0; EvClose 5 0; EvClose 5 (-1);
                        EvWrite 4; EvTerm "term_raw";
                        EvClose 3 (-1); EvClose 4 0;
                        EvClose 5 (-1); EvClose 6 0];
              msgs := [perror_msg "write"];
              child_controls_terminal := false |}).
Proof. split; reflexivity. Qed.

(** *** What [filter] leaves alone *)

Lemma evolves_refl D w : evolves D w w.
Proof.
  repeat split; auto. exists [], []. apply ext_refl.
Qed.

Lemma evolves_trans D w w1 w2 :
  evolves D w w1 -> evolves D w1 w2 -> evolves D w w2.
Proof.
  intros ((dm & dt & E1) & C1 & I1 & K1) ((dm' & dt' & E2) & C2 & I2 & K2).
  repeat split; [|congruence|auto|auto].
  exists (dm ++ dm'), (dt ++ dt'). eapply ext_trans; eassumption.
Qed.

Lemma evolves_mono D D' w w' :
  incl D D' -> evolves D w w' -> evolves D' w w'.
Proof.
  intros H (E & C & I & K). split; [assumption|]. split; [assumption|].
  split; [assumption|]. intros x Hx Hn. apply K; auto.
Qed.

Lemma evolves_log D ev w : evolves D w (log ev w).
Proof. repeat split; auto. exists [], [ev]. apply ext_log. Qed.

Lemma evolves_say D m w : evolves D w (say m w).
Proof. repeat split; auto. exists [m], []. apply ext_say. Qed.

Lemma In_open_fds_xclose fd w x :
  In x (open_fds (snd (xclose fd w))) <-> In x (open_fds w) /\ x <> fd.
Proof.
  unfold xclose, is_open. destruct (existsb (Z.eqb fd) (open_fds w)) eqn:E; cbn.
  - rewrite filter_In, negb_true_iff, Z.eqb_neq. reflexivity.
  - split; [|tauto]. intros H. split; [assumption|]. intros ->.
    assert (existsb (Z.eqb fd) (open_fds w) = true)
      by (apply existsb_exists; exists fd; split; [assumption|apply Z.eqb_refl]).
    congruence.
Qed.

Lemma evolves_xclose D fd w : In fd D -> evolves D w (snd (xclose fd w)).
Proof.
  intros HD. repeat split.
  - destruct (ext_xclose fd w) as [rc H]. eauto.
  - unfold xclose. destruct (is_open fd w); reflexivity.
  - intros x Hx. apply In_open_fds_xclose in Hx. tauto.
  - intros x Hx Hn. apply In_open_fds_xclose. split; [assumption|]. congruence.
Qed.

Lemma evolves_safe_xclose D fd w :
  (2 < fd -> In fd D) -> evolves D w (snd (safe_xclose fd w)).
Proof.
  intros H. unfold safe_xclose, STDERR_FILENO.
  destruct (Z.ltb_spec 2 fd); [apply evolves_xclose; auto|apply evolves_refl].
Qed.

Lemma ctx_grows_refl c : ctx_grows c c.
Proof. repeat split. exists []. now rewrite app_nil_r. Qed.

Lemma ctx_grows_trans c c1 c2 : ctx_grows c c1 -> ctx_grows c1 c2 -> ctx_grows c c2.
Proof.
  intros (A1 & B1 & C1 & D1 & d1 & E1) (A2 & B2 & C2 & D2 & d2 & E2).
  repeat split; try congruence. exists (d1 ++ d2). rewrite E2, E1. now rewrite app_assoc.
Qed.

Lemma ctx_grows_output c d : ctx_grows c (set_output c (output c ++ d)).
Proof. repeat split. now exists d. Qed.

Lemma retire_evolves D fd r a w :
  fd < 0 \/ In fd D ->
  evolves D w (snd (retire fd r a w))
  /\ (fst (fst (retire fd r a w)) = fd \/ fst (fst (retire fd r a w)) = -1).
Proof.
  intros H. unfold retire.
  destruct (Z.ltb_spec fd 0); cbn [orb].
  - cbn. split; [apply evolves_refl|auto].
  - destruct (has r POLLNVAL); [cbn; split; [apply evolves_refl|auto]|].
    destruct (has r (Z.lor POLLHUP POLLERR)); [|cbn; split; [apply evolves_refl|auto]].
    pose proof (evolves_xclose D fd w) as Hx.
    destruct (xclose fd w) as [rc w1]; cbn in *.
    split; [|auto].
    destruct (rc =? 0); [apply Hx; destruct H; [lia|assumption]|].
    eapply evolves_trans; [apply Hx; destruct H; [lia|assumption]|apply evolves_say].
Qed.

Lemma filter_tail_evolves D r0 r1 s :
  fds_within D s ->
  let s' := snd (filter_tail r0 r1 s) in
  evolves D (fworld s) (fworld s') /\ fds_within D s'
  /\ fctx s' = fctx s /\ (fd1 s = -1 -> fd1 s' = -1).
Proof.
  intros [H0 H1]. unfold filter_tail.
  destruct (retire_evolves D (fd0 s) r0 2 (fworld s) H0) as [E0 F0].
  destruct (retire (fd0 s) r0 2 (fworld s)) as [[f0 a0] w0]; cbn in E0, F0.
  destruct (retire_evolves D (fd1 s) r1 a0 w0 H1) as [E1 F1].
  destruct (retire (fd1 s) r1 a0 w0) as [[f1 a1] w1]; cbn in E1, F1.
  assert (HW : fds_within D {| fd0 := f0; fd1 := f1; wlen := wlen s;
                               fctx := fctx s; fworld := w1 |}).
  { split; cbn; [destruct F0 as [->| ->]|destruct F1 as [->| ->]]; auto; left; lia. }
  destruct (a1 =? 0); cbn; (split; [eapply evolves_trans; eassumption|]);
    (split; [exact HW|]); (split; [reflexivity|]);
    intros Hm; destruct F1 as [->| ->]; auto.
Qed.

Lemma filter_write_evolves D t r0 r1 s :
  fds_within D s -> (has r1 POLLOUT = true -> 0 <= fd1 s) ->
  let s' := snd (filter_write t r0 r1 s) in
  evolves D (fworld s) (fworld s') /\ fds_within D s' /\ fctx s' = fctx s.
Proof.
  intros HW Hpos. unfold filter_write.
  destruct (has r1 POLLOUT) eqn:Ho.
  2:{ destruct (filter_tail_evolves D r0 r1 s HW) as (A & B & C & _). auto. }
  specialize (Hpos eq_refl).
  assert (Hin : In (fd1 s) D) by (destruct HW as [_ [?|?]]; [lia|assumption]).
  pose proof (evolves_log D (EvWrite (fd1 s)) (fworld s)) as Hl.
  set (w1 := log (EvWrite (fd1 s)) (fworld s)) in *.
  destruct (write_rc t) as [|n]; cbn [snd fworld fctx].
  - split; [eapply evolves_trans; [exact Hl|apply evolves_say]|]. split; [exact HW|reflexivity].
  - destruct (_ =? Z.of_nat _).
    + pose proof (evolves_xclose D (fd1 s) w1 Hin) as Hx.
      destruct (xclose (fd1 s) w1) as [crc w2]; cbn [snd] in Hx.
      destruct (crc =? 0).
      * match goal with
        | |- context [filter_tail r0 r1 ?st] =>
            destruct (filter_tail_evolves D r0 r1 st) as (A & B & C & _)
        end.
        { split; cbn; [apply HW|left; lia]. }
        cbn [fworld fctx] in A, C. split; [|split; assumption].
        eapply evolves_trans; [exact Hl|]. eapply evolves_trans; eassumption.
      * cbn. split; [|split; [exact HW|reflexivity]].
        eapply evolves_trans; [exact Hl|].
        eapply evolves_trans; [exact Hx|apply evolves_say].
    + match goal with
      | |- context [filter_tail r0 r1 ?st] =>
          destruct (filter_tail_evolves D r0 r1 st) as (A & B & C & _)
      end.
      { split; cbn; apply HW. }
      cbn [fworld fctx] in A, C. split; [|split; assumption].
      eapply evolves_trans; eassumption.
Qed.

Lemma has_revents_for fd r flag : has (revents_for fd r) flag = true -> 0 <= fd.
Proof.
  unfold revents_for, has. destruct (Z.ltb_spec fd 0); [|lia].
  rewrite Z.land_0_l. discriminate.
Qed.

Lemma filter_step_evolves D t s :
  fds_within D s ->
  let s' := snd (filter_step t s) in
  evolves D (fworld s) (fworld s') /\ fds_within D s'
  /\ ctx_grows (fctx s) (fctx s').
Proof.
  intros HW. unfold filter_step.
  pose proof (evolves_log D EvPoll (fworld s)) as Hp.
  set (w0 := log EvPoll (fworld s)) in *.
  destruct (polled t) as [[|]|e0 e1]; cbn [snd fworld fctx].
  - split; [exact Hp|]. split; [exact HW|apply ctx_grows_refl].
  - split; [eapply evolves_trans; [exact Hp|apply evolves_say]|].
    split; [exact HW|apply ctx_grows_refl].
  - set (r0 := revents_for (fd0 s) e0). set (r1 := revents_for (fd1 s) e1).
    assert (Hpos : has r1 POLLOUT = true -> 0 <= fd1 s)
      by apply has_revents_for.
    destruct (has r0 POLLIN).
    + pose proof (evolves_log D (EvRead (fd0 s)) w0) as Hr.
      set (w1 := log (EvRead (fd0 s)) w0) in *.
      destruct (read_rc t) as [|data]; cbn [snd fworld fctx].
      * split; [|split; [exact HW|apply ctx_grows_refl]].
        eapply evolves_trans; [exact Hp|].
        eapply evolves_trans; [exact Hr|apply evolves_say].
      * destruct (firstn (Z.to_nat 8192) data) as [|c d]; cbn [snd fworld fctx].
        -- split; [|split; [exact HW|apply ctx_grows_refl]].
           destruct (_ <? _).
           ++ eapply evolves_trans; [exact Hp|].
              eapply evolves_trans; [exact Hr|apply evolves_say].
           ++ eapply evolves_trans; eassumption.
        -- match goal with
           | |- context [filter_write t r0 r1 ?st] =>
               destruct (filter_write_evolves D t r0 r1 st) as (A & B & C)
           end; [exact HW|exact Hpos|].
           cbn [fworld fctx] in A, C. split; [|split; [exact B|]].
           ++ eapply evolves_trans; [exact Hp|]. eapply evolves_trans; eassumption.
           ++ rewrite C. apply ctx_grows_output.
    + match goal with
      | |- context [filter_write t r0 r1 ?st] =>
          destruct (filter_write_evolves D t r0 r1 st) as (A & B & C)
      end; [exact HW|exact Hpos|].
      cbn [fworld fctx] in A, C. split; [|split; [exact B|]].
      * eapply evolves_trans; eassumption.
      * rewrite C. apply ctx_grows_refl.
Qed.

Lemma filter_loop_evolves D ticks :
  forall s s',
    fds_within D s -> filter_loop ticks s = Ok s' ->
    evolves D (fworld s) (fworld s') /\ ctx_grows (fctx s) (fctx s').
Proof.
  induction ticks as [|t ticks IH]; intros s s' HW H; [discriminate H|].
  cbn in H. destruct (filter_step_evolves D t s HW) as (A & B & C).
  destruct (filter_step t s) as [[|] s1]; cbn [snd] in A, B, C.
  - destruct (IH s1 s' B H) as [A' C'].
    split; [eapply evolves_trans|eapply ctx_grows_trans]; eassumption.
  - injection H as <-. split; assumption.
Qed.

Lemma filter_evolves rfd wfd ctx ticks w ctx' w' :
  filter rfd wfd ctx ticks w = Ok (ctx', w') ->
  evolves [rfd; wfd] w w' /\ ctx_grows ctx ctx'.
Proof.
  unfold filter. intros H.
  destruct ((rfd <? 0) && (wfd <? 0)); [discriminate H|].
  destruct ((0 <=? rfd) && (rfd <=? 2)); [discriminate H|].
  destruct ((0 <=? wfd) && (wfd <=? 2)); [discriminate H|].
  destruct (input ctx) as [|c i] eqn:Ei.
  - pose proof (evolves_xclose [rfd; wfd] wfd w) as Hx.
    destruct (xclose wfd w) as [rc w1]; cbn [snd] in Hx.
    destruct (filter_loop ticks _) as [s'|e] eqn:El; [|discriminate H].
    cbn in H. injection H as <- <-.
    apply (filter_loop_evolves [rfd; wfd]) in El.
    + cbn in El. destruct El as [A C]. split; [|assumption].
      eapply evolves_trans; [apply Hx; cbn; auto|exact A].
    + split; cbn; auto. left; lia.
  - destruct (filter_loop ticks _) as [s'|e] eqn:El; [|discriminate H].
    cbn in H. injection H as <- <-.
    apply (filter_loop_evolves [rfd; wfd]) in El.
    + cbn in El. exact El.
    + split; cbn; auto.
Qed.

(** X9. When filter returns it has read and written nothing of the context
    but its output, to which it has only appended; it has only added to the
    messages and to the calls made, has left child_controls_terminal alone,
    has opened no descriptor, and has closed none but rfd and wfd. *)
Theorem filter_touches_only_its_descriptors :
  forall rfd wfd ctx ticks w ctx' w',
    filter rfd wfd ctx ticks w = Ok (ctx', w') ->
    (argv ctx' = argv ctx /\ env ctx' = env ctx /\ input ctx' = input ctx
     /\ flags ctx' = flags ctx /\ exists d, output ctx' = output ctx ++ d)
    /\ (exists dm dt, msgs w' = msgs w ++ dm /\ trace w' = trace w ++ dt)
    /\ child_controls_terminal w' = child_controls_terminal w
    /\ (forall x, In x (open_fds w') -> In x (open_fds w))
    /\ (forall x, In x (open_fds w) -> x <> rfd -> x <> wfd ->
        In x (open_fds w')).
Proof.
  intros rfd wfd ctx ticks w ctx' w' H. apply filter_evolves in H.
  destruct H as [((dm & dt & E) & C & I & K) G].
  split; [exact G|]. split; [exists dm, dt; exact E|]. split; [exact C|].
  split; [exact I|]. intros x Hx H1 H2. apply K; [assumption|].
  cbn. intuition congruence.
Qed.

(** *** [filter] without input *)

Lemma In_EvWrite_io_order fd dt : In (EvWrite fd) dt -> In Wr (io_order dt).
Proof.
  induction dt as [|e dt IH]; intros H; [contradiction|].
  destruct H as [->|H]; [cbn; auto|].
  specialize (IH H). destruct e; cbn; auto.
Qed.

Lemma filter_tail_fd1 r0 r1 s :
  fd1 s = -1 -> fd1 (snd (filter_tail r0 r1 s)) = -1.
Proof.
  intros H. unfold filter_tail.
  destruct (retire (fd0 s) r0 2 (fworld s)) as [[f0 a0] w0].
  unfold retire. rewrite H. cbn. destruct (a0 - 1 =? 0); reflexivity.
Qed.

Lemma filter_step_closed_write_end t s :
  fd1 s = -1 ->
  let s' := snd (filter_step t s) in
  fd1 s' = -1
  /\ exists dt, trace (fworld s') = trace (fworld s) ++ EvPoll :: dt
                /\ ~ In Wr (io_order dt).
Proof.
  intros H1. unfold filter_step.
  destruct (polled t) as [[|]|e0 e1]; cbn [snd fworld fd1].
  - split; [assumption|]. exists []. cbn. auto.
  - split; [assumption|]. exists []. cbn. auto.
  - set (r0 := revents_for (fd0 s) e0).
    replace (revents_for (fd1 s) e1) with 0 by (now rewrite H1).
    assert (Hw : forall st, filter_write t r0 0 st = filter_tail r0 0 st)
      by reflexivity.
    destruct (has r0 POLLIN).
    + destruct (read_rc t) as [|data]; cbn [snd fworld fd1].
      * split; [assumption|]. exists [EvRead (fd0 s)]. cbn.
        rewrite <- app_assoc. split; [reflexivity|]. intros [?|[]]; discriminate.
      * destruct (firstn (Z.to_nat 8192) data) as [|c d]; cbn [snd fworld fd1].
        -- split; [assumption|]. exists [EvRead (fd0 s)].
           split; [destruct (_ <? _); cbn; now rewrite <- app_assoc|].
           cbn. intros [?|[]]; discriminate.
        -- rewrite Hw.
           match goal with
           | |- context [filter_tail r0 0 ?st] =>
               pose proof (filter_tail_fd1 r0 0 st H1) as F;
               destruct (ext_filter_tail r0 0 st) as (dm & dt & [_ E] & O & _)
           end.
           split; [exact F|]. cbn [fworld] in E.
           exists (EvRead (fd0 s) :: dt). rewrite E. cbn.
           rewrite <- !app_assoc. split; [reflexivity|].
           rewrite O. intros [?|[]]; discriminate.
    + rewrite Hw.
      match goal with
      | |- context [filter_tail r0 0 ?st] =>
          pose proof (filter_tail_fd1 r0 0 st H1) as F;
          destruct (ext_filter_tail r0 0 st) as (dm & dt & [_ E] & O & _)
      end.
      split; [exact F|]. cbn [fworld] in E.
      exists dt. rewrite E. cbn. rewrite <- !app_assoc. split; [reflexivity|].
      rewrite O. intros [].
Qed.

Lemma filter_loop_closed_write_end ticks :
  forall s s',
    fd1 s = -1 -> filter_loop ticks s = Ok s' ->
    exists dt, trace (fworld s') = trace (fworld s) ++ EvPoll :: dt
               /\ ~ In Wr (io_order dt).
Proof.
  induction ticks as [|t ticks IH]; intros s s' H1 H; [discriminate H|].
  cbn in H. destruct (filter_step_closed_write_end t s H1) as (F & dt & E & O).
  destruct (filter_step t s) as [[|] s1]; cbn [snd] in F, E.
  - destruct (IH s1 s' F H) as (dt' & E' & O').
    exists (dt ++ EvPoll :: dt'). rewrite E', E, <- app_assoc. split; [reflexivity|].
    rewrite io_order_app. cbn. intros Hin. apply in_app_or in Hin. tauto.
  - injection H as <-. eauto.
Qed.

(** X10. With no input to send, filter closes the write end before its first
    poll and never calls write. *)
Theorem filter_without_input_never_writes :
  forall rfd wfd ctx ticks w ctx' w',
    input ctx = [] ->
    filter rfd wfd ctx ticks w = Ok (ctx', w') ->
    exists rc dt,
      trace w' = trace w ++ EvClose wfd rc :: EvPoll :: dt
      /\ forall fd, ~ In (EvWrite fd) dt.
Proof.
  intros rfd wfd ctx ticks w ctx' w' Hi H. unfold filter in H.
  destruct ((rfd <? 0) && (wfd <? 0)); [discriminate H|].
  destruct ((0 <=? rfd) && (rfd <=? 2)); [discriminate H|].
  destruct ((0 <=? wfd) && (wfd <=? 2)); [discriminate H|].
  rewrite Hi in H.
  destruct (ext_xclose wfd w) as [rc [_ Hx]].
  destruct (xclose wfd w) as [rc' w1]; cbn [snd] in Hx.
  destruct (filter_loop ticks _) as [s'|e] eqn:El; [|discriminate H].
  cbn in H. injection H as <- <-.
  apply filter_loop_closed_write_end in El; [|reflexivity].
  destruct El as (dt & E & O). cbn [fworld] in E.
  exists rc, dt. rewrite E, Hx, <- app_assoc. split; [reflexivity|].
  intros fd Hin. apply O. eapply In_EvWrite_io_order; eassumption.
Qed.

(** *** The descriptors of [spawn] *)

Lemma filter_ge_length (fds : list Z) (fd : Z) :
  In fd fds ->
  (length (List.filter (fun x => (fd + 1 <=? x)%Z) fds)
   < length (List.filter (fun x => (fd <=? x)%Z) fds))%nat.
Proof.
  induction fds as [|y fds IH]; intros H; [contradiction|].
  assert (Hle : forall l, (length (List.filter (fun x => (fd + 1 <=? x)%Z) l)
                           <= length (List.filter (fun x => (fd <=? x)%Z) l))%nat).
  { induction l as [|z l IHl]; cbn; [lia|].
    destruct (Z.leb_spec (fd + 1) z), (Z.leb_spec fd z); cbn; lia. }
  cbn. destruct H as [->|H].
  - destruct (Z.leb_spec (fd + 1) fd); [lia|].
    destruct (Z.leb_spec fd fd); [|lia]. cbn. specialize (Hle fds). lia.
  - specialize (IH H).
    destruct (Z.leb_spec (fd + 1) y), (Z.leb_spec fd y); cbn; lia.
Qed.

Lemma lowest_free_from_spec (fds : list Z) :
  forall fuel (fd : Z),
    (length (List.filter (fun x => (fd <=? x)%Z) fds) <= fuel)%nat ->
    fd <= lowest_free_from fds fd fuel /\ ~ In (lowest_free_from fds fd fuel) fds.
Proof.
  induction fuel as [|fuel IH]; intros fd Hf; cbn.
  - split; [lia|]. intros Hin.
    assert (In fd (List.filter (fun x => (fd <=? x)%Z) fds))
      by (apply filter_In; split; [assumption|apply Z.leb_refl]).
    destruct (List.filter _ fds); [contradiction|cbn in Hf; lia].
  - destruct (existsb (Z.eqb fd) fds) eqn:E.
    + apply existsb_exists in E. destruct E as (x & Hx & Ex).
      apply Z.eqb_eq in Ex. subst x.
      pose proof (filter_ge_length fds fd Hx).
      destruct (IH (fd + 1)) as [A B]; [lia|]. split; [lia|assumption].
    + split; [lia|]. intros Hin.
      assert (existsb (Z.eqb fd) fds = true)
        by (apply existsb_exists; exists fd; split; [assumption|apply Z.eqb_refl]).
      congruence.
Qed.

Lemma lowest_free_fresh fds w :
  open_fds w = fds ->
  0 <= lowest_free w /\ ~ In (lowest_free w) fds.
Proof.
  intros <-. unfold lowest_free. apply lowest_free_from_spec.
  apply filter_length_le.
Qed.

Lemma is_open_In fd w : is_open fd w = true <-> In fd (open_fds w).
Proof.
  unfold is_open. rewrite existsb_exists. split.
  - intros (x & Hx & E). apply Z.eqb_eq in E. now subst.
  - intros H. exists fd. split; [assumption|apply Z.eqb_refl].
Qed.

Lemma sane_world_spec w :
  sane_world w = true <->
  (forall x, In x (open_fds w) -> 0 <= x)
  /\ In 0 (open_fds w) /\ In 1 (open_fds w) /\ In 2 (open_fds w).
Proof.
  unfold sane_world. rewrite !andb_true_iff, !is_open_In, forallb_forall.
  split.
  - intros (((A & B) & C) & D). repeat split; try assumption.
    intros x Hx. apply Z.leb_le. auto.
  - intros (A & B & C & D). repeat split; try assumption.
    intros x Hx. apply Z.leb_le. auto.
Qed.

Lemma In_open_safe_xclose fd w x :
  In x (open_fds (snd (safe_xclose fd w)))
  <-> In x (open_fds w) /\ (2 < fd -> x <> fd).
Proof.
  unfold safe_xclose, STDERR_FILENO. destruct (Z.ltb_spec 2 fd).
  - rewrite In_open_fds_xclose. tauto.
  - cbn. split; [intros; split; [assumption|lia]|tauto].
Qed.

Lemma In_open_closes fds : forall w x,
  In x (open_fds (closes fds w))
  <-> In x (open_fds w) /\ forall fd, In fd fds -> 2 < fd -> x <> fd.
Proof.
  induction fds as [|fd fds IH]; intros w x; cbn.
  - split; [intros; split; [assumption|contradiction]|tauto].
  - unfold closes in IH. rewrite IH, In_open_safe_xclose. split.
    + intros ((A & B) & C). split; [assumption|].
      intros fd' [<-|H]; auto.
    + intros (A & B). repeat split; auto.
Qed.

Lemma closes_evolves D fds : forall w,
  (forall fd, In fd fds -> 2 < fd -> In fd D) -> evolves D w (closes fds w).
Proof.
  induction fds as [|fd fds IH]; intros w H; cbn; [apply evolves_refl|].
  eapply evolves_trans; [apply evolves_safe_xclose; intros; apply H; cbn; auto|].
  apply IH. intros fd' Hin. apply H. cbn. auto.
Qed.

Lemma In_replace_nth {A} i (v x : A) l :
  In x (replace_nth i v l) -> x = v \/ In x l.
Proof.
  revert i; induction l as [|y l IH]; intros [|i] H; cbn in *; auto.
  - destruct H; auto.
  - destruct H as [H|H]; auto. apply IH in H. tauto.
Qed.

Lemma In_replace_nth_keep {A} i (v x d : A) l :
  In x l -> x <> nth i l d -> In x (replace_nth i v l).
Proof.
  revert i; induction l as [|y l IH]; intros [|i] H Hn; cbn in *; auto.
  - destruct H as [H|H]; [congruence|auto].
  - destruct H as [H|H]; auto.
Qed.

Lemma In_replace_nth_new {A} i (v : A) l :
  (i < length l)%nat -> In v (replace_nth i v l).
Proof.
  revert i; induction l as [|y l IH]; intros [|i] H; cbn in *; try lia; auto.
  right. apply IH. lia.
Qed.

Lemma setup_inv_done l cct idxs child parent w :
  setup_inv l cct idxs child parent w -> setup_inv l cct [] child parent w.
Proof.
  intros (A & B & C & D & E & F & _ & _).
  repeat split; try tauto; try apply NoDup_nil; try apply F; auto; contradiction.
Qed.

Lemma setup_inv_world l cct idxs child parent w w1 :
  open_fds w1 = open_fds w ->
  child_controls_terminal w1 = child_controls_terminal w ->
  setup_inv l cct idxs child parent w -> setup_inv l cct idxs child parent w1.
Proof.
  intros Ho Hc (A & B & C & D & E & F & G & H).
  unfold setup_inv. rewrite Ho, Hc. tauto.
Qed.

Lemma setup_inv_step l cct i idxs child parent w new vc pw w1 :
  (forall x, In x l -> 0 <= x) -> In 0 l -> In 1 l -> In 2 l ->
  setup_inv l cct (i :: idxs) child parent w ->
  open_fds w1 = new ++ open_fds w ->
  child_controls_terminal w1 = child_controls_terminal w ->
  (forall x, In x new -> 2 < x /\ ~ In x (open_fds w)) ->
  (forall x, In x new -> x = vc \/ pw = Some x) ->
  (In vc new \/ vc <= 2) ->
  (forall vp, pw = Some vp -> In vp new) ->
  setup_inv l cct idxs (replace_nth i vc child)
            (match pw with Some vp => replace_nth i vp parent | None => parent end)
            w1.
Proof.
  intros Hpos H0 H1 H2 (A & B & C & D & E & (Fc & Fp) & G & H) Ho Hc Hnew Hwho Hvc Hpw.
  inversion G as [|i' idxs' Hni Hnd]; subst.
  destruct (H i (or_introl eq_refl)) as (Hi & Hci & Hpi).
  set (parent1 := match pw with Some vp => replace_nth i vp parent | None => parent end).
  assert (Hkeepc : forall x, In x child -> 2 < x -> In x (replace_nth i vc child)).
  { intros x Hx Hgt. apply In_replace_nth_keep with (d := -1); [assumption|lia]. }
  assert (Hkeepp : forall x, In x parent -> 2 < x -> In x parent1).
  { intros x Hx Hgt. subst parent1. destruct pw; [|assumption].
    apply In_replace_nth_keep with (d := -1); [assumption|lia]. }
  assert (Hnewc : forall x, In x (replace_nth i vc child) -> x = vc \/ In x child)
    by (intros x; apply In_replace_nth).
  assert (Hnewp : forall x, In x parent1 -> (exists vp, pw = Some vp /\ x = vp) \/ In x parent).
  { intros x Hx. subst parent1. destruct pw as [vp|]; [|auto].
    apply In_replace_nth in Hx. destruct Hx; eauto. }
  unfold setup_inv. rewrite Ho, Hc.
  split; [intros x Hx; apply in_or_app; auto|].
  split.
  { intros x Hx. apply in_app_or in Hx. destruct Hx as [Hx|Hx].
    - right. split; [apply Hnew; assumption|]. apply in_or_app.
      destruct (Hwho x Hx) as [->|Hp].
      + left. apply In_replace_nth_new. lia.
      + right. subst parent1. rewrite Hp. apply In_replace_nth_new. lia.
    - destruct (B x Hx) as [?|[Hgt Hin]]; [auto|]. right. split; [assumption|].
      apply in_or_app. apply in_app_or in Hin. destruct Hin; auto. }
  split.
  { intros x Hx Hgt Hl. apply in_app_or in Hx. destruct Hx as [Hx|Hx].
    - destruct (Hnewc x Hx) as [->|Hx'].
      + destruct Hvc as [Hv|Hv]; [|lia]. apply (proj2 (Hnew vc Hv)). auto.
      + apply (C x); [apply in_or_app; auto|assumption|assumption].
    - destruct (Hnewp x Hx) as [(vp & Hp & ->)|Hx'].
      + apply (proj2 (Hnew vp (Hpw vp Hp))). auto.
      + apply (C x); [apply in_or_app; auto|assumption|assumption]. }
  split.
  { intros x Hx. destruct (Hnewp x Hx) as [(vp & Hp & ->)|Hx']; [|auto].
    right. apply Hnew. auto. }
  split; [first [assumption|reflexivity]|].
  split.
  { split; [now rewrite replace_nth_length|]. subst parent1.
    destruct pw; [now rewrite replace_nth_length|assumption]. }
  split; [assumption|].
  intros j Hj. destruct (H j (or_intror Hj)) as (Hj3 & Hcj & Hpj).
  assert (i <> j) by (intros ->; contradiction).
  split; [assumption|]. split.
  - now rewrite nth_replace_nth_other.
  - subst parent1. destruct pw; [now rewrite nth_replace_nth_other|assumption].
Qed.

Lemma lowest_free_above_std l w :
  In 0 l -> In 1 l -> In 2 l ->
  (forall x, In x l -> In x (open_fds w)) ->
  2 < lowest_free w /\ ~ In (lowest_free w) (open_fds w).
Proof.
  intros H0 H1 H2 Hk.
  destruct (lowest_free_fresh (open_fds w) w eq_refl) as [Hge Hn].
  split; [|assumption].
  destruct (Z.eq_dec (lowest_free w) 0) as [E|?]; [rewrite E in Hn; elim Hn; auto|].
  destruct (Z.eq_dec (lowest_free w) 1) as [E|?]; [rewrite E in Hn; elim Hn; auto|].
  destruct (Z.eq_dec (lowest_free w) 2) as [E|?]; [rewrite E in Hn; elim Hn; auto|].
  lia.
Qed.

Lemma setup_fds_inv quiet orc actions l cct :
  (forall x, In x l -> 0 <= x) -> In 0 l -> In 1 l -> In 2 l ->
  length actions = 3%nat ->
  forall idxs child parent w,
    setup_inv l cct idxs child parent w ->
    exists okb child' parent' w',
      setup_fds quiet orc actions idxs child parent w
      = Ok (okb, child', parent', w')
      /\ setup_inv l cct [] child' parent' w'.
Proof.
  intros Hpos H0 H1 H2 Hlen.
  induction idxs as [|i idxs IH]; intros child parent w Hinv.
  - cbn. eauto 10.
  - pose proof Hinv as (A & _ & _ & _ & _ & _ & _ & Htodo).
    destruct (Htodo i (or_introl eq_refl)) as (Hi & _ & _).
    cbn [setup_fds].
    destruct (nth_error actions i) as [act|] eqn:Ea;
      [|apply nth_error_None in Ea; lia].
    assert (Hdev : exists okb child' parent' w',
      (let '(fd, w0) := open_dev_null (open_ok orc i) w in
       let child0 := replace_nth i fd child in
       if fd <? 0 then Ok (false, child0, parent, w0)
       else setup_fds quiet orc actions idxs child0 parent w0)
      = Ok (okb, child', parent', w')
      /\ setup_inv l cct [] child' parent' w').
    { unfold open_dev_null. destruct (open_ok orc i).
      - destruct (lowest_free_above_std l w H0 H1 H2 A) as [Hgt Hfresh].
        destruct (Z.ltb_spec (lowest_free w) 0); [lia|].
        apply IH.
        apply (setup_inv_step l cct i idxs child parent w [lowest_free w]
                 (lowest_free w) None); auto.
        + intros x [<-|[]]. auto.
        + intros x [<-|[]]. auto.
        + left. cbn. auto.
        + discriminate.
      - cbn. eexists _, _, _, _. split; [reflexivity|].
        apply setup_inv_done with (idxs := idxs).
        apply (setup_inv_step l cct i idxs child parent w [] (-1) None); auto.
        + intros x [].
        + intros x [].
        + right. lia.
        + discriminate. }
    destruct act.
    + exact Hdev.
    + destruct quiet; cbn [negb]; [exact Hdev|].
      apply IH.
      apply (setup_inv_step l cct i idxs child parent w [] (Z.of_nat i) None); auto.
      * intros x [].
      * intros x [].
      * right. lia.
      * discriminate.
    + unfold pipe_cloexec. destruct (open_ok orc i).
      * destruct (lowest_free_above_std l w H0 H1 H2 A) as [Hgt0 Hfresh0].
        set (p0 := lowest_free w) in *.
        set (wa := set_open_fds (p0 :: open_fds w) w).
        destruct (lowest_free_above_std l wa H0 H1 H2) as [Hgt1 Hfresh1].
        { intros x Hx. cbn. auto. }
        set (p1 := lowest_free wa) in *. cbn in Hfresh1.
        destruct (Z.ltb_spec p0 3); [lia|]. destruct (Z.ltb_spec p1 3); [lia|].
        apply IH.
        apply (setup_inv_step l cct i idxs child parent w [p1; p0]
                 (if Nat.eqb i 0 then p0 else p1)
                 (Some (if Nat.eqb i 0 then p1 else p0))); auto.
        -- intros x [<-|[<-|[]]]; split; auto.
        -- intros x [<-|[<-|[]]]; destruct (Nat.eqb i 0); auto.
        -- left. destruct (Nat.eqb i 0); cbn; auto.
        -- intros vp Hvp. injection Hvp as <-. destruct (Nat.eqb i 0); cbn; auto.
      * eexists _, _, _, _. split; [reflexivity|].
        apply setup_inv_done with (idxs := i :: idxs).
        apply (setup_inv_world l cct (i :: idxs) child parent w); auto.
Qed.

Lemma read_to_eof_evolves D fd rs :
  forall ctx w,
    evolves D w (snd (read_to_eof rs ctx fd w))
    /\ ctx_grows ctx (snd (fst (read_to_eof rs ctx fd w))).
Proof.
  induction rs as [|[|data] rs IH]; intros ctx w; cbn [read_to_eof snd fst].
  - split; [apply evolves_log|apply ctx_grows_refl].
  - split; [|apply ctx_grows_refl].
    eapply evolves_trans; [apply evolves_log|apply evolves_say].
  - destruct (firstn (Z.to_nat 8192) data) as [|c d].
    + cbn [snd fst]. split; [apply evolves_log|apply ctx_grows_refl].
    + destruct (IH (set_output ctx (output ctx ++ c :: d)) (log (EvRead fd) w))
        as [A B].
      split; [eapply evolves_trans; [apply evolves_log|exact A]|].
      eapply ctx_grows_trans; [apply ctx_grows_output|exact B].
Qed.

Lemma handle_child_error_evolves D st w :
  evolves D w (snd (handle_child_error st w)).
Proof.
  unfold handle_child_error.
  destruct (st <? 0); [|destruct (256 <=? st); [|destruct (negb (st =? 0))]]; cbn;
    try (eapply evolves_trans; [apply evolves_log|apply evolves_say]);
    apply evolves_log.
Qed.

Lemma open_fds_yield q w : open_fds (yield_terminal q w) = open_fds w.
Proof. unfold yield_terminal. destruct q; reflexivity. Qed.

Lemma open_fds_resume q p w : open_fds (resume_terminal q p w) = open_fds w.
Proof.
  unfold resume_terminal. destruct (negb q && _); [|reflexivity].
  destruct p; reflexivity.
Qed.

Lemma cct_resume q p w :
  (q = true -> child_controls_terminal w = false) ->
  child_controls_terminal (resume_terminal q p w) = false.
Proof.
  intros H. unfold resume_terminal. cbn [child_controls_terminal log].
  destruct q; cbn [negb andb]; [cbn; auto|].
  destruct (child_controls_terminal w) eqn:E; cbn; [reflexivity|assumption].
Qed.

Lemma cct_yield q w :
  q = true -> child_controls_terminal (yield_terminal q w) = child_controls_terminal w.
Proof. intros ->. reflexivity. Qed.

(* The ways spawn can end, in terms of the world [w1] after its descriptor
   loop: through error_close, through error_resume, or through the end. *)
Lemma spawn_paths ctx actions orc w ok ctx' w' :
  sane_world w = true -> length actions = 3%nat ->
  spawn ctx actions orc w = Ok (ok, ctx', w') ->
  let quiet := negb (Z.land (flags ctx) SPAWN_QUIET =? 0) in
  exists c0 c1 c2 p0 p1 p2 w1,
    setup_inv (open_fds w) (child_controls_terminal w) []
              [c0; c1; c2] [p0; p1; p2] w1
    /\ let D := owned [c0; c1; c2] [p0; p1; p2] in
       let w2 := log (EvFork [c0; c1; c2]) (yield_terminal quiet w1) in
       (ok = false /\ w' = closes [c0; p0; c1; p1; c2; p2] w1)
       \/ (ok = false
           /\ exists wx, evolves D w2 wx
                /\ w' = closes [c0; p0; c1; p1; c2; p2]
                               (resume_terminal quiet false wx))
       \/ (fork_ok orc = true
           /\ exists wx prompt, evolves D w2 wx
                /\ (forall fd, In fd [c0; c1; p0; p1; p2] -> 2 < fd ->
                    ~ In fd (open_fds wx))
                /\ w' = resume_terminal quiet prompt wx).
Proof.
  intros Hsane Hlen H quiet.
  apply sane_world_spec in Hsane. destruct Hsane as (Hpos & H0 & H1 & H2).
  destruct actions as [|a0 [|a1 [|a2 [|]]]]; try discriminate Hlen.
  unfold spawn in H. fold quiet in H.
  assert (Ha2 : a2 <> SPAWN_PIPE) by (intros ->; discriminate H).
  assert (Hinit : setup_inv (open_fds w) (child_controls_terminal w)
                            [0%nat; 1%nat; 2%nat] [-1; -1; -1] [-1; -1; -1] w).
  { unfold setup_inv. repeat split; auto.
    - intros x Hx Hgt. cbn in Hx. intuition lia.
    - intros x Hx. cbn in Hx. intuition lia.
    - repeat constructor; cbn; intuition lia.
    - destruct H3 as [<-|[<-|[<-|[]]]]; lia.
    - destruct H3 as [<-|[<-|[<-|[]]]]; cbn; lia.
    - destruct H3 as [<-|[<-|[<-|[]]]]; cbn; lia. }
  destruct (setup_fds_inv quiet orc [a0; a1; a2] (open_fds w)
              (child_controls_terminal w) Hpos H0 H1 H2 eq_refl _ _ _ _ Hinit)
    as (okb & child & parent & w1 & Hs & Hinv).
  assert (H' : (r <- setup_fds quiet orc [a0; a1; a2] [0%nat; 1%nat; 2%nat]
                       [-1; -1; -1] [-1; -1; -1] w ;;
                let '(ok, child_fds, parent_fds, w) := r in
                if negb ok then Ok (false, ctx, error_close child_fds parent_fds w)
                else
                  let w := yield_terminal quiet w in
                  let w := log (EvFork child_fds) w in
                  if negb (fork_ok orc) then
                    let w := say (Spawn.error_msg "Unable to exec") w in
                    Ok (false, ctx, error_resume quiet child_fds parent_fds w)
                  else
                    let w := snd (safe_xclose (fd_at child_fds 0) w) in
                    let w := snd (safe_xclose (fd_at child_fds 1) w) in
                    let w := snd (safe_xclose (fd_at child_fds 1) w) in
                    let a0 := nth 0 [a0; a1; a2] SPAWN_NULL in
                    let a1 := nth 1 [a0; a1; a2] SPAWN_NULL in
                    io <- (if SpawnAction_eqb a0 SPAWN_PIPE && SpawnAction_eqb a1 SPAWN_PIPE
                           then
                             r <- filter (fd_at parent_fds 1) (fd_at parent_fds 0) ctx
                                         (ticks orc) w ;;
                             Ok (true, fst r, snd r)
                           else if SpawnAction_eqb a0 SPAWN_PIPE then
                             match input ctx with
                             | [] => Ok (true, ctx, w)
                             | _ :: _ =>
                                 let w := log (EvWrite (fd_at parent_fds 0)) w in
                                 if write_all_ok orc then Ok (true, ctx, w)
                                 else Ok (false, ctx, say (perror_msg "write") w)
                             end
                           else if SpawnAction_eqb a1 SPAWN_PIPE then
                             Ok (read_to_eof (reads orc) ctx (fd_at parent_fds 1) w)
                           else Ok (true, ctx, w)) ;;
                    let '(io_ok, ctx, w) := io in
                    if negb io_ok
                    then Ok (false, ctx, error_resume quiet child_fds parent_fds w)
                    else
                      let w := snd (safe_xclose (fd_at parent_fds 0) w) in
                      let w := snd (safe_xclose (fd_at parent_fds 1) w) in
                      let w := snd (safe_xclose (fd_at parent_fds 2) w) in
                      let '(err, w) := handle_child_error (wait_status orc) w in
                      let w := resume_terminal quiet
                                 (negb (Z.land (flags ctx) SPAWN_PROMPT =? 0)) w in
                      if negb (err =? 0) then Ok (false, set_output ctx [], w)
                      else Ok (true, ctx, w))
               = Ok (ok, ctx', w')).
  { destruct a2; try (exact H). contradiction. }
  clear H. rewrite Hs in H'. cbn [bind] in H'.
  pose proof Hinv as (_ & _ & _ & Hpar & _ & (Hlc & Hlp) & _ & _).
  destruct child as [|c0 [|c1 [|c2 [|]]]]; try discriminate Hlc.
  destruct parent as [|p0 [|p1 [|p2 [|]]]]; try discriminate Hlp.
  exists c0, c1, c2, p0, p1, p2, w1. split; [exact Hinv|].
  intros D w2.
  assert (HD : forall fd, In fd [c0; p0; c1; p1; c2; p2] -> 2 < fd -> In fd D).
  { intros fd Hin Hgt. unfold D, owned. apply filter_In. split.
    - cbn in Hin |- *. tauto.
    - destruct (Z.ltb_spec 2 fd); [reflexivity|lia]. }
  assert (HDp : forall fd, In fd [p0; p1; p2] -> In fd D).
  { intros fd Hin. unfold D, owned. apply filter_In. split.
    - cbn in Hin |- *. tauto.
    - destruct (Hpar fd Hin);
        destruct (Z.ltb_spec 2 fd), (Z.ltb_spec fd 0); cbn; try reflexivity; lia. }
  clearbody D.
  destruct okb; cbn [negb] in H'.
  2:{ left. injection H' as <- _ <-. split; reflexivity. }
  fold w2 in H'.
  destruct (fork_ok orc) eqn:Ef; cbn [negb] in H'.
  2:{ right; left. injection H' as <- _ <-. split; [reflexivity|].
      eexists. split; [apply evolves_say|reflexivity]. }
  cbn [fd_at nth] in H'.
  set (w3 := snd (safe_xclose c1 (snd (safe_xclose c1 (snd (safe_xclose c0 w2)))))) in *.
  assert (E3 : evolves D w2 w3).
  { change w3 with (closes [c0; c1; c1] w2). apply closes_evolves.
    intros fd Hin. apply HD. cbn in Hin |- *. tauto. }
  assert (S3 : forall fd, In fd [c0; c1] -> 2 < fd -> ~ In fd (open_fds w3)).
  { intros fd Hin Hgt Ho. change w3 with (closes [c0; c1; c1] w2) in Ho.
    apply In_open_closes in Ho. destruct Ho as [_ Ho].
    apply (Ho fd); [cbn in Hin |- *; tauto|assumption|reflexivity]. }
  match type of H' with
  | (io <- ?IO ;; _) = _ =>
      assert (Hio : IO = Err OutOfFuel \/ (exists e, IO = Err e)
                    \/ exists b c w4, IO = Ok (b, c, w4) /\ evolves D w3 w4)
  end.
  { destruct (SpawnAction_eqb a0 SPAWN_PIPE && SpawnAction_eqb a1 SPAWN_PIPE).
    - destruct (filter p1 p0 ctx (ticks orc) w3) as [[cf wf]|e] eqn:Ef';
        [|right; left; cbn; eauto].
      right; right. cbn [bind fst snd]. eexists _, _, _. split; [reflexivity|].
      apply filter_evolves in Ef'. destruct Ef' as [Ev _].
      eapply evolves_mono; [|exact Ev].
      intros x [<-|[<-|[]]]; apply HDp; cbn; tauto.
    - right; right. destruct (SpawnAction_eqb a0 SPAWN_PIPE).
      + destruct (input ctx).
        * eexists _, _, _. split; [reflexivity|apply evolves_refl].
        * cbn zeta. destruct (write_all_ok orc).
          -- eexists _, _, _. split; [reflexivity|apply evolves_log].
          -- eexists _, _, _. split; [reflexivity|].
             eapply evolves_trans; [apply evolves_log|apply evolves_say].
      + destruct (SpawnAction_eqb a1 SPAWN_PIPE).
        * destruct (read_to_eof_evolves D p1 (reads orc) ctx w3) as [A _].
          destruct (read_to_eof (reads orc) ctx p1 w3) as [[b c] w4].
          eexists _, _, _. split; [reflexivity|exact A].
        * eexists _, _, _. split; [reflexivity|apply evolves_refl]. }
  destruct Hio as [Hio|[[e Hio]|(b & c & w4 & Hio & E4)]];
    try (rewrite Hio in H'; discriminate H').
  rewrite Hio in H'. cbn [bind] in H'.
  destruct b; cbn [negb] in H'.
  2:{ right; left. injection H' as <- _ <-. split; [reflexivity|].
      exists w4. split; [eapply evolves_trans; eassumption|reflexivity]. }
  right; right. split; [reflexivity|].
  set (w5 := snd (safe_xclose p2 (snd (safe_xclose p1 (snd (safe_xclose p0 w4)))))) in *.
  pose proof (handle_child_error_evolves D (wait_status orc) w5) as E6.
  destruct (handle_child_error (wait_status orc) w5) as [err w6]; cbn [snd] in E6.
  assert (E5 : evolves D w4 w5).
  { change w5 with (closes [p0; p1; p2] w4). apply closes_evolves.
    intros fd Hin. apply HD. cbn in Hin |- *. tauto. }
  exists w6, (negb (Z.land (flags c) SPAWN_PROMPT =? 0)).
  split; [|split].
  - eapply evolves_trans; [exact E3|]. eapply evolves_trans; [exact E4|].
    eapply evolves_trans; eassumption.
  - intros fd Hin Hgt Ho.
    destruct E6 as (_ & _ & I6 & _). apply I6 in Ho.
    assert (Hcase : In fd [c0; c1] \/ In fd [p0; p1; p2]) by (cbn in Hin |- *; tauto).
    destruct Hcase as [Hc|Hp].
    + destruct E5 as (_ & _ & I5 & _). destruct E4 as (_ & _ & I4 & _).
      apply (S3 fd Hc Hgt). auto.
    + change w5 with (closes [p0; p1; p2] w4) in Ho.
      apply In_open_closes in Ho. destruct Ho as [_ Ho].
      apply (Ho fd Hp Hgt). reflexivity.
  - destruct (negb (err =? 0)); injection H' as _ _ <-; reflexivity.
Qed.

(** X11. In an editor whose standard descriptors are open, spawn closes no
    descriptor that was open when it was called, and of those it opens it
    leaves at most one open; when fork_exec fails, or a descriptor could not
    be prepared before it, spawn returns false with exactly the descriptors
    open that were open before. *)
Theorem spawn_leaks_at_most_the_stderr_null :
  forall ctx actions orc w ok ctx' w',
    sane_world w = true -> length actions = 3%nat ->
    spawn ctx actions orc w = Ok (ok, ctx', w') ->
    (forall x, In x (open_fds w) -> In x (open_fds w'))
    /\ (exists fd2, forall x, In x (open_fds w') -> In x (open_fds w) \/ x = fd2)
    /\ (fork_ok orc = false ->
        ok = false /\ forall x, In x (open_fds w') -> In x (open_fds w)).
Proof.
  intros ctx actions orc w ok ctx' w' Hsane Hlen H.
  destruct (spawn_paths ctx actions orc w ok ctx' w' Hsane Hlen H)
    as (c0 & c1 & c2 & p0 & p1 & p2 & w1 & Hinv & Hpaths).
  apply sane_world_spec in Hsane. destruct Hsane as (Hpos & _).
  destruct Hinv as (A & B & C & Dp & _).
  cbv zeta in Hpaths.
  set (quiet := negb (Z.land (flags ctx) SPAWN_QUIET =? 0)) in *.
  set (D := owned [c0; c1; c2] [p0; p1; p2]) in *.
  set (w2 := log (EvFork [c0; c1; c2]) (yield_terminal quiet w1)) in *.
  assert (O2 : open_fds w2 = open_fds w1) by (unfold w2; cbn; apply open_fds_yield).
  assert (HnD : forall x, In x (open_fds w) -> ~ In x D).
  { intros x Hx HD. unfold D, owned in HD. apply filter_In in HD.
    destruct HD as [Hin Hc]. apply orb_true_iff in Hc.
    destruct Hc as [Hc|Hc].
    - apply Z.ltb_lt in Hc. apply (C x Hin Hc Hx).
    - apply Z.ltb_lt in Hc. specialize (Hpos x Hx). lia. }
  assert (Hkeep6 : forall wz x, In x (open_fds w) -> In x (open_fds wz) ->
            In x (open_fds (closes [c0; p0; c1; p1; c2; p2] wz))).
  { intros wz x Hx Hz. apply In_open_closes. split; [assumption|].
    intros fd Hin Hgt ->. apply (C fd); [cbn in Hin |- *; tauto|assumption|assumption]. }
  assert (Hshut6 : forall wz x, In x (open_fds (closes [c0; p0; c1; p1; c2; p2] wz)) ->
            (In x (open_fds wz) -> In x (open_fds w1)) -> In x (open_fds w)).
  { intros wz x Hx Hz. apply In_open_closes in Hx. destruct Hx as [Hx Hne].
    destruct (B x (Hz Hx)) as [?|[Hgt Hin]]; [assumption|].
    exfalso. apply (Hne x); [cbn in Hin |- *; tauto|assumption|reflexivity]. }
  destruct Hpaths as [[Hok ->]|[(Hok & wx & Ex & ->)|(Hf & wx & prompt & Ex & Hshut & ->)]].
  - split; [intros x Hx; apply Hkeep6; auto|].
    split; [exists c2; intros x Hx; left; eapply Hshut6; eauto|].
    intros _. split; [assumption|]. intros x Hx. eapply Hshut6; eauto.
  - destruct Ex as (_ & _ & I & K).
    split.
    { intros x Hx. apply Hkeep6; [assumption|]. rewrite open_fds_resume.
      apply K; [rewrite O2; auto|auto]. }
    assert (Hback : forall x,
              In x (open_fds (closes [c0; p0; c1; p1; c2; p2]
                                     (resume_terminal quiet false wx))) ->
              In x (open_fds w)).
    { intros x Hx. eapply Hshut6; [exact Hx|].
      rewrite open_fds_resume. intros Hw. rewrite <- O2. auto. }
    split; [exists c2; intros x Hx; left; auto|].
    intros _. split; [assumption|exact Hback].
  - destruct Ex as (_ & _ & I & K).
    split.
    { intros x Hx. rewrite open_fds_resume. apply K; [rewrite O2; auto|auto]. }
    split; [|intros Hff; congruence].
    exists c2. intros x Hx. rewrite open_fds_resume in Hx.
    pose proof (I x Hx) as Hx2. rewrite O2 in Hx2.
    destruct (B x Hx2) as [?|[Hgt Hin]]; [auto|].
    cbn in Hin.
    destruct (Z.eq_dec x c2) as [?|Hne]; [auto|]. exfalso.
    apply (Hshut x); [cbn; intuition congruence|assumption|assumption].
Qed.


(** *** The theorems above on the worked examples *)

Lemma filter_touches_only_its_descriptors_witness :
  exists ctx' w',
    filter 5 4 (SpawnDemo.quiet_ctx [1; 2; 3])
           [SpawnDemo.both_ready; SpawnDemo.eof_tick]
           (fworld SpawnDemo.pipes_open) = Ok (ctx', w')
    /\ input ctx' = [1; 2; 3]
    /\ child_controls_terminal w' = false
    /\ In 0 (open_fds w').
Proof.
  destruct (filter 5 4 (SpawnDemo.quiet_ctx [1; 2; 3])
                   [SpawnDemo.both_ready; SpawnDemo.eof_tick]
                   (fworld SpawnDemo.pipes_open)) as [[ctx' w']|e] eqn:E;
    [|vm_compute in E; discriminate E].
  exists ctx', w'. split; [reflexivity|].
  destruct (filter_touches_only_its_descriptors _ _ _ _ _ _ _ E)
    as ((_ & _ & Hi & _) & _ & Hc & _ & Hk).
  split; [exact Hi|]. split; [exact Hc|].
  apply Hk; [cbn; tauto|discriminate|discriminate].
Defined.

Lemma filter_without_input_never_writes_witness :
  exists ctx' w',
    input (SpawnDemo.quiet_ctx []) = []
    /\ filter 5 4 (SpawnDemo.quiet_ctx []) [SpawnDemo.eof_tick]
              (fworld SpawnDemo.pipes_open) = Ok (ctx', w')
    /\ exists rc dt,
         trace w' = trace (fworld SpawnDemo.pipes_open)
                    ++ EvClose 4 rc :: EvPoll :: dt
         /\ forall fd, ~ In (EvWrite fd) dt.
Proof.
  destruct (filter 5 4 (SpawnDemo.quiet_ctx []) [SpawnDemo.eof_tick]
                   (fworld SpawnDemo.pipes_open)) as [[ctx' w']|e] eqn:E;
    [|vm_compute in E; discriminate E].
  exists ctx', w'. split; [reflexivity|]. split; [reflexivity|].
  exact (filter_without_input_never_writes 5 4 (SpawnDemo.quiet_ctx []) _ _ _ _
           eq_refl E).
Defined.

Lemma spawn_leaks_at_most_the_stderr_null_witness :
  exists ok ctx' w',
    sane_world SpawnDemo.world0 = true
    /\ spawn (SpawnDemo.quiet_ctx []) [SPAWN_PIPE; SPAWN_NULL; SPAWN_NULL]
             SpawnDemo.all_ok SpawnDemo.world0 = Ok (ok, ctx', w')
    /\ (forall x, In x (open_fds SpawnDemo.world0) -> In x (open_fds w'))
    /\ exists fd2, forall x,
         In x (open_fds w') -> In x (open_fds SpawnDemo.world0) \/ x = fd2.
Proof.
  destruct (spawn (SpawnDemo.quiet_ctx []) [SPAWN_PIPE; SPAWN_NULL; SPAWN_NULL]
                  SpawnDemo.all_ok SpawnDemo.world0) as [[[ok ctx'] w']|e] eqn:E;
    [|vm_compute in E; discriminate E].
  exists ok, ctx', w'. split; [reflexivity|]. split; [reflexivity|].
  destruct (spawn_leaks_at_most_the_stderr_null
              (SpawnDemo.quiet_ctx []) [SPAWN_PIPE; SPAWN_NULL; SPAWN_NULL]
              SpawnDemo.all_ok SpawnDemo.world0 ok ctx' w'
              eq_refl eq_refl E) as (A & B & _).
  split; assumption.
Defined.


(** *** The errors of spawn *)





End SpawnFacts.

(** ** Running a compiler *)

Module SpawnCompilerFacts.

Import Spawn SpawnCompiler SpawnFacts.

Section Compiler.

Variable regex : Type.
Variable Msg : Type.
Variable MessageArray : Type.
Variable regexp_exec : regex -> list Z -> Z -> option (list regmatch_t).
Variable new_message : list Z -> Z -> Msg.
Variable xstrslice : list Z -> Z -> Z -> list Z.
Variable buf_parse_ulong : list Z -> Z -> Z * Z.
Variable str_replace_byte : list Z -> Z -> Z -> list Z * Z.
Variable add_message : MessageArray -> Message Msg -> MessageArray.

Local Abbreviation match_formats :=
  (match_formats regex Msg MessageArray regexp_exec new_message xstrslice
                 buf_parse_ulong add_message).
Local Abbreviation message_of_match :=
  (message_of_match regex Msg new_message xstrslice buf_parse_ulong).
Local Abbreviation handle_error_msg :=
  (handle_error_msg regex Msg MessageArray regexp_exec new_message xstrslice
                    buf_parse_ulong str_replace_byte add_message).
Local Abbreviation read_errors_loop :=
  (read_errors_loop regex Msg MessageArray regexp_exec new_message xstrslice
                    buf_parse_ulong str_replace_byte add_message).
Local Abbreviation read_errors :=
  (read_errors regex Msg MessageArray regexp_exec new_message xstrslice
               buf_parse_ulong str_replace_byte add_message).
Local Abbreviation spawn_compiler :=
  (spawn_compiler regex Msg MessageArray regexp_exec new_message xstrslice
                  buf_parse_ulong str_replace_byte add_message).

(** X21. In handle_error_msg the first error format whose pattern matches
    the line decides, and the formats after it are not consulted: if it is
    an ignore format no message is added, otherwise the message is the one
    built from its captures; a line that no format matches is added whole,
    without a location. *)
Theorem first_matching_format_decides :
  forall pre p post msgs str str_len,
    (forall q, In q pre -> regexp_exec (re regex q) str str_len = None) ->
    (forall m,
        regexp_exec (re regex p) str str_len = Some m ->
        match_formats (pre ++ p :: post) msgs str str_len
        = if ignore regex p then Ok msgs
          else msg <- message_of_match p m str ;; Ok (add_message msgs msg))
    /\ (regexp_exec (re regex p) str str_len = None ->
        match_formats (pre ++ [p]) msgs str str_len
        = Ok (add_message msgs (new_message str str_len, None))).
Proof.
  intros pre p post msgs str str_len Hpre.
  induction pre as [|q pre IH]; cbn.
  - split.
    + intros m Hm. rewrite Hm. reflexivity.
    + intros Hn. rewrite Hn. reflexivity.
  - rewrite (Hpre q (or_introl eq_refl)).
    apply IH. intros q' Hq'. apply Hpre. right. exact Hq'.
Qed.

Lemma match_formats_adds_at_most_one fmts msgs str str_len msgs' :
  match_formats fmts msgs str str_len = Ok msgs' ->
  msgs' = msgs \/ exists m, msgs' = add_message msgs m.
Proof.
  induction fmts as [|p fmts IH]; cbn; intros H.
  - injection H as <-. eauto.
  - destruct (regexp_exec (re regex p) str str_len) as [m|]; [|auto].
    destruct (ignore regex p); [injection H as <-; auto|].
    destruct (message_of_match p m str) as [msg|e]; [|discriminate H].
    cbn in H. injection H as <-. eauto.
Qed.

(** X22. handle_error_msg adds at most one message for a line, and none for
    an empty line or one that starts with a newline. *)
Theorem handle_error_msg_adds_at_most_one_message :
  forall c msgs str msgs',
    handle_error_msg c msgs str = Ok msgs' ->
    (msgs' = msgs \/ exists m, msgs' = add_message msgs m)
    /\ (hd 10 str = 10 -> msgs' = msgs).
Proof.
  intros c msgs str msgs' H. unfold SpawnCompiler.handle_error_msg in H.
  destruct str as [|c0 str]; [injection H as <-; auto|].
  cbn [hd]. destruct (Z.eqb_spec c0 10) as [->|Hne].
  - injection H as <-. auto.
  - split; [|intros; contradiction].
    destruct (clean_line str_replace_byte (c0 :: str)) as [[s n]|e];
      [|discriminate H].
    cbn in H. eapply match_formats_adds_at_most_one; exact H.
Qed.


Lemma read_errors_loop_evolves D c quiet lines :
  forall msgs w msgs' w',
    read_errors_loop c quiet lines msgs w = Ok (msgs', w') -> evolves D w w'.
Proof.
  induction lines as [|l lines IH]; intros msgs w msgs' w' H; cbn in H.
  - injection H as _ <-. apply evolves_refl.
  - destruct (handle_error_msg c msgs l) as [msgs1|e]; [|discriminate H].
    cbn in H. apply IH in H. destruct quiet; [exact H|].
    eapply evolves_trans; [apply evolves_log|exact H].
Qed.

Lemma not_open_after_xclose fd w : ~ In fd (open_fds (snd (xclose fd w))).
Proof. intros H. apply In_open_fds_xclose in H. tauto. Qed.

Lemma evolves_not_open D w w' fd :
  evolves D w w' -> ~ In fd (open_fds w) -> ~ In fd (open_fds w').
Proof. intros (_ & _ & I & _) H Hin. apply H. apply I. exact Hin. Qed.

(* the world between fork_exec and resume_terminal *)
Lemma compiler_child_world c orc msgs quiet prompt p0 p1 w0 ms pr wx :
  (if negb (cfork_ok orc) then
     let w := say (error_msg "Unable to exec") w0 in
     let w := snd (xclose p1 w) in
     Ok (msgs, false, w)
   else
     let w := snd (xclose p1 w0) in
     r <- read_errors c msgs p0 quiet (fdopen_ok orc) (stderr_lines orc) w ;;
     let '(msgs, w) := r in
     let w := snd (handle_child_error (cwait_status orc) w) in
     Ok (msgs, prompt, w)) = Ok (ms, pr, wx) ->
  evolves [p1; p0] w0 wx /\ ~ In p1 (open_fds wx).
Proof.
  intros H. destruct (cfork_ok orc); cbn [negb] in H.
  - cbv zeta in H.
    pose proof (evolves_xclose [p1; p0] p1 w0 (or_introl eq_refl)) as E1.
    pose proof (not_open_after_xclose p1 w0) as N1.
    set (w1 := snd (xclose p1 w0)) in *.
    destruct (read_errors c msgs p0 quiet (fdopen_ok orc) (stderr_lines orc) w1)
      as [[ms1 w2]|e] eqn:Er; [|discriminate H].
    cbn in H. injection H as _ _ <-.
    assert (E2 : evolves [p1; p0] w1 w2).
    { unfold SpawnCompiler.read_errors in Er. destruct (fdopen_ok orc); cbn [negb] in Er.
      - destruct (read_errors_loop c quiet (stderr_lines orc) msgs w1)
          as [[ms2 w3]|e] eqn:El; [|discriminate Er].
        cbn in Er. injection Er as _ <-.
        eapply evolves_trans; [eapply read_errors_loop_evolves; exact El|].
        apply evolves_xclose. cbn. auto.
      - injection Er as _ <-. apply evolves_refl. }
    pose proof (handle_child_error_evolves [p1; p0] (cwait_status orc) w2) as E3.
    split.
    + eapply evolves_trans; [exact E1|]. eapply evolves_trans; eassumption.
    + eapply evolves_not_open; [exact E3|].
      eapply evolves_not_open; [exact E2|exact N1].
  - cbv zeta in H. injection H as _ _ <-. split.
    + eapply evolves_trans; [apply evolves_say|].
      apply evolves_xclose. cbn. auto.
    + apply not_open_after_xclose.
Qed.

Lemma cct_xclose fd w :
  child_controls_terminal (snd (xclose fd w)) = child_controls_terminal w.
Proof. unfold xclose. destruct (is_open fd w); reflexivity. Qed.

(** X23. On every path on which spawn_compiler returns, exactly the
    descriptors that were open when it was called are open: both /dev/null
    descriptors and both ends of the pipe have been closed, whichever call
    failed; and child_controls_terminal is false again if it was false. *)
Theorem spawn_compiler_leaves_no_descriptor :
  forall flags c orc msgs w msgs' w',
    spawn_compiler flags c orc msgs w = Ok (msgs', w') ->
    (forall x, In x (open_fds w') <-> In x (open_fds w))
    /\ (child_controls_terminal w = false ->
        child_controls_terminal w' = false).
Proof.
  intros flags c orc msgs w msgs' w' H. unfold SpawnCompiler.spawn_compiler in H.
  unfold open_dev_null in H.
  destruct (null_in_ok orc).
  2:{ cbn in H. injection H as _ <-. cbn. split; [reflexivity|auto]. }
  destruct (lowest_free_fresh (open_fds w) w eq_refl) as [Ha Hfa].
  set (a := lowest_free w) in *.
  destruct (Z.ltb_spec a 0); [lia|].
  set (w1 := log (EvOpenNull a) (set_open_fds (a :: open_fds w) w)) in *.
  destruct (null_out_ok orc).
  2:{ change (-1 <? 0) with true in H. cbv iota in H.
      injection H as _ <-. rewrite cct_xclose. split; [|auto].
      intros x. rewrite In_open_fds_xclose. cbn. intuition congruence. }
  destruct (lowest_free_fresh (a :: open_fds w) w1 eq_refl) as [Hb Hfb].
  set (b := lowest_free w1) in *.
  destruct (Z.ltb_spec b 0); [lia|].
  set (w2 := log (EvOpenNull b) (set_open_fds (b :: open_fds w1) w1)) in *.
  unfold pipe_cloexec in H.
  destruct (cpipe_ok orc).
  2:{ injection H as _ <-. rewrite !cct_xclose. split; [|auto].
      intros x. rewrite !In_open_fds_xclose. cbn in *. intuition congruence. }
  destruct (lowest_free_fresh (b :: a :: open_fds w) w2 eq_refl) as [Hp0 Hfp0].
  set (p0 := lowest_free w2) in *.
  set (w3 := set_open_fds (p0 :: open_fds w2) w2) in *.
  destruct (lowest_free_fresh (p0 :: b :: a :: open_fds w) w3 eq_refl)
    as [Hp1 Hfp1].
  set (p1 := lowest_free w3) in *.
  set (quiet := negb (Z.land flags SPAWN_QUIET =? 0)) in *.
  cbv zeta in H.
  match type of H with
  | (r <- (if _ then Ok (_, _, snd (xclose _ (say _ ?w0))) else _) ;; _) = _ =>
      set (wf := w0) in *
  end.
  match type of H with
  | (r <- ?m ;; _) = _ => destruct m as [[[ms pr] wx]|e] eqn:Em; [|discriminate H]
  end.
  apply compiler_child_world in Em. destruct Em as [(_ & Ec & I & K) N].
  cbn [bind] in H. injection H as _ <-.
  rewrite !cct_xclose. split.
  - assert (Of : open_fds wf = p1 :: p0 :: b :: a :: open_fds w)
      by (unfold wf; cbn [open_fds log]; rewrite open_fds_yield; reflexivity).
    intros x. rewrite !In_open_fds_xclose, open_fds_resume. split.
    + intros (((Hx & Hn0) & Hnb) & Hna). pose proof (I x Hx) as Hf.
      rewrite Of in Hf. destruct Hf as [<-|[<-|[<-|[<-|Hf]]]];
        try congruence.
    + intros Hl.
      assert (x <> p1) by (intros ->; apply Hfp1; cbn; auto).
      assert (x <> p0) by (intros ->; apply Hfp0; cbn; auto).
      assert (x <> b) by (intros ->; apply Hfb; cbn; auto).
      assert (x <> a) by (intros ->; apply Hfa; cbn; auto).
      repeat split; try assumption.
      apply K; [rewrite Of; cbn; auto|].
      intros [E|[E|[]]]; symmetry in E; contradiction.
  - intros Hc. apply cct_resume. intros Hq. rewrite Ec. unfold wf.
    cbn [child_controls_terminal log]. rewrite cct_yield by assumption.
    exact Hc.
Qed.



Lemma trace_xclose_open fd w :
  In fd (open_fds w) -> trace (snd (xclose fd w)) = trace w ++ [EvClose fd 0].
Proof.
  intros H. apply is_open_In in H. unfold xclose. rewrite H. reflexivity.
Qed.

Lemma trace_xclose_closed fd w :
  ~ In fd (open_fds w) ->
  trace (snd (xclose fd w)) = trace w ++ [EvClose fd (-1)].
Proof.
  intros H. unfold xclose. destruct (is_open fd w) eqn:E; [|reflexivity].
  apply is_open_In in E. contradiction.
Qed.

Lemma trace_xclose fd w :
  exists rc, trace (snd (xclose fd w)) = trace w ++ [EvClose fd rc].
Proof.
  unfold xclose. destruct (is_open fd w); [exists 0|exists (-1)]; reflexivity.
Qed.

Lemma trace_handle_child_error st w :
  trace (snd (handle_child_error st w)) = trace w ++ [EvWait].
Proof.
  unfold handle_child_error.
  destruct (st <? 0); [|destruct (256 <=? st); [|destruct (negb (st =? 0))]];
    reflexivity.
Qed.

Lemma trace_resume_terminal q p w :
  exists lt, trace (resume_terminal q p w) = trace w ++ lt
             /\ forallb waits_or_term lt = true.
Proof.
  unfold resume_terminal. destruct (negb q && _).
  - destruct p; cbn; rewrite <- !app_assoc; eexists; split;
      reflexivity.
  - eexists. split; reflexivity.
Qed.

Lemma trace_yield_terminal q w :
  exists ev, trace (yield_terminal q w) = trace w ++ [ev].
Proof. unfold yield_terminal. destruct q; eexists; reflexivity. Qed.

Lemma trace_read_errors_loop c quiet lines :
  forall msgs w msgs' w',
    read_errors_loop c quiet lines msgs w = Ok (msgs', w') ->
    exists lw, trace w' = trace w ++ lw.
Proof.
  induction lines as [|l lines IH]; intros msgs w msgs' w' H; cbn in H.
  - injection H as _ <-. exists []. symmetry. apply app_nil_r.
  - destruct (handle_error_msg c msgs l) as [msgs1|e]; [|discriminate H].
    cbn in H. apply IH in H. destruct H as (lw & ->).
    destruct quiet; [eauto|]. cbn. rewrite <- app_assoc.
    eexists. reflexivity.
Qed.

(** X24. When the child was started and fdopen succeeded, spawn_compiler
    closes the read end of its pipe twice.  Among the calls it makes, in
    this order: the pipe is made, with read end p0; read_errors closes p0
    through fclose, which succeeds; the child is waited for and the
    terminal taken back, no descriptor being opened; then xclose(p[0])
    closes p0 again and fails, p0 being no longer open. *)
Theorem spawn_compiler_closes_the_read_end_twice :
  forall flags c orc msgs w msgs' w',
    null_in_ok orc = true -> null_out_ok orc = true -> cpipe_ok orc = true ->
    cfork_ok orc = true -> fdopen_ok orc = true ->
    spawn_compiler flags c orc msgs w = Ok (msgs', w') ->
    exists p0 p1 l1 l2 l3 l4,
      trace w'
      = trace w ++ l1 ++ EvPipe p0 p1 :: l2 ++ EvClose p0 0
                :: l3 ++ EvClose p0 (-1) :: l4
      /\ forallb waits_or_term l3 = true.
Proof.
  intros flags c orc msgs w msgs' w' O1 O2 O3 O4 O5 H.
  unfold SpawnCompiler.spawn_compiler, open_dev_null, pipe_cloexec in H.
  rewrite O1, O2, O3, O4 in H.
  destruct (lowest_free_fresh (open_fds w) w eq_refl) as [Ha Hfa].
  set (a := lowest_free w) in *.
  destruct (Z.ltb_spec a 0); [lia|].
  set (w1 := log (EvOpenNull a) (set_open_fds (a :: open_fds w) w)) in *.
  destruct (lowest_free_fresh (a :: open_fds w) w1 eq_refl) as [Hb Hfb].
  set (b := lowest_free w1) in *.
  destruct (Z.ltb_spec b 0); [lia|].
  set (w2 := log (EvOpenNull b) (set_open_fds (b :: open_fds w1) w1)) in *.
  set (p0 := lowest_free w2) in *.
  set (w3 := set_open_fds (p0 :: open_fds w2) w2) in *.
  destruct (lowest_free_fresh (p0 :: b :: a :: open_fds w) w3 eq_refl)
    as [Hp1 Hfp1].
  set (p1 := lowest_free w3) in *.
  set (quiet := negb (Z.land flags SPAWN_QUIET =? 0)) in *.
  cbv zeta in H. cbn [negb] in H.
  set (wp := log (EvPipe p0 p1) (set_open_fds (p1 :: open_fds w3) w3)) in *.
  match type of H with
  | context [xclose p1 ?w0] => set (wf := w0) in *
  end.
  assert (Of : open_fds wf = p1 :: p0 :: b :: a :: open_fds w)
    by (unfold wf; cbn [open_fds log]; rewrite open_fds_yield; reflexivity).
  assert (Tp : trace wp = trace w ++ [EvOpenNull a; EvOpenNull b] ++ [EvPipe p0 p1]).
  { unfold wp, w3, w2, w1. cbn [trace log set_open_fds].
    rewrite <- !app_assoc. reflexivity. }
  destruct (trace_yield_terminal quiet wp) as (evy & Ty).
  assert (Tf : exists evf, trace wf = trace wp ++ [evy; evf]).
  { unfold wf. cbn [trace log]. rewrite Ty, <- app_assoc.
    eexists. reflexivity. }
  destruct Tf as (evf & Tf).
  destruct (trace_xclose p1 wf) as (rc1 & T1).
  unfold SpawnCompiler.read_errors in H. rewrite O5 in H. cbn [negb] in H.
  destruct (read_errors_loop c quiet (stderr_lines orc) msgs (snd (xclose p1 wf)))
    as [[ms2 wl]|e] eqn:El; [|discriminate H].
  cbn [bind] in H.
  destruct (trace_read_errors_loop _ _ _ _ _ _ _ El) as (lw & Tl).
  pose proof (read_errors_loop_evolves [] _ _ _ _ _ _ _ El) as (_ & _ & _ & Kl).
  assert (Hopen : In p0 (open_fds wl)).
  { apply Kl; [|intros []]. apply In_open_fds_xclose. split.
    - rewrite Of. cbn. auto.
    - intros E. apply Hfp1. left. auto. }
  pose proof (trace_xclose_open p0 wl Hopen) as Tc.
  pose proof (not_open_after_xclose p0 wl) as N1.
  set (wc := snd (xclose p0 wl)) in *.
  pose proof (handle_child_error_evolves [] (cwait_status orc) wc) as E2.
  pose proof (trace_handle_child_error (cwait_status orc) wc) as Th.
  set (wh := snd (handle_child_error (cwait_status orc) wc)) in *.
  destruct (trace_resume_terminal quiet
              (negb (Z.land flags SPAWN_PROMPT =? 0)) wh) as (lt & Tr & Ht).
  set (wr := resume_terminal quiet (negb (Z.land flags SPAWN_PROMPT =? 0)) wh)
    in *.
  assert (N2 : ~ In p0 (open_fds wr)).
  { unfold wr. rewrite open_fds_resume. eapply evolves_not_open; eassumption. }
  pose proof (trace_xclose_closed p0 wr N2) as T2.
  destruct (trace_xclose b (snd (xclose p0 wr))) as (rcb & Tb).
  destruct (trace_xclose a (snd (xclose b (snd (xclose p0 wr))))) as (rca & Ta).
  injection H as _ <-.
  exists p0, p1, [EvOpenNull a; EvOpenNull b],
    ([evy; evf] ++ [EvClose p1 rc1] ++ lw), (EvWait :: lt),
    [EvClose b rcb; EvClose a rca].
  split; [|exact Ht].
  rewrite Ta, Tb, T2, Tr, Th, Tc, Tl, T1, Tf, Tp.
  repeat rewrite <- app_assoc. reflexivity.
Qed.

End Compiler.

Lemma first_matching_format_decides_witness :
  (forall q, In q [CompilerDemo.err] ->
     CompilerDemo.regexp_exec (re _ q) [110; 111; 116; 101] 4 = None)
  /\ CompilerDemo.match_formats [CompilerDemo.err; CompilerDemo.note; CompilerDemo.any]
                                [] [110; 111; 116; 101] 4 = Ok [].
Proof.
  assert (Hpre : forall q, In q [CompilerDemo.err] ->
     CompilerDemo.regexp_exec (re _ q) [110; 111; 116; 101] 4 = None)
    by (intros q [<-|[]]; reflexivity).
  split; [exact Hpre|].
  exact (proj1 (first_matching_format_decides
                  CompilerDemo.regex CompilerDemo.Msg CompilerDemo.MessageArray
                  CompilerDemo.regexp_exec CompilerDemo.new_message
                  CompilerDemo.xstrslice CompilerDemo.buf_parse_ulong
                  CompilerDemo.add_message
                  [CompilerDemo.err] CompilerDemo.note [CompilerDemo.any] []
                  [110; 111; 116; 101] 4 Hpre) _ eq_refl).
Defined.

Lemma handle_error_msg_adds_at_most_one_message_witness :
  CompilerDemo.handle_error_msg CompilerDemo.cc [] [101; 114; 114; 9; 120; 10]
  = Ok [([101; 114; 114; 32; 120], Some {| filename := None; line := 0; column := 0 |})]
  /\ ([([101; 114; 114; 32; 120], Some {| filename := None; line := 0; column := 0 |})]
      = ([] : CompilerDemo.MessageArray)
      \/ exists m, [([101; 114; 114; 32; 120],
                     Some {| filename := None; line := 0; column := 0 |})]
                   = CompilerDemo.add_message [] m).
Proof.
  split; [reflexivity|].
  apply (handle_error_msg_adds_at_most_one_message
           CompilerDemo.regex CompilerDemo.Msg CompilerDemo.MessageArray
           CompilerDemo.regexp_exec CompilerDemo.new_message
           CompilerDemo.xstrslice CompilerDemo.buf_parse_ulong
           CompilerDemo.str_replace_byte CompilerDemo.add_message
           CompilerDemo.cc [] [101; 114; 114; 9; 120; 10]).
  reflexivity.
Defined.

Lemma spawn_compiler_leaves_no_descriptor_witness :
  exists msgs' w',
    CompilerDemo.spawn_compiler 0 CompilerDemo.cc CompilerDemo.runs []
                                SpawnDemo.world0 = Ok (msgs', w')
    /\ (forall x, In x (open_fds w') <-> In x (open_fds SpawnDemo.world0))
    /\ length msgs' = 1%nat.
Proof.
  destruct (CompilerDemo.spawn_compiler 0 CompilerDemo.cc CompilerDemo.runs []
                                        SpawnDemo.world0)
    as [[msgs' w']|e] eqn:E; [|vm_compute in E; discriminate E].
  exists msgs', w'. split; [reflexivity|].
  split.
  - exact (proj1 (spawn_compiler_leaves_no_descriptor
                    CompilerDemo.regex CompilerDemo.Msg CompilerDemo.MessageArray
                    CompilerDemo.regexp_exec CompilerDemo.new_message
                    CompilerDemo.xstrslice CompilerDemo.buf_parse_ulong
                    CompilerDemo.str_replace_byte CompilerDemo.add_message
                    0 CompilerDemo.cc CompilerDemo.runs [] SpawnDemo.world0
                    msgs' w' E)).
  - vm_compute in E. injection E as <- _. reflexivity.
Defined.

Lemma spawn_compiler_closes_the_read_end_twice_witness :
  exists msgs' w' p0 p1 l1 l2 l3 l4,
    CompilerDemo.spawn_compiler 0 CompilerDemo.cc CompilerDemo.runs []
                                SpawnDemo.world0 = Ok (msgs', w')
    /\ trace w'
       = trace SpawnDemo.world0 ++ l1 ++ EvPipe p0 p1 :: l2 ++ EvClose p0 0
               :: l3 ++ EvClose p0 (-1) :: l4
    /\ forallb waits_or_term l3 = true.
Proof.
  destruct (CompilerDemo.spawn_compiler 0 CompilerDemo.cc CompilerDemo.runs []
                                        SpawnDemo.world0)
    as [[msgs' w']|e] eqn:E; [|vm_compute in E; discriminate E].
  destruct (spawn_compiler_closes_the_read_end_twice
              CompilerDemo.regex CompilerDemo.Msg CompilerDemo.MessageArray
              CompilerDemo.regexp_exec CompilerDemo.new_message
              CompilerDemo.xstrslice CompilerDemo.buf_parse_ulong
              CompilerDemo.str_replace_byte CompilerDemo.add_message
              0 CompilerDemo.cc CompilerDemo.runs [] SpawnDemo.world0
              msgs' w' eq_refl eq_refl eq_refl eq_refl eq_refl E)
    as (p0 & p1 & l1 & l2 & l3 & l4 & H1 & H2).
  exists msgs', w', p0, p1, l1, l2, l3, l4.
  split; [reflexivity|]. split; assumption.
Defined.

End SpawnCompilerFacts.

(** ** The older spawn.c *)

Module OldSpawnFacts.

Import Spawn SpawnFacts SpawnCompilerFacts OldSpawn.

(** *** Descriptors opened and closed again *)

Lemma owns_refl w : owns [] w w.
Proof. repeat split; auto. Qed.

Lemma owns_step L w0 w w' :
  owns L w0 w ->
  (forall x, In x (open_fds w') -> In x (open_fds w)) ->
  (forall x, In x (open_fds w) -> In x (open_fds w0) -> In x (open_fds w')) ->
  owns L w0 w'.
Proof.
  intros (A & B & C) I K. repeat split; auto.
Qed.

Lemma owns_same L w0 w w' :
  open_fds w' = open_fds w -> owns L w0 w -> owns L w0 w'.
Proof.
  intros E H. eapply owns_step; [exact H| |]; rewrite E; auto.
Qed.

Lemma owns_xclose L w0 w fd :
  ~ In fd (open_fds w0) -> owns L w0 w -> owns L w0 (snd (xclose fd w)).
Proof.
  intros N H. eapply owns_step; [exact H| |].
  - intros x Hx. apply In_open_fds_xclose in Hx. tauto.
  - intros x Hx H0. apply In_open_fds_xclose. split; [assumption|].
    intros ->. contradiction.
Qed.

Lemma owns_evolves L D w0 w w' :
  (forall x, In x D -> ~ In x (open_fds w0)) ->
  evolves D w w' -> owns L w0 w -> owns L w0 w'.
Proof.
  intros N (_ & _ & I & K) H. eapply owns_step; [exact H|exact I|].
  intros x Hx H0. apply K; [assumption|]. intros HD. exact (N x HD H0).
Qed.

Lemma owns_fresh L w0 w :
  owns L w0 w -> 0 <= lowest_free w /\ ~ In (lowest_free w) (open_fds w0)
                 /\ ~ In (lowest_free w) (open_fds w).
Proof.
  intros (A & _). destruct (lowest_free_fresh (open_fds w) w eq_refl) as [P F].
  repeat split; auto.
Qed.

Lemma owns_open L w0 w w' d :
  owns L w0 w -> ~ In d (open_fds w) -> open_fds w' = d :: open_fds w ->
  owns (d :: L) w0 w'.
Proof.
  intros (A & B & C) F E. repeat split.
  - intros x Hx. rewrite E. right. auto.
  - intros x Hx. rewrite E in Hx. destruct Hx as [<-|Hx]; [right; left; auto|].
    destruct (B x Hx); [auto|right; right; assumption].
  - intros x [<-|Hx]; [|auto]. intros H0. apply F. auto.
Qed.

Lemma owns_done L w0 w :
  owns L w0 w -> (forall x, In x L -> ~ In x (open_fds w)) ->
  forall x, In x (open_fds w) <-> In x (open_fds w0).
Proof.
  intros (A & B & C) N x. split; [|auto].
  intros Hx. destruct (B x Hx) as [H|H]; [assumption|].
  exfalso. exact (N x H Hx).
Qed.

Lemma open_dev_null_owns L w0 w :
  owns L w0 w ->
  exists d w', open_dev_null true w = (d, w') /\ 0 <= d
               /\ ~ In d (open_fds w0) /\ ~ In d (open_fds w)
               /\ owns (d :: L) w0 w'
               /\ child_controls_terminal w' = child_controls_terminal w.
Proof.
  intros H. destruct (owns_fresh _ _ _ H) as (P & F0 & F).
  eexists _, _. split; [reflexivity|].
  split; [exact P|]. split; [exact F0|]. split; [exact F|].
  split; [|reflexivity].
  eapply owns_open; [exact H|exact F|reflexivity].
Qed.

Lemma pipe_cloexec_owns L w0 w :
  owns L w0 w ->
  exists a b w', pipe_cloexec true w = (Some (a, b), w')
                 /\ 0 <= a /\ 0 <= b
                 /\ ~ In a (open_fds w0) /\ ~ In b (open_fds w0)
                 /\ owns (b :: a :: L) w0 w'
                 /\ child_controls_terminal w' = child_controls_terminal w.
Proof.
  intros H. destruct (owns_fresh _ _ _ H) as (P & F0 & F).
  set (a := lowest_free w) in *.
  assert (H1 : owns (a :: L) w0 (set_open_fds (a :: open_fds w) w))
    by (eapply owns_open; [exact H|exact F|reflexivity]).
  destruct (owns_fresh _ _ _ H1) as (P' & F0' & F').
  eexists _, _, _. split; [reflexivity|]. fold a.
  split; [exact P|]. split; [exact P'|]. split; [exact F0|].
  split; [exact F0'|]. split; [|reflexivity].
  eapply owns_open; [exact H1|exact F'|reflexivity].
Qed.

Lemma closed_after fd fd' w :
  ~ In fd (open_fds w) -> ~ In fd (open_fds (snd (xclose fd' w))).
Proof. intros N H. apply In_open_fds_xclose in H. tauto. Qed.

Lemma closed_same w w' fd :
  open_fds w' = open_fds w -> ~ In fd (open_fds w) -> ~ In fd (open_fds w').
Proof. intros ->. auto. Qed.

Lemma old_handle_child_error_evolves D st w :
  evolves D w (snd (handle_child_error st w)).
Proof.
  unfold handle_child_error.
  destruct (st <? 0); [|destruct (256 <=? st); [|destruct (negb (st =? 0))]];
    cbn [snd];
    try (eapply evolves_trans; [apply evolves_log|apply evolves_say]);
    apply evolves_log.
Qed.

Lemma old_handle_child_error_fst st w : fst (handle_child_error st w) = st.
Proof.
  unfold handle_child_error.
  destruct (st <? 0); [|destruct (256 <=? st); [|destruct (negb (st =? 0))]];
    reflexivity.
Qed.

Lemma open_fds_give q w : open_fds (give_terminal q w) = open_fds w.
Proof. unfold give_terminal. destruct (truthy q); reflexivity. Qed.

Lemma open_fds_take q p w : open_fds (take_terminal q p w) = open_fds w.
Proof.
  unfold take_terminal. destruct (truthy q); [reflexivity|].
  destruct (truthy p); reflexivity.
Qed.

Lemma cct_take q p w :
  (truthy q = true -> child_controls_terminal w = false) ->
  child_controls_terminal (take_terminal q p w) = false.
Proof.
  unfold take_terminal. destruct (truthy q); [auto|]. reflexivity.
Qed.

Lemma cct_give q w :
  truthy q = true ->
  child_controls_terminal (give_terminal q w) = child_controls_terminal w.
Proof. unfold give_terminal. intros ->. reflexivity. Qed.

(** *** [filter] *)

Lemma calls_only_refl P w : calls_only P w w.
Proof. exists []. split; [symmetry; apply app_nil_r|reflexivity]. Qed.

Lemma calls_only_trans P w w1 w2 :
  calls_only P w w1 -> calls_only P w1 w2 -> calls_only P w w2.
Proof.
  intros (d1 & E1 & F1) (d2 & E2 & F2). exists (d1 ++ d2). split.
  - rewrite E2, E1. symmetry. apply app_assoc.
  - rewrite forallb_app, F1, F2. reflexivity.
Qed.

Lemma calls_only_log (P : sys_event -> bool) ev w :
  P ev = true -> calls_only P w (log ev w).
Proof. intros H. exists [ev]. cbn. rewrite H. auto. Qed.

Lemma calls_only_say P m w : calls_only P w (say m w).
Proof. exists []. split; [symmetry; apply app_nil_r|reflexivity]. Qed.

Lemma calls_only_xclose (P : sys_event -> bool) fd w :
  (forall rc, P (EvClose fd rc) = true) ->
  calls_only P w (snd (xclose fd w)).
Proof.
  intros H. unfold xclose. destruct (is_open fd w); cbn [snd].
  - exists [EvClose fd 0]. cbn. rewrite H. auto.
  - apply calls_only_log. apply H.
Qed.

Lemma turn_ok_refl r0 w0 s : turn_ok r0 w0 s s.
Proof.
  split; [apply evolves_refl|]. split; [apply calls_only_refl|].
  split; [reflexivity|]. split; [reflexivity|]. split; [left; reflexivity|].
  exists []. symmetry. apply app_nil_r.
Qed.

Lemma turn_ok_trans r0 w0 s s1 s2 :
  turn_ok r0 w0 s s1 -> turn_ok r0 w0 s1 s2 -> turn_ok r0 w0 s s2.
Proof.
  intros (E1 & C1 & R1 & I1 & W1 & (d1 & B1)) (E2 & C2 & R2 & I2 & W2 & (d2 & B2)).
  split; [|split; [|split; [|split; [|split]]]].
  - eapply evolves_trans; eassumption.
  - eapply calls_only_trans; eassumption.
  - congruence.
  - congruence.
  - destruct W2 as [W2|W2]; [rewrite W2; exact W1|auto].
  - exists (d1 ++ d2). rewrite B2, B1. symmetry. apply app_assoc.
Qed.

Lemma old_with_turn r0 w0 s wfd' wl d w' :
  evolves [w0] (oworld s) w' ->
  calls_only (filter_event r0 w0) (oworld s) w' ->
  wfd' = wfd s \/ wfd' = -1 ->
  turn_ok r0 w0 s (old_with s wfd' wl (buf s ++ d) w').
Proof.
  intros E C W. split; [exact E|]. split; [exact C|].
  split; [reflexivity|]. split; [reflexivity|]. split; [exact W|].
  exists d. reflexivity.
Qed.

Lemma old_with_turn0 r0 w0 s wfd' wl w' :
  evolves [w0] (oworld s) w' ->
  calls_only (filter_event r0 w0) (oworld s) w' ->
  wfd' = wfd s \/ wfd' = -1 ->
  turn_ok r0 w0 s (old_with s wfd' wl (buf s) w').
Proof.
  intros E C W. split; [exact E|]. split; [exact C|].
  split; [reflexivity|]. split; [reflexivity|]. split; [exact W|].
  exists []. symmetry. apply app_nil_r.
Qed.

Lemma old_filter_write_turn r0 w0 t wset s :
  wfd s = w0 \/ wfd s < 0 ->
  turn_ok r0 w0 s (snd (old_filter_write t wset s)).
Proof.
  intros Hw. unfold old_filter_write.
  destruct (0 <=? wfd s) eqn:E0; cbn [andb]; [|apply turn_ok_refl].
  destruct wset; [|apply turn_ok_refl].
  apply Z.leb_le in E0. destruct Hw as [Hw|Hw]; [|lia].
  assert (Pw : filter_event r0 w0 (EvWrite (wfd s)) = true)
    by (cbn; apply Z.eqb_eq; exact Hw).
  destruct (old_write_rc t) as [|n]; cbn [snd].
  - apply old_with_turn0; [| |left; reflexivity].
    + eapply evolves_trans; [apply evolves_log|apply evolves_say].
    + eapply calls_only_trans; [apply calls_only_log; exact Pw|apply calls_only_say].
  - match goal with |- context [if ?c then _ else _] => destruct c end;
      cbn [snd].
    + apply old_with_turn0; [| |right; reflexivity].
      * eapply evolves_trans; [apply evolves_log|].
        apply evolves_xclose. rewrite Hw. cbn. auto.
      * eapply calls_only_trans; [apply calls_only_log; exact Pw|].
        apply calls_only_xclose. intros rc. cbn. apply Z.eqb_eq. exact Hw.
    + apply old_with_turn0; [| |left; reflexivity].
      * apply evolves_log.
      * apply calls_only_log. exact Pw.
Qed.

Lemma old_filter_step_turn r0 w0 t s :
  rfd s = r0 -> wfd s = w0 \/ wfd s < 0 ->
  turn_ok r0 w0 s (snd (old_filter_step t s)).
Proof.
  intros Hr Hw. unfold old_filter_step.
  assert (Pp : filter_event r0 w0 EvPoll = true) by reflexivity.
  assert (Pr : filter_event r0 w0 (EvRead (rfd s)) = true)
    by (cbn; apply Z.eqb_eq; exact Hr).
  pose proof (evolves_log [w0] EvPoll (oworld s)) as E0.
  pose proof (calls_only_log _ EvPoll (oworld s) Pp) as C0.
  set (wp := log EvPoll (oworld s)) in *.
  destruct (selected t) as [[|]|rset wset]; cbn [snd].
  - apply old_with_turn0; [exact E0|exact C0|left; reflexivity].
  - apply old_with_turn0; [| |left; reflexivity].
    + eapply evolves_trans; [exact E0|apply evolves_say].
    + eapply calls_only_trans; [exact C0|apply calls_only_say].
  - destruct rset.
    + pose proof (evolves_log [w0] (EvRead (rfd s)) wp) as E1.
      pose proof (calls_only_log _ (EvRead (rfd s)) wp Pr) as C1.
      set (wr := log (EvRead (rfd s)) wp) in *.
      assert (E01 : evolves [w0] (oworld s) wr)
        by (eapply evolves_trans; eassumption).
      assert (C01 : calls_only (filter_event r0 w0) (oworld s) wr)
        by (eapply calls_only_trans; eassumption).
      destruct (old_read_rc t) as [|data]; cbn [snd].
      * apply old_with_turn0; [| |left; reflexivity].
        -- eapply evolves_trans; [exact E01|apply evolves_say].
        -- eapply calls_only_trans; [exact C01|apply calls_only_say].
      * destruct (firstn (Z.to_nat 8192) data) as [|c d] eqn:Ed; cbn [snd].
        -- apply old_with_turn0; [| |left; reflexivity];
             destruct (old_wlen s <? Z.of_nat (length (in_data s)));
             try assumption.
           eapply evolves_trans; [exact E01|apply evolves_say].
        -- eapply turn_ok_trans;
             [|apply old_filter_write_turn; cbn; exact Hw].
           apply old_with_turn; [exact E01|exact C01|left; reflexivity].
    + eapply turn_ok_trans; [|apply old_filter_write_turn; cbn; exact Hw].
      apply old_with_turn0; [exact E0|exact C0|left; reflexivity].
Qed.

Lemma old_filter_loop_turn r0 w0 ticks :
  forall s s',
    rfd s = r0 -> wfd s = w0 \/ wfd s < 0 ->
    old_filter_loop ticks s = Ok s' -> turn_ok r0 w0 s s'.
Proof.
  induction ticks as [|t ticks IH]; intros s s' Hr Hw H; cbn in H;
    [discriminate H|].
  pose proof (old_filter_step_turn r0 w0 t s Hr Hw) as T.
  destruct (old_filter_step t s) as [[|] s1]; cbn [snd] in T.
  - eapply turn_ok_trans; [exact T|]. apply IH; [| |exact H].
    + destruct T as (_ & _ & R & _). congruence.
    + destruct T as (_ & _ & _ & _ & [W|W] & _); [rewrite W; exact Hw|].
      right. rewrite W. lia.
  - injection H as <-. exact T.
Qed.

Lemma old_filter_world r0 w0 input ticks w o ol w' :
  old_filter r0 w0 input ticks w = Ok (o, ol, w') ->
  evolves [w0] w w' /\ calls_only (filter_event r0 w0) w w'
  /\ exists b, (o, ol) = match b with
                         | [] => (None, 0)
                         | _ :: _ => (Some b, Z.of_nat (length b))
                         end.
Proof.
  intros H. unfold old_filter in H.
  set (st := match input with
             | [] => (-1, snd (xclose w0 w))
             | _ :: _ => (w0, w)
             end) in *.
  assert (Hst : evolves [w0] w (snd st)
                /\ calls_only (filter_event r0 w0) w (snd st)
                /\ (fst st = w0 \/ fst st < 0)).
  { subst st. destruct input; cbn [fst snd].
    - split; [apply evolves_xclose; cbn; auto|]. split; [|right; lia].
      apply calls_only_xclose. intros rc. cbn. apply Z.eqb_refl.
    - split; [apply evolves_refl|]. split; [apply calls_only_refl|auto]. }
  destruct st as [wf ws]. cbn [fst snd] in Hst. destruct Hst as (E0 & C0 & W0).
  match type of H with
  | (s <- ?m ;; _) = _ => destruct m as [s|e] eqn:El; [|discriminate H]
  end.
  cbn [bind] in H.
  apply old_filter_loop_turn with (r0 := r0) (w0 := w0) in El;
    [|reflexivity|exact W0].
  destruct El as (E1 & C1 & _).
  cbn [oworld] in E1, C1.
  assert (Ew : evolves [w0] w (oworld s)) by (eapply evolves_trans; eassumption).
  assert (Cw : calls_only (filter_event r0 w0) w (oworld s))
    by (eapply calls_only_trans; eassumption).
  split; [|split].
  - destruct (buf s); injection H as _ _ <-; exact Ew.
  - destruct (buf s); injection H as _ _ <-; exact Cw.
  - exists (buf s). destruct (buf s); injection H as <- <- _; reflexivity.
Qed.

(** X25. filter of the older spawn.c touches only the two descriptors it
    was given: every call it makes is a select, a read of rfd, a write to
    wfd or a close of wfd; no descriptor other than wfd is closed; and out
    is NULL with out_len 0 when nothing was read, otherwise out holds
    out_len > 0 bytes. *)
Theorem old_filter_uses_only_rfd_and_wfd :
  forall r0 w0 input ticks w o ol w',
    old_filter r0 w0 input ticks w = Ok (o, ol, w') ->
    evolves [w0] w w'
    /\ calls_only (filter_event r0 w0) w w'
    /\ match o with
       | None => ol = 0
       | Some b => 0 < ol /\ ol = Z.of_nat (length b)
       end.
Proof.
  intros r0 w0 input ticks w o ol w' H.
  apply old_filter_world in H. destruct H as (E & C & b & Hb).
  split; [exact E|]. split; [exact C|].
  destruct b as [|c b]; injection Hb as -> ->; [reflexivity|].
  split; [|reflexivity]. cbn [length]. lia.
Qed.

(** *** [spawn_filter] *)

Lemma filter_error_owns L w0 a b c d e w :
  ~ In a (open_fds w0) -> ~ In b (open_fds w0) -> ~ In c (open_fds w0) ->
  ~ In d (open_fds w0) -> ~ In e (open_fds w0) ->
  owns L w0 w -> owns L w0 (filter_error a b c d e w).
Proof.
  intros. unfold filter_error. repeat apply owns_xclose; assumption.
Qed.

Lemma filter_error_closed a b c d e w x :
  In x [a; b; c; d; e] -> ~ In x (open_fds (filter_error a b c d e w)).
Proof.
  unfold filter_error. intros [<-|[<-|[<-|[<-|[<-|[]]]]]].
  - do 4 apply closed_after. apply not_open_after_xclose.
  - do 3 apply closed_after. apply not_open_after_xclose.
  - do 2 apply closed_after. apply not_open_after_xclose.
  - apply closed_after. apply not_open_after_xclose.
  - apply not_open_after_xclose.
Qed.

Lemma cct_filter_error a b c d e w :
  child_controls_terminal (filter_error a b c d e w)
  = child_controls_terminal w.
Proof. unfold filter_error. rewrite !cct_xclose. reflexivity. Qed.

(** X26. spawn_filter of the older spawn.c returns 0 exactly when both
    pipes, /dev/null and the fork succeeded and the child's status is 0,
    and -1 otherwise: an error that filter reported (select, read, write,
    input left unread) does not change the result.  When the child was not
    started, out is NULL and out_len is 0. *)
Theorem spawn_filter_result :
  forall orc data w rc data' w',
    spawn_filter orc data w = Ok (rc, data', w') ->
    (rc = 0 \/ rc = -1)
    /\ (rc = 0 <->
        p0_ok orc && p1_ok orc && fnull_ok orc && ffork_ok orc = true
        /\ fwait_status orc = 0)
    /\ fin data' = fin data
    /\ (p0_ok orc && p1_ok orc && fnull_ok orc && ffork_ok orc = false ->
        out data' = None /\ out_len data' = 0).
Proof.
  intros orc data w rc data' w' H. unfold spawn_filter in H.
  assert (Hfail : forall (c : bool) (d : filter_data),
             c = false ->
             (-1, {| fin := fin data; out := None; out_len := 0 |}) = (rc, d) ->
             (rc = 0 \/ rc = -1)
             /\ (rc = 0 <-> c = true /\ fwait_status orc = 0)
             /\ fin d = fin data
             /\ (c = false -> out d = None /\ out_len d = 0)).
  { intros c d -> E. injection E as <- <-. cbn.
    split; [right; reflexivity|]. split; [|auto].
    split; [discriminate|intros [? _]; discriminate]. }
  destruct (p0_ok orc).
  2:{ cbn [pipe_cloexec] in H. cbv zeta in H.
      injection H as <- <- <-. eapply Hfail; reflexivity. }
  destruct (pipe_cloexec_owns [] w w (owns_refl w))
    as (a & b & w1 & Eo & _ & _ & _ & _ & O1 & _).
  rewrite Eo in H; clear Eo.
  destruct (p1_ok orc).
  2:{ cbn [pipe_cloexec] in H. cbv zeta in H.
      injection H as <- <- <-. eapply Hfail; reflexivity. }
  destruct (pipe_cloexec_owns _ w w1 O1)
    as (c & d & w2 & Eo & _ & _ & _ & _ & O2 & _).
  rewrite Eo in H; clear Eo.
  destruct (fnull_ok orc).
  2:{ cbn [open_dev_null] in H. change (-1 <? 0) with true in H.
      cbv iota in H. injection H as <- <- <-. eapply Hfail; reflexivity. }
  destruct (open_dev_null_owns _ w w2 O2) as (n & w3 & Eo & Pn & _).
  rewrite Eo in H; clear Eo.
  destruct (Z.ltb_spec n 0); [lia|].
  destruct (ffork_ok orc); cbn [negb andb] in *.
  2:{ cbv zeta in H. injection H as <- <- <-. eapply Hfail; reflexivity. }
  clear Hfail. cbv zeta in H.
  match type of H with
  | (r <- ?m ;; _) = _ => destruct m as [[[o ol] wf]|e] eqn:Ef; [|discriminate H]
  end.
  cbn [bind] in H.
  match type of H with
  | context [handle_child_error ?s ?x] =>
      pose proof (old_handle_child_error_fst s x) as Hs;
      destruct (handle_child_error s x) as [st wh]
  end.
  cbn [fst] in Hs. subst st. unfold truthy in H.
  destruct (Z.eqb_spec (fwait_status orc) 0) as [E|E]; cbn [negb] in H;
    injection H as <- <- _; cbn [fin out out_len].
  - split; [left; reflexivity|]. split; [tauto|]. split; [reflexivity|].
    discriminate.
  - split; [right; reflexivity|]. split; [|split; [reflexivity|discriminate]].
    split; [discriminate|]. intros [_ ?]. contradiction.
Qed.

(** X27. On every path on which spawn_filter of the older spawn.c returns,
    the descriptors open are exactly those that were open when it was
    called (no negative number being an open descriptor): both ends of both
    pipes and /dev/null have been closed, and nothing of the caller's.
    child_controls_terminal is left as it was. *)
Theorem spawn_filter_leaves_no_descriptor :
  forall orc data w rc data' w',
    forallb (Z.leb 0) (open_fds w) = true ->
    spawn_filter orc data w = Ok (rc, data', w') ->
    (forall x, In x (open_fds w') <-> In x (open_fds w))
    /\ child_controls_terminal w' = child_controls_terminal w.
Proof.
  intros orc data w rc data' w' Hpos H.
  assert (Hm : ~ In (-1) (open_fds w)).
  { intros Hin. rewrite forallb_forall in Hpos. apply Hpos in Hin.
    apply Z.leb_le in Hin. lia. }
  unfold spawn_filter in H.
  destruct (p0_ok orc).
  2:{ cbn [pipe_cloexec] in H. cbv zeta in H. injection H as _ _ <-.
      rewrite cct_filter_error. split; [|reflexivity].
      apply owns_done with (L := []); [|intros x []].
      apply filter_error_owns; try assumption.
      apply (owns_same [] w w); [reflexivity|apply owns_refl]. }
  destruct (pipe_cloexec_owns [] w w (owns_refl w))
    as (a & b & w1 & Eo & _ & _ & Fa & Fb & O1 & C1).
  rewrite Eo in H; clear Eo.
  destruct (p1_ok orc).
  2:{ cbn [pipe_cloexec] in H. cbv zeta in H. injection H as _ _ <-.
      rewrite cct_filter_error. split; [|exact C1].
      apply owns_done with (L := [b; a]).
      - apply filter_error_owns; assumption.
      - intros x Hx. apply filter_error_closed. cbn in *. tauto. }
  destruct (pipe_cloexec_owns _ w w1 O1)
    as (c & d & w2 & Eo & _ & _ & Fc & Fd & O2 & C2).
  rewrite Eo in H; clear Eo.
  destruct (fnull_ok orc).
  2:{ cbn [open_dev_null] in H. change (-1 <? 0) with true in H.
      cbv iota in H. injection H as _ _ <-.
      rewrite cct_filter_error. split; [|cbn; congruence].
      apply owns_done with (L := [d; c; b; a]).
      - apply filter_error_owns; assumption.
      - intros x Hx. apply filter_error_closed. cbn in *. tauto. }
  destruct (open_dev_null_owns _ w w2 O2) as (n & w3 & Eo & Pn & Fn & _ & O3 & C3).
  rewrite Eo in H; clear Eo.
  destruct (Z.ltb_spec n 0); [lia|].
  destruct (ffork_ok orc); cbn [negb] in H.
  2:{ cbv zeta in H. injection H as _ _ <-.
      rewrite cct_filter_error. split; [|cbn; congruence].
      apply owns_done with (L := [n; d; c; b; a]).
      - apply filter_error_owns; assumption.
      - intros x Hx. apply filter_error_closed. cbn in *. tauto. }
  cbv zeta in H.
  match type of H with
  | (r <- old_filter _ _ _ _ ?x ;; _) = _ => set (wa := x) in *
  end.
  destruct (old_filter c b (fin {| fin := fin data; out := None; out_len := 0 |})
                       (fticks orc) wa) as [[[o ol] wf]|e] eqn:Ef;
    [|discriminate H].
  cbn [bind] in H.
  apply old_filter_world in Ef. destruct Ef as (Ef & _).
  set (wb := snd (xclose b (snd (xclose c wf)))) in *.
  pose proof (old_handle_child_error_evolves [] (fwait_status orc) wb) as Eh.
  destruct (handle_child_error (fwait_status orc) wb) as [st wh].
  cbn [snd] in Eh.
  assert (Hw : w' = wh) by (destruct (truthy st); injection H as _ _ <-; reflexivity).
  subst w'. clear H.
  assert (Oa : owns [n; d; c; b; a] w wa).
  { unfold wa. repeat apply owns_xclose; assumption. }
  assert (Na : ~ In n (open_fds wa) /\ ~ In a (open_fds wa)
               /\ ~ In d (open_fds wa)).
  { unfold wa. repeat split.
    - do 2 apply closed_after. apply not_open_after_xclose.
    - apply closed_after. apply not_open_after_xclose.
    - apply not_open_after_xclose. }
  destruct Na as (Nn & Na & Nd).
  split.
  - apply owns_done with (L := [n; d; c; b; a]).
    + eapply owns_evolves; [|exact Eh|]; [intros x []|].
      unfold wb. repeat apply owns_xclose; try assumption.
      eapply owns_evolves; [|exact Ef|exact Oa].
      intros x [<-|[]]. exact Fb.
    + intros x Hx. eapply evolves_not_open; [exact Eh|]. unfold wb.
      destruct Hx as [<-|[<-|[<-|[<-|[<-|[]]]]]].
      * do 2 apply closed_after. eapply evolves_not_open; eassumption.
      * do 2 apply closed_after. eapply evolves_not_open; eassumption.
      * apply closed_after. apply not_open_after_xclose.
      * apply not_open_after_xclose.
      * do 2 apply closed_after. eapply evolves_not_open; eassumption.
  - destruct Eh as (_ & Ec1 & _). rewrite Ec1. unfold wb.
    rewrite !cct_xclose.
    destruct Ef as (_ & Ec2 & _). rewrite Ec2. unfold wa.
    rewrite !cct_xclose. cbn.
    congruence.
Qed.

(** *** [spawn] *)

Lemma same_open_evolves w w' :
  evolves [] w w' -> forall x, In x (open_fds w') <-> In x (open_fds w).
Proof.
  intros (_ & _ & I & K) x. split; [apply I|]. intros H. apply K; auto.
Qed.

Lemma redirect_keep n i idxs fd dn rc w v :
  nth_error fd i = Some v -> (0 <=? v) = true ->
  redirect_fds n (i :: idxs) fd dn rc w = redirect_fds n idxs fd dn rc w.
Proof. intros E H. cbn [redirect_fds]. rewrite E, H. reflexivity. Qed.

Lemma redirect_again n i idxs fd dn rc w v :
  nth_error fd i = Some v -> (0 <=? v) = false -> (dn <? 0) = false ->
  redirect_fds n (i :: idxs) fd dn rc w
  = redirect_fds n idxs (replace_nth i dn fd) dn (rc + 1) w.
Proof. intros E H D. cbn [redirect_fds]. rewrite E, H, D, D. reflexivity. Qed.

Lemma lowest_free_nonneg w : (lowest_free w <? 0) = false.
Proof.
  apply Z.ltb_ge. apply (lowest_free_fresh (open_fds w) w eq_refl).
Qed.

Lemma redirect_first i idxs fd dn rc w v :
  nth_error fd i = Some v -> (0 <=? v) = false -> (dn <? 0) = true ->
  redirect_fds true (i :: idxs) fd dn rc w
  = redirect_fds true idxs (replace_nth i (lowest_free w) fd) (lowest_free w)
                 (rc + 1) (snd (open_dev_null true w)).
Proof.
  intros E H D. cbn [redirect_fds]. rewrite E, H, D.
  cbn [open_dev_null snd]. rewrite lowest_free_nonneg. reflexivity.
Qed.

Lemma redirect_fail i idxs fd dn rc w v :
  nth_error fd i = Some v -> (0 <=? v) = false -> (dn <? 0) = true ->
  redirect_fds false (i :: idxs) fd dn rc w
  = Ok (false, fd, -1, rc, say (error_msg "Error opening /dev/null") w).
Proof.
  intros E H D. cbn [redirect_fds]. rewrite E, H, D. reflexivity.
Qed.

(* spawn once the loop over fd[] is through *)
Lemma spawn_after_redirect fd prompt orc w fd1 dn rc w1 :
  redirect_fds (snull_ok orc) [0%nat; 1%nat; 2%nat] fd (-1) 0 w
  = Ok (true, fd1, dn, rc, w1) ->
  exists w',
    spawn fd prompt orc w = Ok (fd1, w')
    /\ (forall x, In x (open_fds w') <->
                  In x (open_fds w1) /\ (0 <= dn -> x <> dn))
    /\ (child_controls_terminal w1 = false ->
        child_controls_terminal w' = false).
Proof.
  intros H. unfold spawn. rewrite H. cbn [bind negb]. cbv zeta.
  set (q := if rc =? 3 then 1 else 0).
  set (wf := log (EvFork (firstn 3 fd1)) (give_terminal q w1)).
  assert (Hc : forall pr wc,
             evolves [] wf wc ->
             (forall x, In x (open_fds (take_terminal q pr wc)) <->
                        In x (open_fds w1))
             /\ (child_controls_terminal w1 = false ->
                 child_controls_terminal (take_terminal q pr wc) = false)).
  { intros pr wc E. split.
    - intros x. rewrite open_fds_take, (same_open_evolves _ _ E).
      unfold wf. cbn [open_fds log]. rewrite open_fds_give. reflexivity.
    - intros Hc. apply cct_take. intros Hq. destruct E as (_ & -> & _).
      unfold wf. cbn [child_controls_terminal log].
      rewrite cct_give by exact Hq. exact Hc. }
  assert (Hfin : forall pr wc,
             evolves [] wf wc ->
             exists w',
               Ok (fd1, if 0 <=? dn
                        then snd (xclose dn (take_terminal q pr wc))
                        else take_terminal q pr wc) = Ok (fd1, w')
               /\ (forall x, In x (open_fds w') <->
                             In x (open_fds w1) /\ (0 <= dn -> x <> dn))
               /\ (child_controls_terminal w1 = false ->
                   child_controls_terminal w' = false)).
  { intros pr wc E. destruct (Hc pr wc E) as [I C].
    eexists. split; [reflexivity|].
    destruct (Z.leb_spec 0 dn) as [P|P].
    - rewrite cct_xclose. split; [|exact C].
      intros x. rewrite In_open_fds_xclose, I. tauto.
    - split; [|exact C]. intros x. rewrite I. split; [|tauto].
      intros Hx. split; [exact Hx|]. lia. }
  destruct (sfork_ok orc); cbn [negb].
  - apply Hfin. apply old_handle_child_error_evolves.
  - apply Hfin. apply evolves_say.
Qed.

(** X28. spawn of the older spawn.c, given the three entries of fd[],
    always returns.  It overwrites every negative entry of the caller's
    fd[] with the descriptor of /dev/null, which it opens at most once and
    has closed again when it returns: afterwards those entries name a
    descriptor that is not open.  The descriptors open on return are those
    open at the call; when /dev/null cannot be opened fd[] is unchanged. *)
Theorem old_spawn_leaves_a_closed_descriptor_in_fd :
  forall fd prompt orc w,
    length fd = 3%nat ->
    exists fd' w',
      spawn fd prompt orc w = Ok (fd', w')
      /\ (forall x, In x (open_fds w') <-> In x (open_fds w))
      /\ ~ In (lowest_free w) (open_fds w')
      /\ (if snull_ok orc
          then fd' = map (fun v => if v <? 0 then lowest_free w else v) fd
          else fd' = fd)
      /\ (child_controls_terminal w = false ->
          child_controls_terminal w' = false).
Proof.
  intros fd prompt orc w Hlen.
  destruct fd as [|a [|b [|c [|]]]]; try discriminate. clear Hlen.
  destruct (lowest_free_fresh (open_fds w) w eq_refl) as [Pd Fd].
  pose proof (lowest_free_nonneg w) as Hd.
  assert (Hgoal : forall fd1 dn rc w1,
             redirect_fds (snull_ok orc) [0%nat; 1%nat; 2%nat] [a; b; c] (-1) 0 w
             = Ok (true, fd1, dn, rc, w1) ->
             (dn = -1 /\ w1 = w
              \/ dn = lowest_free w /\ w1 = snd (open_dev_null true w)) ->
             (if snull_ok orc
              then fd1 = map (fun v => if v <? 0 then lowest_free w else v)
                             [a; b; c]
              else fd1 = [a; b; c]) ->
             exists fd' w',
               spawn [a; b; c] prompt orc w = Ok (fd', w')
               /\ (forall x, In x (open_fds w') <-> In x (open_fds w))
               /\ ~ In (lowest_free w) (open_fds w')
               /\ (if snull_ok orc
                   then fd' = map (fun v => if v <? 0 then lowest_free w else v)
                                  [a; b; c]
                   else fd' = [a; b; c])
               /\ (child_controls_terminal w = false ->
                   child_controls_terminal w' = false)).
  { intros fd1 dn rc w1 H Hw Hf.
    destruct (spawn_after_redirect _ prompt _ _ _ _ _ _ H) as (w' & E & I & C).
    exists fd1, w'. split; [exact E|].
    assert (Hi : forall x, In x (open_fds w') <-> In x (open_fds w)).
    { intros x. rewrite I. destruct Hw as [[-> ->]|[-> ->]].
      - split; [tauto|]. intros Hx. split; [exact Hx|]. lia.
      - cbn [open_dev_null snd open_fds log set_open_fds]. split.
        + intros [[<-|Hx] Hn]; [exfalso; apply Hn; [exact Pd|reflexivity]|].
          exact Hx.
        + intros Hx. split; [right; exact Hx|]. intros _ ->. contradiction. }
    split; [exact Hi|]. split; [rewrite Hi; exact Fd|]. split; [exact Hf|].
    intros Hc. apply C. destruct Hw as [[_ ->]|[_ ->]]; exact Hc. }
  destruct (snull_ok orc) eqn:En.
  - (* /dev/null can be opened *)
    destruct (0 <=? a) eqn:Ea; destruct (0 <=? b) eqn:Eb;
      destruct (0 <=? c) eqn:Ec;
      (eapply Hgoal;
       [ repeat first
           [ erewrite redirect_keep by (first [reflexivity|eassumption])
           | erewrite redirect_again
               by (first [reflexivity|eassumption])
           | erewrite redirect_first
               by (first [reflexivity|eassumption]) ];
         cbn [redirect_fds replace_nth]; reflexivity
       | first [left; split; reflexivity|right; split; reflexivity]
       | cbn [map];
         repeat match goal with
                | H : (0 <=? ?v) = true |- _ =>
                    apply Z.leb_le in H;
                    assert ((v <? 0) = false) as -> by (apply Z.ltb_ge; exact H)
                | H : (0 <=? ?v) = false |- _ =>
                    apply Z.leb_gt in H;
                    assert ((v <? 0) = true) as -> by (apply Z.ltb_lt; exact H)
                end;
         reflexivity ]).
  - (* /dev/null cannot be opened *)
    destruct (0 <=? a) eqn:Ea; [destruct (0 <=? b) eqn:Eb;
      [destruct (0 <=? c) eqn:Ec|]|].
    + eapply Hgoal;
        [ repeat erewrite redirect_keep by (first [reflexivity|eassumption]);
          cbn [redirect_fds]; reflexivity
        | left; split; reflexivity | reflexivity ].
    + exists [a; b; c], (say (error_msg "Error opening /dev/null") w).
      split; [|split; [intros x; reflexivity|]; split; [exact Fd|];
                split; [reflexivity|intros Hc; exact Hc]].
      unfold spawn. rewrite En.
      repeat erewrite redirect_keep by (first [reflexivity|eassumption]).
      erewrite redirect_fail by (first [reflexivity|eassumption]).
      reflexivity.
    + exists [a; b; c], (say (error_msg "Error opening /dev/null") w).
      split; [|split; [intros x; reflexivity|]; split; [exact Fd|];
                split; [reflexivity|intros Hc; exact Hc]].
      unfold spawn. rewrite En.
      repeat erewrite redirect_keep by (first [reflexivity|eassumption]).
      erewrite redirect_fail by (first [reflexivity|eassumption]).
      reflexivity.
    + exists [a; b; c], (say (error_msg "Error opening /dev/null") w).
      split; [|split; [intros x; reflexivity|]; split; [exact Fd|];
                split; [reflexivity|intros Hc; exact Hc]].
      unfold spawn. rewrite En.
      erewrite redirect_fail by (first [reflexivity|eassumption]).
      reflexivity.
Qed.

(** *** [spawn_compiler] *)

Section Compiler.

Variable regex : Type.
Variable Msg : Type.
Variable MessageStore : Type.
Variable regexp_match : regex -> list Z -> Z -> option (list (list Z)).
Variable new_message : list Z -> Msg.
Variable atoi : list Z -> Z.
Variable add_message : MessageStore -> Message Msg -> MessageStore.

Local Abbreviation handle_error_msg :=
  (handle_error_msg regex Msg MessageStore regexp_match new_message atoi
                    add_message).
Local Abbreviation read_errors_loop :=
  (read_errors_loop regex Msg MessageStore regexp_match new_message atoi
                    add_message).
Local Abbreviation read_errors :=
  (read_errors regex Msg MessageStore regexp_match new_message atoi
               add_message).
Local Abbreviation spawn_compiler :=
  (spawn_compiler regex Msg MessageStore regexp_match new_message atoi
                  add_message).

Lemma old_read_errors_loop_evolves D c quiet lines :
  forall store w store' w',
    read_errors_loop c quiet lines store w = Ok (store', w') -> evolves D w w'.
Proof.
  induction lines as [|l lines IH]; intros store w store' w' H; cbn in H.
  - injection H as _ <-. apply evolves_refl.
  - destruct (handle_error_msg c store l) as [s1|e]; [|discriminate H].
    cbn in H. apply IH in H. destruct (truthy quiet); [exact H|].
    eapply evolves_trans; [apply evolves_log|exact H].
Qed.

Lemma old_read_errors_evolves c store fd quiet ok lines w store' w' :
  read_errors c store fd quiet ok lines w = Ok (store', w') ->
  evolves [fd] w w'.
Proof.
  unfold OldSpawn.read_errors. destruct ok; cbn [negb]; intros H.
  - destruct (read_errors_loop c quiet lines store w) as [[s1 w1]|e] eqn:El;
      [|discriminate H].
    cbn in H. injection H as _ <-.
    eapply evolves_trans; [eapply old_read_errors_loop_evolves; exact El|].
    apply evolves_xclose. cbn. auto.
  - injection H as _ <-. apply evolves_refl.
Qed.

(** X29. On every path on which spawn_compiler of the older spawn.c
    returns, the descriptors open are exactly those open when it was
    called: /dev/null and both ends of the pipe have been closed, whether
    pipe or fork failed or the compiler ran; and child_controls_terminal is
    false afterwards if it was false before. *)
Theorem old_spawn_compiler_leaves_no_descriptor :
  forall flags c orc store w store' w',
    spawn_compiler flags c orc store w = Ok (store', w') ->
    (forall x, In x (open_fds w') <-> In x (open_fds w))
    /\ (child_controls_terminal w = false ->
        child_controls_terminal w' = false).
Proof.
  intros flags c orc store w store' w' H.
  unfold OldSpawn.spawn_compiler in H. cbv zeta in H.
  destruct (cnull_ok orc).
  2:{ cbn in H. injection H as _ <-. cbn. split; [reflexivity|auto]. }
  destruct (open_dev_null_owns [] w w (owns_refl w))
    as (n & w1 & Eo & Pn & Fn & _ & O1 & C1).
  rewrite Eo in H; clear Eo.
  destruct (Z.ltb_spec n 0); [lia|].
  destruct (cpipe_ok orc).
  2:{ cbn [pipe_cloexec] in H. injection H as _ <-. rewrite cct_xclose.
      split; [|cbn; congruence].
      apply owns_done with (L := [n]).
      - apply owns_xclose; assumption.
      - intros x [<-|[]]. apply not_open_after_xclose. }
  destruct (pipe_cloexec_owns _ w w1 O1)
    as (a & b & w2 & Eo & _ & _ & Fa & Fb & O2 & C2).
  rewrite Eo in H; clear Eo.
  set (quiet := Z.land flags SPAWN_QUIET) in *.
  match type of H with
  | context [log (EvFork ?l) _] => set (wf := log (EvFork l) (give_terminal quiet w2)) in *
  end.
  assert (Of : owns [b; a; n] w wf).
  { eapply owns_same; [|exact O2]. unfold wf. cbn [open_fds log].
    apply open_fds_give. }
  match type of H with
  | (r <- ?m ;; _) = _ =>
      assert (Hm : forall s p wx, m = Ok (s, p, wx) ->
                     evolves [b; a] wf wx /\ ~ In b (open_fds wx))
  end.
  { intros s p wx Hm. destruct (cfork_ok orc); cbn [negb] in Hm.
    - destruct (read_errors c store a quiet (fdopen_ok orc) (stderr_lines orc)
                            (snd (xclose b wf))) as [[s1 wr]|e] eqn:Er;
        [|discriminate Hm].
      cbn [bind] in Hm. injection Hm as _ _ <-.
      apply old_read_errors_evolves in Er.
      pose proof (old_handle_child_error_evolves [b; a] (cwait_status orc) wr) as Eh.
      split.
      + eapply evolves_trans; [apply (evolves_xclose [b; a] b); cbn; auto|].
        eapply evolves_trans; [|exact Eh].
        eapply evolves_mono; [|exact Er]. intros x [<-|[]]. cbn. auto.
      + eapply evolves_not_open; [exact Eh|].
        eapply evolves_not_open; [exact Er|]. apply not_open_after_xclose.
    - injection Hm as _ _ <-. split.
      + eapply evolves_trans; [apply evolves_say|].
        apply evolves_xclose. cbn. auto.
      + apply not_open_after_xclose. }
  match type of H with
  | (r <- ?m ;; _) = _ => destruct m as [[[s p] wx]|e]; [|discriminate H]
  end.
  destruct (Hm s p wx eq_refl) as [Ex Nb]. clear Hm.
  cbn [bind] in H. injection H as _ <-. split.
  - apply owns_done with (L := [b; a; n]).
    + repeat apply owns_xclose; try assumption.
      eapply owns_same; [apply open_fds_take|].
      eapply owns_evolves; [|exact Ex|exact Of].
      intros x [<-|[<-|[]]]; assumption.
    + intros x [<-|[<-|[<-|[]]]].
      * do 2 apply closed_after.
        eapply closed_same; [apply open_fds_take|exact Nb].
      * apply closed_after. apply not_open_after_xclose.
      * apply not_open_after_xclose.
  - intros Hc. rewrite !cct_xclose. apply cct_take. intros Hq.
    destruct Ex as (_ & -> & _). unfold wf.
    cbn [child_controls_terminal log]. rewrite cct_give by exact Hq.
    congruence.
Qed.

End Compiler.

(** *** [handle_error_msg] *)

(** X30. The first loop of handle_error_msg of the older spawn.c leaves
    the line cut before its first newline, with every tab before that
    turned into a space and every other byte as it was: the text matched
    against the error formats holds neither a tab nor a newline. *)
Theorem old_handle_error_msg_cleans_the_line :
  forall str,
    (length (clean_line str) <= length str)%nat
    /\ ~ In 9 (clean_line str) /\ ~ In 10 (clean_line str)
    /\ (forall k, (k < length (clean_line str))%nat ->
        nth k str 0 <> 10
        /\ nth k (clean_line str) 0
           = if nth k str 0 =? 9 then 32 else nth k str 0)
    /\ ((length (clean_line str) < length str)%nat ->
        nth (length (clean_line str)) str 0 = 10).
Proof.
  induction str as [|ch rest (L & T & N & K & E)]; cbn [clean_line].
  - cbn. split; [lia|]. split; [tauto|]. split; [tauto|].
    split; intros; lia.
  - destruct (Z.eqb_spec ch 10) as [->|Hn].
    + cbn. split; [lia|]. split; [tauto|]. split; [tauto|].
      split; [intros; lia|reflexivity].
    + cbn [length nth In]. split; [lia|]. split; [|split; [|split]].
      * intros [H|H]; [|contradiction].
        destruct (Z.eqb_spec ch 9); lia.
      * intros [H|H]; [|contradiction].
        destruct (Z.eqb_spec ch 9); lia.
      * intros [|k] Hk; [split; [exact Hn|reflexivity]|].
        apply K. lia.
      * intros H. apply E. lia.
Qed.

Lemma old_filter_uses_only_rfd_and_wfd_witness :
  exists o ol w',
    old_filter 5 4 [1; 2; 3] [SpawnDemo.old_both_ready; SpawnDemo.old_eof_tick]
               (oworld SpawnDemo.old_pipes_open) = Ok (o, ol, w')
    /\ evolves [4] (oworld SpawnDemo.old_pipes_open) w'
    /\ calls_only (filter_event 5 4) (oworld SpawnDemo.old_pipes_open) w'
    /\ match o with
       | None => ol = 0
       | Some b => 0 < ol /\ ol = Z.of_nat (length b)
       end.
Proof.
  destruct (old_filter 5 4 [1; 2; 3]
                       [SpawnDemo.old_both_ready; SpawnDemo.old_eof_tick]
                       (oworld SpawnDemo.old_pipes_open))
    as [[[o ol] w']|e] eqn:E; [|vm_compute in E; discriminate E].
  exists o, ol, w'. split; [reflexivity|].
  exact (old_filter_uses_only_rfd_and_wfd 5 4 [1; 2; 3]
           [SpawnDemo.old_both_ready; SpawnDemo.old_eof_tick]
           (oworld SpawnDemo.old_pipes_open) o ol w' E).
Defined.

Lemma spawn_filter_result_witness :
  exists rc data' w',
    spawn_filter OldSpawnDemo.filter_runs OldSpawnDemo.three_bytes
                 SpawnDemo.world0 = Ok (rc, data', w')
    /\ (rc = 0 \/ rc = -1)
    /\ (rc = 0 <->
        p0_ok OldSpawnDemo.filter_runs && p1_ok OldSpawnDemo.filter_runs
        && fnull_ok OldSpawnDemo.filter_runs
        && ffork_ok OldSpawnDemo.filter_runs = true
        /\ fwait_status OldSpawnDemo.filter_runs = 0).
Proof.
  destruct (spawn_filter OldSpawnDemo.filter_runs OldSpawnDemo.three_bytes
                         SpawnDemo.world0)
    as [[[rc data'] w']|e] eqn:E; [|vm_compute in E; discriminate E].
  exists rc, data', w'. split; [reflexivity|].
  destruct (spawn_filter_result OldSpawnDemo.filter_runs
              OldSpawnDemo.three_bytes SpawnDemo.world0 rc data' w' E)
    as (H1 & H2 & _).
  split; assumption.
Defined.

Lemma spawn_filter_leaves_no_descriptor_witness :
  exists rc data' w',
    spawn_filter OldSpawnDemo.filter_runs OldSpawnDemo.three_bytes
                 SpawnDemo.world0 = Ok (rc, data', w')
    /\ (forall x, In x (open_fds w') <-> In x (open_fds SpawnDemo.world0))
    /\ child_controls_terminal w'
       = child_controls_terminal SpawnDemo.world0.
Proof.
  destruct (spawn_filter OldSpawnDemo.filter_runs OldSpawnDemo.three_bytes
                         SpawnDemo.world0)
    as [[[rc data'] w']|e] eqn:E; [|vm_compute in E; discriminate E].
  exists rc, data', w'. split; [reflexivity|].
  exact (spawn_filter_leaves_no_descriptor OldSpawnDemo.filter_runs
           OldSpawnDemo.three_bytes SpawnDemo.world0 rc data' w'
           eq_refl E).
Defined.

Lemma old_spawn_compiler_leaves_no_descriptor_witness :
  exists store' w',
    OldSpawnDemo.spawn_compiler 0 OldSpawnDemo.cc OldSpawnDemo.compiler_runs []
                                SpawnDemo.world0 = Ok (store', w')
    /\ (forall x, In x (open_fds w') <-> In x (open_fds SpawnDemo.world0))
    /\ (child_controls_terminal SpawnDemo.world0 = false ->
        child_controls_terminal w' = false).
Proof.
  destruct (OldSpawnDemo.spawn_compiler 0 OldSpawnDemo.cc
              OldSpawnDemo.compiler_runs [] SpawnDemo.world0)
    as [[store' w']|e] eqn:E; [|vm_compute in E; discriminate E].
  exists store', w'. split; [reflexivity|].
  exact (old_spawn_compiler_leaves_no_descriptor
           OldSpawnDemo.regex OldSpawnDemo.Msg OldSpawnDemo.MessageStore
           OldSpawnDemo.regexp_match OldSpawnDemo.new_message
           OldSpawnDemo.atoi OldSpawnDemo.add_message
           0 OldSpawnDemo.cc OldSpawnDemo.compiler_runs [] SpawnDemo.world0
           store' w' E).
Defined.

Lemma old_spawn_leaves_a_closed_descriptor_in_fd_witness :
  length [-1; 1; -1] = 3%nat
  /\ exists fd' w',
       spawn [-1; 1; -1] 1 OldSpawnDemo.spawn_runs SpawnDemo.world0
       = Ok (fd', w')
       /\ (forall x, In x (open_fds w') <-> In x (open_fds SpawnDemo.world0))
       /\ ~ In (lowest_free SpawnDemo.world0) (open_fds w')
       /\ (if snull_ok OldSpawnDemo.spawn_runs
           then fd' = map (fun v => if v <? 0
                                    then lowest_free SpawnDemo.world0 else v)
                          [-1; 1; -1]
           else fd' = [-1; 1; -1])
       /\ (child_controls_terminal SpawnDemo.world0 = false ->
           child_controls_terminal w' = false).
Proof.
  split; [reflexivity|].
  exact (old_spawn_leaves_a_closed_descriptor_in_fd [-1; 1; -1] 1
           OldSpawnDemo.spawn_runs SpawnDemo.world0 eq_refl).
Defined.

End OldSpawnFacts.

(** ** The filter loop as a whole *)

Module FilterRunFacts.

Import Spawn SpawnFacts OldSpawn FilterRun.

(** *** A loop that counts what it writes *)

Section Loop.
Context {T S : Type}.
Variable step : T -> S -> loop_ctl * S.
Variable written : T -> S -> Z.
Variable loop : list T -> S -> res S.
Variable eof : T -> S -> bool.         (* the read of the turn returns 0 *)
Variable wl : S -> Z.                  (* wlen *)
Variable len : S -> Z.                 (* the length of the input *)
Variable ms : S -> list message.       (* the messages shown *)
Variable M : message.                  (* "Command did not read all data" *)

Hypothesis loop_eq : forall ticks s,
  loop ticks s = match ticks with
                 | [] => Err OutOfFuel
                 | t :: ticks' =>
                     match step t s with
                     | (Break, s') => Ok s'
                     | (Continue, s') => loop ticks' s'
                     end
                 end.
Hypothesis step_len : forall t s, len (snd (step t s)) = len s.
Hypothesis step_wl : forall t s,
  0 <= written t s <= len s - wl s ->
  wl (snd (step t s)) = wl s + written t s.
Hypothesis step_eof : forall t s, eof t s = true -> fst (step t s) = Break.
Hypothesis step_ms : forall t s,
  exists dm, ms (snd (step t s)) = ms s ++ dm
             /\ (In M dm <-> eof t s = true /\ wl s < len s).

Local Abbreviation turns := (turns step).
Local Abbreviation bytes_written := (bytes_written written).
Local Abbreviation writes_within := (writes_within written).

Lemma bytes_written_app r1 r2 :
  bytes_written (r1 ++ r2) = bytes_written r1 + bytes_written r2.
Proof.
  unfold FilterRun.bytes_written.
  induction r1 as [|ts r1 IH]; cbn [app fold_right]; [reflexivity|].
  rewrite IH. lia.
Qed.

(* wlen is what the writes so far have returned *)
Lemma turns_wlen ticks :
  forall s pre t s1 post,
    writes_within (len s) (wl s) (turns ticks s) = true ->
    turns ticks s = pre ++ (t, s1) :: post ->
    wl s1 = wl s + bytes_written pre /\ len s1 = len s
    /\ 0 <= written t s1 <= len s1 - wl s1.
Proof.
  induction ticks as [|t0 ticks IH]; intros s pre t s1 post Hw Hr;
    cbn [FilterRun.turns] in *.
  - destruct pre; discriminate Hr.
  - cbn [FilterRun.writes_within fst snd] in Hw.
    apply andb_prop in Hw. destruct Hw as [Hw Hrest].
    apply andb_prop in Hw. destruct Hw as [H0 H1].
    apply Z.leb_le in H0, H1.
    destruct pre as [|ts pre]; cbn [app] in Hr.
    + injection Hr as <- <- _. cbn. split; [lia|]. split; [reflexivity|lia].
    + injection Hr as <- Hr.
      pose proof (step_wl t0 s (conj H0 H1)) as Hwl.
      pose proof (step_len t0 s) as Hlen.
      destruct (step t0 s) as [[|] s2]; cbn [snd] in Hwl, Hlen.
      * rewrite <- Hlen, <- Hwl in Hrest.
        destruct (IH s2 pre t s1 post Hrest Hr) as (A & B & C).
        cbn [FilterRun.bytes_written fold_right fst snd].
        unfold FilterRun.bytes_written in A.
        split; [lia|]. split; [congruence|exact C].
      * destruct pre; discriminate Hr.
Qed.

(* the run ends with the turn that breaks *)
Lemma turns_break ticks :
  forall s pre t s1 post,
    turns ticks s = pre ++ (t, s1) :: post ->
    fst (step t s1) = Break ->
    post = [] /\ loop ticks s = Ok (snd (step t s1)).
Proof.
  induction ticks as [|t0 ticks IH]; intros s pre t s1 post Hr Hb;
    cbn [FilterRun.turns] in Hr.
  - destruct pre; discriminate Hr.
  - rewrite loop_eq. destruct pre as [|ts pre]; cbn [app] in Hr.
    + injection Hr as <- <- Hp. destruct (step t0 s) as [[|] s2]; cbn in Hb;
        [discriminate Hb|]. split; [symmetry; exact Hp|reflexivity].
    + injection Hr as <- Hr. destruct (step t0 s) as [[|] s2].
      * apply (IH s2 pre t s1 post Hr Hb).
      * destruct pre; discriminate Hr.
Qed.

(* a loop that returns has made a last turn, and the turns before it went on *)
Lemma loop_last ticks :
  forall s s',
    loop ticks s = Ok s' ->
    exists pre t s1,
      turns ticks s = pre ++ [(t, s1)]
      /\ step t s1 = (Break, s')
      /\ exists dm, ms s1 = ms s ++ dm /\ ~ In M dm.
Proof.
  induction ticks as [|t0 ticks IH]; intros s s' H; rewrite loop_eq in H;
    [discriminate H|].
  cbn [FilterRun.turns].
  destruct (step_ms t0 s) as (dm0 & Hm0 & Hi0).
  pose proof (step_eof t0 s) as He0.
  destruct (step t0 s) as [[|] s2] eqn:Es; cbn [snd fst] in *.
  - destruct (IH s2 s' H) as (pre & t & s1 & Hr & Hb & dm & Hm & Hn).
    exists ((t0, s) :: pre), t, s1. rewrite Hr. split; [reflexivity|].
    split; [exact Hb|]. exists (dm0 ++ dm).
    split; [rewrite Hm, Hm0; symmetry; apply app_assoc|].
    intros Hin. apply in_app_or in Hin. destruct Hin as [Hin|Hin]; [|auto].
    apply Hi0 in Hin. destruct Hin as [Hin _]. apply He0 in Hin.
    discriminate Hin.
  - injection H as <-. exists [], t0, s. split; [reflexivity|].
    split; [exact Es|]. exists []. split; [symmetry; apply app_nil_r|auto].
Qed.

Lemma new_messages s s1 s' dm1 dm2 :
  ms s1 = ms s ++ dm1 -> ms s' = ms s1 ++ dm2 ->
  skipn (length (ms s)) (ms s') = dm1 ++ dm2.
Proof.
  intros H1 H2. rewrite H2, H1, <- app_assoc. apply skipn_length_app.
Qed.

(* The message is shown exactly when a read returns 0 while less has been
   written than the input holds, and that turn is the last. *)
Lemma loop_reports_input_left ticks s :
  wl s = 0 ->
  writes_within (len s) 0 (turns ticks s) = true ->
  (forall pre t s1 post,
      turns ticks s = pre ++ (t, s1) :: post ->
      eof t s1 = true ->
      post = []
      /\ wl s1 = bytes_written pre
      /\ exists s',
           loop ticks s = Ok s'
           /\ (In M (skipn (length (ms s)) (ms s'))
               <-> bytes_written pre < len s))
  /\ (forall s',
      loop ticks s = Ok s' ->
      In M (skipn (length (ms s)) (ms s')) ->
      exists pre t s1,
        turns ticks s = pre ++ [(t, s1)]
        /\ eof t s1 = true
        /\ bytes_written pre < len s).
Proof.
  intros H0 Hw. rewrite <- H0 in Hw.
  assert (Hlast : forall s' pre t s1,
             loop ticks s = Ok s' ->
             turns ticks s = pre ++ [(t, s1)] ->
             s' = snd (step t s1)
             /\ wl s1 = bytes_written pre /\ len s1 = len s
             /\ (In M (skipn (length (ms s)) (ms s'))
                 <-> eof t s1 = true /\ wl s1 < len s1)).
  { intros s' pre t s1 Hl Hr.
    destruct (loop_last ticks s s' Hl) as (pre' & t' & s1' & Hr' & Hb & dm & Hm & Hn).
    rewrite Hr in Hr'. apply app_inj_tail in Hr'. destruct Hr' as [<- E1].
    injection E1 as <- <-.
    destruct (turns_wlen ticks s pre t s1 [] Hw Hr) as (A & B & _).
    split; [rewrite Hb; reflexivity|]. split; [lia|]. split; [exact B|].
    destruct (step_ms t s1) as (dm1 & Hm1 & Hi1).
    rewrite Hb in Hm1. cbn [snd] in Hm1.
    rewrite (new_messages s s1 s' dm dm1 Hm Hm1). rewrite <- Hi1. split.
    - intros Hin. apply in_app_or in Hin. destruct Hin; [contradiction|assumption].
    - intros Hin. apply in_or_app. right. exact Hin. }
  split.
  - intros pre t s1 post Hr He.
    destruct (turns_break ticks s pre t s1 post Hr (step_eof t s1 He)) as [-> Hl].
    destruct (Hlast _ pre t s1 Hl Hr) as (_ & A & B & C).
    split; [reflexivity|]. split; [exact A|].
    eexists. split; [exact Hl|]. rewrite C, A, B. tauto.
  - intros s' Hl Hin.
    destruct (loop_last ticks s s' Hl) as (pre & t & s1 & Hr & _).
    destruct (Hlast s' pre t s1 Hl Hr) as (_ & A & B & C).
    apply C in Hin. destruct Hin as [He Hlt].
    exists pre, t, s1. split; [exact Hr|]. split; [exact He|lia].
Qed.

End Loop.

(** *** The poll loop of filter *)

Local Abbreviation E := (error_msg "Command did not read all data").
Local Abbreviation E' := (error_msg "Command did not read all data.").

Lemma filter_tail_keeps r0 r1 s :
  wlen (snd (filter_tail r0 r1 s)) = wlen s
  /\ fctx (snd (filter_tail r0 r1 s)) = fctx s.
Proof.
  unfold filter_tail.
  destruct (retire (fd0 s) r0 2 (fworld s)) as [[f0 a1] w1].
  destruct (retire (fd1 s) r1 a1 w1) as [[f1 a2] w2].
  destruct (a2 =? 0); split; reflexivity.
Qed.

Lemma filter_write_io t r0 r1 s :
  exists dm dt,
    ext (fworld s) (fworld (snd (filter_write t r0 r1 s))) dm dt
    /\ io_order dt = (if has r1 POLLOUT then [Wr] else [])
    /\ fctx (snd (filter_write t r0 r1 s)) = fctx s
    /\ wlen (snd (filter_write t r0 r1 s))
       = wlen s + (if has r1 POLLOUT
                   then counted (write_rc t)
                          (Z.of_nat (length (input (fctx s))) - wlen s)
                   else 0).
Proof.
  unfold filter_write.
  destruct (has r1 POLLOUT).
  - pose proof (ext_log (EvWrite (fd1 s)) (fworld s)) as Hw.
    destruct (write_rc t) as [|n]; cbn [snd fworld fctx wlen counted].
    + exists ([] ++ [perror_msg "write"%string]), ([EvWrite (fd1 s)] ++ []).
      split; [eapply ext_trans; [exact Hw|apply ext_say]|].
      split; [reflexivity|]. split; [reflexivity|lia].
    + set (w := log (EvWrite (fd1 s)) (fworld s)) in *.
      set (len := Z.of_nat (length (input (fctx s)))).
      set (wl := wlen s + Z.max 0 (Z.min n (len - wlen s))).
      destruct (wl =? len).
      * destruct (ext_xclose (fd1 s) w) as [rc Hx].
        destruct (xclose (fd1 s) w) as [crc w1]. cbn in Hx.
        destruct (crc =? 0).
        -- match goal with
           | |- context [filter_tail r0 r1 ?st] =>
               destruct (ext_filter_tail r0 r1 st) as (dm & dt & H & O & P);
               destruct (filter_tail_keeps r0 r1 st) as [K1 K2]
           end.
           cbn [fworld wlen fctx] in H, K1, K2.
           exists ([] ++ [] ++ dm), ([EvWrite (fd1 s)] ++ [EvClose (fd1 s) rc] ++ dt).
           split; [eapply ext_trans; [exact Hw|eapply ext_trans; eassumption]|].
           split; [cbn; now rewrite O|]. split; assumption.
        -- cbn [snd fworld fctx wlen].
           exists ([] ++ [] ++ [perror_msg "close"%string]),
                  ([EvWrite (fd1 s)] ++ [EvClose (fd1 s) rc] ++ []).
           split; [eapply ext_trans; [exact Hw|eapply ext_trans; [exact Hx|apply ext_say]]|].
           split; [reflexivity|]. split; reflexivity.
      * match goal with
        | |- context [filter_tail r0 r1 ?st] =>
            destruct (ext_filter_tail r0 r1 st) as (dm & dt & H & O & P);
            destruct (filter_tail_keeps r0 r1 st) as [K1 K2]
        end.
        cbn [fworld wlen fctx] in H, K1, K2.
        exists ([] ++ dm), ([EvWrite (fd1 s)] ++ dt).
        split; [eapply ext_trans; eassumption|].
        split; [cbn; now rewrite O|]. split; assumption.
  - destruct (ext_filter_tail r0 r1 s) as (dm & dt & H & O & P).
    destruct (filter_tail_keeps r0 r1 s) as [K1 K2].
    exists dm, dt. split; [exact H|]. split; [exact O|].
    split; [exact K2|]. rewrite K1. lia.
Qed.

Lemma filter_step_io t s :
  exists dm dt (wr : bool),
    ext (fworld s) (fworld (snd (filter_step t s))) dm dt
    /\ io_order dt = (if polls_in t s then [Rd] else [])
                     ++ (if wr then [Wr] else [])
    /\ input (fctx (snd (filter_step t s))) = input (fctx s)
    /\ wlen (snd (filter_step t s))
       = wlen s + (if wr
                   then counted (write_rc t)
                          (Z.of_nat (length (input (fctx s))) - wlen s)
                   else 0)
    /\ (polls_in t s && read_zero (read_rc t) = true ->
        fst (filter_step t s) = Break).
Proof.
  unfold filter_step, polls_in.
  pose proof (ext_log EvPoll (fworld s)) as Hp.
  set (w0 := log EvPoll (fworld s)) in *.
  destruct (polled t) as [[|]|e0 e1]; cbn [snd fst fworld fctx wlen].
  - exists [], [EvPoll], false. split; [assumption|]. split; [reflexivity|].
    split; [reflexivity|]. split; [lia|discriminate].
  - exists ([] ++ [perror_msg "poll"%string]), ([EvPoll] ++ []), false.
    split; [eapply ext_trans; [exact Hp|apply ext_say]|].
    split; [reflexivity|]. split; [reflexivity|]. split; [lia|discriminate].
  - set (r0 := revents_for (fd0 s) e0). set (r1 := revents_for (fd1 s) e1).
    destruct (has r0 POLLIN); cbn [andb].
    + pose proof (ext_log (EvRead (fd0 s)) w0) as Hr.
      set (w1 := log (EvRead (fd0 s)) w0) in *.
      unfold read_zero.
      destruct (read_rc t) as [|data]; cbn [snd fst fworld fctx wlen].
      * exists ([] ++ [] ++ [perror_msg "read"%string]),
               ([EvPoll] ++ [EvRead (fd0 s)] ++ []), false.
        split; [eapply ext_trans; [exact Hp|eapply ext_trans; [exact Hr|apply ext_say]]|].
        split; [reflexivity|]. split; [reflexivity|]. split; [lia|reflexivity].
      * destruct (firstn (Z.to_nat 8192) data) as [|c d] eqn:Ed;
          cbn [snd fst fworld fctx wlen].
        -- destruct (wlen s <? Z.of_nat (length (input (fctx s)))).
           ++ exists ([] ++ [] ++ [E]), ([EvPoll] ++ [EvRead (fd0 s)] ++ []), false.
              split; [eapply ext_trans; [exact Hp|eapply ext_trans; [exact Hr|apply ext_say]]|].
              split; [reflexivity|]. split; [reflexivity|]. split; [lia|reflexivity].
           ++ exists ([] ++ []), ([EvPoll] ++ [EvRead (fd0 s)]), false.
              split; [eapply ext_trans; eassumption|].
              split; [reflexivity|]. split; [reflexivity|]. split; [lia|reflexivity].
        -- match goal with
           | |- context [filter_write t r0 r1 ?st] =>
               destruct (filter_write_io t r0 r1 st) as (dm & dt & H & O & K2 & K1)
           end.
           cbn [fworld fctx wlen] in H, K1, K2.
           exists ([] ++ [] ++ dm), ([EvPoll] ++ [EvRead (fd0 s)] ++ dt),
             (has r1 POLLOUT).
           split; [eapply ext_trans; [exact Hp|eapply ext_trans; eassumption]|].
           split; [cbn; rewrite O; reflexivity|].
           split; [rewrite K2; reflexivity|].
           split; [exact K1|discriminate].
    + match goal with
      | |- context [filter_write t r0 r1 ?st] =>
          destruct (filter_write_io t r0 r1 st) as (dm & dt & H & O & K2 & K1)
      end.
      cbn [fworld fctx wlen] in H, K1, K2.
      exists ([] ++ dm), ([EvPoll] ++ dt), (has r1 POLLOUT).
      split; [eapply ext_trans; eassumption|].
      split; [cbn; rewrite O; reflexivity|].
      split; [rewrite K2; reflexivity|].
      split; [exact K1|discriminate].
Qed.

Lemma made_read_io (rd wr : bool) dt :
  io_order dt = (if rd then [Rd] else []) ++ (if wr then [Wr] else []) ->
  made_read dt = rd /\ made_write dt = wr.
Proof.
  intros H. unfold made_read, made_write. rewrite H.
  destruct rd, wr; split; reflexivity.
Qed.

Lemma counted_within r asked :
  0 <= write_count r <= asked -> counted r asked = write_count r.
Proof. destruct r as [|n]; cbn; lia. Qed.

(* what a turn of the poll loop does to wlen and to the messages *)
Lemma filter_step_counts t s :
  let s' := snd (filter_step t s) in
  let len := Z.of_nat (length (input (fctx s))) in
  input (fctx s') = input (fctx s)
  /\ (0 <= turn_written t s <= len - wlen s ->
      wlen s' = wlen s + turn_written t s)
  /\ (reads_eof t s = true -> fst (filter_step t s) = Break)
  /\ exists dm, msgs (fworld s') = msgs (fworld s) ++ dm
                /\ (In E dm <-> reads_eof t s = true /\ wlen s < len).
Proof.
  cbv zeta.
  destruct (filter_step_io t s) as (dm & dt & wr & Hx & Ho & Hi & Hw & Hb).
  destruct (step_events_msgs t s dm dt Hx) as [_ He].
  destruct (made_read_io _ _ _ Ho) as [Mr Mw].
  unfold turn_written, reads_eof. rewrite He, Mr, Mw.
  split; [exact Hi|]. split; [|split; [exact Hb|]].
  - intros Hc. rewrite Hw. destruct wr; [|reflexivity].
    rewrite counted_within by exact Hc. reflexivity.
  - destruct (ext_filter_step t s) as (dm' & dt' & [Hm' Ht'] & Hc).
    exists dm'. split; [exact Hm'|].
    assert (Heq : read_eof_early t s
                  = polls_in t s && read_zero (read_rc t)
                    && (wlen s <? Z.of_nat (length (input (fctx s))))).
    { unfold read_eof_early, polls_in, read_zero.
      destruct (polled t); [reflexivity|].
      destruct (has _ POLLIN); [|reflexivity].
      destruct (read_rc t); [reflexivity|].
      destruct (firstn _ _); reflexivity. }
    destruct Hc as [(H1 & -> & _)|(H1 & Hp & _)]; rewrite Heq in H1.
    + apply andb_prop in H1. destruct H1 as [H1 H2]. apply Z.ltb_lt in H2.
      split; [intros _; split; assumption|intros _; left; reflexivity].
    + split; [intros Hin; exfalso; exact (E_not_perror dm' Hp Hin)|].
      intros [H2 H3]. rewrite H2 in H1. apply Z.ltb_lt in H3.
      rewrite H3 in H1. discriminate H1.
Qed.

(** *** The select loop of the older filter *)

Lemma old_filter_write_io t wset s :
  exists dm dt,
    ext (oworld s) (oworld (snd (old_filter_write t wset s))) dm dt
    /\ io_order dt = (if (0 <=? wfd s) && wset then [Wr] else [])
    /\ in_data (snd (old_filter_write t wset s)) = in_data s
    /\ old_wlen (snd (old_filter_write t wset s))
       = old_wlen s + (if (0 <=? wfd s) && wset
                       then counted (old_write_rc t)
                              (Z.of_nat (length (in_data s)) - old_wlen s)
                       else 0)
    /\ ~ In E' dm.
Proof.
  unfold old_filter_write.
  destruct ((0 <=? wfd s) && wset).
  - pose proof (ext_log (EvWrite (wfd s)) (oworld s)) as Hw.
    set (w := log (EvWrite (wfd s)) (oworld s)) in *.
    destruct (old_write_rc t) as [|n];
      cbn [snd oworld old_with in_data old_wlen counted].
    + exists ([] ++ [error_msg "write"%string]), ([EvWrite (wfd s)] ++ []).
      split; [eapply ext_trans; [exact Hw|apply ext_say]|].
      split; [reflexivity|]. split; [reflexivity|]. split; [lia|].
      cbn. intros [H|[]]. discriminate H.
    + match goal with |- context [if ?c then _ else _] => destruct c end;
        cbn [snd oworld old_with in_data old_wlen].
      * destruct (ext_xclose (wfd s) w) as [rc Hx].
        exists ([] ++ []), ([EvWrite (wfd s)] ++ [EvClose (wfd s) rc]).
        split; [eapply ext_trans; eassumption|].
        split; [reflexivity|]. split; [reflexivity|]. split; [reflexivity|].
        cbn. tauto.
      * exists [], [EvWrite (wfd s)]. split; [assumption|].
        split; [reflexivity|]. split; [reflexivity|]. split; [reflexivity|].
        cbn. tauto.
  - exists [], []. cbn [snd]. split; [apply ext_refl|].
    split; [reflexivity|]. split; [reflexivity|]. split; [lia|]. cbn. tauto.
Qed.

Lemma old_filter_step_io t s :
  exists dm dt (wr : bool),
    ext (oworld s) (oworld (snd (old_filter_step t s))) dm dt
    /\ io_order dt = (if old_polls_in t then [Rd] else [])
                     ++ (if wr then [Wr] else [])
    /\ in_data (snd (old_filter_step t s)) = in_data s
    /\ old_wlen (snd (old_filter_step t s))
       = old_wlen s + (if wr
                       then counted (old_write_rc t)
                              (Z.of_nat (length (in_data s)) - old_wlen s)
                       else 0)
    /\ (old_polls_in t && read_zero (old_read_rc t) = true ->
        fst (old_filter_step t s) = Break).
Proof.
  unfold old_filter_step, old_polls_in.
  pose proof (ext_log EvPoll (oworld s)) as Hp.
  set (w0 := log EvPoll (oworld s)) in *.
  destruct (selected t) as [[|]|rset wset];
    cbn [snd fst oworld old_with in_data old_wlen].
  - exists [], [EvPoll], false. split; [assumption|]. split; [reflexivity|].
    split; [reflexivity|]. split; [lia|discriminate].
  - exists ([] ++ [error_msg "select"%string]), ([EvPoll] ++ []), false.
    split; [eapply ext_trans; [exact Hp|apply ext_say]|].
    split; [reflexivity|]. split; [reflexivity|]. split; [lia|discriminate].
  - destruct rset; cbn [andb].
    + pose proof (ext_log (EvRead (rfd s)) w0) as Hr.
      set (w1 := log (EvRead (rfd s)) w0) in *.
      unfold read_zero.
      destruct (old_read_rc t) as [|data];
        cbn [snd fst oworld old_with in_data old_wlen].
      * exists ([] ++ [] ++ [error_msg "read"%string]),
               ([EvPoll] ++ [EvRead (rfd s)] ++ []), false.
        split; [eapply ext_trans; [exact Hp|eapply ext_trans; [exact Hr|apply ext_say]]|].
        split; [reflexivity|]. split; [reflexivity|]. split; [lia|reflexivity].
      * destruct (firstn (Z.to_nat 8192) data) as [|c d] eqn:Ed;
          cbn [snd fst oworld old_with in_data old_wlen].
        -- destruct (old_wlen s <? Z.of_nat (length (in_data s)));
             cbn [snd fst oworld old_with in_data old_wlen].
           ++ exists ([] ++ [] ++ [E']), ([EvPoll] ++ [EvRead (rfd s)] ++ []), false.
              split; [eapply ext_trans; [exact Hp|eapply ext_trans; [exact Hr|apply ext_say]]|].
              split; [reflexivity|]. split; [reflexivity|]. split; [lia|reflexivity].
           ++ exists ([] ++ []), ([EvPoll] ++ [EvRead (rfd s)]), false.
              split; [eapply ext_trans; eassumption|].
              split; [reflexivity|]. split; [reflexivity|]. split; [lia|reflexivity].
        -- match goal with
           | |- context [old_filter_write t wset ?st] =>
               destruct (old_filter_write_io t wset st) as (dm & dt & H & O & K2 & K1 & _)
           end.
           cbn [oworld old_with in_data old_wlen wfd] in H, K1, K2, O.
           exists ([] ++ [] ++ dm), ([EvPoll] ++ [EvRead (rfd s)] ++ dt),
             ((0 <=? wfd s) && wset).
           split; [eapply ext_trans; [exact Hp|eapply ext_trans; eassumption]|].
           split; [cbn; rewrite O; reflexivity|].
           split; [exact K2|]. split; [exact K1|discriminate].
    + match goal with
      | |- context [old_filter_write t wset ?st] =>
          destruct (old_filter_write_io t wset st) as (dm & dt & H & O & K2 & K1 & _)
      end.
      cbn [oworld old_with in_data old_wlen wfd] in H, K1, K2, O.
      exists ([] ++ dm), ([EvPoll] ++ dt), ((0 <=? wfd s) && wset).
      split; [eapply ext_trans; eassumption|].
      split; [cbn; rewrite O; reflexivity|].
      split; [exact K2|]. split; [exact K1|discriminate].
Qed.

Lemma old_filter_step_counts t s :
  let s' := snd (old_filter_step t s) in
  let len := Z.of_nat (length (in_data s)) in
  in_data s' = in_data s
  /\ (0 <= old_turn_written t s <= len - old_wlen s ->
      old_wlen s' = old_wlen s + old_turn_written t s)
  /\ (old_reads_eof t s = true -> fst (old_filter_step t s) = Break)
  /\ exists dm, msgs (oworld s') = msgs (oworld s) ++ dm
                /\ (In E' dm <-> old_reads_eof t s = true /\ old_wlen s < len).
Proof.
  cbv zeta.
  destruct (old_filter_step_io t s) as (dm & dt & wr & [Hxm Hxt] & Ho & Hi & Hw & Hb).
  assert (He : old_step_events t s = dt)
    by (unfold old_step_events; rewrite Hxt; apply skipn_length_app).
  destruct (made_read_io _ _ _ Ho) as [Mr Mw].
  unfold old_turn_written, old_reads_eof. rewrite He, Mr, Mw.
  split; [exact Hi|]. split; [|split; [exact Hb|]].
  - intros Hc. rewrite Hw. destruct wr; [|reflexivity].
    rewrite counted_within by exact Hc. reflexivity.
  - destruct (ext_old_filter_step t s) as (dm' & dt' & [Hm' Ht'] & Hc).
    exists dm'. split; [exact Hm'|].
    assert (Heq : old_read_eof_early t s
                  = old_polls_in t && read_zero (old_read_rc t)
                    && (old_wlen s <? Z.of_nat (length (in_data s)))).
    { unfold old_read_eof_early, old_polls_in, read_zero.
      destruct (selected t) as [|rset wset]; [reflexivity|].
      destruct rset; [|reflexivity].
      destruct (old_read_rc t); [reflexivity|].
      destruct (firstn _ _); reflexivity. }
    destruct Hc as [(H1 & -> & _)|(H1 & Hp & _)]; rewrite Heq in H1.
    + apply andb_prop in H1. destruct H1 as [H1 H2]. apply Z.ltb_lt in H2.
      split; [intros _; split; assumption|intros _; left; reflexivity].
    + split; [intros Hin; exfalso; exact (Hp Hin)|].
      intros [H2 H3]. rewrite H2 in H1. apply Z.ltb_lt in H3.
      rewrite H3 in H1. discriminate H1.
Qed.

(** *** [filter] as a whole *)

Lemma filter_unfold rfd wfd ctx ticks w :
  filter_fds_ok rfd wfd = true ->
  filter rfd wfd ctx ticks w
  = (s <- filter_loop ticks (filter_start rfd wfd ctx w) ;;
     Ok (fctx s, fworld s)).
Proof.
  unfold filter_fds_ok, filter, filter_start. intros H.
  apply andb_prop in H. destruct H as [H H3].
  apply andb_prop in H. destruct H as [H1 H2].
  apply negb_true_iff in H1, H2, H3. rewrite H1, H2, H3.
  destruct (input ctx); [|reflexivity].
  destruct (xclose wfd w); reflexivity.
Qed.

Lemma filter_start_facts rfd wfd ctx w :
  wlen (filter_start rfd wfd ctx w) = 0
  /\ input (fctx (filter_start rfd wfd ctx w)) = input ctx
  /\ msgs (fworld (filter_start rfd wfd ctx w)) = msgs w.
Proof.
  unfold filter_start. destruct (input ctx) eqn:Ei; cbn [wlen fctx fworld].
  - split; [reflexivity|]. split; [exact Ei|].
    unfold xclose. destruct (is_open wfd w); reflexivity.
  - split; [reflexivity|]. split; [exact Ei|reflexivity].
Qed.

Lemma old_filter_unfold rfd wfd input ticks w :
  old_filter rfd wfd input ticks w
  = (s <- old_filter_loop ticks (old_filter_start rfd wfd input w) ;;
     match buf s with
     | [] => Ok (None, 0, oworld s)
     | b => Ok (Some b, Z.of_nat (length b), oworld s)
     end).
Proof. unfold old_filter, old_filter_start. destruct input; reflexivity. Qed.

Lemma old_filter_start_facts rfd wfd input w :
  old_wlen (old_filter_start rfd wfd input w) = 0
  /\ in_data (old_filter_start rfd wfd input w) = input
  /\ msgs (oworld (old_filter_start rfd wfd input w)) = msgs w.
Proof.
  unfold old_filter_start. destruct input; cbn [old_wlen in_data oworld].
  - split; [reflexivity|]. split; [reflexivity|].
    unfold xclose. destruct (is_open wfd w); reflexivity.
  - split; [reflexivity|]. split; reflexivity.
Qed.

(** C8: filter, fed the system's answers turn by turn, with every write
    returning no more than it was asked to write.  "Command did not read
    all data" is among the messages filter adds exactly when a read of the
    child's output returns 0 while the writes made so far have returned
    fewer bytes in all than the input holds; wlen is that sum.  The turn of
    such a read is the last one of the loop, and filter returns.  The same
    holds of the older filter, whose message ends in a full stop. *)
Theorem filter_reports_input_left_unread :
  (forall rfd wfd ctx ticks w,
      let run := turns filter_step ticks (filter_start rfd wfd ctx w) in
      let len := Z.of_nat (length (input ctx)) in
      filter_fds_ok rfd wfd = true ->
      writes_within turn_written len 0 run = true ->
      (forall pre t s post,
          run = pre ++ (t, s) :: post ->
          reads_eof t s = true ->
          post = []
          /\ wlen s = bytes_written turn_written pre
          /\ exists ctx' w',
               filter rfd wfd ctx ticks w = Ok (ctx', w')
               /\ (In (error_msg "Command did not read all data")
                      (skipn (length (msgs w)) (msgs w'))
                   <-> bytes_written turn_written pre < len))
      /\ (forall ctx' w',
          filter rfd wfd ctx ticks w = Ok (ctx', w') ->
          In (error_msg "Command did not read all data")
             (skipn (length (msgs w)) (msgs w')) ->
          exists pre t s,
            run = pre ++ [(t, s)]
            /\ reads_eof t s = true
            /\ bytes_written turn_written pre < len))
  /\ (forall rfd wfd input ticks w,
      let run := turns old_filter_step ticks
                       (old_filter_start rfd wfd input w) in
      let len := Z.of_nat (length input) in
      writes_within old_turn_written len 0 run = true ->
      (forall pre t s post,
          run = pre ++ (t, s) :: post ->
          old_reads_eof t s = true ->
          post = []
          /\ old_wlen s = bytes_written old_turn_written pre
          /\ exists out out_len w',
               old_filter rfd wfd input ticks w = Ok (out, out_len, w')
               /\ (In (error_msg "Command did not read all data.")
                      (skipn (length (msgs w)) (msgs w'))
                   <-> bytes_written old_turn_written pre < len))
      /\ (forall out out_len w',
          old_filter rfd wfd input ticks w = Ok (out, out_len, w') ->
          In (error_msg "Command did not read all data.")
             (skipn (length (msgs w)) (msgs w')) ->
          exists pre t s,
            run = pre ++ [(t, s)]
            /\ old_reads_eof t s = true
            /\ bytes_written old_turn_written pre < len)).
Proof.
  split.
  - intros rfd wfd ctx ticks w run len Hfds Hw.
    destruct (filter_start_facts rfd wfd ctx w) as (S0 & S1 & S2).
    set (s0 := filter_start rfd wfd ctx w) in *.
    destruct (loop_reports_input_left filter_step turn_written filter_loop
                reads_eof wlen
                (fun s => Z.of_nat (length (input (fctx s))))
                (fun s => msgs (fworld s)) E) with (ticks := ticks) (s := s0)
      as [Hfwd Hback].
    + intros [|t tk] s; reflexivity.
    + intros t s. cbv beta. f_equal. f_equal. apply filter_step_counts.
    + intros t s. apply filter_step_counts.
    + intros t s. apply filter_step_counts.
    + intros t s. apply filter_step_counts.
    + exact S0.
    + cbv beta. rewrite S1. exact Hw.
    + cbv beta in Hfwd, Hback. rewrite S1, S2 in Hfwd, Hback.
      rewrite (filter_unfold _ _ _ _ _ Hfds). fold s0. split.
      * intros pre t s post Hr He.
        destruct (Hfwd pre t s post Hr He) as (A & B & s' & Hl & C).
        split; [exact A|]. split; [exact B|].
        exists (fctx s'), (fworld s'). rewrite Hl. split; [reflexivity|exact C].
      * intros ctx' w' Hf Hin.
        destruct (filter_loop ticks s0) as [s'|e] eqn:El; [|discriminate Hf].
        cbn [bind] in Hf. injection Hf as <- <-.
        exact (Hback s' eq_refl Hin).
  - intros rfd wfd input ticks w run len Hw.
    destruct (old_filter_start_facts rfd wfd input w) as (S0 & S1 & S2).
    set (s0 := old_filter_start rfd wfd input w) in *.
    destruct (loop_reports_input_left old_filter_step old_turn_written
                old_filter_loop old_reads_eof old_wlen
                (fun s => Z.of_nat (length (in_data s)))
                (fun s => msgs (oworld s)) E') with (ticks := ticks) (s := s0)
      as [Hfwd Hback].
    + intros [|t tk] s; reflexivity.
    + intros t s. cbv beta. f_equal. f_equal. apply old_filter_step_counts.
    + intros t s. apply old_filter_step_counts.
    + intros t s. apply old_filter_step_counts.
    + intros t s. apply old_filter_step_counts.
    + exact S0.
    + cbv beta. rewrite S1. exact Hw.
    + cbv beta in Hfwd, Hback. rewrite S1, S2 in Hfwd, Hback.
      rewrite old_filter_unfold. fold s0. split.
      * intros pre t s post Hr He.
        destruct (Hfwd pre t s post Hr He) as (A & B & s' & Hl & C).
        split; [exact A|]. split; [exact B|].
        rewrite Hl. cbn [bind].
        destruct (buf s'); eexists _, _, _; (split; [reflexivity|exact C]).
      * intros out out_len w' Hf Hin.
        destruct (old_filter_loop ticks s0) as [s'|e] eqn:El; [|discriminate Hf].
        cbn [bind] in Hf.
        assert (Hw' : w' = oworld s')
          by (destruct (buf s'); injection Hf as _ _ <-; reflexivity).
        subst w'. exact (Hback s' eq_refl Hin).
Qed.

Lemma filter_reports_input_left_unread_witness :
  (filter_fds_ok 5 4 = true
   /\ writes_within turn_written 3 0
        (turns filter_step [FilterDemo.two_taken; SpawnDemo.eof_tick]
               (filter_start 5 4 (SpawnDemo.quiet_ctx [1; 2; 3])
                             FilterDemo.piped)) = true
   /\ writes_within old_turn_written 3 0
        (turns old_filter_step [FilterDemo.old_two_taken; SpawnDemo.old_eof_tick]
               (old_filter_start 5 4 [1; 2; 3] FilterDemo.piped)) = true)
  /\ (exists ctx' w',
        filter 5 4 (SpawnDemo.quiet_ctx [1; 2; 3])
               [FilterDemo.two_taken; SpawnDemo.eof_tick] FilterDemo.piped
        = Ok (ctx', w')
        /\ In (error_msg "Command did not read all data")
              (skipn (length (msgs FilterDemo.piped)) (msgs w')))
  /\ exists out out_len w',
       old_filter 5 4 [1; 2; 3]
                  [FilterDemo.old_two_taken; SpawnDemo.old_eof_tick]
                  FilterDemo.piped
       = Ok (out, out_len, w')
       /\ In (error_msg "Command did not read all data.")
             (skipn (length (msgs FilterDemo.piped)) (msgs w')).
Proof.
  split; [repeat split; reflexivity|]. split.
  - destruct (proj1 filter_reports_input_left_unread 5 4
                (SpawnDemo.quiet_ctx [1; 2; 3])
                [FilterDemo.two_taken; SpawnDemo.eof_tick] FilterDemo.piped
                eq_refl eq_refl) as [Hfwd _].
    destruct (Hfwd [(FilterDemo.two_taken,
                     filter_start 5 4 (SpawnDemo.quiet_ctx [1; 2; 3])
                                  FilterDemo.piped)]
                   SpawnDemo.eof_tick
                   (snd (filter_step FilterDemo.two_taken
                           (filter_start 5 4 (SpawnDemo.quiet_ctx [1; 2; 3])
                                         FilterDemo.piped)))
                   [] eq_refl eq_refl)
      as (_ & _ & ctx' & w' & Hf & Hiff).
    exists ctx', w'. split; [exact Hf|]. apply Hiff. vm_compute. reflexivity.
  - destruct (proj2 filter_reports_input_left_unread 5 4 [1; 2; 3]
                [FilterDemo.old_two_taken; SpawnDemo.old_eof_tick]
                FilterDemo.piped eq_refl) as [Hfwd _].
    destruct (Hfwd [(FilterDemo.old_two_taken,
                     old_filter_start 5 4 [1; 2; 3] FilterDemo.piped)]
                   SpawnDemo.old_eof_tick
                   (snd (old_filter_step FilterDemo.old_two_taken
                           (old_filter_start 5 4 [1; 2; 3] FilterDemo.piped)))
                   [] eq_refl eq_refl)
      as (_ & _ & out & ol & w' & Hf & Hiff).
    exists out, ol, w'. split; [exact Hf|]. apply Hiff. vm_compute. reflexivity.
Defined.

End FilterRunFacts.

(** ** The exec command *)

Module ExecFacts.

Import Spawn Exec.


(** *** What the validity check of the flag loop guarantees *)

Lemma BSEARCH_IDX_row key act : BSEARCH_IDX key = Some act -> In act exec_map_rows.
Proof. unfold BSEARCH_IDX. intros H. apply find_some in H. tauto. Qed.

Lemma role_ok_stdin act :
  In act exec_map_rows -> role_ok act 0 = true -> feeds_input act = true.
Proof.
  intros Hin Hr. destruct act; try reflexivity; try discriminate Hr.
  cbn in Hin. repeat (destruct Hin as [Hin|Hin]; [discriminate Hin|]). contradiction.
Qed.

Lemma exec_flags_stdin fl argl :
  forall x o o',
    length (actions o) = 3%nat ->
    feeds_input (action_at (actions o) STDIN_FILENO) = true ->
    exec_flags fl argl x o = Ok (Accepted o') ->
    length (actions o') = 3%nat
    /\ feeds_input (action_at (actions o') STDIN_FILENO) = true.
Proof.
  induction fl as [|c fl IH]; intros x o o' Hlen Hin H.
  - cbn in H. injection H as <-. auto.
  - cbn [exec_flags] in H.
    assert (Hredirect : forall fd_idx,
      match nth_error argl x with
      | None => Err OutOfBounds
      | Some flag_arg =>
          match BSEARCH_IDX flag_arg with
          | None => Ok (Rejected c flag_arg)
          | Some act =>
              if role_ok act fd_idx
              then exec_flags fl argl (S x) (with_action o fd_idx act)
              else Ok (Rejected c flag_arg)
          end
      end = Ok (Accepted o') ->
      length (actions o') = 3%nat
      /\ feeds_input (action_at (actions o') STDIN_FILENO) = true).
    { intros fd_idx Hr.
      destruct (nth_error argl x) as [flag_arg|]; [|discriminate].
      destruct (BSEARCH_IDX flag_arg) as [act|] eqn:Eb; [|discriminate].
      destruct (role_ok act fd_idx) eqn:Er; [|discriminate].
      apply (IH (S x) (with_action o fd_idx act) o'); [| |exact Hr].
      - cbn. now rewrite replace_nth_length.
      - unfold action_at. cbn [actions with_action].
        destruct fd_idx as [|k].
        + change (Z.to_nat STDIN_FILENO) with 0%nat.
          rewrite nth_replace_nth_same by lia.
          apply role_ok_stdin; [eapply BSEARCH_IDX_row; eassumption|assumption].
        + change (Z.to_nat STDIN_FILENO) with 0%nat.
          rewrite nth_replace_nth_other by lia. exact Hin. }
    repeat match type of H with
           | (if ?c then _ else _) = _ => destruct c
           end;
      try (apply Hredirect in H; exact H);
      try discriminate;
      try (eapply IH; [| |exact H]; [exact Hlen|exact Hin]).
Qed.

Lemma ExecAction_eqb_refl act : ExecAction_eqb act act = true.
Proof. destruct act; reflexivity. Qed.

Lemma ExecAction_eqb_eq x y : ExecAction_eqb x y = true -> x = y.
Proof. destruct x, y; cbn; congruence. Qed.

Lemma SpawnAction_eqb_eq x y : SpawnAction_eqb x y = true <-> x = y.
Proof. destruct x, y; cbn; split; congruence. Qed.

Lemma In_rows act : existsb (ExecAction_eqb act) exec_map_rows = true <-> In act exec_map_rows.
Proof.
  rewrite existsb_exists. split.
  - intros (y & Hy & E). apply ExecAction_eqb_eq in E. now subst.
  - intros H. exists act. split; [assumption|apply ExecAction_eqb_refl].
Qed.

Lemma fd_valid_with_action o fd_idx act i :
  (fd_idx < 3)%nat -> (i < 3)%nat ->
  length (actions o) = 3%nat -> length (spawn_actions o) = 3%nat ->
  In act exec_map_rows -> role_ok act fd_idx = true ->
  fd_valid o i = true -> fd_valid (with_action o fd_idx act) i = true.
Proof.
  intros Hf Hi Hla Hls Hin Hr Hv. unfold fd_valid. cbn [actions spawn_actions with_action].
  destruct (Nat.eq_dec fd_idx i) as [->|Hne].
  - rewrite !nth_replace_nth_same by lia.
    rewrite Hr. apply In_rows in Hin. rewrite Hin.
    cbn. apply SpawnAction_eqb_eq. reflexivity.
  - rewrite !nth_replace_nth_other by assumption. exact Hv.
Qed.

Lemma valid_opts_with_action o fd_idx act :
  (fd_idx < 3)%nat -> In act exec_map_rows -> role_ok act fd_idx = true ->
  valid_opts o = true -> valid_opts (with_action o fd_idx act) = true.
Proof.
  intros Hf Hin Hr Hv. unfold valid_opts in *.
  apply andb_prop in Hv. destruct Hv as [Hv H3].
  apply andb_prop in Hv. destruct Hv as [H1 H2].
  apply Nat.eqb_eq in H1, H2.
  cbn [actions spawn_actions with_action]. rewrite !replace_nth_length.
  rewrite H1, H2. cbn [Nat.eqb andb].
  cbn [forallb] in *. rewrite !andb_true_iff in *.
  destruct H3 as (A & B & C & _).
  repeat split; apply fd_valid_with_action; auto.
Qed.

Lemma exec_flags_valid fl argl :
  forall x o o',
    valid_opts o = true ->
    exec_flags fl argl x o = Ok (Accepted o') ->
    valid_opts o' = true.
Proof.
  induction fl as [|c fl IH]; intros x o o' Hv H.
  - cbn in H. injection H as <-. exact Hv.
  - cbn [exec_flags] in H.
    assert (Hredirect : forall fd_idx, (fd_idx < 3)%nat ->
      match nth_error argl x with
      | None => Err OutOfBounds
      | Some flag_arg =>
          match BSEARCH_IDX flag_arg with
          | None => Ok (Rejected c flag_arg)
          | Some act =>
              if role_ok act fd_idx
              then exec_flags fl argl (S x) (with_action o fd_idx act)
              else Ok (Rejected c flag_arg)
          end
      end = Ok (Accepted o') ->
      valid_opts o' = true).
    { intros fd_idx Hlt Hr.
      destruct (nth_error argl x) as [flag_arg|]; [|discriminate].
      destruct (BSEARCH_IDX flag_arg) as [act|] eqn:Eb; [|discriminate].
      destruct (role_ok act fd_idx) eqn:Er; [|discriminate].
      apply (IH (S x) (with_action o fd_idx act) o'); [|exact Hr].
      apply valid_opts_with_action; auto. eapply BSEARCH_IDX_row; eassumption. }
    repeat match type of H with
           | (if ?c then _ else _) = _ => destruct c
           end;
      try (apply Hredirect in H; [exact H|lia]);
      try discriminate;
      try (eapply IH; [|exact H]; exact Hv).
Qed.




(** X13. Whatever flags and arguments the flag loop of cmd_exec accepts, each
    of the three actions it ends with is a row of exec_map that is valid for
    its descriptor, and spawn_actions holds that row's spawn action. *)
Theorem exec_flags_accepts_valid_roles :
  forall fl argl o,
    exec_flags fl argl 0 exec_opts_init = Ok (Accepted o) ->
    forall i, In i [0%nat; 1%nat; 2%nat] ->
      In (nth i (actions o) EXEC_TTY) exec_map_rows
      /\ role_ok (nth i (actions o) EXEC_TTY) i = true
      /\ nth i (spawn_actions o) SPAWN_TTY
         = spawn_action (exec_map (nth i (actions o) EXEC_TTY)).
Proof.
  intros fl argl o H i Hi.
  apply exec_flags_valid in H; [|reflexivity].
  unfold valid_opts in H. apply andb_prop in H. destruct H as [_ H].
  rewrite forallb_forall in H. specialize (H i Hi).
  unfold fd_valid in H. rewrite !andb_true_iff in H. destruct H as ((A & B) & C).
  split; [apply In_rows; exact A|]. split; [exact B|].
  apply SpawnAction_eqb_eq. exact C.
Qed.

Lemma exec_flags_errors fl argl :
  forall x o e,
    exec_flags fl argl x o = Err e ->
    e = OutOfBounds \/ e = BugOn "unexpected flag".
Proof.
  induction fl as [|c fl IH]; intros x o e H; [discriminate H|].
  cbn [exec_flags] in H.
  assert (Hredirect : forall fd_idx,
    match nth_error argl x with
    | None => Err OutOfBounds
    | Some flag_arg =>
        match BSEARCH_IDX flag_arg with
        | None => Ok (Rejected c flag_arg)
        | Some act =>
            if role_ok act fd_idx
            then exec_flags fl argl (S x) (with_action o fd_idx act)
            else Ok (Rejected c flag_arg)
        end
    end = Err e ->
    e = OutOfBounds \/ e = BugOn "unexpected flag").
  { intros fd_idx Hr.
    destruct (nth_error argl x) as [flag_arg|]; [|injection Hr as <-; auto].
    destruct (BSEARCH_IDX flag_arg) as [act|]; [|discriminate].
    destruct (role_ok act fd_idx); [|discriminate].
    eapply IH; exact Hr. }
  repeat match type of H with
         | (if ?c then _ else _) = _ => destruct c
         end;
    try (apply Hredirect in H; exact H);
    try (eapply IH; exact H).
  injection H as <-. auto.
Qed.

Lemma role_ok_stdout act : role_ok act 1 = true -> routes_output act = true.
Proof. intros Hr. destruct act; try reflexivity; discriminate Hr. Qed.


Lemma flag_args_taken_cons c fl :
  flag_args_taken (c :: fl)
  = (match redirect_fd c with Some _ => 1 | None => 0 end
     + flag_args_taken fl)%nat.
Proof.
  unfold flag_args_taken. cbn [List.filter].
  destruct (redirect_fd c); reflexivity.
Qed.

(** X15. The flag loop of cmd_exec rejects only at a redirecting flag (-e,
    -i or -o), and at the first one whose argument fails the check: every
    redirecting flag before it took its argument and passed.  The flag
    reported is that flag and the argument reported is the one it took,
    args[x] with x the number of redirecting flags before it, which names
    no row of exec_map or a row not valid for the flag's descriptor. *)
Theorem exec_flags_rejects_only_bad_redirects :
  forall fl argl x o c flag_arg,
    exec_flags fl argl x o = Ok (Rejected c flag_arg) ->
    exists pre post fd_idx,
      fl = pre ++ c :: post
      /\ redirect_fd c = Some fd_idx
      /\ nth_error argl (x + flag_args_taken pre) = Some flag_arg
      /\ arg_ok fd_idx flag_arg = false
      /\ forall pre1 c1 post1 fd1,
           pre = pre1 ++ c1 :: post1 ->
           redirect_fd c1 = Some fd1 ->
           exists arg1,
             nth_error argl (x + flag_args_taken pre1) = Some arg1
             /\ arg_ok fd1 arg1 = true.
Proof.
  intros fl argl. induction fl as [|c0 fl IH]; intros x o c flag_arg H;
    [cbn in H; discriminate H|].
  cbn [exec_flags] in H.
  (* a flag that passes: the rest of the loop rejects *)
  assert (Hpass : forall x' o',
             exec_flags fl argl x' o' = Ok (Rejected c flag_arg) ->
             x' = (x + match redirect_fd c0 with Some _ => 1 | None => 0 end)%nat ->
             (forall fd0, redirect_fd c0 = Some fd0 ->
                exists arg0, nth_error argl x = Some arg0
                             /\ arg_ok fd0 arg0 = true) ->
             exists pre post fd_idx,
               c0 :: fl = pre ++ c :: post
               /\ redirect_fd c = Some fd_idx
               /\ nth_error argl (x + flag_args_taken pre) = Some flag_arg
               /\ arg_ok fd_idx flag_arg = false
               /\ forall pre1 c1 post1 fd1,
                    pre = pre1 ++ c1 :: post1 ->
                    redirect_fd c1 = Some fd1 ->
                    exists arg1,
                      nth_error argl (x + flag_args_taken pre1) = Some arg1
                      /\ arg_ok fd1 arg1 = true).
  { intros x' o' Hr -> H0.
    destruct (IH _ _ _ _ Hr) as (pre & post & fd_idx & -> & Hfd & Harg & Hbad & Hbefore).
    exists (c0 :: pre), post, fd_idx. split; [reflexivity|].
    split; [exact Hfd|]. rewrite flag_args_taken_cons.
    split; [rewrite <- Harg; f_equal; lia|]. split; [exact Hbad|].
    intros pre1 c1 post1 fd1 Hsplit Hfd1.
    destruct pre1 as [|c2 pre1]; cbn [app] in Hsplit;
      injection Hsplit as <- ->.
    - rewrite Nat.add_0_r. apply H0. exact Hfd1.
    - destruct (Hbefore pre1 c1 post1 fd1 eq_refl Hfd1) as (arg1 & Ha & Hk).
      exists arg1. split; [|exact Hk]. rewrite flag_args_taken_cons.
      rewrite <- Ha. f_equal. lia. }
  assert (Hredirect : forall fd_idx, redirect_fd c0 = Some fd_idx ->
    match nth_error argl x with
    | None => Err OutOfBounds
    | Some flag_arg =>
        match BSEARCH_IDX flag_arg with
        | None => Ok (Rejected c0 flag_arg)
        | Some act =>
            if role_ok act fd_idx
            then exec_flags fl argl (S x) (with_action o fd_idx act)
            else Ok (Rejected c0 flag_arg)
        end
    end = Ok (Rejected c flag_arg) ->
    exists pre post fd_idx,
      c0 :: fl = pre ++ c :: post
      /\ redirect_fd c = Some fd_idx
      /\ nth_error argl (x + flag_args_taken pre) = Some flag_arg
      /\ arg_ok fd_idx flag_arg = false
      /\ forall pre1 c1 post1 fd1,
           pre = pre1 ++ c1 :: post1 ->
           redirect_fd c1 = Some fd1 ->
           exists arg1,
             nth_error argl (x + flag_args_taken pre1) = Some arg1
             /\ arg_ok fd1 arg1 = true).
  { intros fd_idx Hfd Hr.
    assert (Hhere : forall a0, nth_error argl x = Some a0 ->
               arg_ok fd_idx a0 = false ->
               Rejected c0 a0 = Rejected c flag_arg ->
               exists pre post fd_idx,
                 c0 :: fl = pre ++ c :: post
                 /\ redirect_fd c = Some fd_idx
                 /\ nth_error argl (x + flag_args_taken pre) = Some flag_arg
                 /\ arg_ok fd_idx flag_arg = false
                 /\ forall pre1 c1 post1 fd1,
                      pre = pre1 ++ c1 :: post1 ->
                      redirect_fd c1 = Some fd1 ->
                      exists arg1,
                        nth_error argl (x + flag_args_taken pre1) = Some arg1
                        /\ arg_ok fd1 arg1 = true).
    { intros a0 Ea Hbad Heq. injection Heq as <- <-.
      exists [], fl, fd_idx. split; [reflexivity|]. split; [exact Hfd|].
      cbn. rewrite Nat.add_0_r. split; [exact Ea|]. split; [exact Hbad|].
      intros pre1 c1 post1 fd1 Hsplit. destruct pre1; discriminate Hsplit. }
    destruct (nth_error argl x) as [arg0|] eqn:Ea; [|discriminate].
    destruct (BSEARCH_IDX arg0) as [act|] eqn:Eb.
    - destruct (role_ok act fd_idx) eqn:Er.
      + apply (Hpass _ _ Hr).
        * rewrite Hfd. lia.
        * intros fd0 Hfd0. exists arg0. split; [reflexivity|].
          unfold arg_ok. rewrite Eb. congruence.
      + apply (Hhere arg0 eq_refl); [unfold arg_ok; rewrite Eb; exact Er|].
        injection Hr as -> ->. reflexivity.
    - apply (Hhere arg0 eq_refl); [unfold arg_ok; rewrite Eb; reflexivity|].
      injection Hr as -> ->. reflexivity. }
  unfold redirect_fd in Hredirect, Hpass.
  destruct (Ascii.eqb c0 "e"); [apply (Hredirect 2%nat eq_refl H)|].
  destruct (Ascii.eqb c0 "i"); [apply (Hredirect 0%nat eq_refl H)|].
  destruct (Ascii.eqb c0 "o"); [apply (Hredirect 1%nat eq_refl H)|].
  repeat match type of H with
         | (if ?c then _ else _) = _ => destruct c
         end;
    try discriminate;
    (eapply Hpass; [exact H|lia|intros fd0 Hd; discriminate Hd]).
Qed.

Lemma has_flag_testbit f k :
  0 <= k -> has_flag f (2 ^ k) = Z.testbit f k.
Proof.
  intros Hk. unfold has_flag. destruct (Z.testbit f k) eqn:E.
  - apply negb_true_iff, Z.eqb_neq. intros H0.
    assert (Z.testbit (Z.land f (2 ^ k)) k = true)
      by (rewrite Z.land_spec, E, Z.pow2_bits_true; auto).
    rewrite H0, Z.bits_0 in H. discriminate.
  - apply negb_false_iff, Z.eqb_eq. apply Z.bits_inj'. intros n Hn.
    rewrite Z.land_spec, Z.bits_0, Z.pow2_bits_eqb by assumption.
    destruct (Z.eqb_spec k n) as [->|]; [now rewrite E|apply andb_false_r].
Qed.

Lemma quiet_bit f : has_flag f SPAWN_QUIET = Z.testbit f 0.
Proof. apply (has_flag_testbit f 0). lia. Qed.

Lemma prompt_bit f : has_flag f SPAWN_PROMPT = Z.testbit f 1.
Proof. apply (has_flag_testbit f 1). lia. Qed.

Local Ltac eqbs :=
  repeat match goal with
         | |- context [Ascii.eqb ?a ?b] =>
             let v := eval vm_compute in (Ascii.eqb a b) in
             change (Ascii.eqb a b) with v
         end;
  cbn [orb].

(** X16. Of the flags -s and -t of cmd_exec the last one given decides
    whether SPAWN_QUIET is set, and SPAWN_PROMPT is set exactly when a -p
    was given; the redirecting flags and -l, -m, -n leave both alone. *)
Theorem exec_flags_last_of_s_and_t_wins :
  forall fl argl x o o',
    exec_flags fl argl x o = Ok (Accepted o') ->
    has_flag (spawn_flags o') SPAWN_QUIET
    = quiet_after fl (has_flag (spawn_flags o) SPAWN_QUIET)
    /\ has_flag (spawn_flags o') SPAWN_PROMPT
       = (existsb (Ascii.eqb "p") fl || has_flag (spawn_flags o) SPAWN_PROMPT).
Proof.
  intros fl argl. induction fl as [|c fl IH]; intros x o o' H.
  - cbn in H. injection H as <-. auto.
  - cbn [exec_flags] in H. cbn [quiet_after fold_left existsb].
    change (fold_left ?f fl ?q) with (quiet_after fl q).
    assert (Hredirect : forall fd_idx,
      match nth_error argl x with
      | None => Err OutOfBounds
      | Some flag_arg =>
          match BSEARCH_IDX flag_arg with
          | None => Ok (Rejected c flag_arg)
          | Some act =>
              if role_ok act fd_idx
              then exec_flags fl argl (S x) (with_action o fd_idx act)
              else Ok (Rejected c flag_arg)
          end
      end = Ok (Accepted o') ->
      has_flag (spawn_flags o') SPAWN_QUIET
      = quiet_after fl (has_flag (spawn_flags o) SPAWN_QUIET)
      /\ has_flag (spawn_flags o') SPAWN_PROMPT
         = (existsb (Ascii.eqb "p") fl || has_flag (spawn_flags o) SPAWN_PROMPT)).
    { intros fd_idx Hr.
      destruct (nth_error argl x) as [flag_arg|]; [|discriminate].
      destruct (BSEARCH_IDX flag_arg) as [act|]; [|discriminate].
      destruct (role_ok act fd_idx); [|discriminate].
      apply (IH _ _ _ Hr). }
    rewrite (Ascii.eqb_sym "p" c).
    destruct (Ascii.eqb_spec c "e") as [->|]; [apply (Hredirect _ H)|].
    destruct (Ascii.eqb_spec c "i") as [->|]; [apply (Hredirect _ H)|].
    destruct (Ascii.eqb_spec c "o") as [->|]; [apply (Hredirect _ H)|].
    destruct (Ascii.eqb_spec c "p") as [->|].
    { apply IH in H. cbn [spawn_flags with_spawn_flags] in H.
      eqbs. destruct H as [H1 H2].
      rewrite H1, H2, !quiet_bit, !prompt_bit, !Z.lor_spec.
      change (Z.testbit SPAWN_PROMPT 0) with false.
      change (Z.testbit SPAWN_PROMPT 1) with true.
      change (Z.testbit SPAWN_QUIET 0) with true.
      change (Z.testbit SPAWN_QUIET 1) with false.
      rewrite ?orb_false_r, ?orb_true_r. split; reflexivity. }
    destruct (Ascii.eqb_spec c "s") as [->|].
    { apply IH in H. cbn [spawn_flags with_spawn_flags] in H.
      eqbs. destruct H as [H1 H2].
      rewrite H1, H2, !quiet_bit, !prompt_bit, !Z.lor_spec.
      change (Z.testbit SPAWN_PROMPT 0) with false.
      change (Z.testbit SPAWN_PROMPT 1) with true.
      change (Z.testbit SPAWN_QUIET 0) with true.
      change (Z.testbit SPAWN_QUIET 1) with false.
      rewrite ?orb_false_r, ?orb_true_r. split; reflexivity. }
    destruct (Ascii.eqb_spec c "t") as [->|].
    { apply IH in H. cbn [spawn_flags with_spawn_flags] in H.
      eqbs. destruct H as [H1 H2].
      rewrite H1, H2, !quiet_bit, !prompt_bit, !Z.land_spec.
      change (Z.testbit (Z.lnot SPAWN_QUIET) 0) with false.
      change (Z.testbit (Z.lnot SPAWN_QUIET) 1) with true.
      rewrite ?andb_false_r, ?andb_true_r. split; reflexivity. }
    repeat match type of H with
           | (if ?c then _ else _) = _ => destruct c
           end;
      try discriminate; apply IH in H; exact H.
Qed.

Lemma rev_snoc2 {A} (l : list A) a b : rev (l ++ [a; b]) = b :: a :: rev l.
Proof. now rewrite rev_app_distr. Qed.

Lemma rev_snoc1 {A} (l : list A) a : rev (l ++ [a]) = a :: rev l.
Proof. now rewrite rev_app_distr. Qed.

(** X17. The stripping of the trailing newline that -n asks for removes one
    LF, and with it a CR that stands right before it, from the end of the
    output, and nothing else: an output that does not end in LF is left as
    it is, and of several line ends only the last goes. *)
Theorem strip_newline_drops_one_line_end :
  forall l c,
    strip_newline (l ++ [13; 10]) = l
    /\ strip_newline (l ++ [c; 10]) = (if c =? 13 then l else l ++ [c])
    /\ strip_newline [10] = []
    /\ strip_newline (l ++ [c])
       = (if c =? 10 then strip_newline (l ++ [10]) else l ++ [c]).
Proof.
  intros l c. unfold strip_newline. rewrite !rev_snoc2, !rev_snoc1.
  split; [apply rev_involutive|]. split; [|split; [reflexivity|]].
  - destruct (Z.eqb_spec c 13) as [->|Hne]; [apply rev_involutive|].
    assert (E : rev (c :: rev l) = l ++ [c]) by (cbn; now rewrite rev_involutive).
    rewrite <- E.
    destruct c as [|p|p]; try reflexivity.
    repeat (destruct p as [p|p|]; try reflexivity). congruence.
  - destruct (Z.eqb_spec c 10) as [->|Hne]; [reflexivity|].
    destruct c as [|p|p]; try reflexivity.
    repeat (destruct p as [p|p|]; try reflexivity). congruence.
Qed.

Section Editor.

Variable Block : Type.
Variable Rest : Type.
Variable blk_size : Block -> Z.
Variable prepare_selection : EditorState Block Rest -> Z * View Block.
Variable move_bol : EditorState Block Rest -> View Block.
Variable move_bof : EditorState Block Rest -> View Block.
Variable fill_line_ref : EditorState Block Rest -> Z.
Variable blocks_size : EditorState Block Rest -> Z.
Variable block_iter_get_bytes : EditorState Block Rest -> Z -> list Z.
Variable view_do_get_word_under_cursor : EditorState Block Rest -> Z * Z.
Variable dump_messages : EditorState Block Rest -> list Z.
Variable lines_and_columns_env : EditorState Block Rest -> list string.
Variable error_msg : string -> EditorState Block Rest -> EditorState Block Rest.
Variable buffer_replace_bytes :
  Z -> list Z -> EditorState Block Rest -> EditorState Block Rest.
Variable unselect : EditorState Block Rest -> EditorState Block Rest.
Variable parse_and_activate_message :
  list Z -> EditorState Block Rest -> EditorState Block Rest.
Variable open_files_from_string :
  list Z -> EditorState Block Rest -> EditorState Block Rest.
Variable parse_and_goto_tag :
  list Z -> EditorState Block Rest -> EditorState Block Rest.
Variable exec_config : list Z -> EditorState Block Rest -> EditorState Block Rest.
Variable block_iter_skip_bytes :
  Z -> EditorState Block Rest -> EditorState Block Rest.
Variable spawn : ExecContext -> list SpawnAction -> EditorState Block Rest
                 -> Z * ExecContext * EditorState Block Rest.

Local Abbreviation cmd_exec :=
  (cmd_exec Block Rest prepare_selection move_bol move_bof fill_line_ref
            blocks_size block_iter_get_bytes dump_messages
            lines_and_columns_env error_msg buffer_replace_bytes unselect
            parse_and_activate_message open_files_from_string
            parse_and_goto_tag exec_config block_iter_skip_bytes spawn).
Local Abbreviation cmd_exec_prepare :=
  (cmd_exec_prepare Block Rest prepare_selection move_bol move_bof
                    fill_line_ref blocks_size block_iter_get_bytes
                    dump_messages lines_and_columns_env).
Local Abbreviation handle_exec :=
  (handle_exec Block Rest blk_size prepare_selection move_bol move_bof
               fill_line_ref blocks_size block_iter_get_bytes
               view_do_get_word_under_cursor dump_messages
               lines_and_columns_env error_msg buffer_replace_bytes unselect
               parse_and_activate_message open_files_from_string
               parse_and_goto_tag exec_config spawn).
Local Abbreviation handle_exec_prepare :=
  (handle_exec_prepare Block Rest blk_size prepare_selection move_bol move_bof
                       fill_line_ref blocks_size block_iter_get_bytes
                       view_do_get_word_under_cursor dump_messages
                       lines_and_columns_env).
Local Abbreviation show_spawn_error_msg :=
  (show_spawn_error_msg Block Rest error_msg).

Local Abbreviation cmd_exec_input :=
  (cmd_exec_input Block Rest prepare_selection move_bol move_bof
                  fill_line_ref blocks_size block_iter_get_bytes
                  dump_messages).

(* "These are already handled by the validity check above" *)
Lemma cmd_exec_input_ok act e ctx :
  feeds_input act = true -> exists r, cmd_exec_input act e ctx = Ok r.
Proof.
  intros H. destruct act; try discriminate H; cbn;
    repeat match goal with
           | |- context [if ?c then _ else _] => destruct c
           | |- context [let '(_, _) := ?p in _] => destruct p
           end; eauto.
Qed.

Lemma cmd_exec_prepare_ok a o e :
  exec_flags (cflags a) (args a) 0 exec_opts_init = Ok (Accepted o) ->
  exists r, cmd_exec_prepare a o e = Ok r.
Proof.
  intros Hflags.
  destruct (exec_flags_stdin (cflags a) (args a) 0%nat exec_opts_init o
                             eq_refl eq_refl Hflags) as [Hlen Hin].
  unfold Exec.cmd_exec_prepare.
  match goal with
  | |- context [cmd_exec_input ?act ?e ?ctx] =>
      destruct (cmd_exec_input_ok act e ctx) as [[e1 ctx1] Hr]
  end.
  - destruct (lflag o && ExecAction_eqb (action_at (actions o) STDIN_FILENO)
                                        EXEC_BUFFER); [|exact Hin].
    unfold action_at. change (Z.to_nat STDIN_FILENO) with 0%nat.
    destruct (actions o); [discriminate Hlen|reflexivity].
  - rewrite Hr. cbn [bind]. eauto.
Qed.

(** C9: when the spawn call of an exec command returns a nonzero status, the
    command ends with the view's cursor equal to the cursor saved on entry,
    before the input was prepared, and with no output consumer run: the
    editor is the one spawn left, after the error message, with the cursor
    put back.  This holds of cmd_exec, which gets as far as spawn whenever
    its flags are accepted, and of handle_exec. *)
Theorem spawn_failure_restores_cursor :
  (forall a e o,
      exec_flags (cflags a) (args a) 0 exec_opts_init = Ok (Accepted o) ->
      exists e1 ctx1 acts,
        cmd_exec_prepare a o e = Ok (e1, ctx1, acts)
        /\ forall err ctx2 e2,
             spawn ctx1 (spawn_actions o) e1 = (err, ctx2, e2) ->
             err <> 0 ->
             let ef := set_cursor
                         (show_spawn_error_msg (outputs1 ctx2) err e2)
                         (cursor (view e)) in
             cmd_exec a e = Ok (ef, [])
             /\ cursor (view ef) = cursor (view e))
  /\ (forall e argl acts sflags strip e1 ctx1 err ctx2 e2,
      handle_exec_prepare e argl acts sflags = Ok (e1, ctx1) ->
      spawn ctx1 (map (spawn_action_from_exec_action) (firstn 3 acts)) e1
      = (err, ctx2, e2) ->
      err <> 0 ->
      let ef := set_cursor
                  (show_spawn_error_msg (outputs1 ctx2) err e2)
                  (cursor (view e)) in
      handle_exec e argl acts sflags strip = Ok (-1, ef, [])
      /\ cursor (view ef) = cursor (view e)).
Proof.
  split.
  - intros a e o Hflags.
    destruct (cmd_exec_prepare_ok a o e Hflags) as [[[e1 ctx1] acts] Hprep].
    exists e1, ctx1, acts. split; [exact Hprep|].
    intros err ctx2 e2 Hspawn Herr ef. split; [|reflexivity].
    unfold Exec.cmd_exec. rewrite Hflags. cbn [bind].
    rewrite Hprep. cbn [bind]. rewrite Hspawn.
    unfold cmd_exec_finish.
    destruct (Z.eqb_spec err 0); [contradiction|]. reflexivity.
  - intros e argl acts sflags strip e1 ctx1 err ctx2 e2 Hprep Hspawn Herr ef.
    split; [|reflexivity].
    unfold Exec.handle_exec. rewrite Hprep. cbn [bind]. rewrite Hspawn.
    unfold handle_exec_finish.
    destruct (Z.eqb_spec err 0); [contradiction|]. reflexivity.
Qed.

Local Abbreviation route_output :=
  (route_output Block Rest prepare_selection buffer_replace_bytes unselect
                parse_and_activate_message open_files_from_string
                parse_and_goto_tag exec_config).

Lemma route_output_ok act ctx output e :
  routes_output act = true -> exists r, route_output act ctx output e = Ok r.
Proof.
  intros H. destruct act; try discriminate H; cbn;
    repeat match goal with
           | |- context [if ?c then _ else _] => destruct c
           | |- context [let '(_, _) := ?p in _] => destruct p
           end; eauto.
Qed.

Lemma cmd_exec_prepare_stdout a o e e1 ctx1 acts :
  length (actions o) = 3%nat ->
  cmd_exec_prepare a o e = Ok (e1, ctx1, acts) ->
  action_at acts STDOUT_FILENO = action_at (actions o) STDOUT_FILENO.
Proof.
  intros Hlen H. unfold Exec.cmd_exec_prepare in H.
  match type of H with
  | (r <- ?m ;; _) = _ => destruct m as [[e2 ctx2]|err]; [|discriminate H]
  end.
  cbn in H. injection H as _ _ <-.
  destruct (lflag o && _); [|reflexivity].
  unfold action_at. change (Z.to_nat STDOUT_FILENO) with 1%nat.
  destruct (actions o) as [|a0 [|a1 l]]; try discriminate Hlen. reflexivity.
Qed.

(** X14. cmd_exec either runs to its end, or stops in its flag loop on a flag
    letter outside its option string or on a flag without its argument:
    the BUG("unhandled action") branches of its input and output switches
    cannot be reached, whatever spawn returns. *)
Theorem cmd_exec_never_meets_an_unhandled_action :
  forall a e,
    (exists r, cmd_exec a e = Ok r)
    \/ cmd_exec a e = Err OutOfBounds
    \/ cmd_exec a e = Err (BugOn "unexpected flag").
Proof.
  intros a e. unfold Exec.cmd_exec.
  destruct (exec_flags (cflags a) (args a) 0 exec_opts_init)
    as [[c flag_arg|o]|err] eqn:Ef; cbn [bind].
  - left. eauto.
  - left.
    destruct (cmd_exec_prepare_ok a o e Ef) as [[[e1 ctx1] acts] Hp].
    destruct (exec_flags_stdin (cflags a) (args a) 0%nat exec_opts_init o
                               eq_refl eq_refl Ef) as [Hlen _].
    pose proof (cmd_exec_prepare_stdout a o e e1 ctx1 acts Hlen Hp) as Hout.
    assert (Hv : valid_opts o = true)
      by (eapply exec_flags_valid; [|exact Ef]; reflexivity).
    rewrite Hp. cbn [bind].
    unfold Exec.cmd_exec_finish.
    destruct (spawn ctx1 (spawn_actions o) e1) as [[err ctx2] e2].
    destruct (negb (err =? 0)); [eauto|].
    match goal with
    | |- context [Exec.route_output _ _ _ _ _ _ _ _ _ ?act ?ctx ?out ?ed] =>
        destruct (route_output_ok act ctx out ed) as [[e3 routed] Hr]
    end.
    + rewrite Hout. apply role_ok_stdout.
      unfold valid_opts in Hv. apply andb_prop in Hv. destruct Hv as [_ Hv].
      cbn [forallb] in Hv. rewrite !andb_true_iff in Hv.
      destruct Hv as (_ & Hv & _). unfold fd_valid in Hv.
      rewrite !andb_true_iff in Hv. destruct Hv as ((_ & Hv) & _). exact Hv.
    + rewrite Hr. cbn [bind]. eauto.
  - destruct (exec_flags_errors _ _ _ _ _ Ef) as [->| ->]; auto.
Qed.

Local Abbreviation handle_exec_input :=
  (handle_exec_input Block Rest blk_size prepare_selection move_bol move_bof
                     fill_line_ref blocks_size block_iter_get_bytes
                     view_do_get_word_under_cursor dump_messages).

Lemma handle_exec_input_fed act e ctx :
  feeds_input act = true ->
  handle_exec_input act e ctx = cmd_exec_input act e ctx.
Proof. intros H. destruct act; try discriminate H; reflexivity. Qed.

(** X18. Given actions that pass the validity check of cmd_exec, handle_exec
    reaches spawn and returns: -1, with no consumer run, when spawn returns
    a nonzero status, and otherwise the number of bytes of the output it
    handed on, counted after the trailing newline was stripped.  Neither
    BUG("unhandled action") can be reached. *)
Theorem handle_exec_returns_the_output_length :
  forall e argl acts sflags strip,
    (forall i, In i [0%nat; 1%nat; 2%nat] ->
       In (nth i acts EXEC_TTY) exec_map_rows
       /\ role_ok (nth i acts EXEC_TTY) i = true) ->
    exists e1 ctx1,
      handle_exec_prepare e argl acts sflags = Ok (e1, ctx1)
      /\ let '(err, ctx2, _) :=
           spawn ctx1 (map spawn_action_from_exec_action (firstn 3 acts)) e1 in
         let output :=
           if strip && ExecAction_eqb (action_at acts STDOUT_FILENO) EXEC_BUFFER
           then strip_newline (outputs0 ctx2) else outputs0 ctx2 in
         exists ef routed,
           handle_exec e argl acts sflags strip
           = Ok ((if err =? 0 then Z.of_nat (length output) else -1), ef, routed)
           /\ (if err =? 0 then True else routed = []).
Proof.
  intros e argl acts sflags strip Hv.
  destruct (Hv 0%nat) as [Hin0 Hr0]; [cbn; auto|].
  destruct (Hv 1%nat) as [Hin1 Hr1]; [cbn; auto|].
  pose proof (role_ok_stdin _ Hin0 Hr0) as Hfeed.
  pose proof (role_ok_stdout _ Hr1) as Hroute.
  unfold Exec.handle_exec, Exec.handle_exec_prepare.
  change (action_at acts STDIN_FILENO) with (nth 0 acts EXEC_TTY).
  rewrite handle_exec_input_fed by exact Hfeed.
  match goal with
  | |- context [cmd_exec_input ?act ?ed ?ctx] =>
      destruct (cmd_exec_input_ok act ed ctx Hfeed) as [[e1 ctx1] Hp]
  end.
  rewrite Hp. cbn [bind]. exists e1, ctx1. split; [reflexivity|].
  unfold Exec.handle_exec_finish.
  destruct (spawn ctx1 (map spawn_action_from_exec_action (firstn 3 acts)) e1)
    as [[err ctx2] e2].
  destruct (err =? 0); cbn [negb].
  - match goal with
    | |- context [Exec.route_output _ _ _ _ _ _ _ _ _ ?act ?ctx ?out ?ed] =>
        destruct (route_output_ok act ctx out ed Hroute) as [[e3 routed] Hr]
    end.
    rewrite Hr. cbn [bind]. eauto.
  - eauto.
Qed.

End Editor.

Lemma spawn_failure_restores_cursor_witness :
  (exists ef,
      ExecDemo.cmd_exec ExecDemo.exec_line ExecDemo.start = Ok (ef, [])
      /\ cursor (view ef) = ExecDemo.at_offset 7)
  /\ ExecDemo.handle_exec ExecDemo.start ["false"%string]
                          [EXEC_LINE; EXEC_TTY; EXEC_TTY] 0 false
     = Ok (-1, {| view := {| cursor := ExecDemo.at_offset 7; selection := 0 |};
                  rest := ["Child returned"%string] |}, []).
Proof.
  pose proof (spawn_failure_restores_cursor
                unit ExecDemo.Rest ExecDemo.blk_size
                ExecDemo.prepare_selection ExecDemo.move_bol
                ExecDemo.move_bol ExecDemo.fill_line_ref
                ExecDemo.blocks_size ExecDemo.block_iter_get_bytes
                ExecDemo.word_under_cursor ExecDemo.dump_messages
                ExecDemo.lines_and_columns_env ExecDemo.error_msg
                ExecDemo.replace_bytes ExecDemo.keep ExecDemo.consume
                ExecDemo.consume ExecDemo.consume ExecDemo.consume
                ExecDemo.skip_bytes ExecDemo.spawn_fails) as [Hcmd Hhandle].
  split.
  - destruct (Hcmd ExecDemo.exec_line ExecDemo.start _ eq_refl)
      as (e1 & ctx1 & acts & _ & Hfail).
    destruct (Hfail 2 ctx1 e1 eq_refl ltac:(discriminate)) as [Hrun Hcur].
    eexists. split; [exact Hrun|exact Hcur].
  - refine (proj1 (Hhandle ExecDemo.start ["false"%string]
                           [EXEC_LINE; EXEC_TTY; EXEC_TTY] 0 false
                           _ _ 2 _ _ eq_refl eq_refl _)).
    discriminate.
Defined.


Lemma exec_flags_accepts_valid_roles_witness :
  exists o,
    exec_flags ["i"%char; "o"%char] ["line"%string; "buffer"%string; "sort"%string]
               0 exec_opts_init = Ok (Accepted o)
    /\ nth 0 (actions o) EXEC_TTY = EXEC_LINE
    /\ role_ok (nth 0 (actions o) EXEC_TTY) 0 = true
    /\ nth 0 (spawn_actions o) SPAWN_TTY = SPAWN_PIPE.
Proof.
  destruct (exec_flags ["i"%char; "o"%char]
                       ["line"%string; "buffer"%string; "sort"%string]
                       0 exec_opts_init) as [[c arg|o]|e] eqn:E;
    [vm_compute in E; discriminate E| |vm_compute in E; discriminate E].
  exists o. split; [reflexivity|].
  destruct (exec_flags_accepts_valid_roles _ _ _ E 0%nat) as (_ & Hr & Hs);
    [cbn; auto|].
  vm_compute in E. injection E as <-.
  split; [reflexivity|]. split; [exact Hr|exact Hs].
Defined.

Lemma exec_flags_rejects_only_bad_redirects_witness :
  exec_flags ["i"%char; "s"%char; "o"%char]
             ["buffer"%string; "line"%string; "make"%string]
             0 exec_opts_init = Ok (Rejected "o" "line")
  /\ exists pre post fd_idx,
       ["i"%char; "s"%char; "o"%char] = pre ++ "o"%char :: post
       /\ redirect_fd "o" = Some fd_idx
       /\ nth_error ["buffer"%string; "line"%string; "make"%string]
                    (0 + flag_args_taken pre) = Some "line"%string
       /\ arg_ok fd_idx "line" = false.
Proof.
  split; [reflexivity|].
  destruct (exec_flags_rejects_only_bad_redirects
              ["i"%char; "s"%char; "o"%char]
              ["buffer"%string; "line"%string; "make"%string]
              0%nat exec_opts_init "o"%char "line"%string eq_refl)
    as (pre & post & fd_idx & H1 & H2 & H3 & H4 & _).
  exists pre, post, fd_idx. repeat split; assumption.
Defined.

Lemma exec_flags_last_of_s_and_t_wins_witness :
  exists o,
    exec_flags ["s"%char; "p"%char; "t"%char] ["make"%string] 0 exec_opts_init
    = Ok (Accepted o)
    /\ has_flag (spawn_flags o) SPAWN_QUIET = false
    /\ has_flag (spawn_flags o) SPAWN_PROMPT = true.
Proof.
  destruct (exec_flags ["s"%char; "p"%char; "t"%char] ["make"%string]
                       0 exec_opts_init) as [[c arg|o]|e] eqn:E;
    [vm_compute in E; discriminate E| |vm_compute in E; discriminate E].
  exists o. split; [reflexivity|].
  exact (exec_flags_last_of_s_and_t_wins _ _ _ _ _ E).
Defined.

Lemma handle_exec_returns_the_output_length_witness :
  (forall i, In i [0%nat; 1%nat; 2%nat] ->
     In (nth i [EXEC_LINE; EXEC_BUFFER; EXEC_TTY] EXEC_TTY) exec_map_rows
     /\ role_ok (nth i [EXEC_LINE; EXEC_BUFFER; EXEC_TTY] EXEC_TTY) i = true)
  /\ exists ef,
       ExecDemo.handle_exec ExecDemo.start ["false"%string]
                            [EXEC_LINE; EXEC_BUFFER; EXEC_TTY] 0 true
       = Ok (-1, ef, []).
Proof.
  assert (Hv : forall i, In i [0%nat; 1%nat; 2%nat] ->
     In (nth i [EXEC_LINE; EXEC_BUFFER; EXEC_TTY] EXEC_TTY) exec_map_rows
     /\ role_ok (nth i [EXEC_LINE; EXEC_BUFFER; EXEC_TTY] EXEC_TTY) i = true).
  { intros i [<-|[<-|[<-|[]]]]; split; cbn; auto 12. }
  split; [exact Hv|].
  destruct (handle_exec_returns_the_output_length
              unit ExecDemo.Rest ExecDemo.blk_size
              ExecDemo.prepare_selection ExecDemo.move_bol
              ExecDemo.move_bol ExecDemo.fill_line_ref
              ExecDemo.blocks_size ExecDemo.block_iter_get_bytes
              ExecDemo.word_under_cursor ExecDemo.dump_messages
              ExecDemo.lines_and_columns_env ExecDemo.error_msg
              ExecDemo.replace_bytes ExecDemo.keep ExecDemo.consume
              ExecDemo.consume ExecDemo.consume ExecDemo.consume
              ExecDemo.spawn_fails
              ExecDemo.start ["false"%string]
              [EXEC_LINE; EXEC_BUFFER; EXEC_TTY] 0 true Hv)
    as (e1 & ctx1 & _ & Hrun).
  cbn in Hrun. destruct Hrun as (ef & routed & Hrun & ->).
  exists ef. exact Hrun.
Defined.

End ExecFacts.
